(** * VoiceNotes: persistence gateway, transcript assembler, autosave and
      recording session, embedded from [app.js] and its hybrid sibling.

    The repository ships two variants of the application script.  [App]
    embeds [src/app.js] (mobile/desktop capture modes); [Hybrid] embeds the
    second script (single continuous mode, mock summaries).  Both run on the
    same browser services, which are modelled first: UTF-16 strings ([JS]),
    the IndexedDB object store ([IDB]), the JSON codec ([JSON]) and the
    timer queue of the event loop ([Timers]). *)

From Stdlib Require Import ZArith NArith List Bool Lia String Ascii.
From Stdlib Require Import Sorted.
From Stdlib Require DecimalFacts DecimalN.
Import ListNotations.

Set Implicit Arguments.
Set Warnings "-register-all".

(* ------------------------------------------------------------------ *)
(** ** JavaScript strings

    A JavaScript string is a sequence of 16-bit code units; [length],
    [substring], [trim] and [endsWith] all work on code units. *)

Module JS.

Abbreviation code_unit := N.
Abbreviation jsstring := (list N).

(** String literals of the source, as code units. *)
Definition js (s : string) : jsstring :=
  map N_of_ascii (list_ascii_of_string s).

(** ECMAScript [WhiteSpace] and [LineTerminator] code points, the set
    that [String.prototype.trim] strips. *)
Definition isWhiteSpace (c : code_unit) : bool :=
  ((9 <=? c) && (c <=? 13) || (c =? 32) || (c =? 160) || (c =? 5760)
   || (8192 <=? c) && (c <=? 8202) || (c =? 8232) || (c =? 8233)
   || (c =? 8239) || (c =? 8287) || (c =? 12288) || (c =? 65279))%N.

Fixpoint trimStart (s : jsstring) : jsstring :=
  match s with
  | c :: s' => if isWhiteSpace c then trimStart s' else s
  | [] => []
  end.

Definition trimEnd (s : jsstring) : jsstring := rev (trimStart (rev s)).

Definition trim (s : jsstring) : jsstring := trimEnd (trimStart s).

(** [s.substring(a, b)]: both bounds are clamped to the length and swapped
    when out of order; [b] omitted means the length. *)
Definition substring (s : jsstring) (a : nat) (b : option nat) : jsstring :=
  let len := List.length s in
  let fs := Nat.min a len in
  let fe := match b with Some b => Nat.min b len | None => len end in
  firstn (Nat.max fs fe - Nat.min fs fe) (skipn (Nat.min fs fe) s).

Fixpoint startsWith (s p : jsstring) {struct p} : bool :=
  match p, s with
  | [], _ => true
  | c :: p', d :: s' => (c =? d)%N && startsWith s' p'
  | _ :: _, [] => false
  end.

Definition endsWith (s p : jsstring) : bool := startsWith (rev s) (rev p).

(** Truthiness of a string and of a number. *)
Definition truthy_string (s : jsstring) : bool :=
  match s with [] => false | _ :: _ => true end.

Definition truthy_nat (n : nat) : bool :=
  match n with O => false | S _ => true end.

(** [a || b] on numbers. *)
Definition or_nat (a b : nat) : nat := if truthy_nat a then a else b.

(** [a || b] on strings. *)
Definition or_string (a b : jsstring) : jsstring :=
  if truthy_string a then a else b.

Fixpoint eqb_string (a b : jsstring) : bool :=
  match a, b with
  | [], [] => true
  | c :: a', d :: b' => (c =? d)%N && eqb_string a' b'
  | _, _ => false
  end.

Definition space : code_unit := 32%N.
Definition newline : code_unit := 10%N.

(** Result of a promise or of a request. *)
Inductive outcome (E A : Type) : Type :=
| Resolved (a : A)
| Rejected (e : E).
Arguments Resolved {E A} a.
Arguments Rejected {E A} e.

(** [!!x] for a value that is [null] or an object. *)
Definition is_some {A : Type} (o : option A) : bool :=
  match o with Some _ => true | None => false end.

End JS.

Import JS.

(* ------------------------------------------------------------------ *)
(** ** The IndexedDB object store

    The store is created with [keyPath: 'id'] and [autoIncrement: true]:
    keys are in-line, records are kept in ascending key order, and a key
    generator supplies the key of a value that carries none.  The two
    indexes created by [initDB] are never read and are left out.

    A request that writes a record can also fail for a reason that lies
    with the storage underneath and not with the request: the quota is
    used up, the transaction is aborted, the connection is closed.  The
    store carries that condition as [fault]; the script has no way to
    change it. *)

Module IDB.

Local Open Scope Z_scope.

(** In-line keys: how the key is read from and written into a value. *)
Class InlineKey (V : Type) := {
  extract_key : V -> option Z;
  inject_key : Z -> V -> V
}.

(** What [request.error] can be.  [ConstraintError] comes from the store
    itself, the others from the storage underneath. *)
Inductive error :=
| ConstraintError
| QuotaExceededError
| AbortError
| InvalidStateError
| UnknownError.

Section ObjectStore.
Context {V : Type} `{InlineKey V}.

Record store := mkStore {
  records : list (Z * V);      (* ascending key order *)
  current_number : Z;          (* key generator *)
  fault : option error         (* [Some e] while writes fail with [e] *)
}.

Definition empty : store := mkStore [] 1 None.

(** The storage starts or stops failing. *)
Definition with_fault (f : option error) (s : store) : store :=
  mkStore (records s) (current_number s) f.

(** The generator stops at 2^53. *)
Definition max_generator : Z := 2 ^ 53.

Fixpoint store_record (k : Z) (v : V) (l : list (Z * V)) : list (Z * V) :=
  match l with
  | [] => [(k, v)]
  | (k', v') :: l' =>
      if k <? k' then (k, v) :: l
      else if k =? k' then (k, v) :: l'
      else (k', v') :: store_record k v l'
  end.

Definition delete_record (k : Z) (l : list (Z * V)) : list (Z * V) :=
  filter (fun kv => negb (fst kv =? k)) l.

Fixpoint lookup (k : Z) (l : list (Z * V)) : option V :=
  match l with
  | [] => None
  | (k', v) :: l' => if k =? k' then Some v else lookup k l'
  end.

Definition has_key (k : Z) (l : list (Z * V)) : bool :=
  match lookup k l with Some _ => true | None => false end.

(** An explicit key at or above the generator's number moves the
    generator past it. *)
Definition possibly_update (k g : Z) : Z :=
  let value := Z.min k max_generator in
  if g <=? value then value + 1 else g.

(** [add] ([no_overwrite = true]) and [put] ([no_overwrite = false]). *)
Definition store_request (no_overwrite : bool) (v : V) (s : store)
  : outcome error Z * store :=
  let keyed :=
    match extract_key v with
    | Some k => Some (k, v, possibly_update k (current_number s))
    | None =>
        if max_generator <? current_number s then None
        else Some (current_number s,
                   inject_key (current_number s) v,
                   current_number s + 1)
    end in
  match fault s with
  | Some e => (Rejected e, s)
  | None =>
      match keyed with
      | None => (Rejected ConstraintError, s)
      | Some (k, v', g) =>
          if no_overwrite && has_key k (records s)
          then (Rejected ConstraintError, s)
          else (Resolved k, mkStore (store_record k v' (records s)) g None)
      end
  end.

(** The value a request stores under the key it reports. *)
Definition stored_value (k : Z) (v : V) : V :=
  match extract_key v with
  | Some _ => v
  | None => inject_key k v
  end.

Definition add := store_request true.
Definition put := store_request false.

Definition get (k : Z) (s : store) : option V := lookup k (records s).

Definition getAll (s : store) : list V := map snd (records s).

Definition delete (k : Z) (s : store) : outcome error unit * store :=
  (Resolved tt, mkStore (delete_record k (records s)) (current_number s) (fault s)).

Definition keys (s : store) : list Z := map fst (records s).

(** Records are held in strictly ascending key order. *)
Definition ascending (l : list (Z * V)) : Prop :=
  StronglySorted Z.lt (map fst l).

(** What every reachable store satisfies: ascending keys, each value
    carrying its own key, and a generator above every key unless it has
    been pushed past its limit. *)
Record wf (s : store) : Prop := {
  wf_ascending : ascending (records s);
  wf_inline : Forall (fun kv => extract_key (snd kv) = Some (fst kv)) (records s);
  wf_generator :
    Forall (fun k => k < current_number s) (keys s)
    \/ max_generator < current_number s
}.

End ObjectStore.

Arguments store V : clear implicits.

End IDB.

(* ------------------------------------------------------------------ *)
(** ** DOM services used by both scripts *)

Module Dom.

(** Serialising a text node ([div.textContent = s; div.innerHTML]) escapes
    the ampersand, the two angle brackets and the no-break space, and
    nothing else. *)
Definition escape_unit (c : code_unit) : jsstring :=
  if (c =? 38)%N then js "&amp;"
  else if (c =? 60)%N then js "&lt;"
  else if (c =? 62)%N then js "&gt;"
  else if (c =? 160)%N then js "&nbsp;"
  else [c].

Definition text_innerHTML (s : jsstring) : jsstring := flat_map escape_unit s.


(** A [textarea]: its value and the start of its selection. *)
Record textarea := mkTextarea {
  value : jsstring;
  selectionStart : nat
}.

(** [setSelectionRange(p, p)] clamps the position to the value's length. *)
Definition setSelectionRange (p : nat) (t : textarea) : textarea :=
  mkTextarea (value t) (Nat.min p (List.length (value t))).

(** Assigning a different [value] moves the selection to the end of the
    new text; assigning the same one changes nothing. *)
Definition set_value (v : jsstring) (t : textarea) : textarea :=
  if eqb_string v (value t) then t else mkTextarea v (List.length v).

End Dom.

(* ------------------------------------------------------------------ *)
(** ** Timers of the event loop

    [setTimeout] hands out positive handles in creation order and records
    when the callback falls due; [clearTimeout] drops a pending timer and
    ignores a handle that is no longer pending. *)

Module Timers.

Local Open Scope Z_scope.

Section Queue.
Context {C : Type}.

Record timer := mkTimer {
  handle : nat;
  due : Z;
  callback : C
}.

Record queue := mkQueue {
  pending : list timer;      (* creation order *)
  next_handle : nat
}.

Definition empty : queue := mkQueue [] 1.

Definition setTimeout (c : C) (delay now : Z) (q : queue) : nat * queue :=
  (next_handle q,
   mkQueue (pending q ++ [mkTimer (next_handle q) (now + delay) c])
           (S (next_handle q))).

Definition clearTimeout (h : nat) (q : queue) : queue :=
  mkQueue (filter (fun t => negb (handle t =? h)%nat) (pending q))
          (next_handle q).

Fixpoint find (h : nat) (l : list timer) : option timer :=
  match l with
  | [] => None
  | t :: l' => if (handle t =? h)%nat then Some t else find h l'
  end.

(** Due order: earlier deadline first, creation order among equals. *)
Fixpoint insert_by_due (t : timer) (l : list timer) : list timer :=
  match l with
  | [] => [t]
  | u :: l' => if due t <? due u then t :: l else u :: insert_by_due t l'
  end.

Definition by_due (l : list timer) : list timer :=
  fold_left (fun acc t => insert_by_due t acc) l [].

(** Handles of the timers that have fallen due at [now], in due order. *)
Definition due_handles (now : Z) (q : queue) : list nat :=
  map handle (by_due (filter (fun t => due t <=? now) (pending q))).

(** What the scripts rely on when they keep the handle of one timer in a
    variable: handles are handed out in increasing order, and the variable
    [st] names the pending timers picked out by [saving] and no other. *)
Record queue_ok (saving : timer -> bool) (q : queue) (st : option nat) : Prop := {
  handles_bounded :
    Forall (fun u => (handle u < next_handle q)%nat) (pending q);
  save_bounded :
    forall h, st = Some h -> (h < next_handle q)%nat;
  save_handle :
    forall u, In u (pending q) -> (saving u = true <-> st = Some (handle u))
}.

End Queue.

Arguments timer C : clear implicits.
Arguments queue C : clear implicits.

End Timers.

(* ------------------------------------------------------------------ *)
(** ** The speech recognition engine

    Only what the scripts can observe of [SpeechRecognition]: [start]
    throws [InvalidStateError] on a recogniser that is already started,
    [stop] never throws, and the engine clears its started flag when it
    delivers [end].  Every call is recorded, whether it throws or not. *)

Module Engine.

Inductive call := CallStart | CallStop.

Inductive exception := InvalidStateError | OtherError.

Inductive error_code :=
| ErrNetwork | ErrNoSpeech | ErrNotAllowed | ErrAborted | ErrAudioCapture
| ErrServiceNotAllowed | ErrLanguageNotSupported | ErrOther.

Record t := mkEngine {
  started : bool;
  calls : list call          (* oldest first *)
}.

Definition idle : t := mkEngine false [].

Definition start (e : t) : outcome exception unit * t :=
  if started e then (Rejected InvalidStateError, mkEngine true (calls e ++ [CallStart]))
  else (Resolved tt, mkEngine true (calls e ++ [CallStart])).

Definition stop (e : t) : t := mkEngine (started e) (calls e ++ [CallStop]).

(** The engine ends its session. *)
Definition ended (e : t) : t := mkEngine false (calls e).

Definition starts (e : t) : nat :=
  List.length (filter (fun c => match c with CallStart => true | CallStop => false end)
                      (calls e)).

(** One slot of a result event: its top hypothesis and its final flag. *)
Record slot := mkSlot {
  transcript : jsstring;
  isFinal : bool
}.

Record result_event := mkEvent {
  resultIndex : nat;
  results : list slot
}.

(** An event with one final slot. *)
Definition heard (t : string) : result_event :=
  mkEvent 0 [mkSlot (js t) true].

End Engine.
(* ------------------------------------------------------------------ *)
(** ** JSON

    [JSON.stringify(v, null, 2)] and [JSON.parse] on the values notes are
    made of.  Numbers are the integers ([Date.now()] and generated keys);
    an object is the list of its members in property order. *)

Module JSON.

Local Open Scope N_scope.

Inductive value :=
| Null
| Bool (b : bool)
| Num (z : Z)
| Str (s : jsstring)
| Arr (items : list value)
| Obj (members : list (jsstring * value)).

(** *** [stringify] *)

Definition quotation : code_unit := 34.
Definition backslash : code_unit := 92.

Definition hex_digit (d : N) : code_unit :=
  if d <? 10 then 48 + d else 87 + d.

(** [\uXXXX], four lower-case hexadecimal digits. *)
Definition unicode_escape (c : code_unit) : jsstring :=
  [backslash; 117; hex_digit (c / 4096 mod 16); hex_digit (c / 256 mod 16);
   hex_digit (c / 16 mod 16); hex_digit (c mod 16)].

Definition is_leading (c : code_unit) : bool := (55296 <=? c) && (c <=? 56319).
Definition is_trailing (c : code_unit) : bool := (56320 <=? c) && (c <=? 57343).

(** One code unit that is not half of a surrogate pair. *)
Definition quote_unit (c : code_unit) : jsstring :=
  if c =? 8 then [backslash; 98]
  else if c =? 9 then [backslash; 116]
  else if c =? 10 then [backslash; 110]
  else if c =? 12 then [backslash; 102]
  else if c =? 13 then [backslash; 114]
  else if c =? 34 then [backslash; 34]
  else if c =? 92 then [backslash; 92]
  else if (c <? 32) || is_leading c || is_trailing c then unicode_escape c
  else [c].

Fixpoint quote_units (s : jsstring) : jsstring :=
  match s with
  | [] => []
  | c :: s' =>
      match s' with
      | d :: s'' =>
          if is_leading c && is_trailing d then c :: d :: quote_units s''
          else quote_unit c ++ quote_units s'
      | [] => quote_unit c
      end
  end.

(** [QuoteJSONString] *)
Definition quote (s : jsstring) : jsstring :=
  quotation :: quote_units s ++ [quotation].

Fixpoint digits (u : Decimal.uint) : jsstring :=
  match u with
  | Decimal.Nil => []
  | Decimal.D0 u => 48 :: digits u
  | Decimal.D1 u => 49 :: digits u
  | Decimal.D2 u => 50 :: digits u
  | Decimal.D3 u => 51 :: digits u
  | Decimal.D4 u => 52 :: digits u
  | Decimal.D5 u => 53 :: digits u
  | Decimal.D6 u => 54 :: digits u
  | Decimal.D7 u => 55 :: digits u
  | Decimal.D8 u => 56 :: digits u
  | Decimal.D9 u => 57 :: digits u
  end.

(** [Number::toString] of an integer. *)
Definition number_to_string (z : Z) : jsstring :=
  (if (z <? 0)%Z then [45] else []) ++ digits (N.to_uint (Z.abs_N z)).

Definition indentation (n : nat) : jsstring := repeat space n.

Fixpoint join (sep : jsstring) (parts : list jsstring) : jsstring :=
  match parts with
  | [] => []
  | p :: ps =>
      match ps with
      | [] => p
      | _ :: _ => p ++ sep ++ join sep ps
      end
  end.

(** The separator between the parts of an array or object at [inner]. *)
Definition separator (inner : nat) : jsstring :=
  [44; newline] ++ indentation inner.

(** One member of an object, its value written by [ser]. *)
Definition member_text (ser : value -> jsstring) (kv : jsstring * value) : jsstring :=
  match kv with
  | (k, x) => quote k ++ [58; space] ++ ser x
  end.

(** [SerializeJSONProperty] with a gap of two spaces, at indentation
    [indent]. *)
Fixpoint serialize (indent : nat) (v : value) : jsstring :=
  match v with
  | Null => js "null"
  | Bool true => js "true"
  | Bool false => js "false"
  | Num z => number_to_string z
  | Str s => quote s
  | Arr [] => js "[]"
  | Arr items =>
      [91; newline] ++ indentation (indent + 2)
      ++ join (separator (indent + 2)) (map (serialize (indent + 2)) items)
      ++ [newline] ++ indentation indent ++ [93]
  | Obj [] => js "{}"
  | Obj members =>
      [123; newline] ++ indentation (indent + 2)
      ++ join (separator (indent + 2))
           (map (member_text (serialize (indent + 2))) members)
      ++ [newline] ++ indentation indent ++ [125]
  end.

Definition stringify (v : value) : jsstring := serialize 0 v.

(** *** [parse] *)

Definition is_ws (c : code_unit) : bool :=
  (c =? 9) || (c =? 10) || (c =? 13) || (c =? 32).

Fixpoint skip_ws (s : jsstring) : jsstring :=
  match s with
  | c :: s' => if is_ws c then skip_ws s' else s
  | [] => []
  end.

Definition hex_value (c : code_unit) : option N :=
  if (48 <=? c) && (c <=? 57) then Some (c - 48)
  else if (97 <=? c) && (c <=? 102) then Some (c - 87)
  else if (65 <=? c) && (c <=? 70) then Some (c - 55)
  else None.

(** The character a single-letter escape stands for. *)
Definition unescape (e : code_unit) : option code_unit :=
  if e =? 34 then Some 34
  else if e =? 92 then Some 92
  else if e =? 47 then Some 47
  else if e =? 98 then Some 8
  else if e =? 102 then Some 12
  else if e =? 110 then Some 10
  else if e =? 114 then Some 13
  else if e =? 116 then Some 9
  else None.

Definition prepend (c : code_unit) (r : option (jsstring * jsstring))
  : option (jsstring * jsstring) :=
  match r with
  | Some (s, rest) => Some (c :: s, rest)
  | None => None
  end.

(** The characters of a string, from after its opening quotation mark to
    its closing one. *)
Fixpoint parse_chars (s : jsstring) : option (jsstring * jsstring) :=
  match s with
  | [] => None
  | c :: r =>
      if c =? quotation then Some ([], r)
      else if c =? backslash then
        match r with
        | [] => None
        | e :: r1 =>
            if e =? 117 then
              match r1 with
              | h1 :: h2 :: h3 :: h4 :: r2 =>
                  match hex_value h1, hex_value h2, hex_value h3, hex_value h4 with
                  | Some a, Some b, Some c', Some d =>
                      prepend (a * 4096 + b * 256 + c' * 16 + d) (parse_chars r2)
                  | _, _, _, _ => None
                  end
              | _ => None
              end
            else
              match unescape e with
              | Some u => prepend u (parse_chars r1)
              | None => None
              end
        end
      else if c <? 32 then None
      else prepend c (parse_chars r)
  end.

Definition is_digit (c : code_unit) : bool := (48 <=? c) && (c <=? 57).

Definition digit_cons (c : code_unit) (u : Decimal.uint) : Decimal.uint :=
  if c =? 48 then Decimal.D0 u
  else if c =? 49 then Decimal.D1 u
  else if c =? 50 then Decimal.D2 u
  else if c =? 51 then Decimal.D3 u
  else if c =? 52 then Decimal.D4 u
  else if c =? 53 then Decimal.D5 u
  else if c =? 54 then Decimal.D6 u
  else if c =? 55 then Decimal.D7 u
  else if c =? 56 then Decimal.D8 u
  else Decimal.D9 u.

Fixpoint parse_digits (s : jsstring) : Decimal.uint * jsstring :=
  match s with
  | c :: r =>
      if is_digit c then
        let (u, rest) := parse_digits r in (digit_cons c u, rest)
      else (Decimal.Nil, s)
  | [] => (Decimal.Nil, [])
  end.

(** What may follow an integer: not a digit, and not the start of a
    fraction or an exponent, which would make the number no integer. *)
Definition ends_number (rest : jsstring) : bool :=
  match rest with
  | [] => true
  | c :: _ => negb (is_digit c || (c =? 46) || (c =? 101) || (c =? 69))
  end.

(** An optional minus sign. *)
Definition parse_sign (s : jsstring) : bool * jsstring :=
  match s with
  | c :: r => if c =? 45 then (true, r) else (false, s)
  | [] => (false, s)
  end.

Definition parse_number (s : jsstring) : option (Z * jsstring) :=
  let (negative, s1) := parse_sign s in
  let (u, rest) := parse_digits s1 in
  let magnitude := Z.of_N (N.of_uint u) in
  let result := Some (if negative then (- magnitude)%Z else magnitude, rest) in
  if ends_number rest then
    match u with
    | Decimal.Nil => None
    | Decimal.D0 Decimal.Nil => result
    | Decimal.D0 _ => None             (* no leading zero *)
    | _ => result
    end
  else None.

(** [literal word v s]: the rest of a keyword. *)
Definition literal (word : jsstring) (v : value) (s : jsstring)
  : option (value * jsstring) :=
  if startsWith s word then Some (v, skipn (List.length word) s) else None.

Fixpoint parse_value (fuel : nat) (s : jsstring) {struct fuel}
  : option (value * jsstring) :=
  match fuel with
  | O => None
  | S fuel =>
      match s with
      | [] => None
      | c :: r =>
          if c =? 110 then literal (js "ull") Null r
          else if c =? 116 then literal (js "rue") (Bool true) r
          else if c =? 102 then literal (js "alse") (Bool false) r
          else if c =? quotation then
            match parse_chars r with
            | Some (t, rest) => Some (Str t, rest)
            | None => None
            end
          else if c =? 91 then
            match skip_ws r with
            | [] => None
            | d :: r' =>
                if d =? 93 then Some (Arr [], r')
                else match parse_elements fuel (d :: r') with
                     | Some (items, rest) => Some (Arr items, rest)
                     | None => None
                     end
            end
          else if c =? 123 then
            match skip_ws r with
            | [] => None
            | d :: r' =>
                if d =? 125 then Some (Obj [], r')
                else match parse_members fuel (d :: r') with
                     | Some (members, rest) => Some (Obj members, rest)
                     | None => None
                     end
            end
          else
            match parse_number s with
            | Some (z, rest) => Some (Num z, rest)
            | None => None
            end
      end
  end

with parse_elements (fuel : nat) (s : jsstring) {struct fuel}
  : option (list value * jsstring) :=
  match fuel with
  | O => None
  | S fuel =>
      match parse_value fuel s with
      | None => None
      | Some (v, r) =>
          match skip_ws r with
          | [] => None
          | d :: r' =>
              if d =? 44 then
                match parse_elements fuel (skip_ws r') with
                | Some (items, rest) => Some (v :: items, rest)
                | None => None
                end
              else if d =? 93 then Some ([v], r')
              else None
          end
      end
  end

with parse_members (fuel : nat) (s : jsstring) {struct fuel}
  : option (list (jsstring * value) * jsstring) :=
  match fuel with
  | O => None
  | S fuel =>
      match s with
      | [] => None
      | q :: r0 =>
          if q =? quotation then
            match parse_chars r0 with
            | None => None
            | Some (k, r1) =>
                match skip_ws r1 with
                | [] => None
                | colon :: r2 =>
                    if colon =? 58 then
                      match parse_value fuel (skip_ws r2) with
                      | None => None
                      | Some (v, r3) =>
                          match skip_ws r3 with
                          | [] => None
                          | d :: r4 =>
                              if d =? 44 then
                                match parse_members fuel (skip_ws r4) with
                                | Some (members, rest) => Some ((k, v) :: members, rest)
                                | None => None
                                end
                              else if d =? 125 then Some ([(k, v)], r4)
                              else None
                          end
                      end
                    else None
                end
            end
          else None
      end
  end.

Definition parse (s : jsstring) : option value :=
  match parse_value (S (List.length s)) (skip_ws s) with
  | Some (v, rest) =>
      match skip_ws rest with
      | [] => Some v
      | _ :: _ => None
      end
  | None => None
  end.

(** [o[key]] on a parsed object. *)
Fixpoint member (key : jsstring) (members : list (jsstring * value)) : option value :=
  match members with
  | [] => None
  | (k, v) :: rest => if eqb_string k key then Some v else member key rest
  end.

Definition field (key : jsstring) (v : value) : option value :=
  match v with
  | Obj members => member key members
  | _ => None
  end.

(** How much fuel [parse_value] needs for the text of a value. *)
Fixpoint size (v : value) : nat :=
  match v with
  | Arr items => S (fold_right (fun x n => S (size x + n)) O items)
  | Obj members => S (fold_right (fun kv n => S (size (snd kv) + n)) O members)
  | _ => 1
  end.

Definition not_digit_next (rest : jsstring) : Prop :=
  match rest with
  | [] => True
  | c :: _ => is_digit c = false
  end.

Definition closing (indent : nat) (closer : code_unit) (rest : jsstring) : jsstring :=
  newline :: indentation indent ++ closer :: rest.

Definition elements_size (items : list value) : nat :=
  fold_right (fun x n => S (size x + n)) O items.

Definition members_size (members : list (jsstring * value)) : nat :=
  fold_right (fun kv n => S (size (snd kv) + n)) O members.

End JSON.
(* ------------------------------------------------------------------ *)
(** ** [app.js]: persistence gateway *)

Module App.

Local Open Scope Z_scope.

Record Note := mkNote {
  id : option Z;              (* [null] until the first save *)
  title : jsstring;
  text : jsstring;
  language : jsstring;
  timestamp : Z;
  tags : list jsstring
}.

Definition with_id (i : option Z) (n : Note) : Note :=
  mkNote i (title n) (text n) (language n) (timestamp n) (tags n).

#[export] Instance Note_key : IDB.InlineKey Note := {
  extract_key := id;
  inject_key := fun k n => with_id (Some k) n
}.

Abbreviation DB := (IDB.store Note).

(** Truthiness of [note.id]: [null] and [0] are falsy. *)
Definition truthy_id (i : option Z) : bool :=
  match i with
  | Some k => negb (k =? 0)
  | None => false
  end.

(** The type of the fields rules out the non-string branch of the source. *)
Definition sanitizeInput (input : jsstring) : jsstring :=
  Dom.text_innerHTML input.

Definition saveNote (note : Note) (db : DB) : outcome IDB.error Z * DB :=
  let sanitizedNote :=
    mkNote None (sanitizeInput (title note)) (sanitizeInput (text note))
           (language note) (timestamp note) (tags note) in
  let sanitizedNote :=
    if truthy_id (id note) then with_id (id note) sanitizedNote
    else sanitizedNote in
  if truthy_id (id note) then IDB.put sanitizedNote db
  else IDB.add sanitizedNote db.

Definition getAllNotes (db : DB) : list Note := rev (IDB.getAll db).

Definition getNote (k : Z) (db : DB) : option Note := IDB.get k db.

Definition deleteNote (k : Z) (db : DB) : outcome IDB.error unit * DB :=
  IDB.delete k db.

(** Sequences of gateway operations, for the properties of [list()]. *)
Inductive op :=
| Save (n : Note)
| Delete (k : Z).

(** [touch k l]: [k] becomes the most recently saved id. *)
Definition touch (k : Z) (l : list Z) : list Z := k :: remove Z.eq_dec k l.

(** One operation, on the store and on the ids saved and not deleted
    since, most recently saved first. *)
Definition track (st : DB * list Z) (o : op) : DB * list Z :=
  match o with
  | Save n =>
      match saveNote n (fst st) with
      | (Resolved k, db') => (db', touch k (snd st))
      | (Rejected _, db') => (db', snd st)
      end
  | Delete k => (snd (deleteNote k (fst st)), remove Z.eq_dec k (snd st))
  end.

Definition run (ops : list op) : DB * list Z :=
  fold_left track ops (IDB.empty, []).

Definition listed_ids (db : DB) : list (option Z) := map id (getAllNotes db).

(** The two halves of the specification's sentence about [list()]. *)
Definition never_lists_deleted (ops : list op) : Prop :=
  forall k, In (Delete k) ops -> ~ In (Some k) (listed_ids (fst (run ops))).

Definition lists_last_saved_first (ops : list op) : Prop :=
  hd_error (listed_ids (fst (run ops))) = hd_error (map Some (snd (run ops))).

(** The invariant of [run]: a well-formed store whose keys are the ids
    saved and not deleted since, on a storage that does not fail. *)
Definition tracked (st : DB * list Z) : Prop :=
  IDB.wf (fst st)
  /\ (forall k, In k (IDB.keys (fst st)) <-> In k (snd st))
  /\ IDB.fault (fst st) = None.

(** A note as [createNewNote] makes it, with a body. *)
Definition draft (body : string) : Note :=
  mkNote None (js "") (js body) (js "en") 0 [].



(* ------------------------------------------------------------------ *)
(** ** [app.js]: session state

    The script's global variables, the elements it reads and writes, and
    the browser services it calls, in one state passed from handler to
    handler.  Rendering that no handler reads back is left out. *)

Definition with_text (t : jsstring) (n : Note) : Note :=
  mkNote (id n) (title n) t (language n) (timestamp n) (tags n).

Definition with_language (l : jsstring) (n : Note) : Note :=
  mkNote (id n) (title n) (text n) l (timestamp n) (tags n).

(** Callbacks handed to [setTimeout]. *)
Inductive callback :=
| CbAutoSave         (* [setTimeout(autoSave, 1000)] *)
| CbSafeStart        (* [setTimeout(() => safeStartRecognition(), ...)] *)
| CbRetryStart       (* the retry after [InvalidStateError] *)
| CbHideStatus.      (* [showStatus] hides its message *)

Inductive message :=
| MsgOffline | MsgNotSupported | MsgRecording | MsgFailedToStart
| MsgStopped | MsgRecordingFailed | MsgNetworkError | MsgMicDenied
| MsgNoNotes | MsgExported (n : nat) | MsgOnline | MsgOfflineEvent | MsgReady
| MsgNoNoteToDelete | MsgNoteDeleted | MsgFailedToDelete | MsgFailedToDeleteNote.

Inductive save_status := StatusBlank | StatusSaving | StatusSaved | StatusError.

Record Recognizer := mkRecognizer {
  continuous : bool;
  interimResults : bool;
  lang : jsstring
}.

Record Elements := mkElements {
  noteTitleInput : jsstring;
  noteTextArea : Dom.textarea;
  noteStatus : save_status;
  statusMessage : option (message * bool);
  statusActive : bool;
  liveTranscriptionText : jsstring
}.

(** The browser: clock, connectivity, timers, the speech engine, and a
    journal of the notes handed to [saveNote]. *)
Record Env := mkEnv {
  now : Z;
  onLine : bool;
  speechSupported : bool;
  timers : Timers.queue callback;
  engine : Engine.t;
  saved : list Note
}.

Record State := mkState {
  db : DB;
  currentNote : option Note;
  isRecording : bool;
  recognition : option Recognizer;
  lastFinalizedLength : nat;
  isRecognitionStarting : bool;
  currentLanguage : jsstring;
  saveTimeout : option nat;
  isMobileDevice : bool;
  elements : Elements;
  env : Env
}.

Definition set_noteTitleInput (v : jsstring) (r : Elements) : Elements :=
  mkElements v (noteTextArea r) (noteStatus r) (statusMessage r) (statusActive r) (liveTranscriptionText r).

Definition set_noteTextArea (v : Dom.textarea) (r : Elements) : Elements :=
  mkElements (noteTitleInput r) v (noteStatus r) (statusMessage r) (statusActive r) (liveTranscriptionText r).

Definition set_noteStatus (v : save_status) (r : Elements) : Elements :=
  mkElements (noteTitleInput r) (noteTextArea r) v (statusMessage r) (statusActive r) (liveTranscriptionText r).

Definition set_statusMessage (v : option (message * bool)) (r : Elements) : Elements :=
  mkElements (noteTitleInput r) (noteTextArea r) (noteStatus r) v (statusActive r) (liveTranscriptionText r).

Definition set_statusActive (v : bool) (r : Elements) : Elements :=
  mkElements (noteTitleInput r) (noteTextArea r) (noteStatus r) (statusMessage r) v (liveTranscriptionText r).

Definition set_liveTranscriptionText (v : jsstring) (r : Elements) : Elements :=
  mkElements (noteTitleInput r) (noteTextArea r) (noteStatus r) (statusMessage r) (statusActive r) v.

Definition set_now (v : Z) (r : Env) : Env :=
  mkEnv v (onLine r) (speechSupported r) (timers r) (engine r) (saved r).

Definition set_onLine (v : bool) (r : Env) : Env :=
  mkEnv (now r) v (speechSupported r) (timers r) (engine r) (saved r).

Definition set_speechSupported (v : bool) (r : Env) : Env :=
  mkEnv (now r) (onLine r) v (timers r) (engine r) (saved r).

Definition set_timers (v : Timers.queue callback) (r : Env) : Env :=
  mkEnv (now r) (onLine r) (speechSupported r) v (engine r) (saved r).

Definition set_engine (v : Engine.t) (r : Env) : Env :=
  mkEnv (now r) (onLine r) (speechSupported r) (timers r) v (saved r).

Definition set_saved (v : list Note) (r : Env) : Env :=
  mkEnv (now r) (onLine r) (speechSupported r) (timers r) (engine r) v.

Definition set_db (v : DB) (r : State) : State :=
  mkState v (currentNote r) (isRecording r) (recognition r) (lastFinalizedLength r) (isRecognitionStarting r) (currentLanguage r) (saveTimeout r) (isMobileDevice r) (elements r) (env r).

Definition set_currentNote (v : option Note) (r : State) : State :=
  mkState (db r) v (isRecording r) (recognition r) (lastFinalizedLength r) (isRecognitionStarting r) (currentLanguage r) (saveTimeout r) (isMobileDevice r) (elements r) (env r).

Definition set_isRecording (v : bool) (r : State) : State :=
  mkState (db r) (currentNote r) v (recognition r) (lastFinalizedLength r) (isRecognitionStarting r) (currentLanguage r) (saveTimeout r) (isMobileDevice r) (elements r) (env r).

Definition set_recognition (v : option Recognizer) (r : State) : State :=
  mkState (db r) (currentNote r) (isRecording r) v (lastFinalizedLength r) (isRecognitionStarting r) (currentLanguage r) (saveTimeout r) (isMobileDevice r) (elements r) (env r).

Definition set_lastFinalizedLength (v : nat) (r : State) : State :=
  mkState (db r) (currentNote r) (isRecording r) (recognition r) v (isRecognitionStarting r) (currentLanguage r) (saveTimeout r) (isMobileDevice r) (elements r) (env r).

Definition set_isRecognitionStarting (v : bool) (r : State) : State :=
  mkState (db r) (currentNote r) (isRecording r) (recognition r) (lastFinalizedLength r) v (currentLanguage r) (saveTimeout r) (isMobileDevice r) (elements r) (env r).

Definition set_currentLanguage (v : jsstring) (r : State) : State :=
  mkState (db r) (currentNote r) (isRecording r) (recognition r) (lastFinalizedLength r) (isRecognitionStarting r) v (saveTimeout r) (isMobileDevice r) (elements r) (env r).

Definition set_saveTimeout (v : option nat) (r : State) : State :=
  mkState (db r) (currentNote r) (isRecording r) (recognition r) (lastFinalizedLength r) (isRecognitionStarting r) (currentLanguage r) v (isMobileDevice r) (elements r) (env r).

Definition set_isMobileDevice (v : bool) (r : State) : State :=
  mkState (db r) (currentNote r) (isRecording r) (recognition r) (lastFinalizedLength r) (isRecognitionStarting r) (currentLanguage r) (saveTimeout r) v (elements r) (env r).

Definition set_elements (v : Elements) (r : State) : State :=
  mkState (db r) (currentNote r) (isRecording r) (recognition r) (lastFinalizedLength r) (isRecognitionStarting r) (currentLanguage r) (saveTimeout r) (isMobileDevice r) v (env r).

Definition set_env (v : Env) (r : State) : State :=
  mkState (db r) (currentNote r) (isRecording r) (recognition r) (lastFinalizedLength r) (isRecognitionStarting r) (currentLanguage r) (saveTimeout r) (isMobileDevice r) (elements r) v.

(** Updates inside [elements] and inside the browser. *)
Definition on_elements (f : Elements -> Elements) (s : State) : State :=
  set_elements (f (elements s)) s.

Definition on_env (f : Env -> Env) (s : State) : State :=
  set_env (f (env s)) s.

(** [setTimeout(c, delay)] at the current time. *)
Definition setTimeout (c : callback) (delay : Z) (s : State) : nat * State :=
  let (h, q) := Timers.setTimeout c delay (now (env s)) (timers (env s)) in
  (h, on_env (set_timers q) s).

Definition clearTimeout (h : nat) (s : State) : State :=
  on_env (set_timers (Timers.clearTimeout h (timers (env s)))) s.

Definition showStatus (m : message) (isError : bool) (s : State) : State :=
  let s := on_elements (set_statusMessage (Some (m, isError))) s in
  let s := on_elements (set_statusActive true) s in
  snd (setTimeout CbHideStatus 3000 s).

Definition checkInternetConnection (s : State) : bool := onLine (env s).

Definition languageMap : list (jsstring * jsstring) :=
  [ (js "en", js "en-US"); (js "hi", js "hi-IN"); (js "bn", js "bn-IN");
    (js "ta", js "ta-IN"); (js "te", js "te-IN"); (js "ml", js "ml-IN");
    (js "kn", js "kn-IN"); (js "mr", js "mr-IN"); (js "gu", js "gu-IN");
    (js "pa", js "pa-IN"); (js "ur", js "ur-PK") ].

(** [languageMap[currentLanguage] || 'en-US'] *)
Definition recognition_lang (code : jsstring) : jsstring :=
  match find (fun kv => eqb_string (fst kv) code) languageMap with
  | Some kv => snd kv
  | None => js "en-US"
  end.

(** *** Note management *)

Definition updateEditor (s : State) : State :=
  match currentNote s with
  | None => s
  | Some n =>
      let s := on_elements (set_noteTitleInput (or_string (title n) (js ""))) s in
      on_elements (set_noteTextArea
                     (Dom.set_value (or_string (text n) (js ""))
                                    (noteTextArea (elements s)))) s
  end.

Definition createNewNote (s : State) : State :=
  let s := set_currentNote
             (Some (mkNote None (js "") (js "") (currentLanguage s)
                           (now (env s)) [])) s in
  updateEditor s.

(** [autoSave]: the write and what follows its [await] are taken as one
    step.  [loadNotes] only renders the list. *)
Definition autoSave (s : State) : State :=
  match currentNote s with
  | None => s
  | Some n =>
      let n := mkNote (id n)
                 (or_string (noteTitleInput (elements s)) (js "Untitled Note"))
                 (Dom.value (noteTextArea (elements s)))
                 (language n) (now (env s)) (tags n) in
      let s := set_currentNote (Some n) s in
      let s := on_env (set_saved (saved (env s) ++ [n])) s in
      match saveNote n (db s) with
      | (Resolved k, db') =>
          let s := set_db db' s in
          let s := if truthy_id (id n) then s
                   else set_currentNote (Some (with_id (Some k) n)) s in
          on_elements (set_noteStatus StatusSaved) s
      | (Rejected _, _) =>
          on_elements (set_noteStatus StatusError) s
      end
  end.

Definition scheduleAutoSave (s : State) : State :=
  let s := on_elements (set_noteStatus StatusSaving) s in
  let s := match saveTimeout s with
           | Some h => clearTimeout h s
           | None => s
           end in
  let (h, s) := setTimeout CbAutoSave 1000 s in
  set_saveTimeout (Some h) s.

(** *** Opening and deleting notes *)

(** What [initialize] and the delete handlers do with the list: the first
    listed note is opened, or a fresh one when there is none. *)
Definition openFirst (s : State) : State :=
  match getAllNotes (db s) with
  | [] => createNewNote s
  | n :: _ => updateEditor (set_currentNote (Some n) s)
  end.

Definition showDeleteConfirmation (s : State) : State :=
  match currentNote s with
  | None => showStatus MsgNoNoteToDelete true s
  | Some n =>
      if truthy_id (id n) then s
      else showStatus MsgNoNoteToDelete true s
  end.

Definition confirmDelete (s : State) : State :=
  match currentNote s with
  | None => s
  | Some n =>
      match id n with
      | None => s
      | Some k =>
          if negb (truthy_id (id n)) then s
          else
            match deleteNote k (db s) with
            | (Resolved _, db') =>
                let s := set_db db' s in
                let s := showStatus MsgNoteDeleted false s in
                openFirst s
            | (Rejected _, _) => showStatus MsgFailedToDeleteNote true s
            end
      end
  end.

(** The delete button of the list entry of note [k]; [confirmed] is the
    answer to [confirm].  With no such note the handler stops at
    [note.title]. *)
Definition onListDelete (k : Z) (confirmed : bool) (s : State) : State :=
  match getNote k (db s) with
  | None => s
  | Some _ =>
      if confirmed then
        match deleteNote k (db s) with
        | (Resolved _, db') =>
            let s := set_db db' s in
            let s := showStatus MsgNoteDeleted false s in
            match currentNote s with
            | None => s
            | Some n =>
                match id n with
                | Some k' => if k' =? k then openFirst s else s
                | None => s
                end
            end
        | (Rejected _, _) => showStatus MsgFailedToDelete true s
        end
      else s
  end.

(** The list entry of note [k] itself. *)
Definition onListSelect (k : Z) (s : State) : State :=
  updateEditor (set_currentNote (getNote k (db s)) s).

(** *** Speech recognition *)

Definition initSpeechRecognition (s : State) : State :=
  if negb (speechSupported (env s)) then s
  else
    let r := if isMobileDevice s
             then mkRecognizer false false (recognition_lang (currentLanguage s))
             else mkRecognizer true true (recognition_lang (currentLanguage s)) in
    set_recognition (Some r) s.

Definition stopRecording (s : State) : State :=
  if negb (isRecording s) then s
  else
    let s := set_isRecording false s in
    let s := set_isRecognitionStarting false s in
    let s := match recognition s with
             | Some _ => on_env (set_engine (Engine.stop (engine (env s)))) s
             | None => s
             end in
    let s := set_lastFinalizedLength 0%nat s in
    showStatus MsgStopped false s.

Definition safeStartRecognition (s : State) : State :=
  if isRecognitionStarting s || negb (isRecording s) then s
  else
    match recognition s with
    | None => s
    | Some _ =>
        let s := set_isRecognitionStarting true s in
        let (r, e) := Engine.start (engine (env s)) in
        let s := on_env (set_engine e) s in
        match r with
        | Resolved _ => s
        | Rejected err =>
            let s := set_isRecognitionStarting false s in
            match err with
            | Engine.InvalidStateError => snd (setTimeout CbRetryStart 1000 s)
            | Engine.OtherError =>
                let s := stopRecording s in
                showStatus MsgRecordingFailed true s
            end
        end
    end.

(** The block both result handlers run to put [transcript] into the note. *)
Definition insertTranscript (transcript : jsstring) (s : State) : State :=
  match currentNote s with
  | None => s
  | Some n =>
      let area := noteTextArea (elements s) in
      let cursorPos := or_nat (Dom.selectionStart area)
                              (List.length (Dom.value area)) in
      let textBefore := substring (Dom.value area) 0 (Some cursorPos) in
      let textAfter := substring (Dom.value area) cursorPos None in
      let needsSpace := (0 <? List.length textBefore)%nat
                        && negb (endsWith textBefore (js " "))
                        && negb (endsWith textBefore [newline]) in
      let spacer := if needsSpace then js " " else js "" in
      let n := with_text (textBefore ++ spacer ++ transcript ++ js " " ++ textAfter) n in
      let s := set_currentNote (Some n) s in
      let area := Dom.set_value (text n) area in
      let newCursorPos := (cursorPos + List.length spacer
                           + List.length transcript + 1)%nat in
      let area := Dom.setSelectionRange newCursorPos area in
      let s := on_elements (set_noteTextArea area) s in
      scheduleAutoSave s
  end.

(** The later of the two definitions the script gives, the one in force. *)
Definition handleMobileResults (event : Engine.result_event) (s : State) : State :=
  fold_left
    (fun s r =>
       if Engine.isFinal r then
         let transcript := trim (Engine.transcript r) in
         if truthy_string transcript && is_some (currentNote s)
         then insertTranscript transcript s
         else s
       else s)
    (Engine.results event) s.

(** The two buffers the desktop handler builds from an event. *)
Definition finalText (event : Engine.result_event) : jsstring :=
  fold_left
    (fun acc r => if Engine.isFinal r then acc ++ Engine.transcript r ++ js " " else acc)
    (Engine.results event) [].

Definition interimText (event : Engine.result_event) : jsstring :=
  fold_left
    (fun acc r => if Engine.isFinal r then acc else acc ++ Engine.transcript r)
    (Engine.results event) [].

Definition handleDesktopResults (event : Engine.result_event) (s : State) : State :=
  let s :=
    if (lastFinalizedLength s <? List.length (finalText event))%nat then
      let newText := trim (substring (finalText event) (lastFinalizedLength s) None) in
      let s := if truthy_string newText && is_some (currentNote s)
               then insertTranscript newText s
               else s in
      set_lastFinalizedLength (List.length (finalText event)) s
    else s in
  if truthy_string (interimText event)
  then on_elements (set_liveTranscriptionText (interimText event)) s
  else s.

Definition startRecording (s : State) : State :=
  let s := match currentNote s with None => createNewNote s | Some _ => s end in
  if isRecording s || isRecognitionStarting s then s
  else if negb (checkInternetConnection s) then showStatus MsgOffline true s
  else
    let s := match recognition s with
             | None => initSpeechRecognition s
             | Some _ => s
             end in
    match recognition s with
    | None => showStatus MsgNotSupported true s
    | Some r =>
        let s := set_recognition
                   (Some (mkRecognizer (continuous r) (interimResults r)
                                       (recognition_lang (currentLanguage s)))) s in
        let s := set_lastFinalizedLength 0%nat s in
        let s := set_isRecording true s in
        let s := safeStartRecognition s in
        showStatus MsgRecording false s
    end.

(** *** Handlers of the recogniser *)

Definition onstart (s : State) : State :=
  let s := set_isRecognitionStarting false s in
  set_lastFinalizedLength 0%nat s.

Definition onresult (event : Engine.result_event) (s : State) : State :=
  if isMobileDevice s then handleMobileResults event s
  else handleDesktopResults event s.

Definition onerror (code : Engine.error_code) (s : State) : State :=
  let s := set_isRecognitionStarting false s in
  match code with
  | Engine.ErrNetwork =>
      let s := stopRecording s in showStatus MsgNetworkError true s
  | Engine.ErrNoSpeech =>
      if isMobileDevice s then
        if isRecording s then snd (setTimeout CbSafeStart 500 s) else s
      else s
  | Engine.ErrAborted =>
      if isMobileDevice s && isRecording s
      then snd (setTimeout CbSafeStart 300 s) else s
  | Engine.ErrNotAllowed =>
      let s := stopRecording s in showStatus MsgMicDenied true s
  | _ => s
  end.

Definition onend (s : State) : State :=
  let s := set_isRecognitionStarting false s in
  let s := set_lastFinalizedLength 0%nat s in
  if isRecording s then snd (setTimeout CbSafeStart 100 s) else s.

(** *** Export *)

(** A stored note as [JSON.stringify] sees it: the properties in the order
    [saveNote] and the store created them. *)
Definition note_json (n : Note) : JSON.value :=
  JSON.Obj
    ([ (js "title", JSON.Str (title n));
       (js "text", JSON.Str (text n));
       (js "language", JSON.Str (language n));
       (js "timestamp", JSON.Num (timestamp n));
       (js "tags", JSON.Arr (map JSON.Str (tags n))) ]
     ++ match id n with
        | Some k => [ (js "id", JSON.Num k) ]
        | None => []
        end).

(** The document offered for download, if there is one. *)
Definition exportNotes (s : State) : option jsstring * State :=
  let notes := getAllNotes (db s) in
  match notes with
  | [] => (None, showStatus MsgNoNotes true s)
  | _ :: _ =>
      (Some (JSON.stringify (JSON.Arr (map note_json notes))),
       showStatus (MsgExported (List.length notes)) false s)
  end.

(** A parsed object gives back the five fields of a note. *)
Definition reproduces (n : Note) (j : JSON.value) : Prop :=
  JSON.field (js "title") j = Some (JSON.Str (title n))
  /\ JSON.field (js "text") j = Some (JSON.Str (text n))
  /\ JSON.field (js "language") j = Some (JSON.Str (language n))
  /\ JSON.field (js "timestamp") j = Some (JSON.Num (timestamp n))
  /\ JSON.field (js "tags") j = Some (JSON.Arr (map JSON.Str (tags n))).

(** *** What an insertion does to the text

    [cursor s] is the offset the handlers split at; [spliced t s s'] says
    that [s'] holds the text of [s] with [t] put in there: one space before
    [t] exactly when the text before the cursor is not empty and ends in
    neither a space nor a newline, one space after [t] always, and the
    selection right after that space. *)

Definition cursor (s : State) : nat :=
  or_nat (Dom.selectionStart (noteTextArea (elements s)))
         (List.length (Dom.value (noteTextArea (elements s)))).

Definition spliced (t : jsstring) (s s' : State) : Prop :=
  let v := Dom.value (noteTextArea (elements s)) in
  let before := firstn (cursor s) v in
  let after := skipn (cursor s) v in
  exists spacer,
    (spacer = [space] /\ before <> []
       /\ last before 0%N <> space /\ last before 0%N <> newline
     \/ spacer = []
       /\ (before = [] \/ last before 0%N = space \/ last before 0%N = newline))
    /\ Dom.value (noteTextArea (elements s'))
       = before ++ spacer ++ t ++ [space] ++ after
    /\ Dom.selectionStart (noteTextArea (elements s'))
       = List.length (before ++ spacer ++ t ++ [space])
    /\ option_map text (currentNote s')
       = Some (Dom.value (noteTextArea (elements s'))).

(** The texts a mobile event puts in, in slot order. *)
Definition deltas (event : Engine.result_event) : list jsstring :=
  filter truthy_string
    (map (fun r => trim (Engine.transcript r))
         (filter Engine.isFinal (Engine.results event))).

(** One splice after another. *)
Inductive splices : list jsstring -> State -> State -> Prop :=
| splices_nil s : splices [] s s
| splices_cons t ts s s' s'' :
    spliced t s s' -> splices ts s' s'' -> splices (t :: ts) s s''.

(** *** The event loop *)

Definition run_callback (c : callback) (s : State) : State :=
  match c with
  | CbAutoSave => autoSave s
  | CbSafeStart => safeStartRecognition s
  | CbRetryStart =>
      let s := set_isRecognitionStarting false s in
      if isRecording s then safeStartRecognition s else s
  | CbHideStatus => on_elements (set_statusActive false) s
  end.

(** A pending timer fires: it leaves the queue and its callback runs. *)
Definition fire (h : nat) (s : State) : State :=
  match Timers.find h (Timers.pending (timers (env s))) with
  | None => s
  | Some t => run_callback (Timers.callback t) (clearTimeout h s)
  end.

(** The loop gets control at time [t]: the callbacks that fell due
    meanwhile run in due order, unless an earlier one cleared them. *)
Definition advance (t : Z) (s : State) : State :=
  let s := on_env (set_now (Z.max t (now (env s)))) s in
  fold_left (fun s h => fire h s)
            (Timers.due_handles (now (env s)) (timers (env s))) s.

(** What the user, the network and the engine can do to the page.  The
    search box, the theme switch and the help and menu buttons only render
    and have no event here. *)
Inductive event :=
| TitleInput (v : jsstring)
| TextInput (v : jsstring) (caret : nat)
| NewNoteClick
| RecordClick
| LanguageChange (code : jsstring)
| KeySave
| KeyEscape
| WentOnline
| WentOffline
| EngineStarted
| EngineResult (e : Engine.result_event)
| EngineError (c : Engine.error_code)
| EngineEnded
| DeleteClick
| ConfirmDeleteClick
| ListDeleteClick (k : Z) (confirmed : bool)
| ListSelectClick (k : Z)
| ExportClick.

Definition dispatch (e : event) (s : State) : State :=
  match e with
  | TitleInput v => scheduleAutoSave (on_elements (set_noteTitleInput v) s)
  | TextInput v caret =>
      scheduleAutoSave
        (on_elements (set_noteTextArea
                        (Dom.mkTextarea v (Nat.min caret (List.length v)))) s)
  | NewNoteClick => createNewNote s
  | RecordClick =>
      let s := match currentNote s with None => createNewNote s | Some _ => s end in
      if isRecording s then stopRecording s else startRecording s
  | LanguageChange code =>
      let s := set_currentLanguage code s in
      match currentNote s with
      | Some n => scheduleAutoSave (set_currentNote (Some (with_language code n)) s)
      | None => s
      end
  | KeySave => autoSave s
  | KeyEscape => if isRecording s then stopRecording s else s
  | WentOnline => showStatus MsgOnline false (on_env (set_onLine true) s)
  | WentOffline =>
      let s := showStatus MsgOfflineEvent true (on_env (set_onLine false) s) in
      if isRecording s then stopRecording s else s
  | EngineStarted => onstart s
  | EngineResult ev => onresult ev s
  | EngineError c => onerror c s
  | EngineEnded => onend (on_env (set_engine (Engine.ended (engine (env s)))) s)
  | DeleteClick => showDeleteConfirmation s
  | ConfirmDeleteClick => confirmDelete s
  | ListDeleteClick k confirmed => onListDelete k confirmed s
  | ListSelectClick k => onListSelect k s
  | ExportClick => snd (exportNotes s)
  end.

(** Events with the times at which the loop handles them. *)
Definition run_timed (evs : list (Z * event)) (s : State) : State :=
  fold_left (fun s te => dispatch (snd te) (advance (fst te) s)) evs s.

(** *** What the debounce property speaks about *)

Definition is_autosave (u : Timers.timer callback) : bool :=
  match Timers.callback u with CbAutoSave => true | _ => false end.

(** The pending timers that will run [autoSave]. *)
Definition autosave_pending (s : State) : list (Timers.timer callback) :=
  filter is_autosave (Timers.pending (timers (env s))).

(** [saveTimeout] names the pending autosave timers and no other timer. *)
Definition timers_ok (s : State) : Prop :=
  Timers.queue_ok is_autosave (timers (env s)) (saveTimeout s).

(** Everything [autoSave] reads or writes, and the timers that run it. *)
Definition view (s : State) :=
  (noteTitleInput (elements s), noteTextArea (elements s), currentNote s,
   db s, saved (env s), saveTimeout s, autosave_pending s).

(** Edits of the title and of the body, the mutations that are debounced. *)
Definition is_mutation (e : event) : bool :=
  match e with
  | TitleInput _ | TextInput _ _ => true
  | _ => false
  end.

(** A result event that puts text into the note: what the handler in
    force tests before it calls [insertTranscript]. *)
Definition inserts (ev : Engine.result_event) (s : State) : bool :=
  is_some (currentNote s)
  && (if isMobileDevice s
      then match deltas ev with [] => false | _ :: _ => true end
      else (lastFinalizedLength s <? List.length (finalText ev))%nat
           && truthy_string
                (trim (substring (finalText ev) (lastFinalizedLength s) None))).

(** The mutations of title and text that are debounced: an edit by hand,
    or a result event that puts text into the open note. *)
Definition mutates (e : event) (s : State) : bool :=
  match e with
  | TitleInput _ | TextInput _ _ => true
  | EngineResult ev => inserts ev s
  | _ => false
  end.

(** What [autoSave] takes from the open note as it is. *)
Definition meta (n : Note) :=
  (id n, language n, tags n).

(** Each event comes less than a second after the one before. *)
Fixpoint within_debounce (t : Z) (evs : list (Z * event)) : Prop :=
  match evs with
  | [] => True
  | (t', _) :: evs' => t <= t' < t + 1000 /\ within_debounce t' evs'
  end.

(** The title and the body a burst of edits leaves in the editor. *)
Definition edit (tb : jsstring * jsstring) (e : event) : jsstring * jsstring :=
  match e with
  | TitleInput v => (v, snd tb)
  | TextInput v _ => (fst tb, v)
  | _ => tb
  end.

Definition edited (evs : list (Z * event)) (tb : jsstring * jsstring)
  : jsstring * jsstring :=
  fold_left (fun tb te => edit tb (snd te)) evs tb.

(** The note [autoSave] hands to [saveNote] at time [t] when the editor
    holds [tb] and the open note is [n]. *)
Definition snapshot (n : Note) (tb : jsstring * jsstring) (t : Z) : Note :=
  mkNote (id n) (or_string (fst tb) (js "Untitled Note")) (snd tb)
         (language n) t (tags n).

(** *** Handlers that leave autosave alone

    [calm s s']: going from [s] to [s'] changes nothing [autoSave] reads or
    writes, keeps the clock, and keeps the queue in order. *)

Definition calm (s s' : State) : Prop :=
  view s' = view s
  /\ now (env s') = now (env s)
  /\ (timers_ok s -> timers_ok s').

Definition fires (hs : list nat) (s : State) : State :=
  fold_left (fun s h => fire h s) hs s.

Definition autosave_handles (s : State) : list nat :=
  map (@Timers.handle callback) (autosave_pending s).

(** The title and the body in the editor. *)
Definition editor (s : State) : jsstring * jsstring :=
  (noteTitleInput (elements s), Dom.value (noteTextArea (elements s))).

(** A burst: every event is a mutation at the time the loop handles it. *)
Fixpoint burst_of (evs : list (Z * event)) (s : State) : Prop :=
  match evs with
  | [] => True
  | (t, e) :: evs' =>
      mutates e (advance t s) = true
      /\ burst_of evs' (dispatch e (advance t s))
  end.

(** *** The open note and its record

    [anchored s s']: the step leaves the store alone and the open note
    under the id it had. *)
Definition anchored (s s' : State) : Prop :=
  db s' = db s
  /\ option_map id (currentNote s') = option_map id (currentNote s).

(** The events that do not open another note and do not delete one. *)
Definition keeps_open (e : event) : bool :=
  match e with
  | NewNoteClick | ConfirmDeleteClick | ListDeleteClick _ _
  | ListSelectClick _ => false
  | _ => true
  end.

(** The open note has id [k], and the store, in order and on a storage
    that does not fail, lists the ids [l]. *)
Definition holds_note (k : Z) (l : list (option Z)) (s : State) : Prop :=
  IDB.wf (db s) /\ IDB.fault (db s) = None
  /\ listed_ids (db s) = l
  /\ option_map id (currentNote s) = Some (Some k).

(** [initialize] on the database [db] at time [t0]. *)
Definition initialize (db : DB) (t0 : Z) (mobile online supported : bool) : State :=
  let s := mkState db None false None 0%nat false (js "en") None mobile
             (mkElements (js "") (Dom.mkTextarea (js "") 0) StatusBlank None false (js ""))
             (mkEnv t0 online supported Timers.empty Engine.idle []) in
  showStatus MsgReady false (openFirst s).

(** The page once [initialize] has run on an empty database. *)
Definition initial (mobile online supported : bool) : State :=
  initialize IDB.empty 0 mobile online supported.

(** The states the page can be in: what [initialize] leaves, and from
    there any event, any turn of the loop, and the storage underneath
    starting or ceasing to fail. *)
Inductive reachable : State -> Prop :=
| reach_initialize db t0 mobile online supported :
    reachable (initialize db t0 mobile online supported)
| reach_event e s : reachable s -> reachable (dispatch e s)
| reach_time t s : reachable s -> reachable (advance t s)
| reach_storage f s : reachable s -> reachable (set_db (IDB.with_fault f (db s)) s).

(** The two flags of the recording state machine. *)
Definition flags (s : State) : bool * bool :=
  (isRecording s, isRecognitionStarting s).

(** What every handler relies on and every handler keeps: [saveTimeout]
    names the pending autosave timers and no other, and the starting flag
    is only up while recording. *)
Definition invariant (s : State) : Prop :=
  timers_ok s /\ (isRecognitionStarting s = true -> isRecording s = true).

(** The page with [body] typed into the fresh note and the caret at
    [caret]. *)
Definition editing (mobile : bool) (body : jsstring) (caret : nat) : State :=
  dispatch (TextInput body caret) (initial mobile true true).

(** *** The recording machine

    What the recording handlers read and write; every other handler leaves
    it alone. *)
Definition recording_view (s : State) :=
  (isRecording s, isRecognitionStarting s, recognition s, isMobileDevice s,
   onLine (env s), speechSupported (env s), engine (env s)).

(** While the page records there is a recogniser to stop. *)
Definition has_recognizer (s : State) : Prop :=
  isRecording s = true -> is_some (recognition s) = true.

(** Off line and not recording. *)
Definition silent (s : State) : Prop :=
  onLine (env s) = false /\ isRecording s = false.

(** The timers that hide the status line. *)
Definition callback_is_hide (u : Timers.timer callback) : bool :=
  match Timers.callback u with CbHideStatus => true | _ => false end.

(** What is on the page for the user: the status line. *)
Definition status_view (s : State) :=
  (statusMessage (elements s), statusActive (elements s)).

End App.

(* ------------------------------------------------------------------ *)
(** ** The hybrid script: persistence gateway and session

    The second script keeps a [summary] with each note, has a single
    capture mode, and restarts the engine from a closure of its own.
    Rendering that no handler reads back (the list, the summary section,
    the loading overlay) is left out. *)

Module Hybrid.

Local Open Scope Z_scope.

Record Note := mkNote {
  id : option Z;
  title : jsstring;
  text : jsstring;
  summary : option jsstring;     (* [null] or a string *)
  language : jsstring;
  timestamp : Z;
  tags : list jsstring
}.

Definition with_id (i : option Z) (n : Note) : Note :=
  mkNote i (title n) (text n) (summary n) (language n) (timestamp n) (tags n).

Definition with_text (t : jsstring) (n : Note) : Note :=
  mkNote (id n) (title n) t (summary n) (language n) (timestamp n) (tags n).

Definition with_language (l : jsstring) (n : Note) : Note :=
  mkNote (id n) (title n) (text n) (summary n) l (timestamp n) (tags n).

Definition with_summary (m : option jsstring) (n : Note) : Note :=
  mkNote (id n) (title n) (text n) m (language n) (timestamp n) (tags n).

#[export] Instance Note_key : IDB.InlineKey Note := {
  extract_key := id;
  inject_key := fun k n => with_id (Some k) n
}.

Abbreviation DB := (IDB.store Note).

Definition truthy_id (i : option Z) : bool :=
  match i with
  | Some k => negb (k =? 0)
  | None => false
  end.

Definition sanitizeInput (input : jsstring) : jsstring :=
  Dom.text_innerHTML input.

(** [note.summary ? sanitizeInput(note.summary) : null] *)
Definition sanitized_summary (o : option jsstring) : option jsstring :=
  match o with
  | Some t => if truthy_string t then Some (sanitizeInput t) else None
  | None => None
  end.

Definition saveNote (note : Note) (db : DB) : outcome IDB.error Z * DB :=
  let sanitizedNote :=
    mkNote None (sanitizeInput (title note)) (sanitizeInput (text note))
           (sanitized_summary (summary note))
           (language note) (timestamp note) (tags note) in
  let sanitizedNote :=
    if truthy_id (id note) then with_id (id note) sanitizedNote
    else sanitizedNote in
  if truthy_id (id note) then IDB.put sanitizedNote db
  else IDB.add sanitizedNote db.

Definition getAllNotes (db : DB) : list Note := rev (IDB.getAll db).

Definition getNote (k : Z) (db : DB) : option Note := IDB.get k db.

Definition deleteNote (k : Z) (db : DB) : outcome IDB.error unit * DB :=
  IDB.delete k db.

Inductive callback :=
| CbAutoSave         (* [setTimeout(autoSave, 1000)] *)
| CbRestart          (* the closure [onend] schedules *)
| CbOfflineTip       (* the tip that follows a network error *)
| CbHideStatus
| CbSummary.         (* what [summarizeNote] does after its three seconds *)

Inductive message :=
| MsgNotSupported | MsgOffline | MsgInitFailed | MsgRecording
| MsgStartFailed | MsgTranscriptionSaved | MsgRecordingStopped
| MsgRestartFailed | MsgEngineError (c : Engine.error_code)
| MsgOfflineTip | MsgSaveFailed | MsgOnline | MsgOfflineEvent
| MsgNoNotes | MsgExported (n : nat) | MsgExportFailed
| MsgLanguage (code : jsstring) | MsgReady | MsgReadyOffline
| MsgNewNoteCreated | MsgNoTextToSummarize | MsgSummaryGenerated
| MsgTheme (dark : bool).

Inductive save_status := StatusBlank | StatusSaving | StatusSaved | StatusError.

Record Recognizer := mkRecognizer {
  continuous : bool;
  interimResults : bool;
  lang : jsstring
}.

Record Elements := mkElements {
  noteTitleInput : jsstring;
  noteTextArea : Dom.textarea;
  noteStatus : save_status;
  statusMessage : option (message * bool);
  statusActive : bool;
  liveTranscriptionText : jsstring * jsstring
}.

Record Env := mkEnv {
  now : Z;
  onLine : bool;
  speechSupported : bool;
  timers : Timers.queue callback;
  engine : Engine.t;
  saved : list Note
}.

Record State := mkState {
  db : DB;
  currentNote : option Note;
  isRecording : bool;
  recognition : option Recognizer;
  interimTranscript : jsstring;
  finalTranscript : jsstring;
  currentLanguage : jsstring;
  saveTimeout : option nat;
  networkStatus : bool;
  elements : Elements;
  env : Env
}.

Definition set_noteTitleInput (v : jsstring) (r : Elements) : Elements :=
  mkElements v (noteTextArea r) (noteStatus r) (statusMessage r) (statusActive r) (liveTranscriptionText r).

Definition set_noteTextArea (v : Dom.textarea) (r : Elements) : Elements :=
  mkElements (noteTitleInput r) v (noteStatus r) (statusMessage r) (statusActive r) (liveTranscriptionText r).

Definition set_noteStatus (v : save_status) (r : Elements) : Elements :=
  mkElements (noteTitleInput r) (noteTextArea r) v (statusMessage r) (statusActive r) (liveTranscriptionText r).

Definition set_statusMessage (v : option (message * bool)) (r : Elements) : Elements :=
  mkElements (noteTitleInput r) (noteTextArea r) (noteStatus r) v (statusActive r) (liveTranscriptionText r).

Definition set_statusActive (v : bool) (r : Elements) : Elements :=
  mkElements (noteTitleInput r) (noteTextArea r) (noteStatus r) (statusMessage r) v (liveTranscriptionText r).

Definition set_liveTranscriptionText (v : jsstring * jsstring) (r : Elements) : Elements :=
  mkElements (noteTitleInput r) (noteTextArea r) (noteStatus r) (statusMessage r) (statusActive r) v.

Definition set_now (v : Z) (r : Env) : Env :=
  mkEnv v (onLine r) (speechSupported r) (timers r) (engine r) (saved r).

Definition set_onLine (v : bool) (r : Env) : Env :=
  mkEnv (now r) v (speechSupported r) (timers r) (engine r) (saved r).

Definition set_speechSupported (v : bool) (r : Env) : Env :=
  mkEnv (now r) (onLine r) v (timers r) (engine r) (saved r).

Definition set_timers (v : Timers.queue callback) (r : Env) : Env :=
  mkEnv (now r) (onLine r) (speechSupported r) v (engine r) (saved r).

Definition set_engine (v : Engine.t) (r : Env) : Env :=
  mkEnv (now r) (onLine r) (speechSupported r) (timers r) v (saved r).

Definition set_saved (v : list Note) (r : Env) : Env :=
  mkEnv (now r) (onLine r) (speechSupported r) (timers r) (engine r) v.

Definition set_db (v : DB) (r : State) : State :=
  mkState v (currentNote r) (isRecording r) (recognition r) (interimTranscript r) (finalTranscript r) (currentLanguage r) (saveTimeout r) (networkStatus r) (elements r) (env r).

Definition set_currentNote (v : option Note) (r : State) : State :=
  mkState (db r) v (isRecording r) (recognition r) (interimTranscript r) (finalTranscript r) (currentLanguage r) (saveTimeout r) (networkStatus r) (elements r) (env r).

Definition set_isRecording (v : bool) (r : State) : State :=
  mkState (db r) (currentNote r) v (recognition r) (interimTranscript r) (finalTranscript r) (currentLanguage r) (saveTimeout r) (networkStatus r) (elements r) (env r).

Definition set_recognition (v : option Recognizer) (r : State) : State :=
  mkState (db r) (currentNote r) (isRecording r) v (interimTranscript r) (finalTranscript r) (currentLanguage r) (saveTimeout r) (networkStatus r) (elements r) (env r).

Definition set_interimTranscript (v : jsstring) (r : State) : State :=
  mkState (db r) (currentNote r) (isRecording r) (recognition r) v (finalTranscript r) (currentLanguage r) (saveTimeout r) (networkStatus r) (elements r) (env r).

Definition set_finalTranscript (v : jsstring) (r : State) : State :=
  mkState (db r) (currentNote r) (isRecording r) (recognition r) (interimTranscript r) v (currentLanguage r) (saveTimeout r) (networkStatus r) (elements r) (env r).

Definition set_currentLanguage (v : jsstring) (r : State) : State :=
  mkState (db r) (currentNote r) (isRecording r) (recognition r) (interimTranscript r) (finalTranscript r) v (saveTimeout r) (networkStatus r) (elements r) (env r).

Definition set_saveTimeout (v : option nat) (r : State) : State :=
  mkState (db r) (currentNote r) (isRecording r) (recognition r) (interimTranscript r) (finalTranscript r) (currentLanguage r) v (networkStatus r) (elements r) (env r).

Definition set_networkStatus (v : bool) (r : State) : State :=
  mkState (db r) (currentNote r) (isRecording r) (recognition r) (interimTranscript r) (finalTranscript r) (currentLanguage r) (saveTimeout r) v (elements r) (env r).

Definition set_elements (v : Elements) (r : State) : State :=
  mkState (db r) (currentNote r) (isRecording r) (recognition r) (interimTranscript r) (finalTranscript r) (currentLanguage r) (saveTimeout r) (networkStatus r) v (env r).

Definition set_env (v : Env) (r : State) : State :=
  mkState (db r) (currentNote r) (isRecording r) (recognition r) (interimTranscript r) (finalTranscript r) (currentLanguage r) (saveTimeout r) (networkStatus r) (elements r) v.

Definition on_elements (f : Elements -> Elements) (s : State) : State :=
  set_elements (f (elements s)) s.

Definition on_env (f : Env -> Env) (s : State) : State :=
  set_env (f (env s)) s.

Definition setTimeout (c : callback) (delay : Z) (s : State) : nat * State :=
  let (h, q) := Timers.setTimeout c delay (now (env s)) (timers (env s)) in
  (h, on_env (set_timers q) s).

Definition clearTimeout (h : nat) (s : State) : State :=
  on_env (set_timers (Timers.clearTimeout h (timers (env s)))) s.

Definition showStatus (m : message) (isError : bool) (s : State) : State :=
  let s := on_elements (set_statusMessage (Some (m, isError))) s in
  let s := on_elements (set_statusActive true) s in
  snd (setTimeout CbHideStatus 3000 s).

Definition checkInternetConnection (s : State) : bool := onLine (env s).

Definition updateNetworkStatus (s : State) : State :=
  set_networkStatus (checkInternetConnection s) s.

Definition recognition_lang (code : jsstring) : jsstring :=
  match find (fun kv => eqb_string (fst kv) code) App.languageMap with
  | Some kv => snd kv
  | None => js "en-US"
  end.

(** *** Note management *)

Definition updateEditor (s : State) : State :=
  match currentNote s with
  | None => s
  | Some n =>
      let s := on_elements (set_noteTitleInput (or_string (title n) (js ""))) s in
      on_elements (set_noteTextArea
                     (Dom.set_value (or_string (text n) (js ""))
                                    (noteTextArea (elements s)))) s
  end.

Definition createNewNote (s : State) : State :=
  let s := set_currentNote
             (Some (mkNote None (js "") (js "") None (currentLanguage s)
                           (now (env s)) [])) s in
  updateEditor s.

Definition autoSave (s : State) : State :=
  match currentNote s with
  | None => s
  | Some n =>
      let n := mkNote (id n)
                 (or_string (noteTitleInput (elements s)) (js "Untitled Note"))
                 (Dom.value (noteTextArea (elements s)))
                 (summary n) (language n) (now (env s)) (tags n) in
      let s := set_currentNote (Some n) s in
      let s := on_env (set_saved (saved (env s) ++ [n])) s in
      match saveNote n (db s) with
      | (Resolved k, db') =>
          let s := set_db db' s in
          let s := if truthy_id (id n) then s
                   else set_currentNote (Some (with_id (Some k) n)) s in
          on_elements (set_noteStatus StatusSaved) s
      | (Rejected _, _) =>
          let s := on_elements (set_noteStatus StatusError) s in
          showStatus MsgSaveFailed true s
      end
  end.

Definition scheduleAutoSave (s : State) : State :=
  let s := on_elements (set_noteStatus StatusSaving) s in
  let s := match saveTimeout s with
           | Some h => clearTimeout h s
           | None => s
           end in
  let (h, s) := setTimeout CbAutoSave 1000 s in
  set_saveTimeout (Some h) s.

(** *** The mock summary *)

Definition languageNames : list (jsstring * jsstring) :=
  [ (js "en", js "English"); (js "hi", js "Hindi"); (js "bn", js "Bengali");
    (js "ta", js "Tamil"); (js "te", js "Telugu"); (js "ml", js "Malayalam");
    (js "kn", js "Kannada"); (js "mr", js "Marathi"); (js "gu", js "Gujarati");
    (js "pa", js "Punjabi"); (js "ur", js "Urdu") ].

(** [languages[code] || 'English'], for the codes the language menu
    offers. *)
Definition getLanguageName (code : jsstring) : jsstring :=
  match find (fun kv => eqb_string (fst kv) code) languageNames with
  | Some kv => snd kv
  | None => js "English"
  end.

(** The runs of white space in a string; [in_run] says that the unit
    before was white space. *)
Fixpoint whitespace_runs (s : jsstring) (in_run : bool) : nat :=
  match s with
  | [] => 0
  | c :: s' =>
      if isWhiteSpace c
      then (if in_run then 0 else 1) + whitespace_runs s' true
      else whitespace_runs s' false
  end.

(** [text.split(/\s+/).length]: the pieces between the runs of white
    space, empty ones at either end counted. *)
Definition wordCount (text : jsstring) : nat :=
  S (whitespace_runs text false).

(** The two texts of the template that are not ASCII, as the code units
    the script file holds. *)
Definition summary_mark : jsstring := [63743; 252; 236; 249]%N.

Definition various_topics_hi : jsstring :=
  [8225; 167; 181; 8225; 167; 248; 8225; 167; 8800; 8225; 167; 248; 8225;
   167; 174; 8225; 8226; 231; 8225; 167; 174; 32; 8225; 167; 181; 8225; 167;
   248; 8225; 167; 8721; 8225; 167; 216; 8225; 8226; 227; 8225; 167; 199]%N.

Definition mockSummary (words : nat) (currentLanguage : jsstring) : jsstring :=
  summary_mark ++ js " Summary ("
  ++ JSON.number_to_string (Z.of_nat words)
  ++ js " words): This note contains information about "
  ++ (if eqb_string currentLanguage (js "en")
      then js "various topics" else various_topics_hi)
  ++ js ". "
  ++ (if (50 <? words)%nat
      then js "The content is detailed and covers multiple points."
      else js "This is a brief note with key information.")
  ++ js " In production, this would use Transformers.js (Xenova/mt5-small) to generate real AI summaries locally in your browser, supporting "
  ++ getLanguageName currentLanguage
  ++ js " and other Indian languages.".

(** The summarize button: with text in the open note, three seconds of
    mock processing are started. *)
Definition summarizeNote (s : State) : State :=
  match currentNote s with
  | None => showStatus MsgNoTextToSummarize true s
  | Some n =>
      if negb (truthy_string (text n))
         || (List.length (trim (text n)) =? 0)%nat
      then showStatus MsgNoTextToSummarize true s
      else snd (setTimeout CbSummary 3000 s)
  end.

(** The rest of [summarizeNote], run when the three seconds are over, on
    the note that is open then.  With no note open it stops at
    [currentNote.text]. *)
Definition summarized (s : State) : State :=
  match currentNote s with
  | None => s
  | Some n =>
      let mock := mockSummary (wordCount (text n)) (currentLanguage s) in
      let s := set_currentNote (Some (with_summary (Some mock) n)) s in
      let s := autoSave s in
      showStatus MsgSummaryGenerated false s
  end.

(** *** Opening notes *)

Definition openFirst (s : State) : State :=
  match getAllNotes (db s) with
  | [] => createNewNote s
  | n :: _ => updateEditor (set_currentNote (Some n) s)
  end.

(** The list entry of note [k]. *)
Definition onListSelect (k : Z) (s : State) : State :=
  updateEditor (set_currentNote (getNote k (db s)) s).

(** *** Speech recognition *)

Definition initSpeechRecognition (s : State) : State :=
  if negb (speechSupported (env s)) then s
  else set_recognition
         (Some (mkRecognizer true true (recognition_lang (currentLanguage s)))) s.

Definition stopRecording (s : State) : State :=
  match recognition s with
  | Some _ =>
      if isRecording s then
        let s := on_env (set_engine (Engine.stop (engine (env s)))) s in
        let s := set_isRecording false s in
        if truthy_string (finalTranscript s)
           && (0 <? List.length (trim (finalTranscript s)))%nat
        then
          let s := showStatus MsgTranscriptionSaved false s in
          set_finalTranscript (js "") s
        else showStatus MsgRecordingStopped false s
      else s
  | None => s
  end.

Definition onstart (s : State) : State :=
  let s := set_interimTranscript (js "") s in
  let s := set_finalTranscript (js "") s in
  on_elements (set_liveTranscriptionText (js "", js "Listening...")) s.

(** One slot of [onresult]'s loop. *)
Definition onresult_slot (s : State) (r : Engine.slot) : State :=
  let transcript := Engine.transcript r in
  if Engine.isFinal r then
    let s := set_finalTranscript (finalTranscript s ++ transcript ++ js " ") s in
    match currentNote s with
    | Some n =>
        let area := noteTextArea (elements s) in
        let cursorPos := Dom.selectionStart area in
        let textBefore := substring (Dom.value area) 0 (Some cursorPos) in
        let textAfter := substring (Dom.value area) cursorPos None in
        let n := with_text (textBefore ++ transcript ++ js " " ++ textAfter) n in
        let s := set_currentNote (Some n) s in
        let area := Dom.set_value (text n) area in
        let newCursorPos := (cursorPos + List.length transcript + 1)%nat in
        let area := Dom.setSelectionRange newCursorPos area in
        let s := on_elements (set_noteTextArea area) s in
        scheduleAutoSave s
    | None => s
    end
  else set_interimTranscript (interimTranscript s ++ transcript) s.

Definition onresult (event : Engine.result_event) (s : State) : State :=
  let s := set_interimTranscript (js "") s in
  let s := fold_left onresult_slot
             (skipn (Engine.resultIndex event) (Engine.results event)) s in
  on_elements (set_liveTranscriptionText (finalTranscript s, interimTranscript s)) s.

Definition onerror (code : Engine.error_code) (s : State) : State :=
  let shouldStop :=
    match code with Engine.ErrNoSpeech => false | _ => true end in
  let showOfflineHelp :=
    match code with Engine.ErrNetwork => true | _ => false end in
  let s := showStatus (MsgEngineError code) true s in
  let s := if showOfflineHelp then snd (setTimeout CbOfflineTip 3500 s) else s in
  if shouldStop then stopRecording s else s.

Definition onend (s : State) : State :=
  if isRecording s && checkInternetConnection s
  then snd (setTimeout CbRestart 100 s)
  else if isRecording s && negb (checkInternetConnection s)
  then showStatus MsgOffline true (stopRecording s)
  else s.

(** The closure [onend] hands to [setTimeout]. *)
Definition restart (s : State) : State :=
  let (r, e) := Engine.start (engine (env s)) in
  let s := on_env (set_engine e) s in
  match r with
  | Resolved _ => s
  | Rejected _ => showStatus MsgRestartFailed true (stopRecording s)
  end.

(** The two [confirm] dialogs only move the focus and are left out. *)
Definition startRecording (s : State) : State :=
  let s := match currentNote s with None => createNewNote s | Some _ => s end in
  if negb (speechSupported (env s)) then showStatus MsgNotSupported true s
  else if negb (checkInternetConnection s) then showStatus MsgOffline true s
  else
    let s := match recognition s with
             | None => initSpeechRecognition s
             | Some _ => s
             end in
    match recognition s with
    | None => showStatus MsgInitFailed true s
    | Some r =>
        let s := set_recognition
                   (Some (mkRecognizer (continuous r) (interimResults r)
                                       (recognition_lang (currentLanguage s)))) s in
        let s := on_elements
                   (set_liveTranscriptionText (js "", js "Connecting to speech service...")) s in
        let (r, e) := Engine.start (engine (env s)) in
        let s := on_env (set_engine e) s in
        match r with
        | Resolved _ =>
            let s := set_isRecording true s in
            showStatus MsgRecording false s
        | Rejected _ => showStatus MsgStartFailed true s
        end
    end.

(** *** What an insertion does to the text

    [inserted t s s']: [s'] holds the text of [s] with [t] and one space
    put in at the selection, and the selection right after that space.
    This script adds no space before [t] and does not trim it. *)

Definition inserted (t : jsstring) (s s' : State) : Prop :=
  let area := noteTextArea (elements s) in
  let before := firstn (Dom.selectionStart area) (Dom.value area) in
  let after := skipn (Dom.selectionStart area) (Dom.value area) in
  Dom.value (noteTextArea (elements s')) = before ++ t ++ [space] ++ after
  /\ Dom.selectionStart (noteTextArea (elements s'))
     = List.length (before ++ t ++ [space])
  /\ option_map text (currentNote s')
     = Some (Dom.value (noteTextArea (elements s'))).

(** The texts an event puts in: its final slots from [resultIndex] on,
    in slot order. *)
Definition deltas (event : Engine.result_event) : list jsstring :=
  map Engine.transcript
      (filter Engine.isFinal
              (skipn (Engine.resultIndex event) (Engine.results event))).

(** Same body, same selection, same open note. *)
Definition same_text (s s' : State) : Prop :=
  noteTextArea (elements s') = noteTextArea (elements s)
  /\ currentNote s' = currentNote s.

(** One insertion after another, and nothing else done to the text. *)
Inductive insertions : list jsstring -> State -> State -> Prop :=
| insertions_nil s s' : same_text s s' -> insertions [] s s'
| insertions_cons t ts s s' s'' :
    inserted t s s' -> insertions ts s' s'' -> insertions (t :: ts) s s''.

(** *** Export *)

Definition note_json (n : Note) : JSON.value :=
  JSON.Obj
    ([ (js "title", JSON.Str (title n));
       (js "text", JSON.Str (text n));
       (js "summary", match summary n with
                      | Some t => JSON.Str t
                      | None => JSON.Null
                      end);
       (js "language", JSON.Str (language n));
       (js "timestamp", JSON.Num (timestamp n));
       (js "tags", JSON.Arr (map JSON.Str (tags n))) ]
     ++ match id n with
        | Some k => [ (js "id", JSON.Num k) ]
        | None => []
        end).

Definition exportNotes (s : State) : option jsstring * State :=
  let notes := getAllNotes (db s) in
  match notes with
  | [] => (None, showStatus MsgNoNotes true s)
  | _ :: _ =>
      (Some (JSON.stringify (JSON.Arr (map note_json notes))),
       showStatus (MsgExported (List.length notes)) false s)
  end.

Definition reproduces (n : Note) (j : JSON.value) : Prop :=
  JSON.field (js "title") j = Some (JSON.Str (title n))
  /\ JSON.field (js "text") j = Some (JSON.Str (text n))
  /\ JSON.field (js "language") j = Some (JSON.Str (language n))
  /\ JSON.field (js "timestamp") j = Some (JSON.Num (timestamp n))
  /\ JSON.field (js "tags") j = Some (JSON.Arr (map JSON.Str (tags n))).

(** *** The event loop *)

Definition run_callback (c : callback) (s : State) : State :=
  match c with
  | CbAutoSave => autoSave s
  | CbRestart => restart s
  | CbOfflineTip => showStatus MsgOfflineTip false s
  | CbHideStatus => on_elements (set_statusActive false) s
  | CbSummary => summarized s
  end.

Definition fire (h : nat) (s : State) : State :=
  match Timers.find h (Timers.pending (timers (env s))) with
  | None => s
  | Some t => run_callback (Timers.callback t) (clearTimeout h s)
  end.

Definition advance (t : Z) (s : State) : State :=
  let s := on_env (set_now (Z.max t (now (env s)))) s in
  fold_left (fun s h => fire h s)
            (Timers.due_handles (now (env s)) (timers (env s))) s.

(** What the user, the network and the engine can do to the page.
    [RecordClick] and [ExportClick] stand for the buttons and for the
    keyboard shortcuts that run the same code; [ThemeClick dark] is the
    theme switch turning the dark theme on or off, of which only the
    status message is kept.  The search box and the help buttons only
    render and have no event here. *)
Inductive event :=
| TitleInput (v : jsstring)
| TextInput (v : jsstring) (caret : nat)
| NewNoteClick
| RecordClick
| LanguageChange (code : jsstring)
| KeySave
| KeyEscape
| WentOnline
| WentOffline
| EngineStarted
| EngineResult (e : Engine.result_event)
| EngineError (c : Engine.error_code)
| EngineEnded
| KeyNew
| ListSelectClick (k : Z)
| ExportClick
| SummarizeClick
| ThemeClick (dark : bool).

Definition dispatch (e : event) (s : State) : State :=
  match e with
  | TitleInput v => scheduleAutoSave (on_elements (set_noteTitleInput v) s)
  | TextInput v caret =>
      scheduleAutoSave
        (on_elements (set_noteTextArea
                        (Dom.mkTextarea v (Nat.min caret (List.length v)))) s)
  | NewNoteClick => createNewNote s
  | RecordClick =>
      let s := match currentNote s with None => createNewNote s | Some _ => s end in
      if isRecording s then stopRecording s else startRecording s
  | LanguageChange code =>
      let s := set_currentLanguage code s in
      let s := match currentNote s with
               | Some n =>
                   scheduleAutoSave
                     (updateEditor (set_currentNote (Some (with_language code n)) s))
               | None => s
               end in
      showStatus (MsgLanguage code) false s
  | KeySave => autoSave s
  | KeyEscape => if isRecording s then stopRecording s else s
  | WentOnline =>
      let s := on_env (set_onLine true) s in
      showStatus MsgOnline false (updateNetworkStatus (set_networkStatus true s))
  | WentOffline =>
      let s := on_env (set_onLine false) s in
      let s := showStatus MsgOfflineEvent true
                 (updateNetworkStatus (set_networkStatus false s)) in
      if isRecording s then stopRecording s else s
  | EngineStarted => onstart s
  | EngineResult ev => onresult ev s
  | EngineError c => onerror c s
  | EngineEnded => onend (on_env (set_engine (Engine.ended (engine (env s)))) s)
  | KeyNew => showStatus MsgNewNoteCreated false (createNewNote s)
  | ListSelectClick k => onListSelect k s
  | ExportClick => snd (exportNotes s)
  | SummarizeClick => summarizeNote s
  | ThemeClick dark => showStatus (MsgTheme dark) false s
  end.

Definition run_timed (evs : list (Z * event)) (s : State) : State :=
  fold_left (fun s te => dispatch (snd te) (advance (fst te) s)) evs s.

(** *** What the debounce property speaks about *)

Definition is_autosave (u : Timers.timer callback) : bool :=
  match Timers.callback u with CbAutoSave => true | _ => false end.

Definition autosave_pending (s : State) : list (Timers.timer callback) :=
  filter is_autosave (Timers.pending (timers (env s))).

Definition timers_ok (s : State) : Prop :=
  Timers.queue_ok is_autosave (timers (env s)) (saveTimeout s).

(** The summaries being generated: each calls [autoSave] when its three
    seconds are over, whatever the debounce timer does. *)
Definition is_summary (u : Timers.timer callback) : bool :=
  match Timers.callback u with CbSummary => true | _ => false end.

Definition summary_pending (s : State) : list (Timers.timer callback) :=
  filter is_summary (Timers.pending (timers (env s))).

Definition view (s : State) :=
  (noteTitleInput (elements s), noteTextArea (elements s), currentNote s,
   db s, saved (env s), saveTimeout s, autosave_pending s,
   summary_pending s).

Definition is_mutation (e : event) : bool :=
  match e with
  | TitleInput _ | TextInput _ _ => true
  | _ => false
  end.

(** The mutations of title and text that are debounced: an edit by hand,
    or a result event that puts text into the open note. *)
Definition mutates (e : event) (s : State) : bool :=
  match e with
  | TitleInput _ | TextInput _ _ => true
  | EngineResult ev =>
      is_some (currentNote s)
      && match deltas ev with [] => false | _ :: _ => true end
  | _ => false
  end.

(** A burst: every event is a mutation at the time the loop handles it. *)
Fixpoint burst_of (evs : list (Z * event)) (s : State) : Prop :=
  match evs with
  | [] => True
  | (t, e) :: evs' =>
      mutates e (advance t s) = true
      /\ burst_of evs' (dispatch e (advance t s))
  end.

(** What [autoSave] takes from the open note as it is. *)
Definition meta (n : Note) :=
  (id n, summary n, language n, tags n).

Fixpoint within_debounce (t : Z) (evs : list (Z * event)) : Prop :=
  match evs with
  | [] => True
  | (t', _) :: evs' => t <= t' < t + 1000 /\ within_debounce t' evs'
  end.

Definition edit (tb : jsstring * jsstring) (e : event) : jsstring * jsstring :=
  match e with
  | TitleInput v => (v, snd tb)
  | TextInput v _ => (fst tb, v)
  | _ => tb
  end.

Definition edited (evs : list (Z * event)) (tb : jsstring * jsstring)
  : jsstring * jsstring :=
  fold_left (fun tb te => edit tb (snd te)) evs tb.

Definition snapshot (n : Note) (tb : jsstring * jsstring) (t : Z) : Note :=
  mkNote (id n) (or_string (fst tb) (js "Untitled Note")) (snd tb)
         (summary n) (language n) t (tags n).

Definition calm (s s' : State) : Prop :=
  view s' = view s
  /\ now (env s') = now (env s)
  /\ (timers_ok s -> timers_ok s').

Definition fires (hs : list nat) (s : State) : State :=
  fold_left (fun s h => fire h s) hs s.

Definition autosave_handles (s : State) : list nat :=
  map (@Timers.handle callback) (autosave_pending s).

Definition editor (s : State) : jsstring * jsstring :=
  (noteTitleInput (elements s), Dom.value (noteTextArea (elements s))).

(** *** The page *)

Definition initialize (db : DB) (t0 : Z) (online supported : bool) : State :=
  let s := updateNetworkStatus
             (mkState db None false None (js "") (js "") (js "en") None true
                (mkElements (js "") (Dom.mkTextarea (js "") 0) StatusBlank None false
                            (js "", js ""))
                (mkEnv t0 online supported Timers.empty Engine.idle [])) in
  let s := openFirst s in
  showStatus (if checkInternetConnection s then MsgReady else MsgReadyOffline) false s.

Definition initial (online supported : bool) : State :=
  initialize IDB.empty 0 online supported.

(** The states the page can be in: what [initialize] leaves, and from
    there any event, any turn of the loop, and the storage underneath
    starting or ceasing to fail. *)
Inductive reachable : State -> Prop :=
| reach_initialize db t0 online supported :
    reachable (initialize db t0 online supported)
| reach_event e s : reachable s -> reachable (dispatch e s)
| reach_time t s : reachable s -> reachable (advance t s)
| reach_storage f s : reachable s -> reachable (set_db (IDB.with_fault f (db s)) s).

End Hybrid.
(* ------------------------------------------------------------------ *)
(** ** Dates shown with a note

    [formatDate], the same in both scripts.  A [Date] holds a time value of
    at most 8.64e15 ms either side of the epoch, or none; the difference
    of two time values, its quotient by the length of a day and
    [Math.ceil] are exact on the integers as far as the comparisons with
    1, 2 and 7 go. *)

Module Dates.

Local Open Scope Z_scope.

Definition max_time : Z := 8640000000000000.

(** [new Date(t)] holds [t]. *)
Definition valid (t : Z) : bool := (- max_time <=? t) && (t <=? max_time).

Definition ms_per_day : Z := 1000 * 60 * 60 * 24.

(** [Math.ceil(a / b)] for [b > 0]. *)
Definition ceil_div (a b : Z) : Z := - ((- a) / b).

(** What [formatDate] returns: a text, or whatever the locale makes of
    the date. *)
Inductive label :=
| Text (s : jsstring)
| LocaleDate (t : Z).

(** [now] is the reading of the clock taken by [new Date()]. *)
Definition formatDate (now timestamp : Z) : label :=
  if negb (valid timestamp) then Text (js "Invalid Date")
  else
    let diffTime := Z.abs (now - timestamp) in
    let diffDays := ceil_div diffTime ms_per_day in
    if diffDays =? 1 then Text (js "Today")
    else if diffDays =? 2 then Text (js "Yesterday")
    else if diffDays <=? 7
    then Text (JSON.number_to_string (diffDays - 1) ++ js " days ago")
    else LocaleDate timestamp.

End Dates.

(* ------------------------------------------------------------------ *)
(** ** The theme switch of [app.js]

    The [data-theme] attribute of the document, the glyph on the switch
    and the [theme] entry of [localStorage]. *)

Module Theme.

Inductive glyph := Sun | Moon.

Record page := mkPage {
  data_theme : option jsstring;   (* [getAttribute] gives [null] without one *)
  themeToggle : option glyph;     (* [None]: as the document was served *)
  stored : option jsstring        (* [localStorage.getItem('theme')] *)
}.

Definition glyph_of (theme : jsstring) : glyph :=
  if eqb_string theme (js "dark") then Sun else Moon.

Definition toggleTheme (p : page) : page :=
  let theme := data_theme p in
  let newTheme :=
    match theme with
    | Some t => if eqb_string t (js "dark") then js "light" else js "dark"
    | None => js "dark"
    end in
  mkPage (Some newTheme) (Some (glyph_of newTheme)) (Some newTheme).

(** The lines of [initialize] that read the stored theme. *)
Definition restoreTheme (p : page) : page :=
  match stored p with
  | Some theme =>
      if truthy_string theme
      then mkPage (Some theme) (Some (glyph_of theme)) (stored p)
      else p
  | None => p
  end.

(** The page loaded anew: the document as served, the storage as it was
    left, and then [initialize]. *)
Definition reload (served : page) (p : page) : page :=
  restoreTheme (mkPage (data_theme served) (themeToggle served) (stored p)).

End Theme.
(* ================================================================== *)
(** * Properties *)

(* ------------------------------------------------------------------ *)
(** ** The object store *)

Module IDBFacts.

Import IDB.
Local Open Scope Z_scope.

Section Records.
Context {V : Type} `{InlineKey V}.

Implicit Types (l : list (Z * V)) (k : Z) (v : V).

Lemma lookup_store_record_same k v l :
  lookup k (store_record k v l) = Some v.
Proof.
  induction l as [|[k' v'] l IH]; simpl.
  - now rewrite Z.eqb_refl.
  - destruct (k <? k') eqn:Hlt; simpl.
    + now rewrite Z.eqb_refl.
    + destruct (k =? k') eqn:He; simpl.
      * now rewrite Z.eqb_refl.
      * now rewrite He.
Qed.

Lemma lookup_store_record_other k k' v l :
  k' <> k -> lookup k' (store_record k v l) = lookup k' l.
Proof.
  intros Hne. induction l as [|[k0 v0] l IH]; simpl.
  - apply Z.eqb_neq in Hne. now rewrite Hne.
  - destruct (k <? k0) eqn:Hlt; simpl.
    + apply Z.eqb_neq in Hne. now rewrite Hne.
    + destruct (k =? k0) eqn:He; simpl.
      * apply Z.eqb_eq in He. subst k0.
        apply Z.eqb_neq in Hne. now rewrite Hne.
      * now rewrite IH.
Qed.

Lemma in_keys_store_record k k' v l :
  In k' (map fst (store_record k v l)) <-> k' = k \/ In k' (map fst l).
Proof.
  induction l as [|[k0 v0] l IH]; simpl.
  - intuition.
  - destruct (k <? k0) eqn:Hlt; simpl; [intuition|].
    destruct (k =? k0) eqn:He; simpl.
    + apply Z.eqb_eq in He. subst k0. intuition.
    + rewrite IH. intuition.
Qed.

Lemma store_record_ascending k v l :
  ascending l -> ascending (store_record k v l).
Proof.
  unfold ascending. induction l as [|[k0 v0] l IH]; simpl; intros Hs.
  - repeat constructor.
  - apply StronglySorted_inv in Hs. destruct Hs as [Hs Hall].
    destruct (k <? k0) eqn:Hlt; simpl.
    + apply Z.ltb_lt in Hlt. constructor.
      * constructor; assumption.
      * constructor; [assumption|].
        eapply Forall_impl; [|exact Hall]. simpl. intros; lia.
    + destruct (k =? k0) eqn:He; simpl.
      * apply Z.eqb_eq in He. subst k0. constructor; assumption.
      * apply Z.ltb_ge in Hlt. apply Z.eqb_neq in He.
        constructor; [auto|].
        apply Forall_forall. intros x Hx.
        apply in_keys_store_record in Hx. destruct Hx as [->|Hx]; [lia|].
        rewrite Forall_forall in Hall. auto.
Qed.

(** A key above every stored key goes to the end. *)
Lemma store_record_above k v l :
  Forall (fun k' => k' < k) (map fst l) -> store_record k v l = l ++ [(k, v)].
Proof.
  induction l as [|[k0 v0] l IH]; simpl; intros Hall; [reflexivity|].
  inversion Hall as [|? ? Hk Hall']; subst.
  assert ((k <? k0) = false) as -> by (apply Z.ltb_ge; lia).
  assert ((k =? k0) = false) as -> by (apply Z.eqb_neq; lia).
  now rewrite IH.
Qed.

(** Overwriting a stored key keeps every key where it is. *)
Lemma store_record_keys_present k v l :
  ascending l -> In k (map fst l) ->
  map fst (store_record k v l) = map fst l.
Proof.
  unfold ascending. induction l as [|[k0 v0] l IH]; simpl; intros Hs Hin.
  - contradiction.
  - apply StronglySorted_inv in Hs. destruct Hs as [Hs Hall].
    destruct (k =? k0) eqn:He.
    + apply Z.eqb_eq in He. subst k0. now rewrite Z.ltb_irrefl.
    + apply Z.eqb_neq in He. destruct Hin as [Hin|Hin]; [congruence|].
      rewrite Forall_forall in Hall. specialize (Hall _ Hin).
      assert ((k <? k0) = false) as -> by (apply Z.ltb_ge; lia).
      simpl. now rewrite IH.
Qed.

Lemma in_keys_delete_record k k' l :
  In k' (map fst (delete_record k l)) <-> k' <> k /\ In k' (map fst l).
Proof.
  unfold delete_record. induction l as [|[k0 v0] l IH]; simpl.
  - intuition.
  - destruct (k0 =? k) eqn:He; simpl.
    + apply Z.eqb_eq in He. subst k0. rewrite IH. intuition congruence.
    + apply Z.eqb_neq in He. rewrite IH. intuition congruence.
Qed.

Lemma delete_record_ascending k l :
  ascending l -> ascending (delete_record k l).
Proof.
  unfold ascending, delete_record.
  induction l as [|[k0 v0] l IH]; simpl; intros Hs; [constructor|].
  apply StronglySorted_inv in Hs. destruct Hs as [Hs Hall].
  destruct (k0 =? k); simpl; [auto|].
  constructor; [auto|].
  apply Forall_forall. intros x Hx.
  apply (in_keys_delete_record k x l) in Hx.
  rewrite Forall_forall in Hall. apply Hall, Hx.
Qed.



Lemma lookup_in_keys k l :
  In k (map fst l) <-> lookup k l <> None.
Proof.
  induction l as [|[k0 v0] l IH]; simpl.
  - intuition.
  - destruct (k =? k0) eqn:He.
    + apply Z.eqb_eq in He. subst. intuition congruence.
    + apply Z.eqb_neq in He. rewrite <- IH. intuition congruence.
Qed.

End Records.

Section Requests.
Context {V : Type} `{InlineKey V}.
Hypothesis extract_inject : forall k (v : V), extract_key (inject_key k v) = Some k.

Implicit Types (s : store V) (k : Z) (v : V).

Lemma empty_wf : wf (empty (V := V)).
Proof.
  split; simpl.
  - constructor.
  - constructor.
  - left. constructor.
Qed.

Lemma store_request_resolved b v s k s' :
  store_request b v s = (Resolved k, s') ->
  records s' = store_record k (stored_value k v) (records s)
  /\ match extract_key v with
     | Some k' => k = k' /\ current_number s' = possibly_update k (current_number s)
     | None => k = current_number s /\ current_number s' = k + 1
                /\ current_number s <= max_generator
     end.
Proof.
  unfold store_request, stored_value.
  destruct (fault s); [discriminate|].
  destruct (extract_key v) as [k'|] eqn:Hk.
  - destruct (b && has_key k' (records s)); intros [= <- <-]; simpl; auto.
  - destruct (max_generator <? current_number s) eqn:Hg; [discriminate|].
    apply Z.ltb_ge in Hg.
    destruct (b && has_key (current_number s) (records s));
      intros [= <- <-]; simpl; auto.
Qed.

Lemma store_request_rejected b v s e s' :
  store_request b v s = (Rejected e, s') -> s' = s.
Proof.
  unfold store_request.
  destruct (fault s); [intros [= _ <-]; reflexivity|].
  destruct (extract_key v) as [k'|].
  - destruct (b && has_key k' (records s)); intros [= _ <-]; reflexivity.
  - destruct (max_generator <? current_number s); [intros [= _ <-]; reflexivity|].
    destruct (b && has_key (current_number s) (records s));
      intros [= _ <-]; reflexivity.
Qed.

(** A failing storage rejects every write with its error; a write that
    resolves found the storage in order and leaves it so. *)
Lemma store_request_faulty b v s e :
  fault s = Some e -> store_request b v s = (Rejected e, s).
Proof. intros Hf. unfold store_request. now rewrite Hf. Qed.

Lemma store_request_healthy b v s k s' :
  store_request b v s = (Resolved k, s') -> fault s = None /\ fault s' = None.
Proof.
  unfold store_request.
  destruct (fault s); [discriminate|].
  destruct (extract_key v) as [k'|].
  - destruct (b && has_key k' (records s)); intros [= <- <-]; auto.
  - destruct (max_generator <? current_number s); [discriminate|].
    destruct (b && has_key (current_number s) (records s));
      intros [= <- <-]; auto.
Qed.

Lemma store_request_fault b v s :
  fault (snd (store_request b v s)) = fault s.
Proof.
  destruct (store_request b v s) as [[k|e] s'] eqn:Hreq; simpl.
  - apply store_request_healthy in Hreq. destruct Hreq. congruence.
  - apply store_request_rejected in Hreq. now subst.
Qed.

Lemma stored_value_key k v :
  match extract_key v with Some k' => k = k' | None => True end ->
  extract_key (stored_value k v) = Some k.
Proof.
  unfold stored_value. destruct (extract_key v) eqn:Hk; intros Hm.
  - now subst.
  - apply extract_inject.
Qed.

Lemma store_record_inline k v (l : list (Z * V)) :
  extract_key v = Some k ->
  Forall (fun kv => extract_key (snd kv) = Some (fst kv)) l ->
  Forall (fun kv => extract_key (snd kv) = Some (fst kv)) (store_record k v l).
Proof.
  intros Hv. induction l as [|[k0 v0] l IH]; simpl; intros Hall.
  - constructor; auto.
  - inversion Hall; subst.
    destruct (k <? k0); [constructor; auto|].
    destruct (k =? k0); constructor; auto.
Qed.

Lemma store_request_wf b v s :
  wf s -> wf (snd (store_request b v s)).
Proof.
  intros Hwf.
  destruct (store_request b v s) as [[k|e] s'] eqn:Hreq; simpl.
  2:{ apply store_request_rejected in Hreq. now subst. }
  apply store_request_resolved in Hreq. destruct Hreq as [Hrec Hkey].
  destruct Hwf as [Hasc Hin Hgen].
  split.
  - rewrite Hrec. now apply store_record_ascending.
  - rewrite Hrec. apply store_record_inline; [|assumption].
    apply stored_value_key. destruct (extract_key v); intuition.
  - unfold keys in *. rewrite Hrec.
    destruct (extract_key v) as [k'|].
    + destruct Hkey as [<- Hg]. rewrite Hg. unfold possibly_update.
      destruct (current_number s <=? Z.min k max_generator) eqn:Hle.
      * apply Z.leb_le in Hle.
        destruct (Z.le_gt_cases k max_generator) as [Hk|Hk].
        -- left. rewrite Z.min_l in * by lia.
           apply Forall_forall. intros x Hx.
           apply in_keys_store_record in Hx. destruct Hx as [->|Hx]; [lia|].
           destruct Hgen as [Hgen|Hgen]; [|lia].
           rewrite Forall_forall in Hgen. specialize (Hgen _ Hx). lia.
        -- right. rewrite Z.min_r by lia. lia.
      * apply Z.leb_gt in Hle.
        destruct Hgen as [Hgen|Hgen]; [|now right].
        destruct (Z.le_gt_cases k max_generator) as [Hk|Hk].
        -- left. rewrite Z.min_l in Hle by lia.
           apply Forall_forall. intros x Hx.
           apply in_keys_store_record in Hx. destruct Hx as [->|Hx]; [lia|].
           rewrite Forall_forall in Hgen. now apply Hgen.
        -- right. rewrite Z.min_r in Hle by lia. lia.
    + destruct Hkey as (-> & Hg & Hmax). rewrite Hg.
      destruct Hgen as [Hgen|Hgen]; [|lia].
      left. apply Forall_forall. intros x Hx.
      apply in_keys_store_record in Hx. destruct Hx as [->|Hx]; [lia|].
      rewrite Forall_forall in Hgen. specialize (Hgen _ Hx). lia.
Qed.

Lemma delete_wf k s : wf s -> wf (snd (delete k s)).
Proof.
  intros [Hasc Hin Hgen]. split; simpl.
  - now apply delete_record_ascending.
  - unfold delete_record. rewrite Forall_forall in *.
    intros x Hx. apply filter_In in Hx. apply Hin, Hx.
  - destruct Hgen as [Hgen|Hgen]; [left|now right].
    unfold keys in *. simpl. rewrite Forall_forall in *.
    intros x Hx. apply in_keys_delete_record in Hx. apply Hgen, Hx.
Qed.

(** A generated key is new and lands at the end of the records. *)
Lemma store_request_generated b v s k s' :
  wf s -> extract_key v = None ->
  store_request b v s = (Resolved k, s') ->
  records s' = records s ++ [(k, inject_key k v)].
Proof.
  intros Hwf Hnone Hreq.
  apply store_request_resolved in Hreq. destruct Hreq as [Hrec Hkey].
  unfold stored_value in Hrec. rewrite Hnone in *.
  destruct Hkey as (-> & _ & Hmax).
  rewrite Hrec. apply store_record_above.
  destruct (wf_generator Hwf) as [Hgen|Hgen]; [exact Hgen|lia].
Qed.

End Requests.

End IDBFacts.


(* ------------------------------------------------------------------ *)
(** ** Strings *)

Module JSFacts.

Lemma substring_from_start (s : jsstring) (p : nat) :
  substring s 0 (Some p) = firstn p s.
Proof.
  unfold substring. rewrite Nat.min_0_l, Nat.max_0_l, Nat.sub_0_r. simpl.
  destruct (Nat.le_ge_cases p (List.length s)) as [Hle|Hge].
  - now rewrite Nat.min_l.
  - rewrite Nat.min_r by assumption. now rewrite !firstn_all2.
Qed.

Lemma substring_to_end (s : jsstring) (p : nat) :
  substring s p None = skipn p s.
Proof.
  unfold substring.
  destruct (Nat.le_ge_cases p (List.length s)) as [Hle|Hge].
  - rewrite (Nat.min_l p) by assumption.
    rewrite Nat.min_l, Nat.max_r by assumption.
    apply firstn_all2. rewrite length_skipn. lia.
  - rewrite (Nat.min_r p) by assumption.
    rewrite Nat.min_id, Nat.max_id, Nat.sub_diag. simpl.
    symmetry. now apply skipn_all2.
Qed.

Lemma startsWith_single (s : jsstring) (c : code_unit) :
  startsWith s [c] = true <-> exists s', s = c :: s'.
Proof.
  destruct s as [|d s]; simpl.
  - split; [discriminate|]. intros [s' Hs]. discriminate.
  - rewrite andb_true_r, N.eqb_eq. split.
    + intros ->. now exists s.
    + intros [s' [= -> _]]. reflexivity.
Qed.

(** [s.endsWith(c)] for a single code unit: [s] is not empty and [c] is
    its last unit. *)
Lemma endsWith_single (s : jsstring) (c d : code_unit) :
  endsWith s [c] = true <-> s <> [] /\ last s d = c.
Proof.
  unfold endsWith. change (rev [c]) with [c]. rewrite startsWith_single.
  destruct (rev s) as [|x r] eqn:Hrev.
  - assert (s = []) as -> by (apply (f_equal (@rev _)) in Hrev;
                              now rewrite rev_involutive in Hrev).
    split; [intros [s' Hs]; discriminate|intros [Hne _]; congruence].
  - assert (Hs : s = rev r ++ [x]).
    { apply (f_equal (@rev _)) in Hrev. now rewrite rev_involutive in Hrev. }
    rewrite Hs, last_last. split.
    + intros [s' [= -> _]]. split; [|reflexivity].
      intros Hnil. now apply app_eq_nil in Hnil as [_ Hnil].
    + intros [_ ->]. now exists r.
Qed.

Lemma endsWith_single_false (s : jsstring) (c d : code_unit) :
  endsWith s [c] = false <-> s = [] \/ last s d <> c.
Proof.
  rewrite <- not_true_iff_false, (endsWith_single s c d).
  destruct s as [|x s].
  - split; [now left|]. intros _ [Hne _]. congruence.
  - destruct (N.eq_dec (last (x :: s) d) c) as [He|Hne].
    + split; [|intros [Hnil|Hne]; congruence].
      intros Hn. exfalso. apply Hn. split; [discriminate|assumption].
    + split; [now right|]. intros _ [_ He]. congruence.
Qed.

Lemma trimStart_idem (s : jsstring) : trimStart (trimStart s) = trimStart s.
Proof.
  induction s as [|c s IH]; simpl; [reflexivity|].
  destruct (isWhiteSpace c) eqn:Hc; [assumption|].
  simpl. now rewrite Hc.
Qed.

(** What [trim] returns starts with no white space. *)
Lemma trimStart_head (s : jsstring) (c : code_unit) (s' : jsstring) :
  trimStart s = c :: s' -> isWhiteSpace c = false.
Proof.
  induction s as [|d s IH]; simpl; [discriminate|].
  destruct (isWhiteSpace d) eqn:Hd; [assumption|].
  now intros [= <- _].
Qed.

Lemma eqb_string_eq (a b : jsstring) : eqb_string a b = true <-> a = b.
Proof.
  revert b. induction a as [|c a IH]; intros [|d b]; simpl;
    try (split; [discriminate|discriminate]); [tauto|].
  rewrite andb_true_iff, N.eqb_eq, IH. split.
  - now intros [-> ->].
  - now intros [= -> ->].
Qed.

Lemma set_value_value (v : jsstring) (t : Dom.textarea) :
  Dom.value (Dom.set_value v t) = v.
Proof.
  unfold Dom.set_value. destruct (eqb_string v (Dom.value t)) eqn:He.
  - apply eqb_string_eq in He. now subst.
  - reflexivity.
Qed.

(** Writing the text and then placing the selection, as the handlers do. *)
Lemma set_value_then_select (v : jsstring) (p : nat) (t : Dom.textarea) :
  Dom.setSelectionRange p (Dom.set_value v t)
  = Dom.mkTextarea v (Nat.min p (List.length v)).
Proof.
  unfold Dom.setSelectionRange. now rewrite set_value_value.
Qed.

Lemma escape_unit_cases (c : code_unit) :
  ((c = 38)%N /\ Dom.escape_unit c = js "&amp;")
  \/ ((c = 60)%N /\ Dom.escape_unit c = js "&lt;")
  \/ ((c = 62)%N /\ Dom.escape_unit c = js "&gt;")
  \/ ((c = 160)%N /\ Dom.escape_unit c = js "&nbsp;")
  \/ ((c <> 38)%N /\ (c <> 60)%N /\ (c <> 62)%N /\ (c <> 160)%N /\ Dom.escape_unit c = [c]).
Proof.
  unfold Dom.escape_unit.
  destruct (c =? 38)%N eqn:H1; [apply N.eqb_eq in H1; auto|].
  destruct (c =? 60)%N eqn:H2; [apply N.eqb_eq in H2; auto|].
  destruct (c =? 62)%N eqn:H3; [apply N.eqb_eq in H3; auto 6|].
  destruct (c =? 160)%N eqn:H4; [apply N.eqb_eq in H4; auto 6|].
  apply N.eqb_neq in H1, H2, H3, H4. auto 10.
Qed.


End JSFacts.

(* ------------------------------------------------------------------ *)
(** ** Timers *)

Module TimersFacts.

Import Timers.
Local Open Scope Z_scope.

Ltac conjuncts := repeat match goal with |- _ /\ _ => split end.

(** A step that only writes fields autosave does not look at. *)
Ltac calm_step :=
  split; [reflexivity|split; [reflexivity|let H := fresh in intros H; exact H]].

(** *** Lists *)

Lemma filter_filter_absorb {A : Type} (f g : A -> bool) (l : list A) :
  (forall x, In x l -> f x = true -> g x = true) ->
  filter f (filter g l) = filter f l.
Proof.
  induction l as [|x l IH]; simpl; intros Hfg; [reflexivity|].
  destruct (g x) eqn:Hg; simpl.
  - rewrite IH by (intros; apply Hfg; auto). reflexivity.
  - destruct (f x) eqn:Hf.
    + rewrite (Hfg x) in Hg by auto. discriminate.
    + apply IH. intros; apply Hfg; auto.
Qed.

Lemma last_cons {A : Type} (a d : A) (l : list A) : last (a :: l) d = last l a.
Proof.
  revert a d. induction l as [|b l IH]; intros a d; [reflexivity|].
  change (last (a :: b :: l) d) with (last (b :: l) d).
  now rewrite (IH b d), (IH b a).
Qed.

(** *** The queue *)

Section Queue.
Context {C : Type}.
Implicit Types (u : timer C) (l : list (timer C)) (q : queue C).

Lemma find_some h l u : find h l = Some u -> In u l /\ handle u = h.
Proof.
  induction l as [|u0 l IH]; simpl; [discriminate|].
  destruct (handle u0 =? h)%nat eqn:He.
  - intros [= <-]. apply Nat.eqb_eq in He. auto.
  - intros Hf. destruct (IH Hf). auto.
Qed.

Lemma find_none h l u : find h l = None -> In u l -> handle u <> h.
Proof.
  induction l as [|u0 l IH]; simpl; [tauto|].
  destruct (handle u0 =? h)%nat eqn:He; [discriminate|].
  apply Nat.eqb_neq in He. intros Hf [<-|Hin]; auto.
Qed.

Lemma in_insert_by_due u u' l :
  In u (insert_by_due u' l) <-> u = u' \/ In u l.
Proof.
  induction l as [|u0 l IH]; simpl; [intuition|].
  destruct (due u' <? due u0); simpl; [intuition|].
  rewrite IH. intuition.
Qed.

Lemma in_by_due u l : In u (by_due l) <-> In u l.
Proof.
  unfold by_due.
  assert (Hgen : forall acc, In u (fold_left (fun acc t => insert_by_due t acc) l acc)
                             <-> In u acc \/ In u l).
  { induction l as [|u0 l IH]; simpl; intros acc; [intuition|].
    rewrite IH, in_insert_by_due. intuition. }
  rewrite Hgen. simpl. intuition.
Qed.

(** A handle that came due belongs to a pending timer whose time is up. *)
Lemma due_handles_spec now h q :
  In h (due_handles now q) <->
  exists u, In u (pending q) /\ handle u = h /\ due u <= now.
Proof.
  unfold due_handles. rewrite in_map_iff. split.
  - intros (u & Hh & Hin). apply in_by_due, filter_In in Hin.
    destruct Hin as [Hin Hdue]. apply Z.leb_le in Hdue. eauto.
  - intros (u & Hin & Hh & Hdue). exists u. split; [assumption|].
    apply in_by_due, filter_In. split; [assumption|now apply Z.leb_le].
Qed.

Lemma in_clearTimeout u h q :
  In u (pending (clearTimeout h q)) <-> In u (pending q) /\ handle u <> h.
Proof.
  unfold clearTimeout. simpl. rewrite filter_In, negb_true_iff, Nat.eqb_neq.
  tauto.
Qed.

Section Saving.
Variable saving : timer C -> bool.

Lemma queue_ok_setTimeout c d t q st :
  (forall h due, saving (mkTimer h due c) = false) ->
  queue_ok saving q st -> queue_ok saving (snd (setTimeout c d t q)) st.
Proof.
  intros Hc [Hb Hs Ha]. split; simpl.
  - apply Forall_app. split.
    + eapply Forall_impl; [|exact Hb]. simpl. intros; lia.
    + constructor; [simpl; lia|constructor].
  - intros h Hh. specialize (Hs h Hh). lia.
  - intros u Hin. apply in_app_or in Hin. destruct Hin as [Hin|[<-|[]]].
    + now apply Ha.
    + rewrite Hc. simpl. split; [discriminate|].
      intros Hst. specialize (Hs _ Hst). lia.
Qed.

Lemma queue_ok_clearTimeout h q st :
  queue_ok saving q st -> queue_ok saving (clearTimeout h q) st.
Proof.
  intros [Hb Hs Ha]. split.
  - rewrite Forall_forall in *. intros u Hu.
    apply in_clearTimeout in Hu. now apply Hb.
  - exact Hs.
  - intros u Hu. apply in_clearTimeout in Hu. now apply Ha.
Qed.

(** Clearing the handle in the variable leaves no saving timer behind. *)
Lemma clear_saved_handle q st :
  queue_ok saving q st ->
  filter saving
    (pending (match st with
              | Some h => clearTimeout h q
              | None => q
              end)) = [].
Proof.
  intros [_ _ Ha].
  assert (Hnone : forall l, (forall u, In u l -> saving u = false) ->
                            filter saving l = []).
  { induction l as [|u l IH]; simpl; intros Hall; [reflexivity|].
    rewrite (Hall u) by now left. apply IH. intros; apply Hall; now right. }
  apply Hnone. intros u Hu. destruct (saving u) eqn:Hau; [|reflexivity].
  exfalso. destruct st as [h|].
  - apply in_clearTimeout in Hu. destruct Hu as [Hu Hne].
    apply (Ha u Hu) in Hau. congruence.
  - apply (Ha u Hu) in Hau. discriminate.
Qed.

(** Clear the handle in the variable, set a saving timer, keep its handle:
    the debounce step. *)
Lemma queue_ok_schedule c d t q st :
  (forall h due, saving (mkTimer h due c) = true) ->
  queue_ok saving q st ->
  let q0 := match st with Some h => clearTimeout h q | None => q end in
  queue_ok saving (snd (setTimeout c d t q0)) (Some (next_handle q)).
Proof.
  intros Hc Hok q0.
  assert (Hok0 : queue_ok saving q0 st)
    by (subst q0; destruct st; [now apply queue_ok_clearTimeout|assumption]).
  assert (Hnext : next_handle q0 = next_handle q)
    by (subst q0; destruct st; reflexivity).
  pose proof (clear_saved_handle Hok) as Hclear. fold q0 in Hclear.
  destruct Hok0 as [Hb Hs Ha]. split; simpl.
  - apply Forall_app. split.
    + eapply Forall_impl; [|exact Hb]. simpl. intros; lia.
    + constructor; [simpl; lia|constructor].
  - intros h [= <-]. lia.
  - intros u Hin. apply in_app_or in Hin. destruct Hin as [Hin|[<-|[]]].
    + split.
      * intros Hau. exfalso.
        assert (Hf : In u (filter saving (pending q0)))
          by (apply filter_In; auto).
        rewrite Hclear in Hf. contradiction.
      * intros [= Hh]. rewrite Forall_forall in Hb. specialize (Hb u Hin). lia.
    + simpl. rewrite Hnext, Hc. tauto.
Qed.

End Saving.

End Queue.

End TimersFacts.
(* ------------------------------------------------------------------ *)
(** ** [app.js]: the persistence gateway *)

Module AppFacts.

Import IDB IDBFacts App.
Local Open Scope Z_scope.

Lemma extract_inject (k : Z) (n : Note) : extract_key (inject_key k n) = Some k.
Proof. reflexivity. Qed.

Lemma in_touch k k' l : In k' (touch k l) <-> k' = k \/ In k' l.
Proof.
  unfold touch. simpl. split.
  - intros [->|Hin]; [now left|]. apply in_remove in Hin. tauto.
  - intros [->|Hin]; [now left|].
    destruct (Z.eq_dec k' k) as [->|Hne]; [now left|].
    right. now apply in_in_remove.
Qed.

Lemma saveNote_request note db :
  exists b v, saveNote note db = store_request b v db
    /\ title v = sanitizeInput (title note)
    /\ text v = sanitizeInput (text note)
    /\ language v = language note
    /\ timestamp v = timestamp note
    /\ tags v = tags note
    /\ id v = (if truthy_id (id note) then id note else None).
Proof.
  unfold saveNote. destruct (truthy_id (id note)).
  - exists false. eexists. split; [reflexivity|]. simpl. tauto.
  - exists true. eexists. split; [reflexivity|]. simpl. tauto.
Qed.

Lemma track_tracked st o : tracked st -> tracked (track st o).
Proof.
  intros (Hwf & Hkeys & Hfault). destruct st as [db l]. simpl in *.
  destruct o as [n|k]; simpl.
  - destruct (saveNote_request n db) as (b & v & Hsave & _).
    pose proof (store_request_wf extract_inject b v Hwf) as Hwf'.
    pose proof (store_request_fault b v db) as Hfault'.
    rewrite Hsave.
    destruct (store_request b v db) as [[k|e] db'] eqn:Hres; simpl in *.
    + split; [assumption|]. split; [|simpl; congruence]. intros k'.
      apply store_request_resolved in Hres.
      destruct Hres as [Hrec _]. unfold keys. cbn [fst snd]. rewrite Hrec.
      rewrite in_keys_store_record, in_touch. now rewrite <- Hkeys.
    + split; [assumption|]. split; [|simpl; congruence].
      apply store_request_rejected in Hres. now subst.
  - split; [now apply delete_wf|]. split; [|exact Hfault]. intros k'.
    unfold keys. simpl. rewrite in_keys_delete_record.
    unfold keys in Hkeys. rewrite Hkeys. split.
    + intros [Hne Hin]. now apply in_in_remove.
    + intros Hin. apply in_remove in Hin. tauto.
Qed.

Lemma run_tracked ops : tracked (run ops).
Proof.
  unfold run.
  assert (Hgen : forall st, tracked st -> tracked (fold_left track ops st)).
  { induction ops as [|o ops IH]; simpl; intros st Hst; [assumption|].
    apply IH, track_tracked, Hst. }
  apply Hgen. split; [apply empty_wf|]. simpl. tauto.
Qed.

(** What [list()] shows: the keys, highest first. *)
Lemma listed_ids_keys db :
  wf db -> listed_ids db = map Some (rev (keys db)).
Proof.
  intros Hwf. unfold listed_ids, getAllNotes, getAll, keys.
  rewrite <- !map_rev, !map_map. apply map_ext_in.
  intros [k v] Hin. simpl. apply in_rev in Hin.
  pose proof (wf_inline Hwf) as Hall. rewrite Forall_forall in Hall.
  apply (Hall _ Hin).
Qed.

(** What a successful save leaves under the key it reports. *)
Lemma saveNote_persists note db k db' :
  saveNote note db = (Resolved k, db') ->
  exists r, getNote k db' = Some r
    /\ id r = Some k
    /\ title r = sanitizeInput (title note)
    /\ text r = sanitizeInput (text note)
    /\ language r = language note
    /\ timestamp r = timestamp note
    /\ tags r = tags note.
Proof.
  intros Hsave.
  destruct (saveNote_request note db) as (b & v & Hreq & Ht & Hx & Hl & Hs & Hg & Hi).
  rewrite Hreq in Hsave. apply store_request_resolved in Hsave.
  destruct Hsave as [Hrec Hkey].
  exists (stored_value k v). unfold getNote, get. rewrite Hrec.
  split; [apply lookup_store_record_same|].
  unfold stored_value. simpl in *. destruct (id v) as [k'|] eqn:Hid.
  - destruct Hkey as [-> _]. tauto.
  - simpl. tauto.
Qed.

Lemma put_explicit (v : Note) (db : DB) k :
  fault db = None -> id v = Some k ->
  put v db = (Resolved k, mkStore (store_record k v (records db))
                                  (possibly_update k (current_number db)) None).
Proof. intros Hf Hid. unfold put, store_request. simpl. now rewrite Hf, Hid. Qed.

Lemma saveNote_insert_first n db k db' :
  wf db -> truthy_id (id n) = false -> saveNote n db = (Resolved k, db') ->
  listed_ids db' = Some k :: listed_ids db.
Proof.
  intros Hwf Hid Hsave. unfold saveNote in Hsave. rewrite Hid in Hsave.
  apply (store_request_generated _ _ Hwf) in Hsave; [|reflexivity].
  unfold listed_ids, getAllNotes, getAll. rewrite Hsave.
  now rewrite map_app, rev_app_distr.
Qed.

Lemma saveNote_update_in_place n db k :
  wf db -> fault db = None -> id n = Some k -> k <> 0 -> In k (keys db) ->
  fst (saveNote n db) = Resolved k
  /\ listed_ids (snd (saveNote n db)) = listed_ids db.
Proof.
  intros Hwf Hfault Hid Hk Hin. unfold saveNote.
  assert (Ht : truthy_id (id n) = true).
  { rewrite Hid. simpl. apply Z.eqb_neq in Hk. now rewrite Hk. }
  rewrite Ht, (@put_explicit _ db k Hfault) by (now rewrite Hid).
  split; [reflexivity|]. simpl.
  pose proof (store_request_wf extract_inject false
    (with_id (id n) (mkNote None (sanitizeInput (title n))
       (sanitizeInput (text n)) (language n) (timestamp n) (tags n))) Hwf) as Hwf'.
  unfold store_request in Hwf'. rewrite Hfault in Hwf'.
  simpl in Hwf'. rewrite Hid in Hwf'.
  simpl in Hwf'. rewrite Hid.
  rewrite (listed_ids_keys Hwf'), (listed_ids_keys Hwf).
  unfold keys. simpl.
  now rewrite (store_record_keys_present _ _ (wf_ascending Hwf) Hin).
Qed.

Lemma saveNote_wf (n : Note) (d : DB) : wf d -> wf (snd (saveNote n d)).
Proof.
  intros Hwf. unfold saveNote, put, add.
  destruct (truthy_id (id n)); now apply (store_request_wf extract_inject).
Qed.

Lemma saveNote_fault (n : Note) (d : DB) : fault (snd (saveNote n d)) = fault d.
Proof.
  unfold saveNote, put, add.
  destruct (truthy_id (id n)); apply store_request_fault.
Qed.

Lemma saveNote_healthy (n : Note) (d d' : DB) k :
  saveNote n d = (Resolved k, d') -> fault d = None /\ fault d' = None.
Proof.
  unfold saveNote, put, add.
  destruct (truthy_id (id n)); apply store_request_healthy.
Qed.

Lemma deleteNote_unlisted k db :
  wf db -> ~ In (Some k) (listed_ids (snd (deleteNote k db))).
Proof.
  intros Hwf. unfold deleteNote.
  rewrite (listed_ids_keys (delete_wf k Hwf)).
  rewrite in_map_iff. intros (k' & [= ->] & Hin).
  apply in_rev in Hin. unfold keys in Hin. simpl in Hin.
  apply in_keys_delete_record in Hin. tauto.
Qed.

(** C1, as amended.  On a fresh store and after any sequence of saves and
    deletes, [getAllNotes] lists exactly the ids saved and not deleted
    since, in strictly decreasing id order.  A note inserted next comes
    first; a save of a listed id keeps every note where it was; a deleted
    id is not listed. *)
Theorem getAllNotes_follows_key_order (ops : list op) :
  let db := fst (run ops) in
  (forall k, In (Some k) (listed_ids db) <-> In k (snd (run ops)))
  /\ listed_ids db = map Some (rev (keys db))
  /\ StronglySorted Z.lt (keys db)
  /\ (forall n k db', truthy_id (id n) = false ->
        saveNote n db = (Resolved k, db') ->
        listed_ids db' = Some k :: listed_ids db)
  /\ (forall n k, id n = Some k -> k <> 0 -> In k (keys db) ->
        fst (saveNote n db) = Resolved k
        /\ listed_ids (snd (saveNote n db)) = listed_ids db)
  /\ (forall k, ~ In (Some k) (listed_ids (snd (deleteNote k db)))).
Proof.
  destruct (run_tracked ops) as (Hwf & Hkeys & Hfault). cbv zeta.
  split; [|split; [|split; [|split; [|split]]]].
  - intros k. rewrite (listed_ids_keys Hwf). split.
    + rewrite in_map_iff.
      intros (k' & [= ->] & Hin). apply Hkeys. now apply in_rev.
    + intros Hin. apply in_map. rewrite <- in_rev. now apply Hkeys.
  - apply (listed_ids_keys Hwf).
  - apply (wf_ascending Hwf).
  - intros n k db'. now apply saveNote_insert_first.
  - intros n k. now apply saveNote_update_in_place.
  - intros k. now apply deleteNote_unlisted.
Qed.

(** C1, the sentence as written, fails twice.  After two inserts and an
    update of the first note, the second note is still listed first though
    the first was saved last; and an id that was deleted is listed again
    once a save names it. *)
Lemma getAllNotes_not_recency_order :
  (listed_ids (fst (run [Save (draft "a"); Save (draft "b");
                         Save (with_id (Some 1) (draft "a2"))]))
     = [Some 2; Some 1]
   /\ snd (run [Save (draft "a"); Save (draft "b");
                Save (with_id (Some 1) (draft "a2"))]) = [1; 2]
   /\ ~ lists_last_saved_first [Save (draft "a"); Save (draft "b");
                                Save (with_id (Some 1) (draft "a2"))])
  /\ (listed_ids (fst (run [Save (draft "a"); Delete 1;
                            Save (with_id (Some 1) (draft "a"))]))
       = [Some 1]
      /\ ~ never_lists_deleted [Save (draft "a"); Delete 1;
                                Save (with_id (Some 1) (draft "a"))]).
Proof.
  split; [split; [|split]|split].
  - reflexivity.
  - reflexivity.
  - unfold lists_last_saved_first. vm_compute. discriminate.
  - reflexivity.
  - intros Hnever. apply (Hnever 1).
    + simpl. tauto.
    + vm_compute. tauto.
Qed.

(** The update clause of [getAllNotes_follows_key_order] at work: both
    notes stay where they were when the older one is saved again. *)
Lemma getAllNotes_follows_key_order_witness :
  fst (saveNote (with_id (Some 1) (draft "a2"))
         (fst (run [Save (draft "a"); Save (draft "b")]))) = Resolved 1
  /\ listed_ids (snd (saveNote (with_id (Some 1) (draft "a2"))
                        (fst (run [Save (draft "a"); Save (draft "b")]))))
     = listed_ids (fst (run [Save (draft "a"); Save (draft "b")])).
Proof.
  apply (getAllNotes_follows_key_order [Save (draft "a"); Save (draft "b")]).
  - reflexivity.
  - lia.
  - vm_compute. tauto.
Defined.

End AppFacts.

(* ------------------------------------------------------------------ *)
(** ** JSON: parsing what [stringify] wrote *)

Module JSONFacts.

Import JSON.
Local Open Scope N_scope.

(** *** Strings *)

Lemma hex_value_digit d : d < 16 -> hex_value (hex_digit d) = Some d.
Proof.
  intros Hd. unfold hex_value, hex_digit.
  destruct (d <? 10) eqn:Hlt.
  - apply N.ltb_lt in Hlt.
    replace ((48 <=? 48 + d) && (48 + d <=? 57)) with true
      by (symmetry; apply andb_true_iff; split; apply N.leb_le; lia).
    f_equal. lia.
  - apply N.ltb_ge in Hlt.
    replace ((48 <=? 87 + d) && (87 + d <=? 57)) with false
      by (symmetry; apply andb_false_iff; right; apply N.leb_gt; lia).
    replace ((97 <=? 87 + d) && (87 + d <=? 102)) with true
      by (symmetry; apply andb_true_iff; split; apply N.leb_le; lia).
    f_equal. lia.
Qed.

Lemma hex_recombine c :
  c < 65536 ->
  c / 4096 mod 16 * 4096 + c / 256 mod 16 * 256 + c / 16 mod 16 * 16 + c mod 16 = c.
Proof.
  intros Hc.
  pose proof (N.div_mod c 16 ltac:(lia)) as H0.
  pose proof (N.div_mod (c / 16) 16 ltac:(lia)) as H1.
  pose proof (N.div_mod (c / 16 / 16) 16 ltac:(lia)) as H2.
  rewrite N.Div0.div_div in H1, H2. rewrite N.Div0.div_div in H2.
  change (16 * 16) with 256 in *. change (256 * 16) with 4096 in *.
  assert (H3 : c / 4096 < 16) by (apply N.Div0.div_lt_upper_bound; lia).
  rewrite (N.mod_small (c / 4096) 16) by assumption.
  lia.
Qed.

Lemma parse_chars_raw c t :
  c <> 34 -> c <> 92 -> 32 <= c ->
  parse_chars (c :: t) = prepend c (parse_chars t).
Proof.
  intros H34 H92 H32. cbn [parse_chars]. unfold quotation, backslash.
  apply N.eqb_neq in H34, H92. apply N.ltb_ge in H32.
  now rewrite H34, H92, H32.
Qed.

Lemma parse_chars_unicode c t :
  c < 65536 ->
  parse_chars (unicode_escape c ++ t) = prepend c (parse_chars t).
Proof.
  intros Hc. unfold unicode_escape. cbn [app parse_chars].
  change (backslash =? quotation) with false.
  change (backslash =? backslash) with true.
  change (117 =? 117) with true. cbv iota.
  rewrite !hex_value_digit by (apply N.mod_lt; lia).
  now rewrite hex_recombine.
Qed.

Lemma parse_chars_quote_unit c t :
  parse_chars (quote_unit c ++ t) = prepend c (parse_chars t).
Proof.
  unfold quote_unit.
  destruct (c =? 8) eqn:E8; [apply N.eqb_eq in E8; subst; reflexivity|].
  destruct (c =? 9) eqn:E9; [apply N.eqb_eq in E9; subst; reflexivity|].
  destruct (c =? 10) eqn:E10; [apply N.eqb_eq in E10; subst; reflexivity|].
  destruct (c =? 12) eqn:E12; [apply N.eqb_eq in E12; subst; reflexivity|].
  destruct (c =? 13) eqn:E13; [apply N.eqb_eq in E13; subst; reflexivity|].
  destruct (c =? 34) eqn:E34; [apply N.eqb_eq in E34; subst; reflexivity|].
  destruct (c =? 92) eqn:E92; [apply N.eqb_eq in E92; subst; reflexivity|].
  apply N.eqb_neq in E34, E92.
  destruct ((c <? 32) || is_leading c || is_trailing c) eqn:Hesc.
  - apply parse_chars_unicode.
    apply orb_true_iff in Hesc. destruct Hesc as [Hesc|Hesc].
    + apply orb_true_iff in Hesc. destruct Hesc as [Hesc|Hesc].
      * apply N.ltb_lt in Hesc. lia.
      * unfold is_leading in Hesc. apply andb_true_iff in Hesc.
        destruct Hesc as [_ Hle]. apply N.leb_le in Hle. lia.
    + unfold is_trailing in Hesc. apply andb_true_iff in Hesc.
      destruct Hesc as [_ Hle]. apply N.leb_le in Hle. lia.
  - apply orb_false_iff in Hesc. destruct Hesc as [Hesc _].
    apply orb_false_iff in Hesc. destruct Hesc as [Hesc _].
    apply N.ltb_ge in Hesc. simpl. now apply parse_chars_raw.
Qed.

Lemma quote_units_cons c d s :
  quote_units (c :: d :: s)
  = if is_leading c && is_trailing d then c :: d :: quote_units s
    else quote_unit c ++ quote_units (d :: s).
Proof. reflexivity. Qed.

Lemma parse_chars_quote_units s rest :
  parse_chars (quote_units s ++ quotation :: rest) = Some (s, rest).
Proof.
  assert (Hgen : forall n s, (List.length s <= n)%nat ->
            parse_chars (quote_units s ++ quotation :: rest) = Some (s, rest)).
  { clear s. induction n as [|n IH]; intros s Hlen.
    - destruct s; [reflexivity|simpl in Hlen; lia].
    - destruct s as [|c s']; [reflexivity|].
      destruct s' as [|d s''].
      + simpl quote_units. rewrite parse_chars_quote_unit. reflexivity.
      + simpl in Hlen. rewrite quote_units_cons.
        destruct (is_leading c && is_trailing d) eqn:Hpair.
        * apply andb_true_iff in Hpair. destruct Hpair as [Hc Hd].
          unfold is_leading in Hc. unfold is_trailing in Hd.
          apply andb_true_iff in Hc, Hd.
          destruct Hc as [Hc _]. destruct Hd as [Hd _].
          apply N.leb_le in Hc, Hd.
          cbn [app]. rewrite parse_chars_raw by lia.
          rewrite parse_chars_raw by lia.
          rewrite IH by lia. reflexivity.
        * rewrite <- app_assoc, parse_chars_quote_unit.
          rewrite IH by (simpl; lia). reflexivity. }
  apply (Hgen (List.length s)). lia.
Qed.

Lemma parse_chars_quote s rest :
  exists t, quote s ++ rest = quotation :: t /\ parse_chars t = Some (s, rest).
Proof.
  exists (quote_units s ++ quotation :: rest). split.
  - unfold quote. simpl. now rewrite <- app_assoc.
  - apply parse_chars_quote_units.
Qed.

(** *** Numbers *)

Lemma parse_digits_digits u rest :
  not_digit_next rest -> parse_digits (digits u ++ rest) = (u, rest).
Proof.
  intros Hrest. induction u; simpl;
    try (rewrite IHu; reflexivity).
  destruct rest as [|c r]; [reflexivity|]. simpl in *. now rewrite Hrest.
Qed.

(** [N.to_uint] writes no leading zero. *)
Lemma to_uint_normal n :
  match N.to_uint n with
  | Decimal.Nil => False
  | Decimal.D0 Decimal.Nil => True
  | Decimal.D0 _ => False
  | _ => True
  end.
Proof.
  assert (Hnorm : N.to_uint n = Decimal.unorm (N.to_uint n)).
  { rewrite <- DecimalN.Unsigned.to_of. now rewrite DecimalN.Unsigned.of_to. }
  rewrite Hnorm. unfold Decimal.unorm.
  pose proof (DecimalFacts.nzhead_nonzero (N.to_uint n)) as Hnz.
  destruct (Decimal.nzhead (N.to_uint n)) as [|u| | | | | | | | | ]; try exact I.
  exfalso. now apply (Hnz u).
Qed.

Lemma ends_number_not_digit rest : ends_number rest = true -> not_digit_next rest.
Proof.
  destruct rest as [|c r]; simpl; [trivial|].
  rewrite negb_true_iff. intros Hn.
  apply orb_false_iff in Hn. destruct Hn as [Hn _].
  apply orb_false_iff in Hn. destruct Hn as [Hn _].
  now apply orb_false_iff in Hn.
Qed.

Lemma digits_head u :
  u <> Decimal.Nil -> exists c t, digits u = c :: t /\ is_digit c = true.
Proof.
  destruct u; intros Hu; try congruence; simpl; eexists; eexists;
    (split; [reflexivity|reflexivity]).
Qed.

Lemma parse_number_to_string z rest :
  ends_number rest = true ->
  parse_number (number_to_string z ++ rest) = Some (z, rest).
Proof.
  intros Hend. unfold parse_number, number_to_string.
  pose proof (to_uint_normal (Z.abs_N z)) as Hnormal.
  assert (Hnil : N.to_uint (Z.abs_N z) <> Decimal.Nil)
    by (intros Hn; now rewrite Hn in Hnormal).
  assert (Hval : Z.of_N (N.of_uint (N.to_uint (Z.abs_N z))) = Z.abs z)
    by (rewrite DecimalN.Unsigned.of_to; apply N2Z.inj_abs_N).
  destruct (z <? 0)%Z eqn:Hneg.
  - unfold parse_sign. cbn [app]. change (45 =? 45) with true. cbv iota beta.
    rewrite (parse_digits_digits _ _ (ends_number_not_digit _ Hend)).
    rewrite Hend, Hval. apply Z.ltb_lt in Hneg.
    replace (- Z.abs z)%Z with z by lia.
    destruct (N.to_uint (Z.abs_N z)) as [|u| | | | | | | | | ];
      try reflexivity; try contradiction.
    destruct u; try contradiction; reflexivity.
  - rewrite app_nil_l. destruct (digits_head Hnil) as (c & t & Hd & Hc).
    assert (H45 : (c =? 45) = false).
    { unfold is_digit in Hc. apply andb_true_iff in Hc. destruct Hc as [Hc _].
      apply N.leb_le in Hc. apply N.eqb_neq. lia. }
    assert (Hsign : parse_sign (digits (N.to_uint (Z.abs_N z)) ++ rest)
                    = (false, digits (N.to_uint (Z.abs_N z)) ++ rest)).
    { unfold parse_sign. rewrite Hd. cbn [app]. now rewrite H45. }
    rewrite Hsign. cbv iota beta.
    rewrite (parse_digits_digits _ _ (ends_number_not_digit _ Hend)).
    rewrite Hend, Hval. apply Z.ltb_ge in Hneg.
    replace (Z.abs z) with z by lia.
    destruct (N.to_uint (Z.abs_N z)) as [|u| | | | | | | | | ];
      try reflexivity; try contradiction.
    destruct u; try contradiction; reflexivity.
Qed.

(** *** Values *)

Lemma skip_ws_indentation n s : skip_ws (indentation n ++ s) = skip_ws s.
Proof. induction n as [|n IH]; simpl; auto. Qed.

Lemma skip_ws_line n c t :
  is_ws c = false -> skip_ws (newline :: indentation n ++ c :: t) = c :: t.
Proof.
  intros Hc. change (skip_ws (newline :: indentation n ++ c :: t))
    with (skip_ws (indentation n ++ c :: t)).
  rewrite skip_ws_indentation. simpl. now rewrite Hc.
Qed.

Lemma number_head z rest :
  exists c t, number_to_string z ++ rest = c :: t
              /\ (c = 45 \/ is_digit c = true).
Proof.
  unfold number_to_string. destruct (z <? 0)%Z.
  - simpl. eauto.
  - pose proof (to_uint_normal (Z.abs_N z)) as Hn.
    destruct (@digits_head (N.to_uint (Z.abs_N z))) as (c & t & Hd & Hc).
    { intros Hnil. now rewrite Hnil in Hn. }
    simpl. rewrite Hd. simpl. eauto.
Qed.

(** The text of a value starts with a character that is neither white
    space nor a closing bracket. *)
Lemma serialize_head indent v :
  exists (c : code_unit) (t : jsstring), serialize indent v = c :: t
              /\ is_ws c = false /\ (c =? 93) = false /\ (c =? 125) = false.
Proof.
  destruct v as [|[|]|z|s|[|x xs]|[|kv kvs]];
    try (simpl; eexists; eexists; split; [reflexivity|repeat split; reflexivity]).
  destruct (number_head z []) as (c & t & Hs & Hc).
  rewrite app_nil_r in Hs. simpl. exists c, t. split; [assumption|].
  destruct Hc as [->|Hc]; [repeat split; reflexivity|].
  unfold is_digit in Hc. apply andb_true_iff in Hc. destruct Hc as [Hlo Hhi].
  apply N.leb_le in Hlo, Hhi. unfold is_ws.
  repeat split; repeat (apply orb_false_iff; split); apply N.eqb_neq; lia.
Qed.

Lemma join_head (sep p : jsstring) (ps : list jsstring) (c : code_unit)
      (t : jsstring) :
  p = c :: t -> exists t' : jsstring, join sep (p :: ps) = c :: t'.
Proof.
  intros ->. destruct ps; simpl; eauto.
Qed.

Lemma parse_value_number f s c t :
  s = c :: t -> c = 45 \/ is_digit c = true ->
  parse_value (S f) s
  = match parse_number s with
    | Some (z, rest) => Some (Num z, rest)
    | None => None
    end.
Proof.
  intros -> Hc. cbn [parse_value]. unfold quotation.
  assert (Hne : (c =? 110) = false /\ (c =? 116) = false /\ (c =? 102) = false
                /\ (c =? 34) = false /\ (c =? 91) = false /\ (c =? 123) = false).
  { destruct Hc as [->|Hc]; [repeat split; reflexivity|].
    unfold is_digit in Hc. apply andb_true_iff in Hc. destruct Hc as [Hlo Hhi].
    apply N.leb_le in Hlo, Hhi. repeat split; apply N.eqb_neq; lia. }
  destruct Hne as (H1 & H2 & H3 & H4 & H5 & H6).
  now rewrite H1, H2, H3, H4, H5, H6.
Qed.

Lemma elements_size_cons x xs :
  elements_size (x :: xs) = S (size x + elements_size xs).
Proof. reflexivity. Qed.

Lemma members_size_cons k x kvs :
  members_size ((k, x) :: kvs) = S (size x + members_size kvs).
Proof. reflexivity. Qed.

Lemma size_Arr items : size (Arr items) = S (elements_size items).
Proof. reflexivity. Qed.

Lemma size_Obj members : size (Obj members) = S (members_size members).
Proof. reflexivity. Qed.

Lemma parse_serialize (fuel : nat) :
  (forall v indent rest,
      (size v <= fuel)%nat -> ends_number rest = true ->
      parse_value fuel (serialize indent v ++ rest) = Some (v, rest))
  /\ (forall items inner indent rest,
      items <> [] -> (elements_size items <= fuel)%nat ->
      parse_elements fuel
        (join (separator inner) (map (serialize inner) items)
         ++ closing indent 93 rest) = Some (items, rest))
  /\ (forall members inner indent rest,
      members <> [] -> (members_size members <= fuel)%nat ->
      parse_members fuel
        (join (separator inner) (map (member_text (serialize inner)) members)
         ++ closing indent 125 rest) = Some (members, rest)).
Proof.
  induction fuel as [|f (IHv & IHe & IHm)].
  - split; [|split].
    + intros v indent rest Hsize. destruct v; simpl in Hsize; lia.
    + intros [|x xs] inner indent rest Hne Hsize; [congruence|simpl in Hsize; lia].
    + intros [|x xs] inner indent rest Hne Hsize; [congruence|simpl in Hsize; lia].
  - split; [|split].
    + (* values *)
      intros v indent rest Hsize Hend.
      destruct v as [|[|]|z|s|[|x xs]|[|[k x] kvs]]; try reflexivity.
      * (* numbers *)
        destruct (number_head z rest) as (c & t & Hs & Hc).
        change (serialize indent (Num z)) with (number_to_string z).
        rewrite (parse_value_number f Hs Hc).
        now rewrite parse_number_to_string.
      * (* strings *)
        change (serialize indent (Str s)) with (quote s).
        destruct (parse_chars_quote s rest) as (t & Hq & Hp).
        rewrite Hq. cbn [parse_value].
        change (quotation =? 110) with false. change (quotation =? 116) with false.
        change (quotation =? 102) with false.
        change (quotation =? quotation) with true. cbv iota.
        now rewrite Hp.
      * (* arrays *)
        destruct (serialize_head (indent + 2) x) as (c & t & Hx & Hws & H93 & _).
        destruct (join_head (separator (indent + 2))
                    (map (serialize (indent + 2)) xs) Hx) as (t' & Hj).
        assert (Htext : serialize indent (Arr (x :: xs)) ++ rest
                = 91 :: newline :: indentation (indent + 2)
                  ++ c :: t' ++ closing indent 93 rest).
        { assert (Hser : serialize indent (Arr (x :: xs))
                   = [91; newline] ++ indentation (indent + 2)
                     ++ join (separator (indent + 2))
                          (serialize (indent + 2) x
                           :: map (serialize (indent + 2)) xs)
                     ++ [newline] ++ indentation indent ++ [93])
            by reflexivity.
          rewrite Hser, Hj. unfold closing.
          rewrite <- !app_assoc. reflexivity. }
        rewrite Htext. cbn [parse_value].
        change (91 =? 110) with false. change (91 =? 116) with false.
        change (91 =? 102) with false. change (91 =? quotation) with false.
        change (91 =? 91) with true. cbv iota.
        rewrite skip_ws_line by exact Hws. rewrite H93.
        assert (Hrest : c :: t' ++ closing indent 93 rest
                = join (separator (indent + 2))
                    (map (serialize (indent + 2)) (x :: xs))
                  ++ closing indent 93 rest).
        { change (map (serialize (indent + 2)) (x :: xs))
            with (serialize (indent + 2) x :: map (serialize (indent + 2)) xs).
          now rewrite Hj. }
        rewrite Hrest, IHe; [reflexivity|discriminate|].
        rewrite size_Arr in Hsize. lia.
      * (* objects *)
        assert (Hj : exists t', join (separator (indent + 2))
                       (map (member_text (serialize (indent + 2))) ((k, x) :: kvs))
                     = quotation :: t').
        { eapply join_head. unfold member_text, quote. simpl. reflexivity. }
        destruct Hj as (t' & Hj).
        assert (Htext : serialize indent (Obj ((k, x) :: kvs)) ++ rest
                = 123 :: newline :: indentation (indent + 2)
                  ++ quotation :: t' ++ closing indent 125 rest).
        { assert (Hser : serialize indent (Obj ((k, x) :: kvs))
                   = [123; newline] ++ indentation (indent + 2)
                     ++ join (separator (indent + 2))
                          (map (member_text (serialize (indent + 2)))
                               ((k, x) :: kvs))
                     ++ [newline] ++ indentation indent ++ [125])
            by reflexivity.
          rewrite Hser, Hj. unfold closing.
          rewrite <- !app_assoc. reflexivity. }
        rewrite Htext. cbn [parse_value].
        change (123 =? 110) with false. change (123 =? 116) with false.
        change (123 =? 102) with false. change (123 =? quotation) with false.
        change (123 =? 91) with false. change (123 =? 123) with true. cbv iota.
        rewrite skip_ws_line by reflexivity.
        change (quotation =? 125) with false. cbv iota.
        assert (Hrest : quotation :: t' ++ closing indent 125 rest
                = join (separator (indent + 2))
                    (map (member_text (serialize (indent + 2))) ((k, x) :: kvs))
                  ++ closing indent 125 rest) by now rewrite Hj.
        rewrite Hrest, IHm; [reflexivity|discriminate|].
        rewrite size_Obj in Hsize. lia.
    + (* elements *)
      intros [|x xs] inner indent rest Hne Hsize; [congruence|].
      rewrite elements_size_cons in Hsize.
      cbn [parse_elements].
      destruct xs as [|y ys].
      * change (join (separator inner) (map (serialize inner) [x]))
          with (serialize inner x).
        rewrite IHv by (try reflexivity; lia).
        unfold closing. rewrite skip_ws_line by reflexivity.
        reflexivity.
      * change (join (separator inner) (map (serialize inner) (x :: y :: ys)))
          with (serialize inner x ++ separator inner
                ++ join (separator inner) (map (serialize inner) (y :: ys))).
        rewrite <- !app_assoc.
        rewrite IHv by (try reflexivity; lia).
        destruct (serialize_head inner y) as (c & t & Hy & Hws & _).
        destruct (join_head (separator inner) (map (serialize inner) ys) Hy)
          as (t' & Hj).
        change (map (serialize inner) (y :: ys))
          with (serialize inner y :: map (serialize inner) ys).
        unfold separator at 1. cbn [app skip_ws].
        change (is_ws 44) with false. cbv iota.
        change (44 =? 44) with true. cbv iota.
        pose proof Hj as Hj'. rewrite Hj. cbn [app].
        rewrite skip_ws_line by exact Hws.
        assert (Hrest : c :: t' ++ closing indent 93 rest
                = join (separator inner) (map (serialize inner) (y :: ys))
                  ++ closing indent 93 rest).
        { change (map (serialize inner) (y :: ys))
            with (serialize inner y :: map (serialize inner) ys).
          now rewrite Hj'. }
        rewrite Hrest, IHe; [reflexivity|discriminate|].
        lia.
    + (* members *)
      intros [|[k x] kvs] inner indent rest Hne Hsize; [congruence|].
      rewrite members_size_cons in Hsize.
      destruct kvs as [|[k' y] kvs'].
      * change (join (separator inner)
                  (map (member_text (serialize inner)) [(k, x)]))
          with (quote k ++ [58; space] ++ serialize inner x).
        rewrite <- !app_assoc.
        match goal with
        | |- context [quote k ++ ?r] =>
            destruct (parse_chars_quote k r) as (t & Hq & Hp)
        end.
        rewrite Hq. cbn [parse_members].
        change (quotation =? quotation) with true. cbv iota.
        rewrite Hp. cbn [app skip_ws].
        change (is_ws 58) with false. cbv iota.
        change (58 =? 58) with true. cbv iota.
        destruct (serialize_head inner x) as (c & t0 & Hx & Hws & _).
        pose proof Hx as Hx'. rewrite Hx. cbn [app skip_ws]. rewrite Hws.
        change (is_ws space) with true. cbv iota.
        assert (Hrest : c :: t0 ++ closing indent 125 rest
                = serialize inner x ++ closing indent 125 rest)
          by now rewrite Hx'.
        rewrite Hrest, IHv by (try reflexivity; lia).
        unfold closing. rewrite skip_ws_line by reflexivity.
        reflexivity.
      * change (join (separator inner)
                  (map (member_text (serialize inner)) ((k, x) :: (k', y) :: kvs')))
          with ((quote k ++ [58; space] ++ serialize inner x) ++ separator inner
                ++ join (separator inner)
                     (map (member_text (serialize inner)) ((k', y) :: kvs'))).
        rewrite <- !app_assoc.
        match goal with
        | |- context [quote k ++ ?r] =>
            destruct (parse_chars_quote k r) as (t & Hq & Hp)
        end.
        rewrite Hq. cbn [parse_members].
        change (quotation =? quotation) with true. cbv iota.
        rewrite Hp. cbn [app skip_ws].
        change (is_ws 58) with false. cbv iota.
        change (58 =? 58) with true. cbv iota.
        destruct (serialize_head inner x) as (c & t0 & Hx & Hws & _).
        pose proof Hx as Hx'. rewrite Hx. cbn [app skip_ws]. rewrite Hws.
        change (is_ws space) with true. cbv iota.
        assert (Hrest : forall tail, c :: t0 ++ tail = serialize inner x ++ tail)
          by (intros; now rewrite Hx').
        rewrite Hrest, IHv by (try reflexivity; lia).
        assert (Hj : exists t', join (separator inner)
                       (map (member_text (serialize inner)) ((k', y) :: kvs'))
                     = quotation :: t').
        { eapply join_head. unfold member_text, quote. simpl. reflexivity. }
        destruct Hj as (t' & Hj). pose proof Hj as Hj'.
        unfold separator at 1. cbn [app skip_ws].
        change (is_ws 44) with false. cbv iota.
        change (44 =? 44) with true. cbv iota.
        rewrite Hj. cbn [app]. rewrite skip_ws_line by reflexivity.
        assert (Hrest' : quotation :: t' ++ closing indent 125 rest
                = join (separator inner)
                    (map (member_text (serialize inner)) ((k', y) :: kvs'))
                  ++ closing indent 125 rest) by now rewrite Hj'.
        rewrite Hrest', IHm; [reflexivity|discriminate|].
        lia.
Qed.

(** The text of a value is at least as long as the fuel it needs. *)
Lemma size_le_length n : forall v indent,
  (size v <= n)%nat -> (size v <= List.length (serialize indent v))%nat.
Proof.
  induction n as [|n IH]; intros v indent Hn.
  - destruct v; simpl in Hn; lia.
  - destruct v as [|[|]|z|s|items|members]; try (simpl; lia).
    + destruct (number_head z []) as (c & t & Hs & _).
      rewrite app_nil_r in Hs. simpl. rewrite Hs. simpl. lia.
    + destruct items as [|x xs]; [simpl; lia|].
      rewrite size_Arr in *.
      assert (Hitems : forall inner items,
                (elements_size items <= n)%nat ->
                (elements_size items
                 <= List.length (join (separator inner)
                                      (map (serialize inner) items)) + 1)%nat).
      { intros inner. induction items as [|y ys IHys]; intros Hle; [simpl; lia|].
        rewrite elements_size_cons in *.
        assert (Hy : (size y <= List.length (serialize inner y))%nat)
          by (apply IH; lia).
        destruct ys as [|y' ys'].
        - simpl. unfold elements_size. simpl. lia.
        - change (join (separator inner) (map (serialize inner) (y :: y' :: ys')))
            with (serialize inner y ++ separator inner
                  ++ join (separator inner) (map (serialize inner) (y' :: ys'))).
          rewrite !length_app.
          assert (Hys : (elements_size (y' :: ys')
                         <= List.length (join (separator inner)
                              (map (serialize inner) (y' :: ys'))) + 1)%nat)
            by (apply IHys; lia).
          unfold separator in *. rewrite length_app. cbn [List.length]. lia. }
      specialize (Hitems (indent + 2)%nat (x :: xs) ltac:(lia)).
      assert (Hser : serialize indent (Arr (x :: xs))
               = [91; newline] ++ indentation (indent + 2)
                 ++ join (separator (indent + 2))
                      (map (serialize (indent + 2)) (x :: xs))
                 ++ [newline] ++ indentation indent ++ [93])
        by reflexivity.
      rewrite Hser, !length_app. cbn [List.length]. lia.
    + destruct members as [|[k x] kvs]; [simpl; lia|].
      rewrite size_Obj in *.
      assert (Hmembers : forall inner members,
                (members_size members <= n)%nat ->
                (members_size members
                 <= List.length (join (separator inner)
                      (map (member_text (serialize inner)) members)) + 1)%nat).
      { intros inner. induction members as [|[k0 y] ys IHys]; intros Hle;
          [simpl; lia|].
        rewrite members_size_cons in *.
        assert (Hy : (size y <= List.length (member_text (serialize inner) (k0, y)))%nat).
        { unfold member_text. rewrite !length_app.
          assert (size y <= List.length (serialize inner y))%nat by (apply IH; lia).
          lia. }
        destruct ys as [|[k1 y'] ys'].
        - change (join (separator inner)
                    (map (member_text (serialize inner)) [(k0, y)]))
            with (member_text (serialize inner) (k0, y)).
          unfold members_size. simpl fold_right. lia.
        - change (join (separator inner)
                    (map (member_text (serialize inner)) ((k0, y) :: (k1, y') :: ys')))
            with (member_text (serialize inner) (k0, y) ++ separator inner
                  ++ join (separator inner)
                       (map (member_text (serialize inner)) ((k1, y') :: ys'))).
          rewrite !length_app.
          assert (Hys : (members_size ((k1, y') :: ys')
                         <= List.length (join (separator inner)
                              (map (member_text (serialize inner))
                                   ((k1, y') :: ys'))) + 1)%nat)
            by (apply IHys; lia).
          unfold separator in *. rewrite length_app. cbn [List.length]. lia. }
      specialize (Hmembers (indent + 2)%nat ((k, x) :: kvs) ltac:(lia)).
      assert (Hser : serialize indent (Obj ((k, x) :: kvs))
               = [123; newline] ++ indentation (indent + 2)
                 ++ join (separator (indent + 2))
                      (map (member_text (serialize (indent + 2))) ((k, x) :: kvs))
                 ++ [newline] ++ indentation indent ++ [125])
        by reflexivity.
      rewrite Hser, !length_app. cbn [List.length]. lia.
Qed.

(** [JSON.parse(JSON.stringify(v, null, 2))] gives [v] back. *)
Lemma parse_stringify v : parse (stringify v) = Some v.
Proof.
  unfold parse, stringify.
  destruct (serialize_head 0 v) as (c & t & Hs & Hws & _).
  assert (Hskip : skip_ws (serialize 0 v) = serialize 0 v)
    by (rewrite Hs; simpl; now rewrite Hws).
  rewrite Hskip.
  rewrite <- (app_nil_r (serialize 0 v)) at 2.
  rewrite (proj1 (parse_serialize _)); [reflexivity| |reflexivity].
  pose proof (size_le_length (n := size v) v 0 (le_n _)). lia.
Qed.

End JSONFacts.

(* ------------------------------------------------------------------ *)
(** ** The hybrid script: gateway and insertion *)

Module HybridFacts.

Import IDB IDBFacts JSFacts Hybrid.
Local Open Scope Z_scope.

Lemma Hybrid_saveNote_request note db :
  exists b v, saveNote note db = store_request b v db
    /\ title v = sanitizeInput (title note)
    /\ text v = sanitizeInput (text note)
    /\ summary v = sanitized_summary (summary note)
    /\ language v = language note
    /\ timestamp v = timestamp note
    /\ tags v = tags note
    /\ id v = (if truthy_id (id note) then id note else None).
Proof.
  unfold saveNote. destruct (truthy_id (id note)).
  - exists false. eexists. split; [reflexivity|]. simpl. tauto.
  - exists true. eexists. split; [reflexivity|]. simpl. tauto.
Qed.

Lemma Hybrid_saveNote_persists note db k db' :
  saveNote note db = (Resolved k, db') ->
  exists r, getNote k db' = Some r
    /\ id r = Some k
    /\ title r = sanitizeInput (title note)
    /\ text r = sanitizeInput (text note)
    /\ summary r = sanitized_summary (summary note)
    /\ language r = language note
    /\ timestamp r = timestamp note
    /\ tags r = tags note.
Proof.
  intros Hsave.
  destruct (Hybrid_saveNote_request note db)
    as (b & v & Hreq & Ht & Hx & Hsum & Hl & Hs & Hg & Hi).
  rewrite Hreq in Hsave. apply store_request_resolved in Hsave.
  destruct Hsave as [Hrec Hkey].
  exists (stored_value k v). unfold getNote, get. rewrite Hrec.
  split; [apply lookup_store_record_same|].
  unfold stored_value. simpl in *. destruct (id v) as [k'|] eqn:Hid.
  - destruct Hkey as [-> _]. tauto.
  - simpl. tauto.
Qed.

Lemma Hybrid_scheduleAutoSave_text s :
  noteTextArea (elements (scheduleAutoSave s)) = noteTextArea (elements s)
  /\ currentNote (scheduleAutoSave s) = currentNote s.
Proof.
  unfold scheduleAutoSave, setTimeout, clearTimeout. simpl.
  destruct (saveTimeout s); simpl; split; reflexivity.
Qed.

(** A final slot is put in at the selection as it stands. *)
Lemma onresult_slot_inserted r s n :
  Engine.isFinal r = true -> currentNote s = Some n ->
  inserted (Engine.transcript r) s (onresult_slot s r).
Proof.
  intros Hfinal Hn. unfold inserted, onresult_slot. rewrite Hfinal. simpl.
  rewrite Hn. cbv zeta.
  match goal with
  | |- context [scheduleAutoSave ?x] =>
      destruct (Hybrid_scheduleAutoSave_text x) as (Ha & Hc); rewrite Ha, Hc
  end.
  rewrite set_value_then_select.
  rewrite substring_from_start, substring_to_end. simpl.
  split; [reflexivity|]. split; [|reflexivity].
  rewrite !length_app. simpl.
  rewrite length_firstn, length_skipn. lia.
Qed.

Lemma insertions_start ts s0 s s' :
  same_text s s0 -> insertions ts s0 s' -> insertions ts s s'.
Proof.
  intros [Ha Hc] Hins. destruct Hins as [s0 s' [Ha' Hc'] | t ts s0 s1 s' Hin Hrest].
  - constructor. split; congruence.
  - apply insertions_cons with s1; [|exact Hrest].
    unfold inserted in *. rewrite <- Ha. exact Hin.
Qed.

Lemma insertions_end ts : forall s s' s'',
  insertions ts s s' -> same_text s' s'' -> insertions ts s s''.
Proof.
  induction ts as [|t ts IH]; intros s s' s'' Hins [Ha Hc].
  - inversion Hins as [s0 s1 [Ha' Hc'] |]; subst.
    constructor. split; congruence.
  - inversion Hins as [|t0 ts0 s0 s1 s2 Hin Hrest]; subst.
    apply insertions_cons with s1; [exact Hin|].
    apply IH with s'; [exact Hrest|split; assumption].
Qed.

Lemma onresult_slots_insertions rs : forall s n,
  currentNote s = Some n ->
  insertions (map Engine.transcript (filter Engine.isFinal rs))
             s (fold_left onresult_slot rs s).
Proof.
  induction rs as [|r rs IH]; simpl; intros s n Hn.
  - constructor. split; reflexivity.
  - destruct (Engine.isFinal r) eqn:Hfinal.
    + pose proof (onresult_slot_inserted r s Hfinal Hn) as Hin.
      simpl. apply insertions_cons with (onresult_slot s r); [exact Hin|].
      destruct Hin as (_ & _ & Hc).
      destruct (currentNote (onresult_slot s r)) as [n'|] eqn:Hn';
        [|discriminate].
      now apply IH with n'.
    + apply insertions_start with (onresult_slot s r).
      * unfold onresult_slot. rewrite Hfinal. split; reflexivity.
      * apply IH with n. unfold onresult_slot. rewrite Hfinal. exact Hn.
Qed.

(** An event puts in its final slots from [resultIndex] on, each once and
    in order; the slots before [resultIndex] are not looked at. *)
Lemma onresult_insertions ev s n :
  currentNote s = Some n -> insertions (deltas ev) s (onresult ev s).
Proof.
  intros Hn. unfold onresult, deltas. cbv zeta.
  apply insertions_end
    with (fold_left onresult_slot
                    (skipn (Engine.resultIndex ev) (Engine.results ev))
                    (set_interimTranscript (js "") s));
    [|split; reflexivity].
  apply insertions_start with (set_interimTranscript (js "") s);
    [split; reflexivity|].
  now apply onresult_slots_insertions with n.
Qed.

End HybridFacts.

(* ------------------------------------------------------------------ *)
(** ** [app.js]: transcript assembly *)

Module AssemblerFacts.

Import JSFacts App.
Local Open Scope nat_scope.

(** What [scheduleAutoSave] leaves alone. *)
Lemma scheduleAutoSave_text s :
  noteTextArea (elements (scheduleAutoSave s)) = noteTextArea (elements s)
  /\ noteTitleInput (elements (scheduleAutoSave s)) = noteTitleInput (elements s)
  /\ currentNote (scheduleAutoSave s) = currentNote s
  /\ lastFinalizedLength (scheduleAutoSave s) = lastFinalizedLength s
  /\ db (scheduleAutoSave s) = db s.
Proof.
  unfold scheduleAutoSave, setTimeout, clearTimeout. simpl.
  destruct (saveTimeout s); simpl; repeat split; reflexivity.
Qed.

Ltac frame_autosave :=
  match goal with
  | |- context [scheduleAutoSave ?x] =>
      let Ha := fresh "Harea" in
      let Hc := fresh "Hnote" in
      destruct (scheduleAutoSave_text x) as (Ha & _ & Hc & _);
      rewrite ?Ha, ?Hc; clear Ha Hc
  end.

Lemma insertTranscript_spliced t s n :
  currentNote s = Some n -> spliced t s (insertTranscript t s).
Proof.
  intros Hn. unfold spliced, insertTranscript. rewrite Hn. cbv zeta.
  fold (cursor s). rewrite substring_from_start, substring_to_end.
  set (v := Dom.value (noteTextArea (elements s))).
  set (before := firstn (cursor s) v).
  set (after := skipn (cursor s) v).
  set (spacer := if (0 <? List.length before) && negb (endsWith before (js " "))
                    && negb (endsWith before [newline])
                 then js " " else js "").
  exists spacer. frame_autosave. rewrite set_value_then_select. simpl.
  split; [|split; [reflexivity|split; [|reflexivity]]].
  - subst spacer. change (js " ") with [space].
    destruct before as [|b0 before'] eqn:Hb.
    + right. split; [reflexivity|now left].
    + set (b := b0 :: before'). change (0 <? List.length b) with true.
      rewrite andb_true_l.
      destruct (endsWith b [space]) eqn:Hsp; simpl.
      * right. split; [reflexivity|]. right; left.
        now apply (endsWith_single b space 0%N) in Hsp.
      * destruct (endsWith b [newline]) eqn:Hnl; simpl.
        -- right. split; [reflexivity|]. right; right.
           now apply (endsWith_single b newline 0%N) in Hnl.
        -- left. split; [reflexivity|]. split; [discriminate|].
           apply (endsWith_single_false b space 0%N) in Hsp.
           apply (endsWith_single_false b newline 0%N) in Hnl.
           subst b. split; intuition discriminate.
  - rewrite !length_app. simpl.
    assert (Hlen : List.length before = Nat.min (cursor s) (List.length v))
      by (subst before; apply length_firstn).
    assert (Hafter : List.length after = List.length v - cursor s)
      by (subst after; apply length_skipn).
    lia.
Qed.

Lemma spliced_keeps_note t s s' :
  spliced t s s' -> exists n, currentNote s' = Some n.
Proof.
  intros (spacer & _ & _ & _ & Hnote).
  destruct (currentNote s') as [n|]; [now exists n|discriminate].
Qed.

(** Mobile mode: every final slot with something left after trimming is
    spliced in, in slot order. *)
Lemma handleMobileResults_splices ev s n :
  currentNote s = Some n -> splices (deltas ev) s (handleMobileResults ev s).
Proof.
  unfold handleMobileResults, deltas.
  generalize (Engine.results ev). intros rs. revert s n.
  induction rs as [|r rs IH]; simpl; intros s n Hn; [constructor|].
  destruct (Engine.isFinal r); simpl; [|now apply (IH s n)].
  rewrite Hn. simpl. rewrite andb_true_r.
  destruct (truthy_string (trim (Engine.transcript r))) eqn:Ht.
  - pose proof (insertTranscript_spliced (trim (Engine.transcript r)) s Hn) as Hsp.
    destruct (spliced_keeps_note Hsp) as [n' Hn'].
    econstructor; [exact Hsp|]. now apply (IH _ n').
  - now apply (IH s n).
Qed.

Lemma truthy_string_nonempty (t : jsstring) :
  truthy_string t = true <-> t <> [].
Proof. destruct t; simpl; split; congruence. Qed.

(** Desktop mode, when the final text has grown past what was committed. *)
Lemma handleDesktopResults_grown ev s :
  lastFinalizedLength s < List.length (finalText ev) ->
  let d := trim (substring (finalText ev) (lastFinalizedLength s) None) in
  let s' := handleDesktopResults ev s in
  lastFinalizedLength s' = List.length (finalText ev)
  /\ (d <> [] -> forall n, currentNote s = Some n -> spliced d s s')
  /\ (d = [] \/ currentNote s = None ->
      noteTextArea (elements s') = noteTextArea (elements s)
      /\ currentNote s' = currentNote s).
Proof.
  intros Hlt d s'. subst s'. unfold handleDesktopResults.
  apply Nat.ltb_lt in Hlt. rewrite Hlt. fold d.
  assert (Hlive : forall x : State,
    lastFinalizedLength
      (if truthy_string (interimText ev)
       then on_elements (set_liveTranscriptionText (interimText ev)) x else x)
    = lastFinalizedLength x
    /\ noteTextArea (elements
      (if truthy_string (interimText ev)
       then on_elements (set_liveTranscriptionText (interimText ev)) x else x))
    = noteTextArea (elements x)
    /\ currentNote
      (if truthy_string (interimText ev)
       then on_elements (set_liveTranscriptionText (interimText ev)) x else x)
    = currentNote x).
  { intros x. destruct (truthy_string (interimText ev)); simpl; tauto. }
  split; [|split].
  - now rewrite (proj1 (Hlive _)).
  - intros Hd n Hn. apply truthy_string_nonempty in Hd. rewrite Hd, Hn. simpl.
    pose proof (insertTranscript_spliced d s Hn) as (spacer & Hsp & Hv & Hsel & Hnote).
    exists spacer. split; [exact Hsp|].
    destruct (Hlive (set_lastFinalizedLength (List.length (finalText ev))
                       (insertTranscript d s))) as (_ & Ha & Hc).
    rewrite Ha, Hc. simpl. auto.
  - intros Hor.
    assert (Hskip : truthy_string d && is_some (currentNote s) = false).
    { destruct Hor as [-> | ->]; [reflexivity|apply andb_false_r]. }
    rewrite Hskip.
    destruct (Hlive (set_lastFinalizedLength (List.length (finalText ev)) s))
      as (_ & Ha & Hc).
    rewrite Ha, Hc. simpl. auto.
Qed.

(** Desktop mode, when nothing new was finalised. *)
Lemma handleDesktopResults_settled ev s :
  List.length (finalText ev) <= lastFinalizedLength s ->
  let s' := handleDesktopResults ev s in
  lastFinalizedLength s' = lastFinalizedLength s
  /\ noteTextArea (elements s') = noteTextArea (elements s)
  /\ currentNote s' = currentNote s.
Proof.
  intros Hle s'. subst s'. unfold handleDesktopResults.
  apply Nat.ltb_ge in Hle. rewrite Hle.
  destruct (truthy_string (interimText ev)); simpl; tauto.
Qed.

End AssemblerFacts.

(* ------------------------------------------------------------------ *)
(** ** Recording sessions *)

Module RecordingFacts.

Local Open Scope Z_scope.

(** *** [app.js] *)

Lemma App_showStatus_frame m b s :
  App.isRecording (App.showStatus m b s) = App.isRecording s
  /\ App.isRecognitionStarting (App.showStatus m b s) = App.isRecognitionStarting s
  /\ App.engine (App.env (App.showStatus m b s)) = App.engine (App.env s)
  /\ App.statusMessage (App.elements (App.showStatus m b s)) = Some (m, b)
  /\ App.statusActive (App.elements (App.showStatus m b s)) = true.
Proof. unfold App.showStatus, App.setTimeout. simpl. tauto. Qed.

Lemma App_createNewNote_frame s :
  App.isRecording (App.createNewNote s) = App.isRecording s
  /\ App.isRecognitionStarting (App.createNewNote s) = App.isRecognitionStarting s
  /\ App.env (App.createNewNote s) = App.env s
  /\ App.recognition (App.createNewNote s) = App.recognition s.
Proof. unfold App.createNewNote, App.updateEditor. simpl. tauto. Qed.

(** Offline, [startRecording] calls nothing on the engine and leaves both
    flags as they were; from the stopped state it reports why. *)
Lemma App_startRecording_offline s :
  App.onLine (App.env s) = false ->
  App.engine (App.env (App.startRecording s)) = App.engine (App.env s)
  /\ App.isRecording (App.startRecording s) = App.isRecording s
  /\ App.isRecognitionStarting (App.startRecording s) = App.isRecognitionStarting s
  /\ (App.isRecording s = false -> App.isRecognitionStarting s = false ->
      App.statusMessage (App.elements (App.startRecording s))
        = Some (App.MsgOffline, true)
      /\ App.statusActive (App.elements (App.startRecording s)) = true).
Proof.
  intros Hoff. unfold App.startRecording.
  set (s0 := match App.currentNote s with
             | None => App.createNewNote s
             | Some _ => s
             end).
  assert (Hfr : App.isRecording s0 = App.isRecording s
                /\ App.isRecognitionStarting s0 = App.isRecognitionStarting s
                /\ App.env s0 = App.env s).
  { subst s0. destruct (App.currentNote s); [tauto|].
    destruct (App_createNewNote_frame s) as (? & ? & ? & ?). tauto. }
  destruct Hfr as (Hrec & Hst & Henv).
  unfold App.checkInternetConnection. rewrite Henv, Hoff, Hrec, Hst. simpl.
  destruct (App.isRecording s || App.isRecognitionStarting s) eqn:Hbusy.
  - rewrite Henv, Hrec, Hst. split; [|split; [|split]]; try reflexivity.
    intros Hr Hs. rewrite Hr, Hs in Hbusy. discriminate.
  - destruct (App_showStatus_frame App.MsgOffline true s0) as (H1 & H2 & H3 & H4 & H5).
    rewrite H1, H2, H3, H4, H5, Henv, Hrec, Hst. tauto.
Qed.

(** Once stopped, no timer callback touches the engine or the flag. *)
Lemma App_run_callback_stopped c s :
  App.isRecording s = false ->
  App.isRecording (App.run_callback c s) = false
  /\ App.engine (App.env (App.run_callback c s)) = App.engine (App.env s).
Proof.
  intros Hstop. destruct c; simpl.
  - unfold App.autoSave. destruct (App.currentNote s); [|tauto].
    simpl. destruct (App.saveNote _ (App.db s)) as [[k|e] db']; simpl.
    + destruct (App.truthy_id (App.id n)); simpl; tauto.
    + tauto.
  - unfold App.safeStartRecognition. rewrite Hstop, orb_true_r. tauto.
  - rewrite Hstop. simpl. tauto.
  - tauto.
Qed.

Lemma App_fire_stopped h s :
  App.isRecording s = false ->
  App.isRecording (App.fire h s) = false
  /\ App.engine (App.env (App.fire h s)) = App.engine (App.env s).
Proof.
  intros Hstop. unfold App.fire.
  destruct (Timers.find h _) as [u|]; [|tauto].
  apply (App_run_callback_stopped (Timers.callback u) (App.clearTimeout h s)).
  exact Hstop.
Qed.

Lemma App_advance_stopped t s :
  App.isRecording s = false ->
  App.isRecording (App.advance t s) = false
  /\ App.engine (App.env (App.advance t s)) = App.engine (App.env s).
Proof.
  intros Hstop. unfold App.advance. cbv zeta.
  set (s0 := App.on_env (App.set_now (Z.max t (App.now (App.env s)))) s).
  assert (H0 : App.isRecording s0 = false
               /\ App.engine (App.env s0) = App.engine (App.env s))
    by (subst s0; simpl; tauto).
  generalize (Timers.due_handles (App.now (App.env s0)) (App.timers (App.env s0))).
  intros hs. revert H0. generalize s0. clear s0.
  induction hs as [|h hs IH]; simpl; intros s0 [Hr He]; [tauto|].
  apply IH. destruct (App_fire_stopped h s0 Hr) as [Hr' He'].
  split; [assumption|congruence].
Qed.

Lemma App_stopRecording_stops s : App.isRecording (App.stopRecording s) = false.
Proof.
  unfold App.stopRecording. destruct (App.isRecording s) eqn:Hr; [|assumption].
  cbn [negb]. rewrite (proj1 (App_showStatus_frame _ _ _)). simpl.
  destruct (App.recognition s); reflexivity.
Qed.

(** However often the loop wakes up after a stop, the page stays stopped
    and the engine sees no further call. *)
Lemma App_restart_suppressed s (wakeups : list Z) :
  let stopped := App.stopRecording (App.dispatch App.EngineEnded s) in
  let later := fold_left (fun s t => App.advance t s) wakeups stopped in
  App.isRecording later = false
  /\ Engine.calls (App.engine (App.env later))
     = Engine.calls (App.engine (App.env stopped)).
Proof.
  cbv zeta.
  generalize (App_stopRecording_stops (App.dispatch App.EngineEnded s)).
  generalize (App.stopRecording (App.dispatch App.EngineEnded s)).
  induction wakeups as [|t ts IH]; simpl; intros s0 Hr; [tauto|].
  destruct (App_advance_stopped t s0 Hr) as [Hr' He'].
  destruct (IH _ Hr') as [Hr'' He'']. split; [assumption|congruence].
Qed.

(** *** The hybrid script *)

Lemma Hybrid_showStatus_frame m b s :
  Hybrid.isRecording (Hybrid.showStatus m b s) = Hybrid.isRecording s
  /\ Hybrid.engine (Hybrid.env (Hybrid.showStatus m b s)) = Hybrid.engine (Hybrid.env s)
  /\ Hybrid.statusMessage (Hybrid.elements (Hybrid.showStatus m b s)) = Some (m, b)
  /\ Hybrid.statusActive (Hybrid.elements (Hybrid.showStatus m b s)) = true.
Proof. unfold Hybrid.showStatus, Hybrid.setTimeout. simpl. tauto. Qed.

Lemma Hybrid_startRecording_offline s :
  Hybrid.onLine (Hybrid.env s) = false ->
  Hybrid.engine (Hybrid.env (Hybrid.startRecording s)) = Hybrid.engine (Hybrid.env s)
  /\ Hybrid.isRecording (Hybrid.startRecording s) = Hybrid.isRecording s
  /\ Hybrid.statusActive (Hybrid.elements (Hybrid.startRecording s)) = true
  /\ (Hybrid.statusMessage (Hybrid.elements (Hybrid.startRecording s))
        = Some (Hybrid.MsgOffline, true)
      \/ Hybrid.statusMessage (Hybrid.elements (Hybrid.startRecording s))
        = Some (Hybrid.MsgNotSupported, true)).
Proof.
  intros Hoff. unfold Hybrid.startRecording.
  set (s0 := match Hybrid.currentNote s with
             | None => Hybrid.createNewNote s
             | Some _ => s
             end).
  assert (Hfr : Hybrid.isRecording s0 = Hybrid.isRecording s
                /\ Hybrid.env s0 = Hybrid.env s).
  { subst s0. destruct (Hybrid.currentNote s); [tauto|].
    unfold Hybrid.createNewNote, Hybrid.updateEditor. simpl. tauto. }
  destruct Hfr as (Hrec & Henv).
  unfold Hybrid.checkInternetConnection. rewrite Henv, Hoff. simpl.
  destruct (negb (Hybrid.speechSupported (Hybrid.env s))).
  - destruct (Hybrid_showStatus_frame Hybrid.MsgNotSupported true s0)
      as (H1 & H2 & H3 & H4).
    rewrite H1, H2, H3, H4, Henv, Hrec. tauto.
  - destruct (Hybrid_showStatus_frame Hybrid.MsgOffline true s0)
      as (H1 & H2 & H3 & H4).
    rewrite H1, H2, H3, H4, Henv, Hrec. tauto.
Qed.

End RecordingFacts.

(* ------------------------------------------------------------------ *)
(** ** [app.js]: autosave *)

Module AutosaveFacts.

Import TimersFacts App.
Local Open Scope Z_scope.

(** *** The timer queue and [saveTimeout] *)

Lemma not_autosave c h due :
  c <> CbAutoSave -> is_autosave (Timers.mkTimer h due c) = false.
Proof. unfold is_autosave. simpl. destruct c; congruence. Qed.

Lemma clear_saveTimeout_autosave q st :
  Timers.queue_ok is_autosave q st ->
  filter is_autosave
    (Timers.pending (match st with
                     | Some h => Timers.clearTimeout h q
                     | None => q
                     end)) = [].
Proof. apply clear_saved_handle. Qed.

(** *** Handlers that leave autosave alone *)

Lemma calm_refl s : calm s s.
Proof. split; [reflexivity|split; [reflexivity|auto]]. Qed.

Lemma calm_trans s1 s2 s3 : calm s1 s2 -> calm s2 s3 -> calm s1 s3.
Proof.
  intros (Hv & Hn & Hok) (Hv' & Hn' & Hok').
  split; [congruence|split; [congruence|auto]].
Qed.

Lemma setTimeout_calm c d s :
  c <> CbAutoSave -> calm s (snd (setTimeout c d s)).
Proof.
  intros Hc. unfold setTimeout. simpl. split; [|split; [reflexivity|]].
  - unfold view, autosave_pending. simpl. rewrite filter_app. simpl.
    unfold is_autosave at 2. simpl.
    destruct c; try congruence; now rewrite app_nil_r.
  - intros Hok. apply queue_ok_setTimeout; [|exact Hok].
    intros h due. now apply not_autosave.
Qed.

Lemma showStatus_calm m b s : calm s (showStatus m b s).
Proof.
  unfold showStatus. cbv zeta.
  eapply calm_trans; [|apply setTimeout_calm; discriminate].
  calm_step.
Qed.

Lemma stopRecording_calm s : calm s (stopRecording s).
Proof.
  unfold stopRecording. destruct (isRecording s); [|apply calm_refl].
  cbn [negb]. cbv zeta.
  eapply calm_trans; [|apply showStatus_calm].
  simpl. destruct (recognition s); calm_step.
Qed.

Lemma safeStartRecognition_calm s : calm s (safeStartRecognition s).
Proof.
  unfold safeStartRecognition.
  destruct (isRecognitionStarting s || negb (isRecording s)); [apply calm_refl|].
  destruct (recognition s) as [r|]; [|apply calm_refl].
  cbv zeta.
  change (engine (env (set_isRecognitionStarting true s))) with (engine (env s)).
  destruct (Engine.start (engine (env s))) as [[u|[|]] e] eqn:Hstart.
  - calm_step.
  - eapply calm_trans; [|apply setTimeout_calm; discriminate]. calm_step.
  - eapply calm_trans; [|apply showStatus_calm].
    eapply calm_trans; [|apply stopRecording_calm]. calm_step.
Qed.

Lemma run_callback_calm c s :
  c <> CbAutoSave -> calm s (run_callback c s).
Proof.
  intros Hc. destruct c; simpl; try congruence.
  - apply safeStartRecognition_calm.
  - destruct (isRecording s).
    + eapply calm_trans; [|apply safeStartRecognition_calm]. calm_step.
    + calm_step.
  - calm_step.
Qed.

(** *** [autoSave] itself *)

Lemma saveNote_rejected n d e d' : saveNote n d = (Rejected e, d') -> d' = d.
Proof.
  unfold saveNote. destruct (truthy_id (id n));
    apply IDBFacts.store_request_rejected.
Qed.

Lemma autoSave_effect s n :
  currentNote s = Some n ->
  let n' := snapshot n (noteTitleInput (elements s),
                        Dom.value (noteTextArea (elements s))) (now (env s)) in
  saved (env (autoSave s)) = saved (env s) ++ [n']
  /\ db (autoSave s) = snd (saveNote n' (db s))
  /\ noteTitleInput (elements (autoSave s)) = noteTitleInput (elements s)
  /\ noteTextArea (elements (autoSave s)) = noteTextArea (elements s)
  /\ autosave_pending (autoSave s) = autosave_pending s
  /\ (timers_ok s -> timers_ok (autoSave s))
  /\ now (env (autoSave s)) = now (env s)
  /\ is_some (currentNote (autoSave s)) = true.
Proof.
  intros Hn. unfold autoSave, snapshot, autosave_pending, timers_ok.
  rewrite Hn. cbv zeta. simpl.
  destruct (saveNote _ (db s)) as [[k|e] d'] eqn:Hsave; simpl.
  - destruct (truthy_id (id n)); simpl; conjuncts; auto.
  - apply saveNote_rejected in Hsave. subst d'. conjuncts; auto.
Qed.

Lemma autoSave_keeps s :
  (timers_ok s -> timers_ok (autoSave s))
  /\ (is_some (currentNote s) = true -> is_some (currentNote (autoSave s)) = true)
  /\ now (env (autoSave s)) = now (env s).
Proof.
  destruct (currentNote s) as [n|] eqn:Hn.
  - destruct (autoSave_effect s Hn) as (_ & _ & _ & _ & _ & Hok & Hnow & Hsome).
    split; [exact Hok|split; [auto|assumption]].
  - unfold autoSave. rewrite Hn. split; [auto|split; [discriminate|reflexivity]].
Qed.

Lemma calm_keeps s s' :
  calm s s' ->
  (timers_ok s -> timers_ok s')
  /\ (is_some (currentNote s) = true -> is_some (currentNote s') = true)
  /\ now (env s') = now (env s).
Proof.
  intros (Hv & Hn & Hok). split; [assumption|split; [|assumption]].
  unfold view in Hv. injection Hv as _ _ Hc _ _ _ _. now rewrite Hc.
Qed.

Lemma callback_cases (c : callback) : c = CbAutoSave \/ c <> CbAutoSave.
Proof. destruct c; [now left|right; discriminate..]. Qed.

Lemma clearTimeout_keeps h s :
  (timers_ok s -> timers_ok (clearTimeout h s))
  /\ currentNote (clearTimeout h s) = currentNote s
  /\ now (env (clearTimeout h s)) = now (env s).
Proof.
  split; [|split; reflexivity].
  unfold timers_ok, clearTimeout. simpl. apply queue_ok_clearTimeout.
Qed.

Lemma fire_keeps h s :
  (timers_ok s -> timers_ok (fire h s))
  /\ (is_some (currentNote s) = true -> is_some (currentNote (fire h s)) = true)
  /\ now (env (fire h s)) = now (env s).
Proof.
  unfold fire.
  destruct (Timers.find h _) as [u|]; [|split; [auto|split; [auto|reflexivity]]].
  destruct (clearTimeout_keeps h s) as (Hok & Hc & Hnow).
  assert (Hrun : (timers_ok (clearTimeout h s) ->
                  timers_ok (run_callback (Timers.callback u) (clearTimeout h s)))
                 /\ (is_some (currentNote (clearTimeout h s)) = true ->
                     is_some (currentNote (run_callback (Timers.callback u)
                                                        (clearTimeout h s))) = true)
                 /\ now (env (run_callback (Timers.callback u) (clearTimeout h s)))
                    = now (env (clearTimeout h s))).
  { destruct (callback_cases (Timers.callback u)) as [-> | Hne].
    - apply autoSave_keeps.
    - apply calm_keeps, run_callback_calm, Hne. }
  destruct Hrun as (Hok' & Hc' & Hnow').
  rewrite Hc in Hc'. split; [auto|split; [auto|congruence]].
Qed.

Lemma fires_keeps hs s :
  (timers_ok s -> timers_ok (fires hs s))
  /\ (is_some (currentNote s) = true -> is_some (currentNote (fires hs s)) = true)
  /\ now (env (fires hs s)) = now (env s).
Proof.
  revert s. induction hs as [|h hs IH]; simpl; intros s;
    [split; [auto|split; [auto|reflexivity]]|].
  destruct (fire_keeps h s) as (Hok & Hc & Hnow).
  destruct (IH (fire h s)) as (Hok' & Hc' & Hnow').
  split; [auto|split; [auto|congruence]].
Qed.

Lemma advance_fires t s :
  advance t s
  = fires (Timers.due_handles (Z.max t (now (env s))) (timers (env s)))
          (on_env (set_now (Z.max t (now (env s)))) s).
Proof. reflexivity. Qed.

Lemma advance_keeps t s :
  (timers_ok s -> timers_ok (advance t s))
  /\ (is_some (currentNote s) = true -> is_some (currentNote (advance t s)) = true)
  /\ now (env (advance t s)) = Z.max t (now (env s)).
Proof.
  rewrite advance_fires.
  destruct (fires_keeps
    (Timers.due_handles (Z.max t (now (env s))) (timers (env s)))
    (on_env (set_now (Z.max t (now (env s)))) s)) as (Hok & Hc & Hnow).
  split; [exact Hok|split; [exact Hc|exact Hnow]].
Qed.

(** *** Timers that fire while an autosave is pending *)

Lemma clearTimeout_calm h s :
  ~ In h (autosave_handles s) -> calm s (clearTimeout h s).
Proof.
  intros Hh. split; [|split; [reflexivity|apply clearTimeout_keeps]].
  unfold view, autosave_pending, clearTimeout. simpl.
  rewrite filter_filter_absorb; [reflexivity|].
  intros u Hu Hau. apply negb_true_iff, Nat.eqb_neq. intros He.
  apply Hh. unfold autosave_handles, autosave_pending.
  apply in_map_iff. exists u. split; [assumption|]. now apply filter_In.
Qed.

Lemma fire_calm h s :
  ~ In h (autosave_handles s) -> calm s (fire h s).
Proof.
  intros Hh. unfold fire.
  destruct (Timers.find h _) as [u|] eqn:Hf; [|apply calm_refl].
  eapply calm_trans; [apply clearTimeout_calm, Hh|].
  apply run_callback_calm. intros Hc.
  apply find_some in Hf. destruct Hf as [Hin <-].
  apply Hh. unfold autosave_handles, autosave_pending.
  apply in_map, filter_In. split; [assumption|].
  unfold is_autosave. now rewrite Hc.
Qed.

Lemma calm_handles s s' : calm s s' -> autosave_handles s' = autosave_handles s.
Proof.
  intros (Hv & _). unfold view in Hv. injection Hv as _ _ _ _ _ _ Hp.
  unfold autosave_handles. now rewrite Hp.
Qed.

Lemma fires_calm hs s :
  (forall h, In h hs -> ~ In h (autosave_handles s)) -> calm s (fires hs s).
Proof.
  revert s. induction hs as [|h hs IH]; simpl; intros s Hhs; [apply calm_refl|].
  assert (Hfire : calm s (fire h s)) by (apply fire_calm, Hhs; now left).
  eapply calm_trans; [exact Hfire|]. apply IH.
  intros h' Hh'. rewrite (calm_handles Hfire). apply Hhs. now right.
Qed.

(** While the autosave timers are not yet due, waking the loop up changes
    nothing for autosave. *)
Lemma advance_calm t s :
  timers_ok s ->
  (forall u, In u (autosave_pending s) -> Z.max t (now (env s)) < Timers.due u) ->
  view (advance t s) = view s /\ timers_ok (advance t s).
Proof.
  intros Hok Hdue. rewrite advance_fires.
  set (s0 := on_env (set_now (Z.max t (now (env s)))) s).
  assert (Hcalm : calm s0 (fires (Timers.due_handles (Z.max t (now (env s)))
                                                     (timers (env s))) s0)).
  { apply fires_calm. intros h Hh Hin.
    apply due_handles_spec in Hh. destruct Hh as (u1 & Hu1 & Hh1 & Hd1).
    unfold autosave_handles in Hin. apply in_map_iff in Hin.
    destruct Hin as (u2 & Hh2 & Hu2).
    assert (Hu2' : In u2 (autosave_pending s)) by exact Hu2.
    unfold autosave_pending in Hu2'. apply filter_In in Hu2'.
    destruct Hu2' as [Hin2 Hau2].
    apply (Timers.save_handle Hok u2 Hin2) in Hau2.
    assert (Hau1 : is_autosave u1 = true).
    { apply (Timers.save_handle Hok u1 Hu1). congruence. }
    assert (Hin1 : In u1 (autosave_pending s))
      by (apply filter_In; split; assumption).
    specialize (Hdue u1 Hin1). lia. }
  destruct Hcalm as (Hv & _ & Hok'). split; [exact Hv|]. apply Hok'. exact Hok.
Qed.

(** *** The pending autosave fires *)

Lemma view_fields s s' :
  view s' = view s ->
  editor s' = editor s /\ currentNote s' = currentNote s /\ db s' = db s
  /\ saved (env s') = saved (env s) /\ saveTimeout s' = saveTimeout s
  /\ autosave_pending s' = autosave_pending s.
Proof.
  unfold view, editor. intros [= -> -> -> -> -> -> ->]. tauto.
Qed.

Lemma fire_autosave u s n :
  timers_ok s -> In u (autosave_pending s) -> currentNote s = Some n ->
  let n' := snapshot n (editor s) (now (env s)) in
  let s' := fire (Timers.handle u) s in
  saved (env s') = saved (env s) ++ [n']
  /\ db s' = snd (saveNote n' (db s))
  /\ autosave_pending s' = []
  /\ timers_ok s'.
Proof.
  intros Hok Hu Hn n' s'. subst n' s'.
  unfold autosave_pending in Hu. apply filter_In in Hu. destruct Hu as [Hin Hau].
  pose proof (proj1 (Timers.save_handle Hok u Hin) Hau) as Hst.
  split; [|split; [|split]]; [| | |apply fire_keeps, Hok].
  all: unfold fire.
  all: destruct (Timers.find (Timers.handle u) (Timers.pending (timers (env s))))
         as [u0|] eqn:Hf;
       [|exfalso; eapply find_none; [exact Hf|exact Hin|reflexivity]].
  all: apply find_some in Hf; destruct Hf as [Hin0 Hh0].
  all: assert (Hau0 : is_autosave u0 = true)
         by (apply (Timers.save_handle Hok u0 Hin0); congruence).
  all: assert (Hcb : Timers.callback u0 = CbAutoSave)
         by (unfold is_autosave in Hau0; destruct (Timers.callback u0);
             congruence).
  all: rewrite Hcb; simpl.
  all: assert (Hn' : currentNote (clearTimeout (Timers.handle u) s) = Some n)
         by exact Hn.
  all: destruct (autoSave_effect _ Hn') as (Hsaved & Hdb & _ & _ & Hp & _).
  - exact Hsaved.
  - exact Hdb.
  - rewrite Hp. unfold autosave_pending. simpl.
    pose proof (clear_saveTimeout_autosave Hok) as Hclear.
    rewrite Hst in Hclear. exact Hclear.
Qed.

Lemma fires_autosave hs : forall u s n,
  timers_ok s -> autosave_pending s = [u] -> currentNote s = Some n ->
  In (Timers.handle u) hs ->
  let n' := snapshot n (editor s) (now (env s)) in
  saved (env (fires hs s)) = saved (env s) ++ [n']
  /\ db (fires hs s) = snd (saveNote n' (db s))
  /\ autosave_pending (fires hs s) = []
  /\ timers_ok (fires hs s).
Proof.
  induction hs as [|h hs IH]; simpl; intros u s n Hok Hp Hn Hin; [contradiction|].
  destruct (Nat.eq_dec h (Timers.handle u)) as [->|Hne].
  - assert (Hu : In u (autosave_pending s)) by (rewrite Hp; now left).
    destruct (fire_autosave _ Hok Hu Hn) as (Hsaved & Hdb & Hnone & Hok').
    assert (Hcalm : calm (fire (Timers.handle u) s)
                         (fires hs (fire (Timers.handle u) s))).
    { apply fires_calm. intros h' _. unfold autosave_handles.
      rewrite Hnone. simpl. tauto. }
    destruct Hcalm as (Hv & _ & Hok'').
    apply view_fields in Hv. destruct Hv as (_ & _ & Hd & Hs & _ & Hpend).
    rewrite Hd, Hs, Hpend. auto.
  - destruct Hin as [Hin|Hin]; [congruence|].
    assert (Hcalm : calm s (fire h s)).
    { apply fire_calm. unfold autosave_handles. rewrite Hp. simpl.
      intros [He|[]]. congruence. }
    pose proof Hcalm as (Hv & Hnow & Hok').
    apply view_fields in Hv. destruct Hv as (He & Hc & Hd & Hs & _ & Hpend).
    destruct (IH u (fire h s) n) as (Hsaved & Hdb & Hnone & Hok'');
      [auto|congruence|congruence|assumption|].
    rewrite He, Hnow, Hd, Hs in *. auto.
Qed.

(** Once the autosave timer is due, waking the loop up writes the note
    once, as the editor then holds it. *)
Lemma advance_autosave t u s n :
  timers_ok s -> autosave_pending s = [u] -> currentNote s = Some n ->
  Timers.due u <= Z.max t (now (env s)) ->
  let n' := snapshot n (editor s) (Z.max t (now (env s))) in
  saved (env (advance t s)) = saved (env s) ++ [n']
  /\ db (advance t s) = snd (saveNote n' (db s))
  /\ autosave_pending (advance t s) = []
  /\ timers_ok (advance t s).
Proof.
  intros Hok Hp Hn Hdue. rewrite advance_fires.
  assert (Hin : In (Timers.handle u)
                   (Timers.due_handles (Z.max t (now (env s))) (timers (env s)))).
  { apply due_handles_spec. exists u. split; [|split; [reflexivity|assumption]].
    assert (Hu : In u (autosave_pending s)) by (rewrite Hp; now left).
    unfold autosave_pending in Hu. now apply filter_In in Hu. }
  exact (@fires_autosave _ u (on_env (set_now (Z.max t (now (env s)))) s) n
                         Hok Hp Hn Hin).
Qed.

(** *** A burst of edits *)

Lemma scheduleAutoSave_effect s :
  timers_ok s ->
  timers_ok (scheduleAutoSave s)
  /\ autosave_pending (scheduleAutoSave s)
     = [Timers.mkTimer (Timers.next_handle (timers (env s)))
                       (now (env s) + 1000) CbAutoSave]
  /\ editor (scheduleAutoSave s) = editor s
  /\ currentNote (scheduleAutoSave s) = currentNote s
  /\ db (scheduleAutoSave s) = db s
  /\ saved (env (scheduleAutoSave s)) = saved (env s)
  /\ now (env (scheduleAutoSave s)) = now (env s).
Proof.
  intros Hok.
  assert (Hq := @queue_ok_schedule _ is_autosave CbAutoSave 1000 (now (env s))
                  _ _ (fun _ _ => eq_refl) Hok).
  pose proof (clear_saveTimeout_autosave Hok) as Hclear.
  unfold timers_ok, autosave_pending, scheduleAutoSave, setTimeout, clearTimeout,
    editor in *.
  simpl in *. destruct (saveTimeout s) as [h|]; simpl in *.
  - split; [exact Hq|]. rewrite filter_app, Hclear. simpl. repeat split.
  - split; [exact Hq|]. rewrite filter_app, Hclear. simpl. repeat split.
Qed.

Lemma mutation_effect e s :
  is_mutation e = true -> timers_ok s ->
  timers_ok (dispatch e s)
  /\ (exists u, autosave_pending (dispatch e s) = [u]
                /\ Timers.due u = now (env s) + 1000)
  /\ editor (dispatch e s) = edit (editor s) e
  /\ currentNote (dispatch e s) = currentNote s
  /\ db (dispatch e s) = db s
  /\ saved (env (dispatch e s)) = saved (env s)
  /\ now (env (dispatch e s)) = now (env s).
Proof.
  intros He Hok. destruct e; try discriminate; unfold dispatch.
  - destruct (@scheduleAutoSave_effect (on_elements (set_noteTitleInput v) s) Hok)
      as (H1 & H2 & H3 & H4 & H5 & H6 & H7).
    split; [exact H1|]. split; [eexists; split; [exact H2|reflexivity]|].
    rewrite H3, H4, H5, H6, H7. repeat split.
  - destruct (@scheduleAutoSave_effect
                (on_elements (set_noteTextArea
                   (Dom.mkTextarea v (Nat.min caret (List.length v)))) s) Hok)
      as (H1 & H2 & H3 & H4 & H5 & H6 & H7).
    split; [exact H1|]. split; [eexists; split; [exact H2|reflexivity]|].
    rewrite H3, H4, H5, H6, H7. repeat split.
Qed.

(** *** Dictation *)

Lemma insertTranscript_effect t s n :
  timers_ok s -> currentNote s = Some n ->
  let s' := insertTranscript t s in
  timers_ok s'
  /\ (exists u, autosave_pending s' = [u]
                /\ Timers.due u = now (env s) + 1000)
  /\ now (env s') = now (env s)
  /\ saved (env s') = saved (env s)
  /\ db s' = db s
  /\ fst (editor s') = fst (editor s)
  /\ exists n', currentNote s' = Some n' /\ meta n' = meta n.
Proof.
  intros Hok Hn. cbv zeta. unfold insertTranscript. rewrite Hn. cbv zeta.
  match goal with
  | |- context [scheduleAutoSave ?x] =>
      assert (Hx : timers_ok x) by exact Hok;
      destruct (scheduleAutoSave_effect Hx)
        as (H1 & H2 & H3 & H4 & H5 & H6 & H7)
  end.
  split; [exact H1|]. split; [rewrite H2; eexists; split; reflexivity|].
  split; [exact H7|]. split; [exact H6|]. split; [exact H5|].
  split; [rewrite H3; reflexivity|].
  rewrite H4. eexists. split; reflexivity.
Qed.

Lemma mobile_slots_effect rs : forall s n,
  timers_ok s -> currentNote s = Some n ->
  let step := fun (s : State) (r : Engine.slot) =>
    if Engine.isFinal r then
      if truthy_string (trim (Engine.transcript r)) && is_some (currentNote s)
      then insertTranscript (trim (Engine.transcript r)) s
      else s
    else s in
  let s' := fold_left step rs s in
  timers_ok s'
  /\ now (env s') = now (env s)
  /\ saved (env s') = saved (env s)
  /\ db s' = db s
  /\ fst (editor s') = fst (editor s)
  /\ (exists n', currentNote s' = Some n' /\ meta n' = meta n)
  /\ ((exists u, autosave_pending s = [u]
                 /\ Timers.due u = now (env s) + 1000)
      \/ filter truthy_string
           (map (fun r => trim (Engine.transcript r))
                (filter Engine.isFinal rs)) <> [] ->
      exists u, autosave_pending s' = [u]
                /\ Timers.due u = now (env s) + 1000).
Proof.
  induction rs as [|r rs IH]; intros s n Hok Hn; cbv zeta.
  - simpl. split; [exact Hok|]. split; [reflexivity|]. split; [reflexivity|].
    split; [reflexivity|]. split; [reflexivity|].
    split; [exists n; auto|]. intros [H|H]; [exact H|contradiction].
  - cbn [fold_left filter map].
    destruct (Engine.isFinal r) eqn:Hfinal.
    + cbn [map filter]. rewrite Hn. cbn [is_some]. rewrite andb_true_r.
      destruct (truthy_string (trim (Engine.transcript r))) eqn:Ht.
      * destruct (@insertTranscript_effect (trim (Engine.transcript r)) s n
                    Hok Hn)
          as (Hok1 & Hp1 & Hnow1 & Hs1 & Hd1 & He1 & n1 & Hn1 & Hm1).
        destruct (IH _ n1 Hok1 Hn1)
          as (Hok2 & Hnow2 & Hs2 & Hd2 & He2 & (n2 & Hn2 & Hm2) & Hp2).
        rewrite Hnow1 in *. split; [exact Hok2|]. split; [exact Hnow2|].
        split; [congruence|]. split; [congruence|]. split; [congruence|].
        split; [exists n2; split; congruence|].
        intros _. apply Hp2. now left.
      * destruct (IH _ n Hok Hn) as (Hok2 & Hnow2 & Hs2 & Hd2 & He2 & Hn2 & Hp2).
        split; [exact Hok2|]. split; [exact Hnow2|]. split; [exact Hs2|].
        split; [exact Hd2|]. split; [exact He2|]. split; [exact Hn2|]. exact Hp2.
    + destruct (IH _ n Hok Hn) as (Hok2 & Hnow2 & Hs2 & Hd2 & He2 & Hn2 & Hp2).
      split; [exact Hok2|]. split; [exact Hnow2|]. split; [exact Hs2|].
      split; [exact Hd2|]. split; [exact He2|]. split; [exact Hn2|]. exact Hp2.
Qed.

(** A result event that inserts moves the autosave timer and leaves the
    store, the journal and the title alone. *)
Lemma onresult_effect ev s n :
  timers_ok s -> currentNote s = Some n -> inserts ev s = true ->
  timers_ok (onresult ev s)
  /\ (exists u, autosave_pending (onresult ev s) = [u]
                /\ Timers.due u = now (env s) + 1000)
  /\ fst (editor (onresult ev s)) = fst (editor s)
  /\ (exists n', currentNote (onresult ev s) = Some n' /\ meta n' = meta n)
  /\ db (onresult ev s) = db s
  /\ saved (env (onresult ev s)) = saved (env s)
  /\ now (env (onresult ev s)) = now (env s).
Proof.
  intros Hok Hn Hins. unfold inserts in Hins. rewrite Hn in Hins.
  cbn [is_some andb] in Hins. unfold onresult.
  destruct (isMobileDevice s).
  - destruct (@mobile_slots_effect (Engine.results ev) s n Hok Hn)
      as (Hok1 & Hnow1 & Hs1 & Hd1 & He1 & Hn1 & Hp1).
    fold (handleMobileResults ev s) in *.
    destruct Hp1 as (u & Hu & Hdue).
    { right. fold (deltas ev). destruct (deltas ev); [discriminate|discriminate]. }
    split; [exact Hok1|]. split; [exists u; auto|]. auto.
  - apply andb_true_iff in Hins. destruct Hins as [Hlt Ht].
    unfold handleDesktopResults. rewrite Hlt, Ht, Hn. cbn [is_some andb].
    destruct (@insertTranscript_effect
                (trim (substring (finalText ev) (lastFinalizedLength s) None))
                s n Hok Hn)
      as (Hok1 & Hp1 & Hnow1 & Hs1 & Hd1 & He1 & Hn1).
    destruct (truthy_string (interimText ev));
      (split; [exact Hok1|]; split; [exact Hp1|]; split; [exact He1|];
       split; [exact Hn1|]; split; [exact Hd1|]; split; [exact Hs1|exact Hnow1]).
Qed.

Lemma snapshot_meta n n' tb t :
  meta n' = meta n -> snapshot n' tb t = snapshot n tb t.
Proof. unfold meta, snapshot. intros [= -> -> ->]. reflexivity. Qed.

(** What a mutation, typed or dictated, does for autosave. *)
Lemma mutates_effect e s n :
  mutates e s = true -> timers_ok s -> currentNote s = Some n ->
  timers_ok (dispatch e s)
  /\ (exists u, autosave_pending (dispatch e s) = [u]
                /\ Timers.due u = now (env s) + 1000)
  /\ (is_mutation e = true -> editor (dispatch e s) = edit (editor s) e)
  /\ (exists n', currentNote (dispatch e s) = Some n' /\ meta n' = meta n)
  /\ db (dispatch e s) = db s
  /\ saved (env (dispatch e s)) = saved (env s)
  /\ now (env (dispatch e s)) = now (env s).
Proof.
  intros He Hok Hn.
  destruct (is_mutation e) eqn:Hmut.
  - destruct (@mutation_effect e s Hmut Hok)
      as (H1 & H2 & H3 & H4 & H5 & H6 & H7).
    split; [exact H1|]. split; [exact H2|]. split; [auto|].
    split; [exists n; split; [congruence|reflexivity]|]. auto.
  - destruct e; try discriminate.
    change (dispatch (EngineResult e) s) with (onresult e s).
    destruct (@onresult_effect e s n Hok Hn He)
      as (H1 & H2 & H3 & H4 & H5 & H6 & H7).
    split; [exact H1|]. split; [exact H2|]. split; [discriminate|]. auto.
Qed.

(** Mutations that follow one another within the delay only move the
    timer. *)
Lemma burst_effect evs : forall s t u n,
  timers_ok s -> autosave_pending s = [u] -> Timers.due u = t + 1000 ->
  now (env s) = t -> currentNote s = Some n ->
  burst_of evs s -> within_debounce t evs ->
  timers_ok (run_timed evs s)
  /\ (exists u', autosave_pending (run_timed evs s) = [u']
                 /\ Timers.due u' = last (map fst evs) t + 1000)
  /\ now (env (run_timed evs s)) = last (map fst evs) t
  /\ (forallb is_mutation (map snd evs) = true ->
      editor (run_timed evs s) = edited evs (editor s))
  /\ (exists n', currentNote (run_timed evs s) = Some n' /\ meta n' = meta n)
  /\ db (run_timed evs s) = db s
  /\ saved (env (run_timed evs s)) = saved (env s).
Proof.
  induction evs as [|[t' e] evs IH]; intros s t u n Hok Hp Hdue Hnow Hn Hb Hgap.
  - simpl. split; [exact Hok|]. split; [exists u; auto|].
    split; [exact Hnow|]. split; [reflexivity|].
    split; [exists n; auto|]. auto.
  - destruct Hb as [He Hb]. simpl in Hgap. destruct Hgap as [Ht Hgap].
    assert (Hmax : Z.max t' (now (env s)) = t') by lia.
    destruct (@advance_calm t' s Hok) as [Hv Hok1].
    { intros u0 Hu0. rewrite Hp in Hu0. destruct Hu0 as [<-|[]]. lia. }
    apply view_fields in Hv. destruct Hv as (Hed & Hc & Hd & Hs & _ & Hpend).
    pose proof (proj2 (proj2 (advance_keeps t' s))) as Hnow1. rewrite Hmax in Hnow1.
    assert (Hn1 : currentNote (advance t' s) = Some n) by congruence.
    destruct (@mutates_effect e (advance t' s) n He Hok1 Hn1)
      as (Hok2 & (u2 & Hp2 & Hdue2) & Hed2 & (n2 & Hn2 & Hm2)
          & Hd2 & Hs2 & Hnow2).
    rewrite Hnow1 in *.
    destruct (IH (dispatch e (advance t' s)) t' u2 n2
                 Hok2 Hp2 Hdue2 Hnow2 Hn2 Hb Hgap)
      as (Hok3 & Hu3 & Hnow3 & Hed3 & (n3 & Hn3 & Hm3) & Hd3 & Hs3).
    change (run_timed ((t', e) :: evs) s)
      with (run_timed evs (dispatch e (advance t' s))).
    change (map fst ((t', e) :: evs)) with (t' :: map fst evs).
    rewrite last_cons.
    split; [exact Hok3|]. split; [exact Hu3|]. split; [exact Hnow3|].
    split; [|split; [exists n3; split; congruence|split; congruence]].
    intros Hall. simpl in Hall. apply andb_true_iff in Hall.
    destruct Hall as [Hall1 Hall2].
    rewrite (Hed3 Hall2), (Hed2 Hall1), Hed. reflexivity.
Qed.

(** A burst of mutations, each less than 1000 ms after the one before,
    writes nothing while it lasts and leaves one autosave timer, due
    1000 ms after the last mutation; when the loop next runs at or after
    that time there has been one call of [saveNote], with the title and
    body the editor holds after the last mutation. *)
Lemma burst_then_save s n t1 e1 rest T :
  timers_ok s -> currentNote s = Some n ->
  now (env s) <= t1 ->
  burst_of ((t1, e1) :: rest) s ->
  within_debounce t1 rest ->
  last (map fst rest) t1 + 1000 <= T ->
  let before := advance t1 s in
  let burst := run_timed ((t1, e1) :: rest) s in
  let after := advance T burst in
  exists opened,
    currentNote before = Some opened
    /\ saved (env burst) = saved (env before)
    /\ (exists u, autosave_pending burst = [u]
                  /\ Timers.due u = last (map fst rest) t1 + 1000)
    /\ (forallb is_mutation (map snd ((t1, e1) :: rest)) = true ->
        editor burst = edited ((t1, e1) :: rest) (editor before))
    /\ let written := snapshot opened (editor burst) T in
       saved (env after) = saved (env before) ++ [written]
       /\ db after = snd (saveNote written (db before))
       /\ autosave_pending after = []
       /\ (forall k db', saveNote written (db before) = (Resolved k, db') ->
           exists r, getNote k (db after) = Some r
                     /\ title r = sanitizeInput (title written)
                     /\ text r = sanitizeInput (text written)).
Proof.
  intros Hok Hn Hnow [He1 Hrest] Hgap HT. cbv zeta.
  destruct (advance_keeps t1 s) as (Hok0 & Hsome0 & Hnow0).
  specialize (Hok0 Hok).
  assert (Hsome : is_some (currentNote (advance t1 s)) = true)
    by (apply Hsome0; now rewrite Hn).
  destruct (currentNote (advance t1 s)) as [opened|] eqn:Hopen; [|discriminate].
  rewrite Z.max_l in Hnow0 by lia.
  destruct (@mutates_effect e1 (advance t1 s) opened He1 Hok0 Hopen)
    as (Hok1 & (u1 & Hp1 & Hdue1) & Hed1 & (n1 & Hn1 & Hm1)
        & Hd1 & Hs1 & Hnow1).
  rewrite Hnow0 in *.
  destruct (@burst_effect rest (dispatch e1 (advance t1 s)) t1 u1 n1
              Hok1 Hp1 Hdue1 Hnow1 Hn1 Hrest Hgap)
    as (Hok2 & (u2 & Hp2 & Hdue2) & Hnow2 & Hed2 & (n2 & Hn2 & Hm2)
        & Hd2 & Hs2).
  change (run_timed ((t1, e1) :: rest) s)
    with (run_timed rest (dispatch e1 (advance t1 s))) in *.
  assert (Hlast : t1 <= last (map fst rest) t1).
  { clear -Hgap. revert t1 Hgap. induction rest as [|[t' e] evs IH]; intros t Hg.
    - simpl. lia.
    - change (map fst ((t', e) :: evs)) with (t' :: map fst evs).
      rewrite last_cons. destruct Hg as [Ht Hg]. specialize (IH t' Hg). lia. }
  destruct (@advance_autosave T u2 _ n2 Hok2 Hp2 Hn2)
    as (Hsaved & Hdb & Hnone & Hok3); [lia|].
  rewrite Hnow2, Z.max_l in Hsaved, Hdb by lia.
  rewrite (@snapshot_meta opened n2) in Hsaved, Hdb by congruence.
  rewrite Hs2, Hs1 in Hsaved. rewrite Hd2, Hd1 in Hdb.
  exists opened. split; [reflexivity|]. split; [congruence|].
  split; [exists u2; auto|]. split.
  { intros Hall. simpl in Hall. apply andb_true_iff in Hall.
    destruct Hall as [Hall1 Hall2].
    rewrite (Hed2 Hall2), (Hed1 Hall1). reflexivity. }
  split; [exact Hsaved|]. split; [exact Hdb|]. split; [exact Hnone|].
  intros k db' Hsave. rewrite Hdb, Hsave. simpl.
  destruct (AppFacts.saveNote_persists _ _ Hsave) as (r & Hget & _ & Ht & Hx & _).
  exists r. auto.
Qed.

End AutosaveFacts.
(* ------------------------------------------------------------------ *)
(** ** [app.js]: reachable states *)

Module ReachableFacts.

Import TimersFacts App AutosaveFacts.
Local Open Scope Z_scope.

(** A step that touches neither the queue, nor [saveTimeout], nor the
    flags. *)
Lemma invariant_frame s s' :
  timers (env s') = timers (env s) -> saveTimeout s' = saveTimeout s ->
  flags s' = flags s ->
  invariant s -> invariant s'.
Proof.
  unfold invariant, timers_ok, flags. intros -> -> [= -> ->]. tauto.
Qed.

Lemma invariant_calm s s' :
  calm s s' -> flags s' = flags s -> invariant s -> invariant s'.
Proof.
  unfold invariant, flags. intros (_ & _ & Hok) [= -> ->] [H1 H2]. auto.
Qed.

Ltac framed := apply invariant_frame; reflexivity.

Lemma updateEditor_invariant s : invariant s -> invariant (updateEditor s).
Proof. unfold updateEditor. destruct (currentNote s); [framed|auto]. Qed.

Lemma createNewNote_invariant s : invariant s -> invariant (createNewNote s).
Proof. unfold createNewNote, updateEditor. simpl. framed. Qed.

Lemma openFirst_invariant s : invariant s -> invariant (openFirst s).
Proof.
  unfold openFirst. destruct (getAllNotes (db s)) as [|n l].
  - apply createNewNote_invariant.
  - intros H. apply updateEditor_invariant. revert H. framed.
Qed.

Lemma showStatus_invariant m b s : invariant s -> invariant (showStatus m b s).
Proof. apply invariant_calm; [apply showStatus_calm|reflexivity]. Qed.

Lemma scheduleAutoSave_invariant s :
  invariant s -> invariant (scheduleAutoSave s).
Proof.
  intros [Hok Hfl]. split.
  - now apply scheduleAutoSave_effect.
  - unfold scheduleAutoSave, setTimeout, clearTimeout. simpl.
    destruct (saveTimeout s); exact Hfl.
Qed.

Lemma autoSave_flags s : flags (autoSave s) = flags s.
Proof.
  unfold autoSave. destruct (currentNote s) as [n|]; [|reflexivity].
  cbv zeta. simpl. destruct (saveNote _ (db s)) as [[k|e] d']; simpl.
  - destruct (truthy_id (id n)); reflexivity.
  - reflexivity.
Qed.

Lemma autoSave_invariant s : invariant s -> invariant (autoSave s).
Proof.
  intros [Hok Hfl]. split; [now apply autoSave_keeps|].
  pose proof (autoSave_flags s) as Hf. unfold flags in Hf.
  injection Hf as -> ->. exact Hfl.
Qed.

(** *** The recording state machine *)

Lemma stopRecording_invariant s : invariant s -> invariant (stopRecording s).
Proof.
  intros [Hok Hfl]. split; [now apply stopRecording_calm|].
  unfold stopRecording. destruct (isRecording s) eqn:Hr; cbn [negb].
  - cbv zeta. unfold showStatus, setTimeout. simpl.
    destruct (recognition s); simpl; discriminate.
  - rewrite Hr. exact Hfl.
Qed.

Lemma safeStartRecognition_invariant s :
  invariant s -> invariant (safeStartRecognition s).
Proof.
  intros [Hok Hfl]. split; [now apply safeStartRecognition_calm|].
  unfold safeStartRecognition.
  destruct (isRecognitionStarting s || negb (isRecording s)) eqn:Hguard;
    [exact Hfl|].
  apply orb_false_iff in Hguard. destruct Hguard as [_ Hr].
  apply negb_false_iff in Hr.
  destruct (recognition s) as [r|] eqn:Hrec; [|exact Hfl].
  cbv zeta.
  change (engine (env (set_isRecognitionStarting true s))) with (engine (env s)).
  destruct (Engine.start (engine (env s))) as [[u|[|]] e].
  - intros _. exact Hr.
  - unfold setTimeout. simpl. discriminate.
  - unfold showStatus, setTimeout, stopRecording. simpl. rewrite Hr. simpl.
    rewrite Hrec. simpl. discriminate.
Qed.

Lemma startRecording_invariant s : invariant s -> invariant (startRecording s).
Proof.
  intros Hinv. unfold startRecording.
  set (s0 := match currentNote s with None => createNewNote s | Some _ => s end).
  assert (H0 : invariant s0).
  { subst s0. destruct (currentNote s); [exact Hinv|].
    now apply createNewNote_invariant. }
  clearbody s0. clear s Hinv.
  destruct (isRecording s0 || isRecognitionStarting s0); [exact H0|].
  destruct (negb (checkInternetConnection s0)); [now apply showStatus_invariant|].
  set (s1 := match recognition s0 with
             | None => initSpeechRecognition s0
             | Some _ => s0
             end).
  assert (H1 : invariant s1).
  { subst s1. destruct (recognition s0); [exact H0|].
    unfold initSpeechRecognition.
    destruct (negb (speechSupported (env s0))); [exact H0|].
    revert H0. framed. }
  clearbody s1. clear s0 H0.
  destruct (recognition s1) as [r|]; [|now apply showStatus_invariant].
  cbv zeta. apply showStatus_invariant, safeStartRecognition_invariant.
  destruct H1 as [Hok Hfl]. split; [exact Hok|]. reflexivity.
Qed.

(** *** Results *)

Lemma insertTranscript_invariant t s :
  invariant s -> invariant (insertTranscript t s).
Proof.
  intros Hinv. unfold insertTranscript.
  destruct (currentNote s) as [n|]; [|exact Hinv].
  cbv zeta. apply scheduleAutoSave_invariant. revert Hinv. framed.
Qed.

Lemma handleMobileResults_invariant ev s :
  invariant s -> invariant (handleMobileResults ev s).
Proof.
  unfold handleMobileResults. generalize (Engine.results ev). intros rs.
  revert s. induction rs as [|r rs IH]; simpl; intros s Hinv; [exact Hinv|].
  apply IH. destruct (Engine.isFinal r); [|exact Hinv].
  destruct (truthy_string _ && is_some (currentNote s)); [|exact Hinv].
  now apply insertTranscript_invariant.
Qed.

Lemma handleDesktopResults_invariant ev s :
  invariant s -> invariant (handleDesktopResults ev s).
Proof.
  intros Hinv. unfold handleDesktopResults.
  set (s0 := if (lastFinalizedLength s <? List.length (finalText ev))%nat
             then _ else s).
  assert (H0 : invariant s0).
  { subst s0. destruct (_ <? _)%nat; [|exact Hinv]. cbv zeta.
    set (s1 := if truthy_string _ && is_some (currentNote s) then _ else s).
    assert (H1 : invariant s1).
    { subst s1. destruct (_ && _); [|exact Hinv].
      now apply insertTranscript_invariant. }
    revert H1. framed. }
  clearbody s0. destruct (truthy_string (interimText ev)); [|exact H0].
  revert H0. framed.
Qed.

(** *** Events and the loop *)

Lemma setTimeout_invariant c d s :
  c <> CbAutoSave -> invariant s -> invariant (snd (setTimeout c d s)).
Proof.
  intros Hc. apply invariant_calm; [now apply setTimeout_calm|].
  unfold setTimeout. reflexivity.
Qed.

Lemma starting_cleared s :
  invariant s -> invariant (set_isRecognitionStarting false s).
Proof. intros [Hok _]. split; [exact Hok|discriminate]. Qed.

Lemma onerror_invariant c s : invariant s -> invariant (onerror c s).
Proof.
  intros Hinv. apply starting_cleared in Hinv. unfold onerror. cbv zeta.
  destruct c; try exact Hinv.
  - apply showStatus_invariant, stopRecording_invariant, Hinv.
  - destruct (isMobileDevice _); [|exact Hinv].
    destruct (isRecording _); [|exact Hinv].
    apply setTimeout_invariant; [discriminate|exact Hinv].
  - apply showStatus_invariant, stopRecording_invariant, Hinv.
  - destruct (isMobileDevice _ && isRecording _); [|exact Hinv].
    apply setTimeout_invariant; [discriminate|exact Hinv].
Qed.

Lemma confirmDelete_invariant s : invariant s -> invariant (confirmDelete s).
Proof.
  intros Hinv. unfold confirmDelete.
  destruct (currentNote s) as [n|]; [|exact Hinv].
  destruct (id n) as [k|]; [|exact Hinv].
  destruct (negb (truthy_id (Some k))); [exact Hinv|].
  destruct (deleteNote k (db s)) as [[u|e] d'].
  - cbv zeta. apply openFirst_invariant, showStatus_invariant.
    revert Hinv. framed.
  - now apply showStatus_invariant.
Qed.

Lemma onListDelete_invariant k c s :
  invariant s -> invariant (onListDelete k c s).
Proof.
  intros Hinv. unfold onListDelete.
  destruct (getNote k (db s)); [|exact Hinv].
  destruct c; [|exact Hinv].
  destruct (deleteNote k (db s)) as [[u|e] d'];
    [|now apply showStatus_invariant].
  cbv zeta.
  assert (H1 : invariant (showStatus MsgNoteDeleted false (set_db d' s))).
  { apply showStatus_invariant. revert Hinv. framed. }
  destruct (currentNote _) as [cur|]; [|exact H1].
  destruct (id cur) as [k'|]; [|exact H1].
  destruct (k' =? k); [|exact H1].
  now apply openFirst_invariant.
Qed.

Lemma dispatch_invariant e s : invariant s -> invariant (dispatch e s).
Proof.
  intros Hinv. destruct e; unfold dispatch.
  - apply scheduleAutoSave_invariant. revert Hinv. framed.
  - apply scheduleAutoSave_invariant. revert Hinv. framed.
  - now apply createNewNote_invariant.
  - cbv zeta.
    set (s0 := match currentNote s with None => createNewNote s | Some _ => s end).
    assert (H0 : invariant s0).
    { subst s0. destruct (currentNote s); [exact Hinv|].
      now apply createNewNote_invariant. }
    destruct (isRecording s0).
    + now apply stopRecording_invariant.
    + now apply startRecording_invariant.
  - cbv zeta. change (currentNote (set_currentLanguage code s)) with (currentNote s).
    destruct (currentNote s).
    + apply scheduleAutoSave_invariant. revert Hinv. framed.
    + revert Hinv. framed.
  - now apply autoSave_invariant.
  - destruct (isRecording s); [now apply stopRecording_invariant|exact Hinv].
  - apply showStatus_invariant. revert Hinv. framed.
  - cbv zeta.
    assert (H0 : invariant (showStatus MsgOfflineEvent true
                              (on_env (set_onLine false) s))).
    { apply showStatus_invariant. revert Hinv. framed. }
    destruct (isRecording _); [now apply stopRecording_invariant|exact H0].
  - unfold onstart. destruct Hinv as [Hok _]. split; [exact Hok|discriminate].
  - unfold onresult. destruct (isMobileDevice s).
    + now apply handleMobileResults_invariant.
    + now apply handleDesktopResults_invariant.
  - now apply onerror_invariant.
  - unfold onend. cbv zeta.
    set (s0 := set_lastFinalizedLength 0 _).
    assert (H0 : invariant s0).
    { subst s0. destruct Hinv as [Hok _]. split; [exact Hok|discriminate]. }
    destruct (isRecording s0); [|exact H0].
    apply setTimeout_invariant; [discriminate|exact H0].
  - unfold showDeleteConfirmation. destruct (currentNote s) as [n|].
    + destruct (truthy_id (id n)); [exact Hinv|now apply showStatus_invariant].
    + now apply showStatus_invariant.
  - now apply confirmDelete_invariant.
  - now apply onListDelete_invariant.
  - unfold onListSelect. apply updateEditor_invariant. revert Hinv. framed.
  - unfold exportNotes. cbv zeta.
    destruct (getAllNotes (db s)); now apply showStatus_invariant.
Qed.

Lemma run_callback_invariant c s : invariant s -> invariant (run_callback c s).
Proof.
  intros Hinv. destruct c; simpl.
  - now apply autoSave_invariant.
  - now apply safeStartRecognition_invariant.
  - apply starting_cleared in Hinv.
    destruct (isRecording s); [now apply safeStartRecognition_invariant|exact Hinv].
  - revert Hinv. framed.
Qed.

Lemma fire_invariant h s : invariant s -> invariant (fire h s).
Proof.
  intros Hinv. unfold fire.
  destruct (Timers.find h _) as [u|]; [|exact Hinv].
  apply run_callback_invariant. destruct Hinv as [Hok Hfl].
  split; [now apply clearTimeout_keeps|exact Hfl].
Qed.

Lemma advance_invariant t s : invariant s -> invariant (advance t s).
Proof.
  intros Hinv. rewrite advance_fires.
  set (s0 := on_env (set_now (Z.max t (now (env s)))) s).
  assert (H0 : invariant s0) by (subst s0; revert Hinv; framed).
  clearbody s0. generalize (Timers.due_handles (Z.max t (now (env s)))
                                               (timers (env s))).
  intros hs. revert s0 H0. induction hs as [|h hs IH]; simpl; intros s0 H0;
    [exact H0|].
  apply IH. now apply fire_invariant.
Qed.

Lemma empty_queue_ok : Timers.queue_ok is_autosave (@Timers.empty callback) None.
Proof.
  split; simpl.
  - constructor.
  - discriminate.
  - intros u [].
Qed.

Lemma initialize_invariant d t0 mobile online supported :
  invariant (initialize d t0 mobile online supported).
Proof.
  unfold initialize. cbv zeta.
  apply showStatus_invariant, openFirst_invariant.
  split; [apply empty_queue_ok|discriminate].
Qed.

(** Every state the page can be in satisfies the invariant. *)
Lemma reachable_invariant s : reachable s -> invariant s.
Proof.
  induction 1 as [d t0 m o sp | e s _ IH | t s _ IH | f s _ IH].
  - apply initialize_invariant.
  - now apply dispatch_invariant.
  - now apply advance_invariant.
  - exact IH.
Qed.

End ReachableFacts.

(* ------------------------------------------------------------------ *)
(** ** Export *)

Module ExportFacts.

Import JSONFacts.

Lemma App_note_json_reproduces n : App.reproduces n (App.note_json n).
Proof. unfold App.reproduces, App.note_json. repeat split. Qed.

Lemma Hybrid_note_json_reproduces n : Hybrid.reproduces n (Hybrid.note_json n).
Proof. unfold Hybrid.reproduces, Hybrid.note_json. repeat split. Qed.

Lemma Forall2_map_r {A B : Type} (R : A -> B -> Prop) (f : A -> B) (l : list A) :
  (forall a, R a (f a)) -> Forall2 R l (map f l).
Proof. intros Hf. induction l; simpl; constructor; auto. Qed.

(** C9.  When there are notes, the exported document parses back to an
    array with one object per listed note, in the same order, and each
    object holds the stored title, text, language, timestamp and tags
    unchanged: nothing is escaped on the way out.  Without notes no
    document is produced.  Both scripts. *)
Theorem export_round_trip :
  (forall s : App.State,
      match fst (App.exportNotes s) with
      | Some doc =>
          exists parsed,
            JSON.parse doc = Some (JSON.Arr parsed)
            /\ Forall2 App.reproduces (App.getAllNotes (App.db s)) parsed
      | None => App.getAllNotes (App.db s) = []
      end)
  /\ (forall s : Hybrid.State,
      match fst (Hybrid.exportNotes s) with
      | Some doc =>
          exists parsed,
            JSON.parse doc = Some (JSON.Arr parsed)
            /\ Forall2 Hybrid.reproduces (Hybrid.getAllNotes (Hybrid.db s)) parsed
      | None => Hybrid.getAllNotes (Hybrid.db s) = []
      end).
Proof.
  split.
  - intros s. unfold App.exportNotes.
    destruct (App.getAllNotes (App.db s)) as [|n notes] eqn:Hnotes;
      [reflexivity|]. simpl fst.
    exists (map App.note_json (n :: notes)). split.
    + apply parse_stringify.
    + apply Forall2_map_r, App_note_json_reproduces.
  - intros s. unfold Hybrid.exportNotes.
    destruct (Hybrid.getAllNotes (Hybrid.db s)) as [|n notes] eqn:Hnotes;
      [reflexivity|]. simpl fst.
    exists (map Hybrid.note_json (n :: notes)). split.
    + apply parse_stringify.
    + apply Forall2_map_r, Hybrid_note_json_reproduces.
Qed.

End ExportFacts.

(* ------------------------------------------------------------------ *)
(** ** The hybrid script: autosave *)

Module HybridAutosaveFacts.

Import TimersFacts Hybrid.
Local Open Scope Z_scope.

(** *** The timer queue and [saveTimeout] *)

Lemma Hybrid_not_autosave c h due :
  c <> CbAutoSave -> is_autosave (Timers.mkTimer h due c) = false.
Proof. unfold is_autosave. simpl. destruct c; congruence. Qed.

Lemma Hybrid_clear_saveTimeout_autosave q st :
  Timers.queue_ok is_autosave q st ->
  filter is_autosave
    (Timers.pending (match st with
                     | Some h => Timers.clearTimeout h q
                     | None => q
                     end)) = [].
Proof. apply clear_saved_handle. Qed.

Lemma Hybrid_quiet_filter (g : Timers.timer callback -> bool) l :
  filter is_summary l = [] -> filter is_summary (filter g l) = [].
Proof.
  induction l as [|x l IH]; simpl; [reflexivity|].
  destruct (is_summary x) eqn:Hx; [discriminate|].
  intros Hl. destruct (g x); simpl; [rewrite Hx|]; auto.
Qed.

Lemma Hybrid_timers_frame s s' :
  timers (env s') = timers (env s) -> saveTimeout s' = saveTimeout s ->
  timers_ok s -> timers_ok s'.
Proof. unfold timers_ok. now intros -> ->. Qed.

(** *** Handlers that leave autosave alone *)

Lemma Hybrid_calm_refl s : calm s s.
Proof. split; [reflexivity|split; [reflexivity|auto]]. Qed.

Lemma Hybrid_calm_trans s1 s2 s3 : calm s1 s2 -> calm s2 s3 -> calm s1 s3.
Proof.
  intros (Hv & Hn & Hok) (Hv' & Hn' & Hok').
  split; [congruence|split; [congruence|auto]].
Qed.

Lemma Hybrid_setTimeout_calm c d s :
  c <> CbAutoSave -> c <> CbSummary -> calm s (snd (setTimeout c d s)).
Proof.
  intros Hc Hc'. unfold setTimeout. simpl. split; [|split; [reflexivity|]].
  - unfold view, autosave_pending, summary_pending. simpl.
    rewrite !filter_app.
    assert (Ha : filter is_autosave
                   [Timers.mkTimer (Timers.next_handle (timers (env s)))
                                   (now (env s) + d) c] = [])
      by (destruct c; try congruence; reflexivity).
    assert (Hs : filter is_summary
                   [Timers.mkTimer (Timers.next_handle (timers (env s)))
                                   (now (env s) + d) c] = [])
      by (destruct c; try congruence; reflexivity).
    rewrite Ha, Hs. now rewrite !app_nil_r.
  - intros Hok. apply queue_ok_setTimeout; [|exact Hok].
    intros h due. now apply Hybrid_not_autosave.
Qed.

Lemma Hybrid_showStatus_calm m b s : calm s (showStatus m b s).
Proof.
  unfold showStatus. cbv zeta.
  eapply Hybrid_calm_trans; [|apply Hybrid_setTimeout_calm; discriminate].
  calm_step.
Qed.

Lemma Hybrid_stopRecording_calm s : calm s (stopRecording s).
Proof.
  unfold stopRecording. destruct (recognition s); [|apply Hybrid_calm_refl].
  destruct (isRecording s); [|apply Hybrid_calm_refl].
  cbv zeta. destruct (_ && _).
  - eapply Hybrid_calm_trans; [|calm_step].
    eapply Hybrid_calm_trans; [|apply Hybrid_showStatus_calm]. calm_step.
  - eapply Hybrid_calm_trans; [|apply Hybrid_showStatus_calm]. calm_step.
Qed.

Lemma Hybrid_restart_calm s : calm s (restart s).
Proof.
  unfold restart. destruct (Engine.start (engine (env s))) as [[u|e] g].
  - calm_step.
  - eapply Hybrid_calm_trans; [|apply Hybrid_showStatus_calm].
    eapply Hybrid_calm_trans; [|apply Hybrid_stopRecording_calm]. calm_step.
Qed.

Lemma Hybrid_run_callback_calm c s :
  c <> CbAutoSave -> c <> CbSummary -> calm s (run_callback c s).
Proof.
  intros Hc Hc'. destruct c; simpl; try congruence.
  - apply Hybrid_restart_calm.
  - apply Hybrid_showStatus_calm.
  - calm_step.
Qed.

(** *** [autoSave] itself *)

Lemma Hybrid_view_fields s s' :
  view s' = view s ->
  editor s' = editor s /\ currentNote s' = currentNote s /\ db s' = db s
  /\ saved (env s') = saved (env s) /\ saveTimeout s' = saveTimeout s
  /\ autosave_pending s' = autosave_pending s.
Proof.
  unfold view, editor. intros [= -> -> -> -> -> -> -> _]. tauto.
Qed.

Lemma Hybrid_view_summary s s' :
  view s' = view s -> summary_pending s' = summary_pending s.
Proof. unfold view. intros [= _ _ _ _ _ _ _ ->]. reflexivity. Qed.

Lemma Hybrid_calm_quiet s s' :
  calm s s' -> summary_pending s = [] -> summary_pending s' = [].
Proof. intros (Hv & _) Hq. now rewrite (Hybrid_view_summary Hv). Qed.

Lemma Hybrid_saveNote_rejected n d e d' : saveNote n d = (Rejected e, d') -> d' = d.
Proof.
  unfold saveNote. destruct (truthy_id (id n));
    apply IDBFacts.store_request_rejected.
Qed.

Lemma Hybrid_autoSave_effect s n :
  currentNote s = Some n ->
  let n' := snapshot n (noteTitleInput (elements s),
                        Dom.value (noteTextArea (elements s))) (now (env s)) in
  saved (env (autoSave s)) = saved (env s) ++ [n']
  /\ db (autoSave s) = snd (saveNote n' (db s))
  /\ noteTitleInput (elements (autoSave s)) = noteTitleInput (elements s)
  /\ noteTextArea (elements (autoSave s)) = noteTextArea (elements s)
  /\ autosave_pending (autoSave s) = autosave_pending s
  /\ (timers_ok s -> timers_ok (autoSave s))
  /\ now (env (autoSave s)) = now (env s)
  /\ is_some (currentNote (autoSave s)) = true.
Proof.
  intros Hn. unfold autoSave, snapshot. rewrite Hn. cbv zeta. simpl.
  destruct (saveNote _ (db s)) as [[k|e] d'] eqn:Hsave.
  - unfold autosave_pending, timers_ok.
    destruct (truthy_id (id n)); simpl; conjuncts; auto.
  - apply Hybrid_saveNote_rejected in Hsave. subst d'.
    match goal with
    | |- context [showStatus ?m ?b ?x] =>
        destruct (Hybrid_showStatus_calm m b x) as (Hv & Hnow & Hok);
        apply Hybrid_view_fields in Hv;
        destruct Hv as (_ & _ & _ & _ & _ & Hp)
    end.
    split; [reflexivity|]. split; [reflexivity|]. split; [reflexivity|].
    split; [reflexivity|]. split; [exact Hp|]. split; [exact Hok|].
    split; reflexivity.
Qed.

Lemma Hybrid_autoSave_summary s :
  summary_pending (autoSave s) = summary_pending s.
Proof.
  unfold autoSave. destruct (currentNote s) as [n|]; [|reflexivity].
  cbv zeta. simpl.
  destruct (saveNote _ (db s)) as [[k|e] d'].
  - destruct (truthy_id (id n)); reflexivity.
  - match goal with
    | |- context [showStatus ?m ?b ?x] =>
        destruct (Hybrid_showStatus_calm m b x) as (Hv & _)
    end.
    now rewrite (Hybrid_view_summary Hv).
Qed.

Lemma Hybrid_autoSave_keeps s :
  (timers_ok s -> timers_ok (autoSave s))
  /\ (is_some (currentNote s) = true -> is_some (currentNote (autoSave s)) = true)
  /\ now (env (autoSave s)) = now (env s).
Proof.
  destruct (currentNote s) as [n|] eqn:Hn.
  - destruct (Hybrid_autoSave_effect s Hn) as (_ & _ & _ & _ & _ & Hok & Hnow & Hsome).
    split; [exact Hok|split; [auto|assumption]].
  - unfold autoSave. rewrite Hn. split; [auto|split; [discriminate|reflexivity]].
Qed.

Lemma Hybrid_calm_keeps s s' :
  calm s s' ->
  (timers_ok s -> timers_ok s')
  /\ (is_some (currentNote s) = true -> is_some (currentNote s') = true)
  /\ now (env s') = now (env s).
Proof.
  intros (Hv & Hn & Hok). split; [assumption|split; [|assumption]].
  apply Hybrid_view_fields in Hv. destruct Hv as (_ & Hc & _). now rewrite Hc.
Qed.

(** The rest of [summarizeNote] saves the open note and leaves the timers
    as they are. *)
Lemma Hybrid_summarized_keeps s :
  (timers_ok s -> timers_ok (summarized s))
  /\ (is_some (currentNote s) = true -> is_some (currentNote (summarized s)) = true)
  /\ now (env (summarized s)) = now (env s).
Proof.
  unfold summarized.
  destruct (currentNote s) as [n|] eqn:Hn;
    [|split; [auto|split; [discriminate|reflexivity]]].
  cbv zeta.
  match goal with
  | |- context [showStatus ?m ?b (autoSave ?x)] =>
      destruct (Hybrid_autoSave_keeps x) as (Hok & Hsome & Hnow);
      destruct (Hybrid_calm_keeps (Hybrid_showStatus_calm m b (autoSave x)))
        as (Hok' & Hsome' & Hnow')
  end.
  split; [|split].
  - intros H. apply Hok', Hok. exact H.
  - intros _. apply Hsome', Hsome. reflexivity.
  - rewrite Hnow', Hnow. reflexivity.
Qed.

Lemma Hybrid_summarized_summary s :
  summary_pending (summarized s) = summary_pending s.
Proof.
  unfold summarized. destruct (currentNote s) as [n|]; [|reflexivity].
  cbv zeta.
  match goal with
  | |- context [showStatus ?m ?b (autoSave ?x)] =>
      destruct (Hybrid_showStatus_calm m b (autoSave x)) as (Hv & _);
      rewrite (Hybrid_view_summary Hv), (Hybrid_autoSave_summary x)
  end.
  reflexivity.
Qed.

Lemma Hybrid_callback_cases (c : callback) :
  c = CbAutoSave \/ c = CbSummary \/ (c <> CbAutoSave /\ c <> CbSummary).
Proof.
  destruct c; [now left|right; right; split; discriminate..|right; now left].
Qed.

Lemma Hybrid_clearTimeout_keeps h s :
  (timers_ok s -> timers_ok (clearTimeout h s))
  /\ currentNote (clearTimeout h s) = currentNote s
  /\ now (env (clearTimeout h s)) = now (env s).
Proof.
  split; [|split; reflexivity].
  unfold timers_ok, clearTimeout. simpl. apply queue_ok_clearTimeout.
Qed.

Lemma Hybrid_fire_keeps h s :
  (timers_ok s -> timers_ok (fire h s))
  /\ (is_some (currentNote s) = true -> is_some (currentNote (fire h s)) = true)
  /\ now (env (fire h s)) = now (env s).
Proof.
  unfold fire.
  destruct (Timers.find h _) as [u|]; [|split; [auto|split; [auto|reflexivity]]].
  destruct (Hybrid_clearTimeout_keeps h s) as (Hok & Hc & Hnow).
  assert (Hrun : (timers_ok (clearTimeout h s) ->
                  timers_ok (run_callback (Timers.callback u) (clearTimeout h s)))
                 /\ (is_some (currentNote (clearTimeout h s)) = true ->
                     is_some (currentNote (run_callback (Timers.callback u)
                                                        (clearTimeout h s))) = true)
                 /\ now (env (run_callback (Timers.callback u) (clearTimeout h s)))
                    = now (env (clearTimeout h s))).
  { destruct (Hybrid_callback_cases (Timers.callback u)) as [-> | [-> | [Hne Hne']]].
    - apply Hybrid_autoSave_keeps.
    - apply Hybrid_summarized_keeps.
    - apply Hybrid_calm_keeps, Hybrid_run_callback_calm; assumption. }
  destruct Hrun as (Hok' & Hc' & Hnow').
  rewrite Hc in Hc'. split; [auto|split; [auto|congruence]].
Qed.

Lemma Hybrid_fires_keeps hs s :
  (timers_ok s -> timers_ok (fires hs s))
  /\ (is_some (currentNote s) = true -> is_some (currentNote (fires hs s)) = true)
  /\ now (env (fires hs s)) = now (env s).
Proof.
  revert s. induction hs as [|h hs IH]; simpl; intros s;
    [split; [auto|split; [auto|reflexivity]]|].
  destruct (Hybrid_fire_keeps h s) as (Hok & Hc & Hnow).
  destruct (IH (fire h s)) as (Hok' & Hc' & Hnow').
  split; [auto|split; [auto|congruence]].
Qed.

Lemma Hybrid_advance_fires t s :
  advance t s
  = fires (Timers.due_handles (Z.max t (now (env s))) (timers (env s)))
          (on_env (set_now (Z.max t (now (env s)))) s).
Proof. reflexivity. Qed.

Lemma Hybrid_advance_keeps t s :
  (timers_ok s -> timers_ok (advance t s))
  /\ (is_some (currentNote s) = true -> is_some (currentNote (advance t s)) = true)
  /\ now (env (advance t s)) = Z.max t (now (env s)).
Proof.
  rewrite Hybrid_advance_fires.
  destruct (Hybrid_fires_keeps
    (Timers.due_handles (Z.max t (now (env s))) (timers (env s)))
    (on_env (set_now (Z.max t (now (env s)))) s)) as (Hok & Hc & Hnow).
  split; [exact Hok|split; [exact Hc|exact Hnow]].
Qed.

(** While no summary is being generated, none starts by itself. *)
Lemma Hybrid_fire_quiet h s :
  summary_pending s = [] -> summary_pending (fire h s) = [].
Proof.
  intros Hq. unfold fire.
  destruct (Timers.find h _) as [u|]; [|exact Hq].
  assert (Hq' : summary_pending (clearTimeout h s) = []).
  { unfold summary_pending, clearTimeout. simpl.
    now apply Hybrid_quiet_filter. }
  destruct (Hybrid_callback_cases (Timers.callback u)) as [-> | [-> | [Hne Hne']]].
  - simpl. now rewrite Hybrid_autoSave_summary.
  - simpl. now rewrite Hybrid_summarized_summary.
  - eapply Hybrid_calm_quiet; [|exact Hq'].
    now apply Hybrid_run_callback_calm.
Qed.

Lemma Hybrid_fires_quiet hs : forall s,
  summary_pending s = [] -> summary_pending (fires hs s) = [].
Proof.
  induction hs as [|h hs IH]; simpl; intros s Hq; [exact Hq|].
  now apply IH, Hybrid_fire_quiet.
Qed.

Lemma Hybrid_advance_quiet t s :
  summary_pending s = [] -> summary_pending (advance t s) = [].
Proof. intros Hq. rewrite Hybrid_advance_fires. now apply Hybrid_fires_quiet. Qed.

(** *** Timers that fire while an autosave is pending *)

Lemma Hybrid_clearTimeout_calm h s :
  ~ In h (autosave_handles s) -> summary_pending s = [] ->
  calm s (clearTimeout h s).
Proof.
  intros Hh Hq. split; [|split; [reflexivity|apply Hybrid_clearTimeout_keeps]].
  assert (Hq' : summary_pending (clearTimeout h s) = summary_pending s).
  { rewrite Hq. unfold summary_pending, clearTimeout. simpl.
    now apply Hybrid_quiet_filter. }
  unfold view. rewrite Hq'. f_equal.
  unfold autosave_pending, clearTimeout. simpl.
  rewrite filter_filter_absorb; [reflexivity|].
  intros u Hu Hau. apply negb_true_iff, Nat.eqb_neq. intros He.
  apply Hh. unfold autosave_handles, autosave_pending.
  apply in_map_iff. exists u. split; [assumption|]. now apply filter_In.
Qed.

Lemma Hybrid_fire_calm h s :
  ~ In h (autosave_handles s) -> summary_pending s = [] -> calm s (fire h s).
Proof.
  intros Hh Hq. unfold fire.
  destruct (Timers.find h _) as [u|] eqn:Hf; [|apply Hybrid_calm_refl].
  apply Hybrid_calm_trans with (clearTimeout h s);
    [now apply Hybrid_clearTimeout_calm|].
  apply find_some in Hf. destruct Hf as [Hin <-].
  apply Hybrid_run_callback_calm; intros Hc.
  - apply Hh. unfold autosave_handles, autosave_pending.
    apply in_map, filter_In. split; [assumption|].
    unfold is_autosave. now rewrite Hc.
  - assert (Hu : In u (summary_pending s)).
    { unfold summary_pending. apply filter_In. split; [assumption|].
      unfold is_summary. now rewrite Hc. }
    rewrite Hq in Hu. contradiction.
Qed.

Lemma Hybrid_calm_handles s s' : calm s s' -> autosave_handles s' = autosave_handles s.
Proof.
  intros (Hv & _). apply Hybrid_view_fields in Hv.
  destruct Hv as (_ & _ & _ & _ & _ & Hp).
  unfold autosave_handles. now rewrite Hp.
Qed.

Lemma Hybrid_fires_calm hs s :
  (forall h, In h hs -> ~ In h (autosave_handles s)) ->
  summary_pending s = [] -> calm s (fires hs s).
Proof.
  revert s. induction hs as [|h hs IH]; simpl; intros s Hhs Hq;
    [apply Hybrid_calm_refl|].
  assert (Hfire : calm s (fire h s))
    by (apply Hybrid_fire_calm; [apply Hhs; now left|exact Hq]).
  eapply Hybrid_calm_trans; [exact Hfire|]. apply IH.
  - intros h' Hh'. rewrite (Hybrid_calm_handles Hfire). apply Hhs. now right.
  - exact (Hybrid_calm_quiet Hfire Hq).
Qed.

(** While the autosave timers are not yet due, waking the loop up changes
    nothing for autosave. *)
Lemma Hybrid_advance_calm t s :
  timers_ok s -> summary_pending s = [] ->
  (forall u, In u (autosave_pending s) -> Z.max t (now (env s)) < Timers.due u) ->
  view (advance t s) = view s /\ timers_ok (advance t s).
Proof.
  intros Hok Hq Hdue. rewrite Hybrid_advance_fires.
  set (s0 := on_env (set_now (Z.max t (now (env s)))) s).
  assert (Hcalm : calm s0 (fires (Timers.due_handles (Z.max t (now (env s)))
                                                     (timers (env s))) s0)).
  { apply Hybrid_fires_calm; [|exact Hq]. intros h Hh Hin.
    apply due_handles_spec in Hh. destruct Hh as (u1 & Hu1 & Hh1 & Hd1).
    unfold autosave_handles in Hin. apply in_map_iff in Hin.
    destruct Hin as (u2 & Hh2 & Hu2).
    assert (Hu2' : In u2 (autosave_pending s)) by exact Hu2.
    unfold autosave_pending in Hu2'. apply filter_In in Hu2'.
    destruct Hu2' as [Hin2 Hau2].
    apply (Timers.save_handle Hok u2 Hin2) in Hau2.
    assert (Hau1 : is_autosave u1 = true).
    { apply (Timers.save_handle Hok u1 Hu1). congruence. }
    assert (Hin1 : In u1 (autosave_pending s))
      by (apply filter_In; split; assumption).
    specialize (Hdue u1 Hin1). lia. }
  destruct Hcalm as (Hv & _ & Hok'). split; [exact Hv|]. apply Hok'. exact Hok.
Qed.

(** *** The pending autosave fires *)

Lemma Hybrid_fire_autosave u s n :
  timers_ok s -> In u (autosave_pending s) -> currentNote s = Some n ->
  let n' := snapshot n (editor s) (now (env s)) in
  let s' := fire (Timers.handle u) s in
  saved (env s') = saved (env s) ++ [n']
  /\ db s' = snd (saveNote n' (db s))
  /\ autosave_pending s' = []
  /\ timers_ok s'.
Proof.
  intros Hok Hu Hn n' s'. subst n' s'.
  unfold autosave_pending in Hu. apply filter_In in Hu. destruct Hu as [Hin Hau].
  pose proof (proj1 (Timers.save_handle Hok u Hin) Hau) as Hst.
  split; [|split; [|split]]; [| | |apply Hybrid_fire_keeps, Hok].
  all: unfold fire.
  all: destruct (Timers.find (Timers.handle u) (Timers.pending (timers (env s))))
         as [u0|] eqn:Hf;
       [|exfalso; eapply find_none; [exact Hf|exact Hin|reflexivity]].
  all: apply find_some in Hf; destruct Hf as [Hin0 Hh0].
  all: assert (Hau0 : is_autosave u0 = true)
         by (apply (Timers.save_handle Hok u0 Hin0); congruence).
  all: assert (Hcb : Timers.callback u0 = CbAutoSave)
         by (unfold is_autosave in Hau0; destruct (Timers.callback u0);
             congruence).
  all: rewrite Hcb; simpl.
  all: assert (Hn' : currentNote (clearTimeout (Timers.handle u) s) = Some n)
         by exact Hn.
  all: destruct (Hybrid_autoSave_effect _ Hn') as (Hsaved & Hdb & _ & _ & Hp & _).
  - exact Hsaved.
  - exact Hdb.
  - rewrite Hp. unfold autosave_pending. simpl.
    pose proof (Hybrid_clear_saveTimeout_autosave Hok) as Hclear.
    rewrite Hst in Hclear. exact Hclear.
Qed.

Lemma Hybrid_fires_autosave hs : forall u s n,
  timers_ok s -> summary_pending s = [] ->
  autosave_pending s = [u] -> currentNote s = Some n ->
  In (Timers.handle u) hs ->
  let n' := snapshot n (editor s) (now (env s)) in
  saved (env (fires hs s)) = saved (env s) ++ [n']
  /\ db (fires hs s) = snd (saveNote n' (db s))
  /\ autosave_pending (fires hs s) = []
  /\ timers_ok (fires hs s).
Proof.
  induction hs as [|h hs IH]; simpl; intros u s n Hok Hq Hp Hn Hin; [contradiction|].
  destruct (Nat.eq_dec h (Timers.handle u)) as [->|Hne].
  - assert (Hu : In u (autosave_pending s)) by (rewrite Hp; now left).
    destruct (Hybrid_fire_autosave _ Hok Hu Hn) as (Hsaved & Hdb & Hnone & Hok').
    assert (Hcalm : calm (fire (Timers.handle u) s)
                         (fires hs (fire (Timers.handle u) s))).
    { apply Hybrid_fires_calm; [|now apply Hybrid_fire_quiet].
      intros h' _. unfold autosave_handles.
      rewrite Hnone. simpl. tauto. }
    destruct Hcalm as (Hv & _ & Hok'').
    apply Hybrid_view_fields in Hv. destruct Hv as (_ & _ & Hd & Hs & _ & Hpend).
    rewrite Hd, Hs, Hpend. auto.
  - destruct Hin as [Hin|Hin]; [congruence|].
    assert (Hcalm : calm s (fire h s)).
    { apply Hybrid_fire_calm; [|exact Hq]. unfold autosave_handles. rewrite Hp. simpl.
      intros [He|[]]. congruence. }
    pose proof Hcalm as (Hv & Hnow & Hok').
    apply Hybrid_view_fields in Hv. destruct Hv as (He & Hc & Hd & Hs & _ & Hpend).
    destruct (IH u (fire h s) n) as (Hsaved & Hdb & Hnone & Hok'');
      [auto|exact (Hybrid_calm_quiet Hcalm Hq)|congruence|congruence|assumption|].
    rewrite He, Hnow, Hd, Hs in *. auto.
Qed.

(** Once the autosave timer is due, waking the loop up writes the note
    once, as the editor then holds it. *)
Lemma Hybrid_advance_autosave t u s n :
  timers_ok s -> summary_pending s = [] ->
  autosave_pending s = [u] -> currentNote s = Some n ->
  Timers.due u <= Z.max t (now (env s)) ->
  let n' := snapshot n (editor s) (Z.max t (now (env s))) in
  saved (env (advance t s)) = saved (env s) ++ [n']
  /\ db (advance t s) = snd (saveNote n' (db s))
  /\ autosave_pending (advance t s) = []
  /\ timers_ok (advance t s).
Proof.
  intros Hok Hq Hp Hn Hdue. rewrite Hybrid_advance_fires.
  assert (Hin : In (Timers.handle u)
                   (Timers.due_handles (Z.max t (now (env s))) (timers (env s)))).
  { apply due_handles_spec. exists u. split; [|split; [reflexivity|assumption]].
    assert (Hu : In u (autosave_pending s)) by (rewrite Hp; now left).
    unfold autosave_pending in Hu. now apply filter_In in Hu. }
  exact (@Hybrid_fires_autosave _ u (on_env (set_now (Z.max t (now (env s)))) s) n
                         Hok Hq Hp Hn Hin).
Qed.

(** *** A burst of mutations *)

Lemma Hybrid_scheduleAutoSave_effect s :
  timers_ok s ->
  timers_ok (scheduleAutoSave s)
  /\ autosave_pending (scheduleAutoSave s)
     = [Timers.mkTimer (Timers.next_handle (timers (env s)))
                       (now (env s) + 1000) CbAutoSave]
  /\ editor (scheduleAutoSave s) = editor s
  /\ currentNote (scheduleAutoSave s) = currentNote s
  /\ db (scheduleAutoSave s) = db s
  /\ saved (env (scheduleAutoSave s)) = saved (env s)
  /\ now (env (scheduleAutoSave s)) = now (env s).
Proof.
  intros Hok.
  assert (Hq := @queue_ok_schedule _ is_autosave CbAutoSave 1000 (now (env s))
                  _ _ (fun _ _ => eq_refl) Hok).
  pose proof (Hybrid_clear_saveTimeout_autosave Hok) as Hclear.
  unfold timers_ok, autosave_pending, scheduleAutoSave, setTimeout, clearTimeout,
    editor in *.
  simpl in *. destruct (saveTimeout s) as [h|]; simpl in *.
  - split; [exact Hq|]. rewrite filter_app, Hclear. simpl. repeat split.
  - split; [exact Hq|]. rewrite filter_app, Hclear. simpl. repeat split.
Qed.

Lemma Hybrid_scheduleAutoSave_quiet s :
  summary_pending s = [] -> summary_pending (scheduleAutoSave s) = [].
Proof.
  intros Hq. unfold summary_pending, scheduleAutoSave, setTimeout, clearTimeout in *.
  simpl in *. destruct (saveTimeout s) as [h|]; simpl.
  - rewrite filter_app. simpl. rewrite app_nil_r.
    now apply Hybrid_quiet_filter.
  - rewrite filter_app. simpl. now rewrite app_nil_r.
Qed.

Lemma Hybrid_mutation_effect e s :
  is_mutation e = true -> timers_ok s ->
  timers_ok (dispatch e s)
  /\ (exists u, autosave_pending (dispatch e s) = [u]
                /\ Timers.due u = now (env s) + 1000)
  /\ editor (dispatch e s) = edit (editor s) e
  /\ currentNote (dispatch e s) = currentNote s
  /\ db (dispatch e s) = db s
  /\ saved (env (dispatch e s)) = saved (env s)
  /\ now (env (dispatch e s)) = now (env s)
  /\ (summary_pending s = [] -> summary_pending (dispatch e s) = []).
Proof.
  intros He Hok. destruct e; try discriminate; unfold dispatch.
  - destruct (@Hybrid_scheduleAutoSave_effect (on_elements (set_noteTitleInput v) s) Hok)
      as (H1 & H2 & H3 & H4 & H5 & H6 & H7).
    split; [exact H1|]. split; [eexists; split; [exact H2|reflexivity]|].
    rewrite H3, H4, H5, H6, H7. conjuncts; try reflexivity.
    intros Hq. now apply Hybrid_scheduleAutoSave_quiet.
  - destruct (@Hybrid_scheduleAutoSave_effect
                (on_elements (set_noteTextArea
                   (Dom.mkTextarea v (Nat.min caret (List.length v)))) s) Hok)
      as (H1 & H2 & H3 & H4 & H5 & H6 & H7).
    split; [exact H1|]. split; [eexists; split; [exact H2|reflexivity]|].
    rewrite H3, H4, H5, H6, H7. conjuncts; try reflexivity.
    intros Hq. now apply Hybrid_scheduleAutoSave_quiet.
Qed.

(** A slot of a result event: a final one puts its text in and moves the
    autosave timer, another one leaves everything autosave looks at. *)
Lemma Hybrid_slot_effect r s n :
  timers_ok s -> currentNote s = Some n ->
  let s' := onresult_slot s r in
  timers_ok s'
  /\ now (env s') = now (env s)
  /\ saved (env s') = saved (env s)
  /\ db s' = db s
  /\ fst (editor s') = fst (editor s)
  /\ (exists n', currentNote s' = Some n' /\ meta n' = meta n)
  /\ (summary_pending s = [] -> summary_pending s' = [])
  /\ (if Engine.isFinal r
      then exists u, autosave_pending s' = [u]
                     /\ Timers.due u = now (env s) + 1000
      else autosave_pending s' = autosave_pending s).
Proof.
  intros Hok Hn. cbv zeta. unfold onresult_slot.
  destruct (Engine.isFinal r).
  - cbv zeta.
    change (currentNote (set_finalTranscript
              (finalTranscript s ++ Engine.transcript r ++ js " ") s))
      with (currentNote s).
    rewrite Hn.
    match goal with
    | |- context [scheduleAutoSave ?x] =>
        assert (Hx : timers_ok x) by exact Hok;
        destruct (Hybrid_scheduleAutoSave_effect Hx)
          as (H1 & H2 & H3 & H4 & H5 & H6 & H7);
        pose proof (@Hybrid_scheduleAutoSave_quiet x) as H8
    end.
    split; [exact H1|]. split; [exact H7|]. split; [exact H6|].
    split; [exact H5|]. split; [rewrite H3; reflexivity|].
    split; [rewrite H4; eexists; split; reflexivity|]. split; [exact H8|].
    rewrite H2. eexists. split; reflexivity.
  - conjuncts; try reflexivity; auto. exists n. auto.
Qed.

Lemma Hybrid_slots_effect rs : forall s n,
  timers_ok s -> currentNote s = Some n ->
  let s' := fold_left onresult_slot rs s in
  timers_ok s'
  /\ now (env s') = now (env s)
  /\ saved (env s') = saved (env s)
  /\ db s' = db s
  /\ fst (editor s') = fst (editor s)
  /\ (exists n', currentNote s' = Some n' /\ meta n' = meta n)
  /\ (summary_pending s = [] -> summary_pending s' = [])
  /\ ((exists u, autosave_pending s = [u]
                 /\ Timers.due u = now (env s) + 1000)
      \/ filter Engine.isFinal rs <> [] ->
      exists u, autosave_pending s' = [u]
                /\ Timers.due u = now (env s) + 1000).
Proof.
  induction rs as [|r rs IH]; intros s n Hok Hn; cbv zeta.
  - simpl. conjuncts; auto. + exists n. auto.
    + intros [H|H]; [exact H|contradiction].
  - cbn [fold_left filter].
    destruct (@Hybrid_slot_effect r s n Hok Hn)
      as (Hok1 & Hnow1 & Hs1 & Hd1 & He1 & (n1 & Hn1 & Hm1) & Hq1 & Hp1).
    destruct (IH _ n1 Hok1 Hn1)
      as (Hok2 & Hnow2 & Hs2 & Hd2 & He2 & (n2 & Hn2 & Hm2) & Hq2 & Hp2).
    rewrite Hnow1 in *.
    split; [exact Hok2|]. split; [exact Hnow2|]. split; [congruence|].
    split; [congruence|]. split; [congruence|].
    split; [exists n2; split; congruence|]. split; [auto|].
    intros Hcase. apply Hp2.
    destruct (Engine.isFinal r).
    + left. exact Hp1.
    + rewrite Hp1. destruct Hcase as [H|H]; [now left|now right].
Qed.

Lemma Hybrid_onresult_effect ev s n :
  timers_ok s -> currentNote s = Some n -> deltas ev <> [] ->
  timers_ok (onresult ev s)
  /\ (exists u, autosave_pending (onresult ev s) = [u]
                /\ Timers.due u = now (env s) + 1000)
  /\ fst (editor (onresult ev s)) = fst (editor s)
  /\ (exists n', currentNote (onresult ev s) = Some n' /\ meta n' = meta n)
  /\ db (onresult ev s) = db s
  /\ saved (env (onresult ev s)) = saved (env s)
  /\ now (env (onresult ev s)) = now (env s)
  /\ (summary_pending s = [] -> summary_pending (onresult ev s) = []).
Proof.
  intros Hok Hn Hd. unfold onresult, deltas in *. cbv zeta.
  assert (Hok0 : timers_ok (set_interimTranscript (js "") s)) by exact Hok.
  assert (Hn0 : currentNote (set_interimTranscript (js "") s) = Some n) by exact Hn.
  destruct (@Hybrid_slots_effect
              (skipn (Engine.resultIndex ev) (Engine.results ev)) _ n Hok0 Hn0)
    as (Hok1 & Hnow1 & Hs1 & Hd1 & He1 & Hn1 & Hq1 & Hp1).
  destruct Hp1 as (u & Hu & Hdue).
  { right. intros Hnil. apply Hd. now rewrite Hnil. }
  split; [exact Hok1|]. split; [exists u; split; [exact Hu|exact Hdue]|].
  split; [exact He1|]. split; [exact Hn1|]. split; [exact Hd1|].
  split; [exact Hs1|]. split; [exact Hnow1|]. exact Hq1.
Qed.

Lemma Hybrid_snapshot_meta n n' tb t :
  meta n' = meta n -> snapshot n' tb t = snapshot n tb t.
Proof. unfold meta, snapshot. intros [= -> -> -> ->]. reflexivity. Qed.

(** What a mutation, typed or dictated, does for autosave. *)
Lemma Hybrid_mutates_effect e s n :
  mutates e s = true -> timers_ok s -> summary_pending s = [] ->
  currentNote s = Some n ->
  timers_ok (dispatch e s)
  /\ (exists u, autosave_pending (dispatch e s) = [u]
                /\ Timers.due u = now (env s) + 1000)
  /\ summary_pending (dispatch e s) = []
  /\ (is_mutation e = true -> editor (dispatch e s) = edit (editor s) e)
  /\ (exists n', currentNote (dispatch e s) = Some n' /\ meta n' = meta n)
  /\ db (dispatch e s) = db s
  /\ saved (env (dispatch e s)) = saved (env s)
  /\ now (env (dispatch e s)) = now (env s).
Proof.
  intros He Hok Hq Hn.
  destruct (is_mutation e) eqn:Hmut.
  - destruct (@Hybrid_mutation_effect e s Hmut Hok)
      as (H1 & H2 & H3 & H4 & H5 & H6 & H7 & H8).
    split; [exact H1|]. split; [exact H2|]. split; [auto|]. split; [auto|].
    split; [exists n; split; [congruence|reflexivity]|]. auto.
  - destruct e; try discriminate.
    simpl in He. apply andb_true_iff in He. destruct He as [_ Hd].
    assert (Hd' : deltas e <> []) by (destruct (deltas e); [discriminate|discriminate]).
    destruct (@Hybrid_onresult_effect e s n Hok Hn Hd')
      as (H1 & H2 & H3 & H4 & H5 & H6 & H7 & H8).
    change (dispatch (EngineResult e) s) with (onresult e s).
    split; [exact H1|]. split; [exact H2|]. split; [auto|].
    split; [discriminate|]. auto.
Qed.

(** Mutations that follow one another within the delay only move the
    timer. *)
Lemma Hybrid_burst_effect evs : forall s t u n,
  timers_ok s -> summary_pending s = [] ->
  autosave_pending s = [u] -> Timers.due u = t + 1000 ->
  now (env s) = t -> currentNote s = Some n ->
  burst_of evs s -> within_debounce t evs ->
  timers_ok (run_timed evs s)
  /\ summary_pending (run_timed evs s) = []
  /\ (exists u', autosave_pending (run_timed evs s) = [u']
                 /\ Timers.due u' = last (map fst evs) t + 1000)
  /\ now (env (run_timed evs s)) = last (map fst evs) t
  /\ (forallb is_mutation (map snd evs) = true ->
      editor (run_timed evs s) = edited evs (editor s))
  /\ (exists n', currentNote (run_timed evs s) = Some n' /\ meta n' = meta n)
  /\ db (run_timed evs s) = db s
  /\ saved (env (run_timed evs s)) = saved (env s).
Proof.
  induction evs as [|[t' e] evs IH]; intros s t u n Hok Hq Hp Hdue Hnow Hn Hb Hgap.
  - simpl. split; [exact Hok|]. split; [exact Hq|]. split; [exists u; auto|].
    split; [exact Hnow|]. split; [reflexivity|].
    split; [exists n; auto|]. auto.
  - destruct Hb as [He Hb]. simpl in Hgap. destruct Hgap as [Ht Hgap].
    assert (Hmax : Z.max t' (now (env s)) = t') by lia.
    destruct (@Hybrid_advance_calm t' s Hok Hq) as [Hv Hok1].
    { intros u0 Hu0. rewrite Hp in Hu0. destruct Hu0 as [<-|[]]. lia. }
    pose proof (Hybrid_view_summary Hv) as Hq1. rewrite Hq in Hq1.
    apply Hybrid_view_fields in Hv. destruct Hv as (Hed & Hc & Hd & Hs & _ & Hpend).
    pose proof (proj2 (proj2 (Hybrid_advance_keeps t' s))) as Hnow1.
    rewrite Hmax in Hnow1.
    assert (Hn1 : currentNote (advance t' s) = Some n) by congruence.
    destruct (@Hybrid_mutates_effect e (advance t' s) n He Hok1 Hq1 Hn1)
      as (Hok2 & (u2 & Hp2 & Hdue2) & Hq2 & Hed2 & (n2 & Hn2 & Hm2)
          & Hd2 & Hs2 & Hnow2).
    rewrite Hnow1 in *.
    destruct (IH (dispatch e (advance t' s)) t' u2 n2
                 Hok2 Hq2 Hp2 Hdue2 Hnow2 Hn2 Hb Hgap)
      as (Hok3 & Hq3 & Hu3 & Hnow3 & Hed3 & (n3 & Hn3 & Hm3) & Hd3 & Hs3).
    change (run_timed ((t', e) :: evs) s)
      with (run_timed evs (dispatch e (advance t' s))).
    change (map fst ((t', e) :: evs)) with (t' :: map fst evs).
    rewrite last_cons.
    split; [exact Hok3|]. split; [exact Hq3|]. split; [exact Hu3|].
    split; [exact Hnow3|].
    split; [|split; [exists n3; split; congruence|split; congruence]].
    intros Hall. simpl in Hall. apply andb_true_iff in Hall.
    destruct Hall as [Hall1 Hall2].
    rewrite (Hed3 Hall2), (Hed2 Hall1), Hed. reflexivity.
Qed.

(** A burst of mutations, each less than 1000 ms after the one before,
    while no summary is being generated: nothing is written while it
    lasts, one autosave timer is left, due 1000 ms after the last
    mutation, and when the loop next runs at or after that time there has
    been one call of [saveNote], with the title and body the editor holds
    after the last mutation. *)
Lemma Hybrid_burst_then_save s n t1 e1 rest T :
  timers_ok s -> summary_pending s = [] -> currentNote s = Some n ->
  now (env s) <= t1 ->
  burst_of ((t1, e1) :: rest) s ->
  within_debounce t1 rest ->
  last (map fst rest) t1 + 1000 <= T ->
  let before := advance t1 s in
  let burst := run_timed ((t1, e1) :: rest) s in
  let after := advance T burst in
  exists opened,
    currentNote before = Some opened
    /\ saved (env burst) = saved (env before)
    /\ (exists u, autosave_pending burst = [u]
                  /\ Timers.due u = last (map fst rest) t1 + 1000)
    /\ (forallb is_mutation (map snd ((t1, e1) :: rest)) = true ->
        editor burst = edited ((t1, e1) :: rest) (editor before))
    /\ let written := snapshot opened (editor burst) T in
       saved (env after) = saved (env before) ++ [written]
       /\ db after = snd (saveNote written (db before))
       /\ autosave_pending after = []
       /\ (forall k db', saveNote written (db before) = (Resolved k, db') ->
           exists r, getNote k (db after) = Some r
                     /\ title r = sanitizeInput (title written)
                     /\ text r = sanitizeInput (text written)).
Proof.
  intros Hok Hq Hn Hnow [He1 Hrest] Hgap HT. cbv zeta.
  destruct (Hybrid_advance_keeps t1 s) as (Hok0 & Hsome0 & Hnow0).
  specialize (Hok0 Hok).
  pose proof (@Hybrid_advance_quiet t1 s Hq) as Hq0.
  assert (Hsome : is_some (currentNote (advance t1 s)) = true)
    by (apply Hsome0; now rewrite Hn).
  destruct (currentNote (advance t1 s)) as [opened|] eqn:Hopen; [|discriminate].
  rewrite Z.max_l in Hnow0 by lia.
  destruct (@Hybrid_mutates_effect e1 (advance t1 s) opened He1 Hok0 Hq0 Hopen)
    as (Hok1 & (u1 & Hp1 & Hdue1) & Hq1 & Hed1 & (n1 & Hn1 & Hm1)
        & Hd1 & Hs1 & Hnow1).
  rewrite Hnow0 in *.
  destruct (@Hybrid_burst_effect rest (dispatch e1 (advance t1 s)) t1 u1 n1
              Hok1 Hq1 Hp1 Hdue1 Hnow1 Hn1 Hrest Hgap)
    as (Hok2 & Hq2 & (u2 & Hp2 & Hdue2) & Hnow2 & Hed2 & (n2 & Hn2 & Hm2)
        & Hd2 & Hs2).
  change (run_timed ((t1, e1) :: rest) s)
    with (run_timed rest (dispatch e1 (advance t1 s))) in *.
  assert (Hlast : t1 <= last (map fst rest) t1).
  { clear -Hgap. revert t1 Hgap. induction rest as [|[t' e] evs IH]; intros t Hg.
    - simpl. lia.
    - change (map fst ((t', e) :: evs)) with (t' :: map fst evs).
      rewrite last_cons. destruct Hg as [Ht Hg]. specialize (IH t' Hg). lia. }
  destruct (@Hybrid_advance_autosave T u2 _ n2 Hok2 Hq2 Hp2 Hn2)
    as (Hsaved & Hdb & Hnone & Hok3); [lia|].
  rewrite Hnow2, Z.max_l in Hsaved, Hdb by lia.
  rewrite (@Hybrid_snapshot_meta opened n2) in Hsaved, Hdb by congruence.
  rewrite Hs2, Hs1 in Hsaved. rewrite Hd2, Hd1 in Hdb.
  exists opened. split; [reflexivity|]. split; [congruence|].
  split; [exists u2; auto|]. split.
  { intros Hall. simpl in Hall. apply andb_true_iff in Hall.
    destruct Hall as [Hall1 Hall2].
    rewrite (Hed2 Hall2), (Hed1 Hall1). reflexivity. }
  split; [exact Hsaved|]. split; [exact Hdb|]. split; [exact Hnone|].
  intros k db' Hsave. rewrite Hdb, Hsave. simpl.
  destruct (HybridFacts.Hybrid_saveNote_persists _ _ Hsave)
    as (r & Hget & _ & Ht & Hx & _).
  exists r. auto.
Qed.

End HybridAutosaveFacts.
(* ------------------------------------------------------------------ *)
(** ** The hybrid script: reachable states *)

Module HybridReachableFacts.

Import TimersFacts Hybrid HybridAutosaveFacts.
Local Open Scope Z_scope.

Ltac framed := apply Hybrid_timers_frame; reflexivity.

Lemma Hybrid_calm_ok s s' : calm s s' -> timers_ok s -> timers_ok s'.
Proof. now intros (_ & _ & Hok). Qed.

Lemma Hybrid_updateEditor_ok s : timers_ok s -> timers_ok (updateEditor s).
Proof. unfold updateEditor. destruct (currentNote s); [framed|auto]. Qed.

Lemma Hybrid_createNewNote_ok s : timers_ok s -> timers_ok (createNewNote s).
Proof. unfold createNewNote, updateEditor. simpl. framed. Qed.

Lemma Hybrid_openFirst_ok s : timers_ok s -> timers_ok (openFirst s).
Proof.
  unfold openFirst. destruct (getAllNotes (db s)) as [|n l].
  - apply Hybrid_createNewNote_ok.
  - intros H. apply Hybrid_updateEditor_ok. revert H. framed.
Qed.

Lemma Hybrid_showStatus_ok m b s : timers_ok s -> timers_ok (showStatus m b s).
Proof. apply Hybrid_calm_ok, Hybrid_showStatus_calm. Qed.

Lemma Hybrid_stopRecording_ok s : timers_ok s -> timers_ok (stopRecording s).
Proof. apply Hybrid_calm_ok, Hybrid_stopRecording_calm. Qed.

Lemma Hybrid_setTimeout_ok c d s :
  c <> CbAutoSave -> timers_ok s -> timers_ok (snd (setTimeout c d s)).
Proof.
  intros Hc Hok. unfold timers_ok, setTimeout. simpl.
  apply queue_ok_setTimeout; [|exact Hok].
  intros h due. now apply Hybrid_not_autosave.
Qed.

Lemma Hybrid_summarizeNote_ok s : timers_ok s -> timers_ok (summarizeNote s).
Proof.
  intros Hok. unfold summarizeNote.
  destruct (currentNote s) as [n|]; [|now apply Hybrid_showStatus_ok].
  destruct (_ || _); [now apply Hybrid_showStatus_ok|].
  apply Hybrid_setTimeout_ok; [discriminate|exact Hok].
Qed.

Lemma Hybrid_scheduleAutoSave_ok s :
  timers_ok s -> timers_ok (scheduleAutoSave s).
Proof. intros Hok. now apply Hybrid_scheduleAutoSave_effect. Qed.

Lemma Hybrid_startRecording_ok s : timers_ok s -> timers_ok (startRecording s).
Proof.
  intros Hok. unfold startRecording.
  set (s0 := match currentNote s with None => createNewNote s | Some _ => s end).
  assert (H0 : timers_ok s0).
  { subst s0. destruct (currentNote s); [exact Hok|].
    now apply Hybrid_createNewNote_ok. }
  clearbody s0. clear s Hok.
  destruct (negb (speechSupported (env s0))); [now apply Hybrid_showStatus_ok|].
  destruct (negb (checkInternetConnection s0)); [now apply Hybrid_showStatus_ok|].
  set (s1 := match recognition s0 with
             | None => initSpeechRecognition s0
             | Some _ => s0
             end).
  assert (H1 : timers_ok s1).
  { subst s1. destruct (recognition s0); [exact H0|].
    unfold initSpeechRecognition.
    destruct (negb (speechSupported (env s0))); [exact H0|].
    revert H0. framed. }
  clearbody s1. clear s0 H0.
  destruct (recognition s1) as [r|]; [|now apply Hybrid_showStatus_ok].
  cbv zeta. simpl.
  destruct (Engine.start (engine (env s1))) as [[u|e] g];
    apply Hybrid_showStatus_ok; revert H1; framed.
Qed.

Lemma Hybrid_onresult_slot_ok s r : timers_ok s -> timers_ok (onresult_slot s r).
Proof.
  intros Hok. unfold onresult_slot. destruct (Engine.isFinal r).
  - cbv zeta. simpl. destruct (currentNote s) as [n|].
    + apply Hybrid_scheduleAutoSave_ok. revert Hok. framed.
    + revert Hok. framed.
  - revert Hok. framed.
Qed.

Lemma Hybrid_onresult_ok ev s : timers_ok s -> timers_ok (onresult ev s).
Proof.
  intros Hok. unfold onresult. cbv zeta.
  set (s0 := set_interimTranscript (js "") s).
  assert (H0 : timers_ok s0) by (subst s0; revert Hok; framed).
  clearbody s0.
  generalize (skipn (Engine.resultIndex ev) (Engine.results ev)). intros rs.
  assert (H1 : timers_ok (fold_left onresult_slot rs s0)).
  { revert s0 H0. induction rs as [|r rs IH]; simpl; intros s0 H0; [exact H0|].
    apply IH. now apply Hybrid_onresult_slot_ok. }
  revert H1. framed.
Qed.

Lemma Hybrid_onerror_ok c s : timers_ok s -> timers_ok (onerror c s).
Proof.
  intros Hok. unfold onerror. cbv zeta.
  assert (H0 : timers_ok (showStatus (MsgEngineError c) true s))
    by now apply Hybrid_showStatus_ok.
  set (s1 := if match c with Engine.ErrNetwork => true | _ => false end
             then _ else _).
  assert (H1 : timers_ok s1).
  { subst s1. destruct c; try exact H0.
    apply Hybrid_setTimeout_ok; [discriminate|exact H0]. }
  clearbody s1.
  destruct c; try exact H1; now apply Hybrid_stopRecording_ok.
Qed.

Lemma Hybrid_onend_ok s : timers_ok s -> timers_ok (onend s).
Proof.
  intros Hok. unfold onend.
  destruct (isRecording s && checkInternetConnection s).
  - apply Hybrid_setTimeout_ok; [discriminate|exact Hok].
  - destruct (isRecording s && negb (checkInternetConnection s)); [|exact Hok].
    now apply Hybrid_showStatus_ok, Hybrid_stopRecording_ok.
Qed.

Lemma Hybrid_dispatch_ok e s : timers_ok s -> timers_ok (dispatch e s).
Proof.
  intros Hok. destruct e; unfold dispatch.
  - apply Hybrid_scheduleAutoSave_ok. revert Hok. framed.
  - apply Hybrid_scheduleAutoSave_ok. revert Hok. framed.
  - now apply Hybrid_createNewNote_ok.
  - cbv zeta.
    set (s0 := match currentNote s with None => createNewNote s | Some _ => s end).
    assert (H0 : timers_ok s0).
    { subst s0. destruct (currentNote s); [exact Hok|].
      now apply Hybrid_createNewNote_ok. }
    destruct (isRecording s0).
    + now apply Hybrid_stopRecording_ok.
    + now apply Hybrid_startRecording_ok.
  - cbv zeta. apply Hybrid_showStatus_ok.
    change (currentNote (set_currentLanguage code s)) with (currentNote s).
    destruct (currentNote s).
    + apply Hybrid_scheduleAutoSave_ok, Hybrid_updateEditor_ok.
      revert Hok. framed.
    + revert Hok. framed.
  - now apply Hybrid_autoSave_keeps.
  - destruct (isRecording s); [now apply Hybrid_stopRecording_ok|exact Hok].
  - cbv zeta. apply Hybrid_showStatus_ok. revert Hok. framed.
  - cbv zeta.
    match goal with
    | |- timers_ok (if isRecording ?x then _ else _) =>
        assert (H0 : timers_ok x)
          by (apply Hybrid_showStatus_ok; revert Hok; framed);
        destruct (isRecording x);
          [now apply Hybrid_stopRecording_ok|exact H0]
    end.
  - unfold onstart. revert Hok. framed.
  - now apply Hybrid_onresult_ok.
  - now apply Hybrid_onerror_ok.
  - apply Hybrid_onend_ok. revert Hok. framed.
  - now apply Hybrid_showStatus_ok, Hybrid_createNewNote_ok.
  - unfold onListSelect. apply Hybrid_updateEditor_ok. revert Hok. framed.
  - unfold exportNotes. cbv zeta.
    destruct (getAllNotes (db s)); now apply Hybrid_showStatus_ok.
  - now apply Hybrid_summarizeNote_ok.
  - now apply Hybrid_showStatus_ok.
Qed.

Lemma Hybrid_initialize_ok d t0 online supported :
  timers_ok (initialize d t0 online supported).
Proof.
  unfold initialize. cbv zeta.
  apply Hybrid_showStatus_ok, Hybrid_openFirst_ok.
  split; simpl.
  - constructor.
  - discriminate.
  - intros u [].
Qed.

(** In every state the page can be in, [saveTimeout] names the pending
    autosave timers and no other. *)
Lemma Hybrid_reachable_ok s : reachable s -> timers_ok s.
Proof.
  induction 1 as [d t0 o sp | e s _ IH | t s _ IH | f s _ IH].
  - apply Hybrid_initialize_ok.
  - now apply Hybrid_dispatch_ok.
  - now apply Hybrid_advance_keeps.
  - exact IH.
Qed.

End HybridReachableFacts.

(* ------------------------------------------------------------------ *)
(** ** [app.js]: the open note and its record *)

Module OpenNoteFacts.

Import IDB IDBFacts TimersFacts App AutosaveFacts.
Local Open Scope Z_scope.

Lemma anchored_refl s : anchored s s.
Proof. split; reflexivity. Qed.

Lemma anchored_trans s1 s2 s3 : anchored s1 s2 -> anchored s2 s3 -> anchored s1 s3.
Proof. intros [H1 H2] [H3 H4]. split; congruence. Qed.

Lemma calm_anchored s s' : calm s s' -> anchored s s'.
Proof.
  intros (Hv & _). apply view_fields in Hv.
  destruct Hv as (_ & Hc & Hd & _). split; [exact Hd|now rewrite Hc].
Qed.

Lemma scheduleAutoSave_anchored s : anchored s (scheduleAutoSave s).
Proof.
  unfold anchored, scheduleAutoSave, setTimeout, clearTimeout. simpl.
  destruct (saveTimeout s); split; reflexivity.
Qed.

Lemma insertTranscript_anchored t s : anchored s (insertTranscript t s).
Proof.
  unfold insertTranscript. destruct (currentNote s) as [n|] eqn:Hn;
    [|apply anchored_refl].
  cbv zeta. eapply anchored_trans; [|apply scheduleAutoSave_anchored].
  split; simpl; [reflexivity|now rewrite Hn].
Qed.

Lemma handleMobileResults_anchored ev s : anchored s (handleMobileResults ev s).
Proof.
  unfold handleMobileResults. generalize (Engine.results ev). intros rs.
  revert s. induction rs as [|r rs IH]; intros s; [apply anchored_refl|].
  cbn [fold_left]. eapply anchored_trans; [|apply IH].
  destruct (Engine.isFinal r); [|apply anchored_refl].
  destruct (_ && _); [apply insertTranscript_anchored|apply anchored_refl].
Qed.

Lemma handleDesktopResults_anchored ev s : anchored s (handleDesktopResults ev s).
Proof.
  unfold handleDesktopResults.
  set (s1 := if (lastFinalizedLength s <? _)%nat then _ else s).
  assert (H1 : anchored s s1).
  { subst s1. destruct (_ <? _)%nat; [|apply anchored_refl].
    cbv zeta.
    match goal with
    | |- anchored s (set_lastFinalizedLength _ ?x) =>
        apply anchored_trans with x; [|split; reflexivity]
    end.
    destruct (_ && _); [apply insertTranscript_anchored|apply anchored_refl]. }
  clearbody s1. destruct (truthy_string (interimText ev)); [|exact H1].
  eapply anchored_trans; [exact H1|]. split; reflexivity.
Qed.

Lemma startRecording_anchored s :
  is_some (currentNote s) = true -> anchored s (startRecording s).
Proof.
  intros Hn. unfold startRecording.
  destruct (currentNote s) as [n|] eqn:Hc; [|discriminate].
  destruct (isRecording s || isRecognitionStarting s); [apply anchored_refl|].
  destruct (negb (checkInternetConnection s));
    [apply calm_anchored, showStatus_calm|].
  set (s1 := match recognition s with
             | None => initSpeechRecognition s
             | Some _ => s
             end).
  assert (H1 : anchored s s1).
  { subst s1. destruct (recognition s); [apply anchored_refl|].
    unfold initSpeechRecognition.
    destruct (negb (speechSupported (env s))); [apply anchored_refl|].
    split; reflexivity. }
  clearbody s1.
  destruct (recognition s1) as [r|];
    [|eapply anchored_trans; [exact H1|apply calm_anchored, showStatus_calm]].
  cbv zeta.
  eapply anchored_trans; [exact H1|].
  eapply anchored_trans; [|apply calm_anchored, showStatus_calm].
  eapply anchored_trans; [|apply calm_anchored, safeStartRecognition_calm].
  split; reflexivity.
Qed.

Lemma onerror_anchored c s : anchored s (onerror c s).
Proof.
  unfold onerror. cbv zeta.
  set (s0 := set_isRecognitionStarting false s).
  assert (H0 : anchored s s0) by (split; reflexivity).
  clearbody s0. eapply anchored_trans; [exact H0|].
  destruct c; try apply anchored_refl.
  - eapply anchored_trans; [apply calm_anchored, stopRecording_calm|].
    apply calm_anchored, showStatus_calm.
  - destruct (isMobileDevice s0); [|apply anchored_refl].
    destruct (isRecording s0); [|apply anchored_refl].
    apply calm_anchored, setTimeout_calm. discriminate.
  - eapply anchored_trans; [apply calm_anchored, stopRecording_calm|].
    apply calm_anchored, showStatus_calm.
  - destruct (_ && _); [|apply anchored_refl].
    apply calm_anchored, setTimeout_calm. discriminate.
Qed.

(** Every event that neither opens another note nor deletes one, [Ctrl+S]
    apart, leaves the store and the id of the open note. *)
Lemma dispatch_anchored e s :
  keeps_open e = true -> e <> KeySave -> is_some (currentNote s) = true ->
  anchored s (dispatch e s).
Proof.
  intros He Hsave Hn. destruct e; try discriminate; unfold dispatch.
  - eapply anchored_trans; [|apply scheduleAutoSave_anchored]. split; reflexivity.
  - eapply anchored_trans; [|apply scheduleAutoSave_anchored]. split; reflexivity.
  - cbv zeta. destruct (currentNote s) as [n|] eqn:Hc; [|discriminate].
    destruct (isRecording s).
    + apply calm_anchored, stopRecording_calm.
    + apply startRecording_anchored. now rewrite Hc.
  - cbv zeta. change (currentNote (set_currentLanguage code s)) with (currentNote s).
    destruct (currentNote s) as [n|] eqn:Hc; [|split; reflexivity].
    eapply anchored_trans; [|apply scheduleAutoSave_anchored].
    split; simpl; [reflexivity|now rewrite Hc].
  - congruence.
  - destruct (isRecording s); [apply calm_anchored, stopRecording_calm|].
    apply anchored_refl.
  - eapply anchored_trans; [|apply calm_anchored, showStatus_calm].
    split; reflexivity.
  - cbv zeta.
    match goal with
    | |- anchored s (if isRecording ?x then _ else _) =>
        assert (H0 : anchored s x)
          by (eapply anchored_trans; [|apply calm_anchored, showStatus_calm];
              split; reflexivity);
        destruct (isRecording x); [|exact H0];
        eapply anchored_trans; [exact H0|apply calm_anchored, stopRecording_calm]
    end.
  - unfold onstart. split; reflexivity.
  - unfold onresult. destruct (isMobileDevice s).
    + apply handleMobileResults_anchored.
    + apply handleDesktopResults_anchored.
  - apply onerror_anchored.
  - unfold onend. cbv zeta.
    set (s0 := set_lastFinalizedLength 0 _).
    assert (H0 : anchored s s0) by (split; reflexivity).
    clearbody s0. destruct (isRecording s0); [|exact H0].
    eapply anchored_trans; [exact H0|].
    apply calm_anchored, setTimeout_calm. discriminate.
  - unfold showDeleteConfirmation. destruct (currentNote s) as [n|].
    + destruct (truthy_id (id n)); [apply anchored_refl|].
      apply calm_anchored, showStatus_calm.
    + apply calm_anchored, showStatus_calm.
  - unfold exportNotes. cbv zeta.
    destruct (getAllNotes (db s)); apply calm_anchored, showStatus_calm.
Qed.

Lemma anchored_holds k l s s' :
  anchored s s' -> holds_note k l s -> holds_note k l s'.
Proof.
  intros [Hd Hc] (Hwf & Hf & Hl & Hn). unfold holds_note.
  rewrite Hd, Hc. auto.
Qed.

Lemma listed_key k (d : DB) :
  wf d -> In (Some k) (listed_ids d) -> In k (keys d).
Proof.
  intros Hwf Hin. rewrite (AppFacts.listed_ids_keys Hwf) in Hin.
  apply in_map_iff in Hin. destruct Hin as (k' & [= ->] & Hk).
  now apply in_rev in Hk.
Qed.

(** A save of the open note, once it has an id, rewrites the record under
    that id with what the editor holds, and adds none. *)
Lemma autoSave_holds k l s :
  k <> 0 -> In (Some k) l -> holds_note k l s ->
  holds_note k l (autoSave s)
  /\ exists r,
       getNote k (db (autoSave s)) = Some r
       /\ title r = sanitizeInput (or_string (noteTitleInput (elements s))
                                             (js "Untitled Note"))
       /\ text r = sanitizeInput (Dom.value (noteTextArea (elements s))).
Proof.
  intros Hk Hin (Hwf & Hf & Hl & Hn).
  destruct (currentNote s) as [n|] eqn:Hc; [|discriminate].
  simpl in Hn. injection Hn as Hid.
  set (n' := mkNote (id n)
               (or_string (noteTitleInput (elements s)) (js "Untitled Note"))
               (Dom.value (noteTextArea (elements s)))
               (language n) (now (env s)) (tags n)).
  assert (Hkey : In k (keys (db s))) by (apply listed_key; [exact Hwf|now rewrite Hl]).
  destruct (@AppFacts.saveNote_update_in_place n' (db s) k Hwf Hf Hid Hk Hkey)
    as [Hres Hsame].
  destruct (saveNote n' (db s)) as [r1 d1] eqn:Hsave.
  simpl in Hres, Hsame. subst r1.
  assert (Hauto : currentNote (autoSave s) = Some n' /\ db (autoSave s) = d1).
  { unfold autoSave. rewrite Hc. cbv zeta. fold n'. simpl.
    rewrite Hsave. simpl. rewrite Hid. simpl.
    assert ((k =? 0) = false) as -> by now apply Z.eqb_neq.
    split; reflexivity. }
  destruct Hauto as [Hc1 Hd1]. split.
  - unfold holds_note. rewrite Hc1, Hd1. split; [|split; [|split]].
    + pose proof (AppFacts.saveNote_wf n' Hwf) as Hw. now rewrite Hsave in Hw.
    + pose proof (AppFacts.saveNote_fault n' (db s)) as Hfl.
      rewrite Hsave in Hfl. simpl in Hfl. congruence.
    + congruence.
    + simpl. now rewrite Hid.
  - rewrite Hd1.
    destruct (AppFacts.saveNote_persists _ _ Hsave) as (r & Hget & _ & Ht & Hx & _).
    exists r. auto.
Qed.

Lemma holds_open k l s : holds_note k l s -> is_some (currentNote s) = true.
Proof.
  intros (_ & _ & _ & Hn). destruct (currentNote s); [reflexivity|discriminate].
Qed.

Lemma dispatch_holds k l e s :
  k <> 0 -> In (Some k) l -> keeps_open e = true ->
  holds_note k l s -> holds_note k l (dispatch e s).
Proof.
  intros Hk Hin He Hh.
  assert (Hcases : e = KeySave \/ e <> KeySave)
    by (destruct e; (now left) || (right; discriminate)).
  destruct Hcases as [->|Hne].
  - apply (autoSave_holds Hk Hin Hh).
  - eapply anchored_holds; [|exact Hh].
    apply dispatch_anchored; [exact He|exact Hne|exact (holds_open Hh)].
Qed.

Lemma run_callback_holds k l c s :
  k <> 0 -> In (Some k) l ->
  holds_note k l s -> holds_note k l (run_callback c s).
Proof.
  intros Hk Hin Hh. destruct (callback_cases c) as [->|Hne].
  - apply (autoSave_holds Hk Hin Hh).
  - eapply anchored_holds; [|exact Hh].
    now apply calm_anchored, run_callback_calm.
Qed.

Lemma fires_holds k l hs : forall s,
  k <> 0 -> In (Some k) l ->
  holds_note k l s -> holds_note k l (fires hs s).
Proof.
  induction hs as [|h hs IH]; intros s Hk Hin Hh; [exact Hh|].
  change (fires (h :: hs) s) with (fires hs (fire h s)).
  apply IH; [exact Hk|exact Hin|]. unfold fire.
  destruct (Timers.find h _) as [u|]; [|exact Hh].
  apply run_callback_holds; [exact Hk|exact Hin|].
  eapply anchored_holds; [|exact Hh]. split; reflexivity.
Qed.

Lemma advance_holds k l t s :
  k <> 0 -> In (Some k) l ->
  holds_note k l s -> holds_note k l (advance t s).
Proof.
  intros Hk Hin Hh. rewrite advance_fires.
  apply fires_holds; [exact Hk|exact Hin|].
  eapply anchored_holds; [|exact Hh]. split; reflexivity.
Qed.

(** Whatever is typed, dictated, recorded or saved afterwards, the open
    note stays under its id and the store lists the ids it listed. *)
Lemma run_timed_holds k l evs : forall s,
  k <> 0 -> In (Some k) l ->
  Forall (fun te => keeps_open (snd te) = true) evs ->
  holds_note k l s -> holds_note k l (run_timed evs s).
Proof.
  induction evs as [|[t e] evs IH]; intros s Hk Hin Hall Hh; [exact Hh|].
  change (run_timed ((t, e) :: evs) s)
    with (run_timed evs (dispatch e (advance t s))).
  inversion Hall as [|? ? He Hall']; subst. simpl in He.
  apply IH; [exact Hk|exact Hin|exact Hall'|].
  apply dispatch_holds; [exact Hk|exact Hin|exact He|].
  now apply advance_holds.
Qed.

End OpenNoteFacts.

(* ------------------------------------------------------------------ *)
(** ** Transcript assembly: the stated properties *)

Module AssemblerClaims.

Import JSFacts AssemblerFacts HybridFacts.
Local Open Scope nat_scope.

(** C3, as amended.  Desktop mode of [app.js].  When the final text of an
    event is longer than what was committed, the committed length becomes
    the length of that final text, and what is put into the note is the
    part of the final text from the committed length on, trimmed: spliced
    in at the cursor when it is not empty and a note is open, and nothing
    otherwise.  When the final text is no longer than what was committed,
    nothing changes.  The hybrid script keeps no committed length and
    trims nothing: it puts in the final slots of an event from
    [resultIndex] on, each once and as it is, and never looks at the slots
    before. *)
Theorem handleDesktopResults_commits_suffix :
  (forall (s : App.State) (ev : Engine.result_event),
      let committed := App.lastFinalizedLength s in
      let delta := trim (substring (App.finalText ev) committed None) in
      let s' := App.handleDesktopResults ev s in
      (committed < List.length (App.finalText ev) ->
         App.lastFinalizedLength s' = List.length (App.finalText ev)
         /\ (delta <> [] -> forall n, App.currentNote s = Some n ->
             App.spliced delta s s')
         /\ (delta = [] \/ App.currentNote s = None ->
             App.noteTextArea (App.elements s') = App.noteTextArea (App.elements s)
             /\ App.currentNote s' = App.currentNote s))
      /\ (List.length (App.finalText ev) <= committed ->
          App.lastFinalizedLength s' = committed
          /\ App.noteTextArea (App.elements s') = App.noteTextArea (App.elements s)
          /\ App.currentNote s' = App.currentNote s))
  /\ (forall (s : Hybrid.State) n (ev : Engine.result_event),
      Hybrid.currentNote s = Some n ->
      Hybrid.insertions (Hybrid.deltas ev) s (Hybrid.onresult ev s)).
Proof.
  split.
  - intros s ev. cbv zeta. split.
    + intros Hlt. exact (handleDesktopResults_grown ev s Hlt).
    + intros Hle. exact (handleDesktopResults_settled ev s Hle).
  - intros s n ev Hn. exact (onresult_insertions ev s Hn).
Qed.

(** The final text grows from "hello " to "hello world ": the second event
    commits twelve units and splices in "world" alone. *)
Lemma handleDesktopResults_commits_suffix_witness :
  App.lastFinalizedLength
    (App.handleDesktopResults
       (Engine.mkEvent 0 [Engine.mkSlot (js "hello") true;
                          Engine.mkSlot (js "world") true])
       (App.handleDesktopResults (Engine.heard "hello") (App.initial false true true)))
  = 12
  /\ App.spliced (js "world")
       (App.handleDesktopResults (Engine.heard "hello") (App.initial false true true))
       (App.handleDesktopResults
          (Engine.mkEvent 0 [Engine.mkSlot (js "hello") true;
                             Engine.mkSlot (js "world") true])
          (App.handleDesktopResults (Engine.heard "hello") (App.initial false true true))).
Proof.
  destruct (proj1 handleDesktopResults_commits_suffix
              (App.handleDesktopResults (Engine.heard "hello")
                                        (App.initial false true true))
              (Engine.mkEvent 0 [Engine.mkSlot (js "hello") true;
                                 Engine.mkSlot (js "world") true]))
    as [Hgrown _].
  destruct Hgrown as (Hlen & Hsplice & _).
  - apply Nat.ltb_lt. vm_compute. reflexivity.
  - split.
    + exact Hlen.
    + eapply Hsplice.
      * vm_compute. discriminate.
      * vm_compute. reflexivity.
Defined.

(** The same two events, read off the page: "hello " and then
    "hello world ", never "hello hello world ". *)
Example desktop_hello_world :
  Dom.value (App.noteTextArea (App.elements
    (App.handleDesktopResults (Engine.heard "hello") (App.initial false true true))))
  = js "hello "
  /\ Dom.value (App.noteTextArea (App.elements
       (App.handleDesktopResults
          (Engine.mkEvent 0 [Engine.mkSlot (js "hello") true;
                             Engine.mkSlot (js "world") true])
          (App.handleDesktopResults (Engine.heard "hello")
                                    (App.initial false true true)))))
     = js "hello world ".
Proof. split; vm_compute; reflexivity. Qed.

(** C3, the sentence as written, fails in the hybrid script, which keeps
    no committed length and does not trim.  When the second event carries
    the whole final text again, from [resultIndex] 0, "hello" is put into
    the note a second time; and a transcript that comes with a space in
    front is put in with that space, where [app.js] puts in "world"
    alone. *)
Lemma hybrid_reinserts_final_text :
  Dom.value (Hybrid.noteTextArea (Hybrid.elements
    (Hybrid.onresult
       (Engine.mkEvent 0 [Engine.mkSlot (js "hello") true;
                          Engine.mkSlot (js "world") true])
       (Hybrid.onresult (Engine.heard "hello") (Hybrid.initial true true)))))
  = js "hello hello world "
  /\ Dom.value (Hybrid.noteTextArea (Hybrid.elements
       (Hybrid.onresult
          (Engine.mkEvent 1 [Engine.mkSlot (js "hello") true;
                             Engine.mkSlot (js " world") true])
          (Hybrid.onresult (Engine.heard "hello") (Hybrid.initial true true)))))
     = js "hello  world "
  /\ Dom.value (App.noteTextArea (App.elements
       (App.handleDesktopResults
          (Engine.mkEvent 1 [Engine.mkSlot (js "hello") true;
                             Engine.mkSlot (js " world") true])
          (App.handleDesktopResults (Engine.heard "hello")
                                    (App.initial false true true)))))
     = js "hello world ".
Proof. repeat split; vm_compute; reflexivity. Qed.

(** The same growth in the hybrid script, where the second event carries
    both slots and [resultIndex] 1: "hello " and then "hello world ". *)
Example hybrid_hello_world :
  Dom.value (Hybrid.noteTextArea (Hybrid.elements
    (Hybrid.onresult (Engine.heard "hello") (Hybrid.initial true true))))
  = js "hello "
  /\ Dom.value (Hybrid.noteTextArea (Hybrid.elements
       (Hybrid.onresult
          (Engine.mkEvent 1 [Engine.mkSlot (js "hello") true;
                             Engine.mkSlot (js "world") true])
          (Hybrid.onresult (Engine.heard "hello") (Hybrid.initial true true)))))
     = js "hello world ".
Proof. split; vm_compute; reflexivity. Qed.

(** C4, as amended.  In [app.js] every insertion, in either mode, is a
    splice at the cursor the handlers use: one space before the text
    exactly when what precedes the cursor is not empty and ends in neither
    a space nor a newline, one space after it always, the selection right
    after that space.  The hybrid script puts the untrimmed text and one
    space in at the selection and adds nothing before it. *)
Theorem insertion_splices_at_cursor :
  (forall s n ev, App.currentNote s = Some n ->
      App.splices (App.deltas ev) s (App.handleMobileResults ev s))
  /\ (forall s n ev, App.currentNote s = Some n ->
      App.lastFinalizedLength s < List.length (App.finalText ev) ->
      trim (substring (App.finalText ev) (App.lastFinalizedLength s) None) <> [] ->
      App.spliced (trim (substring (App.finalText ev) (App.lastFinalizedLength s) None))
                  s (App.handleDesktopResults ev s))
  /\ (forall s n r, Engine.isFinal r = true -> Hybrid.currentNote s = Some n ->
      Hybrid.inserted (Engine.transcript r) s (Hybrid.onresult_slot s r)).
Proof.
  split; [|split].
  - intros s n ev Hn. exact (handleMobileResults_splices ev s Hn).
  - intros s n ev Hn Hlt Hd.
    destruct (handleDesktopResults_grown ev s Hlt) as (_ & Hsplice & _).
    exact (Hsplice Hd n Hn).
  - intros s n r Hfinal Hn. exact (onresult_slot_inserted r s Hfinal Hn).
Qed.

Lemma insertion_splices_at_cursor_witness :
  App.splices (App.deltas (Engine.heard " buy milk "))
    (App.editing true (js "") 0)
    (App.handleMobileResults (Engine.heard " buy milk ") (App.editing true (js "") 0)).
Proof.
  eapply (proj1 insertion_splices_at_cursor). vm_compute. reflexivity.
Defined.

(** C4, the sentence as written, fails.  With "a b" in the note and the
    cursor after "a", dictating "x" gives "a x  b": two spaces in a row
    after the inserted text.  With "a" and a tab before the cursor the
    handler still puts a space in, after white space.  The hybrid script
    gives "ax " for "a" and "x": no space before the inserted text. *)
Lemma insertion_duplicates_whitespace :
  Dom.value (App.noteTextArea (App.elements
    (App.handleMobileResults (Engine.heard "x") (App.editing true (js "a b") 1))))
  = js "a x  b"
  /\ Dom.value (App.noteTextArea (App.elements
       (App.handleDesktopResults (Engine.heard "x")
          (App.editing false [97; 9]%N 2))))
     = [97; 9; 32; 120; 32]%N
  /\ Dom.value (Hybrid.noteTextArea (Hybrid.elements
       (Hybrid.onresult (Engine.heard "x")
          (Hybrid.dispatch (Hybrid.TextInput (js "a") 1) (Hybrid.initial true true)))))
     = js "ax ".
Proof. repeat split; vm_compute; reflexivity. Qed.

(** C10.  In both handlers of [app.js], with the selection at offset 0 and
    text in the note, the dictated text goes to the end of that text: the
    whole text stays in front of it. *)
Theorem zero_cursor_inserts_at_end (s : App.State) (n : App.Note) :
  App.currentNote s = Some n ->
  Dom.selectionStart (App.noteTextArea (App.elements s)) = 0 ->
  Dom.value (App.noteTextArea (App.elements s)) <> [] ->
  App.cursor s = List.length (Dom.value (App.noteTextArea (App.elements s)))
  /\ (forall r i, Engine.isFinal r = true -> trim (Engine.transcript r) <> [] ->
      exists spacer,
        (spacer = [] \/ spacer = [space])
        /\ Dom.value (App.noteTextArea (App.elements
             (App.handleMobileResults (Engine.mkEvent i [r]) s)))
           = Dom.value (App.noteTextArea (App.elements s))
             ++ spacer ++ trim (Engine.transcript r) ++ [space])
  /\ (forall ev, App.lastFinalizedLength s < List.length (App.finalText ev) ->
      trim (substring (App.finalText ev) (App.lastFinalizedLength s) None) <> [] ->
      exists spacer,
        (spacer = [] \/ spacer = [space])
        /\ Dom.value (App.noteTextArea (App.elements (App.handleDesktopResults ev s)))
           = Dom.value (App.noteTextArea (App.elements s))
             ++ spacer
             ++ trim (substring (App.finalText ev) (App.lastFinalizedLength s) None)
             ++ [space]).
Proof.
  intros Hn Hsel Hv.
  assert (Hcursor : App.cursor s
                    = List.length (Dom.value (App.noteTextArea (App.elements s)))).
  { unfold App.cursor. rewrite Hsel. reflexivity. }
  assert (Hend : forall t s', App.spliced t s s' ->
            exists spacer, (spacer = [] \/ spacer = [space])
              /\ Dom.value (App.noteTextArea (App.elements s'))
                 = Dom.value (App.noteTextArea (App.elements s))
                   ++ spacer ++ t ++ [space]).
  { intros t s' (spacer & Hsp & Hval & _). exists spacer. split.
    - destruct Hsp as [(-> & _)|(-> & _)]; auto.
    - rewrite Hval, Hcursor, firstn_all, skipn_all.
      now rewrite !app_nil_r. }
  split; [exact Hcursor|]. split.
  - intros r i Hfinal Ht. apply Hend.
    pose proof (handleMobileResults_splices (Engine.mkEvent i [r]) s Hn) as Hs.
    unfold App.deltas in Hs. simpl in Hs. rewrite Hfinal in Hs. simpl in Hs.
    apply truthy_string_nonempty in Ht. rewrite Ht in Hs.
    inversion Hs as [|t ts s0 s1 s2 Hsp Hrest]; subst.
    inversion Hrest; subst. exact Hsp.
  - intros ev Hlt Hd. apply Hend.
    destruct (handleDesktopResults_grown ev s Hlt) as (_ & Hsplice & _).
    exact (Hsplice Hd n Hn).
Qed.

(** "abc" with the caret at offset 0: "x" lands after "abc". *)
Lemma zero_cursor_inserts_at_end_witness :
  App.cursor (App.editing true (js "abc") 0) = 3
  /\ exists spacer,
       (spacer = [] \/ spacer = [space])
       /\ Dom.value (App.noteTextArea (App.elements
            (App.handleMobileResults (Engine.heard "x") (App.editing true (js "abc") 0))))
          = js "abc" ++ spacer ++ js "x" ++ [space].
Proof.
  destruct (@zero_cursor_inserts_at_end (App.editing true (js "abc") 0)
              (App.mkNote None (js "") (js "") (js "en") 0%Z []))
    as (Hc & Hm & _).
  - vm_compute. reflexivity.
  - vm_compute. reflexivity.
  - vm_compute. discriminate.
  - split; [exact Hc|].
    apply (Hm (Engine.mkSlot (js "x") true) 0).
    + reflexivity.
    + vm_compute. discriminate.
Defined.

End AssemblerClaims.

(* ------------------------------------------------------------------ *)
(** ** Gateway, recording and autosave: the stated properties *)

Module GatewayClaims.

Import IDB IDBFacts.
Local Open Scope Z_scope.







End GatewayClaims.

Module SessionClaims.

Import RecordingFacts AutosaveFacts HybridAutosaveFacts.
Local Open Scope Z_scope.

(** C6.  With the browser offline, [startRecording] makes no call on the
    speech engine and leaves the recording flag as it was, in both scripts.
    Asked while the page is stopped, in any state the page can be in, it
    leaves the page stopped and shows a status message flagged as an
    error: the offline message in [app.js], the offline or the
    not-supported message in the hybrid script. *)
Theorem startRecording_offline_gated :
  (forall s, App.onLine (App.env s) = false ->
      App.engine (App.env (App.startRecording s)) = App.engine (App.env s)
      /\ App.isRecording (App.startRecording s) = App.isRecording s
      /\ (App.reachable s -> App.isRecording s = false ->
          App.isRecording (App.startRecording s) = false
          /\ App.statusMessage (App.elements (App.startRecording s))
             = Some (App.MsgOffline, true)
          /\ App.statusActive (App.elements (App.startRecording s)) = true))
  /\ (forall s, Hybrid.onLine (Hybrid.env s) = false ->
      Hybrid.engine (Hybrid.env (Hybrid.startRecording s)) = Hybrid.engine (Hybrid.env s)
      /\ Hybrid.isRecording (Hybrid.startRecording s) = Hybrid.isRecording s
      /\ Hybrid.statusActive (Hybrid.elements (Hybrid.startRecording s)) = true
      /\ (Hybrid.statusMessage (Hybrid.elements (Hybrid.startRecording s))
            = Some (Hybrid.MsgOffline, true)
          \/ Hybrid.statusMessage (Hybrid.elements (Hybrid.startRecording s))
            = Some (Hybrid.MsgNotSupported, true))).
Proof.
  split.
  - intros s Hoff.
    destruct (App_startRecording_offline s Hoff) as (He & Hr & _ & Hmsg).
    split; [exact He|]. split; [exact Hr|].
    intros Hreach Hstopped.
    assert (Hidle : App.isRecognitionStarting s = false).
    { destruct (ReachableFacts.reachable_invariant Hreach) as [_ Hfl].
      destruct (App.isRecognitionStarting s); [|reflexivity].
      rewrite Hfl in Hstopped by reflexivity. discriminate. }
    destruct (Hmsg Hstopped Hidle) as [Hm Ha].
    split; [congruence|]. split; assumption.
  - intros s Hoff. exact (Hybrid_startRecording_offline s Hoff).
Qed.

(** The record button pressed on a page that started offline. *)
Lemma startRecording_offline_gated_witness :
  Engine.calls (App.engine (App.env (App.startRecording (App.initial false false true))))
  = []
  /\ App.isRecording (App.startRecording (App.initial false false true)) = false
  /\ App.statusMessage (App.elements (App.startRecording (App.initial false false true)))
     = Some (App.MsgOffline, true).
Proof.
  destruct (proj1 startRecording_offline_gated (App.initial false false true))
    as (He & _ & Hstopped).
  - reflexivity.
  - destruct Hstopped as (Hr & Hm & _);
      [exact (App.reach_initialize IDB.empty 0 false false true)|reflexivity|].
    split; [now rewrite He|]. split; assumption.
Defined.

(** C2 in [app.js]: see [RecordingFacts.App_restart_suppressed].

    C2 in the hybrid script.  Recording is on; the engine ends at 5000 ms
    and [onend] schedules the restart for 5100 ms; the user stops at
    5050 ms.  When the loop runs at 5100 ms the closure calls
    [recognition.start()] all the same: the page shows stopped and the
    engine has been started again. *)
Theorem hybrid_restart_after_stop :
  let stopped :=
    Hybrid.run_timed [(0, Hybrid.RecordClick); (5, Hybrid.EngineStarted);
                      (5000, Hybrid.EngineEnded); (5050, Hybrid.KeyEscape)]
                     (Hybrid.initial true true) in
  let later := Hybrid.advance 5100 stopped in
  Hybrid.isRecording stopped = false
  /\ Engine.calls (Hybrid.engine (Hybrid.env stopped))
     = [Engine.CallStart; Engine.CallStop]
  /\ Hybrid.isRecording later = false
  /\ Engine.calls (Hybrid.engine (Hybrid.env later))
     = [Engine.CallStart; Engine.CallStop; Engine.CallStart]
  /\ Engine.started (Hybrid.engine (Hybrid.env later)) = true.
Proof. cbv zeta. repeat split; vm_compute; reflexivity. Qed.

(** The same events in [app.js]: no call after the stop. *)
Example app_no_restart_after_stop :
  let stopped :=
    App.run_timed [(0, App.RecordClick); (5, App.EngineStarted);
                   (5000, App.EngineEnded); (5050, App.KeyEscape)]
                  (App.initial false true true) in
  let later := App.advance 5100 stopped in
  App.isRecording later = false
  /\ Engine.calls (App.engine (App.env later)) = [Engine.CallStart; Engine.CallStop].
Proof. cbv zeta. split; vm_compute; reflexivity. Qed.

(** C5, as amended.  A burst of mutations of the title and the text,
    typed or dictated, each less than 1000 ms after the one before, from
    any state the page can be in with a note open.  In [app.js], and in
    the hybrid script while no summary is being generated: no call of
    [saveNote] is made while the burst lasts; one autosave timer is left,
    due 1000 ms after the last mutation; and when the loop next runs at or
    after that time there has been exactly one call, with the title and
    text the editor holds after the last mutation (for typed edits, the
    title and the text of the last edits), and the record it stores is
    their sanitised form. *)
Theorem autosave_debounced :
  (forall s n t1 e1 rest T,
      App.reachable s -> App.currentNote s = Some n ->
      App.now (App.env s) <= t1 ->
      App.burst_of ((t1, e1) :: rest) s ->
      App.within_debounce t1 rest ->
      last (map fst rest) t1 + 1000 <= T ->
      let before := App.advance t1 s in
      let burst := App.run_timed ((t1, e1) :: rest) s in
      let after := App.advance T burst in
      exists opened,
        App.currentNote before = Some opened
        /\ App.saved (App.env burst) = App.saved (App.env before)
        /\ (exists u, App.autosave_pending burst = [u]
                      /\ Timers.due u = last (map fst rest) t1 + 1000)
        /\ (forallb App.is_mutation (map snd ((t1, e1) :: rest)) = true ->
            App.editor burst
            = App.edited ((t1, e1) :: rest) (App.editor before))
        /\ let written := App.snapshot opened (App.editor burst) T in
           App.saved (App.env after) = App.saved (App.env before) ++ [written]
           /\ App.db after = snd (App.saveNote written (App.db before))
           /\ App.autosave_pending after = []
           /\ (forall k db',
                 App.saveNote written (App.db before) = (Resolved k, db') ->
                 exists r, App.getNote k (App.db after) = Some r
                           /\ App.title r = App.sanitizeInput (App.title written)
                           /\ App.text r = App.sanitizeInput (App.text written)))
  /\ (forall s n t1 e1 rest T,
      Hybrid.reachable s -> Hybrid.summary_pending s = [] ->
      Hybrid.currentNote s = Some n ->
      Hybrid.now (Hybrid.env s) <= t1 ->
      Hybrid.burst_of ((t1, e1) :: rest) s ->
      Hybrid.within_debounce t1 rest ->
      last (map fst rest) t1 + 1000 <= T ->
      let before := Hybrid.advance t1 s in
      let burst := Hybrid.run_timed ((t1, e1) :: rest) s in
      let after := Hybrid.advance T burst in
      exists opened,
        Hybrid.currentNote before = Some opened
        /\ Hybrid.saved (Hybrid.env burst) = Hybrid.saved (Hybrid.env before)
        /\ (exists u, Hybrid.autosave_pending burst = [u]
                      /\ Timers.due u = last (map fst rest) t1 + 1000)
        /\ (forallb Hybrid.is_mutation (map snd ((t1, e1) :: rest)) = true ->
            Hybrid.editor burst
            = Hybrid.edited ((t1, e1) :: rest) (Hybrid.editor before))
        /\ let written := Hybrid.snapshot opened (Hybrid.editor burst) T in
           Hybrid.saved (Hybrid.env after)
             = Hybrid.saved (Hybrid.env before) ++ [written]
           /\ Hybrid.db after
              = snd (Hybrid.saveNote written (Hybrid.db before))
           /\ Hybrid.autosave_pending after = []
           /\ (forall k db',
                 Hybrid.saveNote written (Hybrid.db before) = (Resolved k, db') ->
                 exists r, Hybrid.getNote k (Hybrid.db after) = Some r
                           /\ Hybrid.title r
                              = Hybrid.sanitizeInput (Hybrid.title written)
                           /\ Hybrid.text r
                              = Hybrid.sanitizeInput (Hybrid.text written))).
Proof.
  split.
  - intros s n t1 e1 rest T Hreach.
    apply burst_then_save.
    exact (proj1 (ReachableFacts.reachable_invariant Hreach)).
  - intros s n t1 e1 rest T Hreach Hquiet.
    apply Hybrid_burst_then_save.
    + exact (HybridReachableFacts.Hybrid_reachable_ok Hreach).
    + exact Hquiet.
Qed.

(** On the fresh page "h" is typed, "buy milk" is dictated 200 ms later
    and the title is typed after another 200 ms; the loop runs at
    1400 ms: nothing is written during the burst and one write is made, of
    the title "T" and the text "h buy milk " on the mobile page of
    [app.js], and of "T" and "hbuy milk " in the hybrid script. *)
Lemma autosave_debounced_witness :
  (let burst :=
     App.run_timed
       [(0, App.TextInput (js "h") 1);
        (200, App.EngineResult (Engine.heard "buy milk"));
        (400, App.TitleInput (js "T"))]
       (App.initial true true true) in
   exists opened,
     App.currentNote (App.advance 0 (App.initial true true true)) = Some opened
     /\ App.saved (App.env burst)
        = App.saved (App.env (App.advance 0 (App.initial true true true)))
     /\ (exists u, App.autosave_pending burst = [u] /\ Timers.due u = 1400)
     /\ App.saved (App.env (App.advance 1400 burst))
        = App.saved (App.env (App.advance 0 (App.initial true true true)))
          ++ [App.snapshot opened (js "T", js "h buy milk ") 1400])
  /\ (let burst :=
        Hybrid.run_timed
          [(0, Hybrid.TextInput (js "h") 1);
           (200, Hybrid.EngineResult (Engine.heard "buy milk"));
           (400, Hybrid.TitleInput (js "T"))]
          (Hybrid.initial true true) in
      exists opened,
        Hybrid.currentNote (Hybrid.advance 0 (Hybrid.initial true true))
        = Some opened
        /\ Hybrid.saved (Hybrid.env burst)
           = Hybrid.saved (Hybrid.env (Hybrid.advance 0 (Hybrid.initial true true)))
        /\ (exists u, Hybrid.autosave_pending burst = [u]
                      /\ Timers.due u = 1400)
        /\ Hybrid.saved (Hybrid.env (Hybrid.advance 1400 burst))
           = Hybrid.saved (Hybrid.env (Hybrid.advance 0 (Hybrid.initial true true)))
             ++ [Hybrid.snapshot opened (js "T", js "hbuy milk ") 1400]).
Proof.
  cbv zeta. split.
  - destruct (proj1 autosave_debounced (App.initial true true true)
                (App.mkNote None (js "") (js "") (js "en") 0 [])
                0 (App.TextInput (js "h") 1)
                [(200, App.EngineResult (Engine.heard "buy milk"));
                 (400, App.TitleInput (js "T"))]
                1400)
      as (opened & Hopen & Hquiet & Hpending & _ & Hsaved & _).
    + exact (App.reach_initialize IDB.empty 0 true true true).
    + reflexivity.
    + vm_compute. discriminate.
    + vm_compute. auto.
    + simpl. lia.
    + simpl. lia.
    + exists opened. split; [exact Hopen|]. split; [exact Hquiet|].
      split; [exact Hpending|].
      assert (Hed : App.editor
                (App.run_timed
                   [(0, App.TextInput (js "h") 1);
                    (200, App.EngineResult (Engine.heard "buy milk"));
                    (400, App.TitleInput (js "T"))]
                   (App.initial true true true))
              = (js "T", js "h buy milk ")) by (vm_compute; reflexivity).
      rewrite Hed in Hsaved. exact Hsaved.
  - destruct (proj2 autosave_debounced (Hybrid.initial true true)
                (Hybrid.mkNote None (js "") (js "") None (js "en") 0 [])
                0 (Hybrid.TextInput (js "h") 1)
                [(200, Hybrid.EngineResult (Engine.heard "buy milk"));
                 (400, Hybrid.TitleInput (js "T"))]
                1400)
      as (opened & Hopen & Hquiet & Hpending & _ & Hsaved & _).
    + exact (Hybrid.reach_initialize IDB.empty 0 true true).
    + vm_compute. reflexivity.
    + vm_compute. reflexivity.
    + vm_compute. discriminate.
    + vm_compute. auto.
    + simpl. lia.
    + simpl. lia.
    + exists opened. split; [exact Hopen|]. split; [exact Hquiet|].
      split; [exact Hpending|].
      assert (Hed : Hybrid.editor
                (Hybrid.run_timed
                   [(0, Hybrid.TextInput (js "h") 1);
                    (200, Hybrid.EngineResult (Engine.heard "buy milk"));
                    (400, Hybrid.TitleInput (js "T"))]
                   (Hybrid.initial true true))
              = (js "T", js "hbuy milk ")) by (vm_compute; reflexivity).
      rewrite Hed in Hsaved. exact Hsaved.
Defined.

(** C5, the sentence as written, fails in the hybrid script while a
    summary is being generated.  "hello" is typed and saved; the summarize
    button is pressed at 1500 ms, so that the summary is due at 4500 ms;
    three edits follow at 4000, 4400 and 4800 ms.  The summary saves the
    note in the middle of the burst, and the autosave timer saves it again
    at 5800 ms: two writes for one burst. *)
Lemma hybrid_summary_saves_during_burst :
  let s := Hybrid.run_timed
             [(0, Hybrid.TextInput (js "hello") 5); (1500, Hybrid.SummarizeClick)]
             (Hybrid.initial true true) in
  let edits := [(4000, Hybrid.TextInput (js "hello a") 7);
                (4400, Hybrid.TextInput (js "hello ab") 8);
                (4800, Hybrid.TextInput (js "hello abc") 9)] in
  let burst := Hybrid.run_timed edits s in
  Hybrid.reachable s
  /\ Hybrid.burst_of edits s
  /\ Hybrid.within_debounce 4000 (tl edits)
  /\ List.length (Hybrid.summary_pending s) = 1%nat
  /\ List.length (Hybrid.saved (Hybrid.env (Hybrid.advance 4000 s))) = 1%nat
  /\ map Hybrid.text (Hybrid.saved (Hybrid.env burst))
     = [js "hello"; js "hello ab"]
  /\ map Hybrid.text (Hybrid.saved (Hybrid.env (Hybrid.advance 5800 burst)))
     = [js "hello"; js "hello ab"; js "hello abc"].
Proof.
  cbv zeta. split; [|split; [|split; [|split; [|split; [|split]]]]].
  - apply Hybrid.reach_event, Hybrid.reach_time, Hybrid.reach_event,
      Hybrid.reach_time.
    exact (Hybrid.reach_initialize IDB.empty 0 true true).
  - vm_compute. auto.
  - simpl. lia.
  - vm_compute. reflexivity.
  - vm_compute. reflexivity.
  - vm_compute. reflexivity.
  - vm_compute. reflexivity.
Qed.

(** The same five edits in the hybrid script, read off the journal: no
    write while the burst lasts, one write at 1800 ms. *)
Example hybrid_five_edits :
  let burst :=
    Hybrid.run_timed
      [(0, Hybrid.TextInput (js "h") 1); (200, Hybrid.TextInput (js "he") 2);
       (400, Hybrid.TitleInput (js "T")); (600, Hybrid.TextInput (js "hel") 3);
       (800, Hybrid.TextInput (js "hell") 4)]
      (Hybrid.initial true true) in
  Hybrid.saved (Hybrid.env burst) = []
  /\ map (fun n => (Hybrid.title n, Hybrid.text n))
         (Hybrid.saved (Hybrid.env (Hybrid.advance 1800 burst)))
     = [(js "T", js "hell")]
  /\ map (fun n => (Hybrid.title n, Hybrid.text n))
         (Hybrid.getAllNotes (Hybrid.db (Hybrid.advance 1800 burst)))
     = [(js "T", js "hell")].
Proof. cbv zeta. repeat split; vm_compute; reflexivity. Qed.

End SessionClaims.
(* ================================================================== *)
(** * Further properties *)

(* ------------------------------------------------------------------ *)
(** ** The persistence gateway *)

Module GatewayExtras.

Import App Hybrid IDB IDBFacts.
Local Open Scope Z_scope.


Lemma store_request_other {V : Type} `{InlineKey V} b (v : V) s k s' k' :
  store_request b v s = (Resolved k, s') -> k' <> k -> get k' s' = get k' s.
Proof.
  intros Hreq Hne. apply store_request_resolved in Hreq.
  destruct Hreq as [Hrec _]. unfold get. rewrite Hrec.
  now apply lookup_store_record_other.
Qed.

(** X1.  A save that resolves changes the record under the id it reports
    and no other; a save that is rejected changes nothing.  Both
    scripts. *)
Theorem saveNote_touches_one_record :
  (forall (note : App.Note) db k db',
      App.saveNote note db = (Resolved k, db') ->
      forall k', k' <> k -> App.getNote k' db' = App.getNote k' db)
  /\ (forall (note : App.Note) db e db',
      App.saveNote note db = (Rejected e, db') -> db' = db)
  /\ (forall (note : Hybrid.Note) db k db',
      Hybrid.saveNote note db = (Resolved k, db') ->
      forall k', k' <> k -> Hybrid.getNote k' db' = Hybrid.getNote k' db)
  /\ (forall (note : Hybrid.Note) db e db',
      Hybrid.saveNote note db = (Rejected e, db') -> db' = db).
Proof.
  split; [|split; [|split]].
  - intros note db k db' Hsave k' Hne.
    destruct (AppFacts.saveNote_request note db) as (b & v & Hreq & _).
    rewrite Hreq in Hsave. exact (store_request_other _ _ _ Hsave Hne).
  - intros note db e db' Hsave.
    destruct (AppFacts.saveNote_request note db) as (b & v & Hreq & _).
    rewrite Hreq in Hsave. exact (store_request_rejected _ _ _ Hsave).
  - intros note db k db' Hsave k' Hne.
    destruct (HybridFacts.Hybrid_saveNote_request note db) as (b & v & Hreq & _).
    rewrite Hreq in Hsave. exact (store_request_other _ _ _ Hsave Hne).
  - intros note db e db' Hsave.
    destruct (HybridFacts.Hybrid_saveNote_request note db) as (b & v & Hreq & _).
    rewrite Hreq in Hsave. exact (store_request_rejected _ _ _ Hsave).
Qed.

(** Two notes are inserted, then the first is saved again: the second is
    as it was. *)
Lemma saveNote_touches_one_record_witness :
  App.getNote 2
    (snd (App.saveNote (App.with_id (Some 1) (App.draft "c"))
            (snd (App.saveNote (App.draft "b")
                    (snd (App.saveNote (App.draft "a") empty))))))
  = App.getNote 2
      (snd (App.saveNote (App.draft "b")
              (snd (App.saveNote (App.draft "a") empty)))).
Proof.
  apply (proj1 saveNote_touches_one_record
           (App.with_id (Some 1) (App.draft "c"))
           (snd (App.saveNote (App.draft "b")
                   (snd (App.saveNote (App.draft "a") empty))))
           1
           (snd (App.saveNote (App.with_id (Some 1) (App.draft "c"))
                   (snd (App.saveNote (App.draft "b")
                           (snd (App.saveNote (App.draft "a") empty))))))).
  - reflexivity.
  - discriminate.
Defined.

Lemma insert_key (n : App.Note) (db : App.DB) k db' :
  wf db -> App.truthy_id (App.id n) = false ->
  App.saveNote n db = (Resolved k, db') ->
  k = current_number db /\ current_number db' = k + 1
  /\ Forall (fun k' => k' < k) (keys db)
  /\ records db'
     = records db
       ++ [(k, App.mkNote (Some k) (App.sanitizeInput (App.title n))
                  (App.sanitizeInput (App.text n)) (App.language n)
                  (App.timestamp n) (App.tags n))].
Proof.
  intros Hwf Hid Hsave. unfold App.saveNote in Hsave. rewrite Hid in Hsave.
  assert (Hrec : records db'
                 = records db
                   ++ [(k, inject_key k
                             (App.mkNote None (App.sanitizeInput (App.title n))
                                (App.sanitizeInput (App.text n)) (App.language n)
                                (App.timestamp n) (App.tags n)))]).
  { eapply store_request_generated; [exact Hwf|reflexivity|exact Hsave]. }
  apply store_request_resolved in Hsave. destruct Hsave as [_ Hkey].
  simpl in Hkey. destruct Hkey as (Hk & Hg & Hmax).
  split; [exact Hk|]. split; [exact Hg|]. split; [|exact Hrec].
  subst k. destruct (wf_generator Hwf) as [Hgen|Hgen]; [exact Hgen|lia].
Qed.

(** X2.  In a well-formed store a note without an id ([null] or [0]) is
    stored under an id above every id in the store, and comes first in
    the list, in its sanitised form.  The id of a deleted note is not
    handed out again: the note inserted after a deletion gets a higher
    one. *)
Theorem new_note_gets_fresh_id :
  (forall (n : App.Note) db k db',
      wf db -> App.truthy_id (App.id n) = false ->
      App.saveNote n db = (Resolved k, db') ->
      (forall k', In k' (keys db) -> k' < k)
      /\ App.getAllNotes db'
         = App.mkNote (Some k) (App.sanitizeInput (App.title n))
             (App.sanitizeInput (App.text n)) (App.language n)
             (App.timestamp n) (App.tags n)
           :: App.getAllNotes db)
  /\ (forall (n : App.Note) db k0 k db',
      wf db -> In k0 (keys db) -> App.truthy_id (App.id n) = false ->
      App.saveNote n (snd (App.deleteNote k0 db)) = (Resolved k, db') ->
      k0 < k).
Proof.
  split.
  - intros n db k db' Hwf Hid Hsave.
    destruct (insert_key n Hwf Hid Hsave) as (_ & _ & Hall & Hrec).
    split.
    + intros k' Hk'. rewrite Forall_forall in Hall. now apply Hall.
    + unfold App.getAllNotes, getAll. rewrite Hrec.
      now rewrite map_app, rev_app_distr.
  - intros n db k0 k db' Hwf Hin Hid Hsave.
    destruct (insert_key n (delete_wf k0 Hwf) Hid Hsave) as (Hk & _).
    simpl in Hk. subst k.
    destruct (wf_generator Hwf) as [Hgen|Hgen].
    + rewrite Forall_forall in Hgen. now apply Hgen.
    + unfold App.saveNote in Hsave. rewrite Hid in Hsave.
      apply store_request_resolved in Hsave. simpl in Hsave.
      destruct Hsave as (_ & _ & _ & Hmax). lia.
Qed.

(** Note 1 is deleted from a store of two notes; the next note inserted
    gets id 3. *)
Lemma new_note_gets_fresh_id_witness :
  1 < 3
  /\ fst (App.saveNote (App.draft "c")
            (snd (App.deleteNote 1
                    (snd (App.saveNote (App.draft "b")
                            (snd (App.saveNote (App.draft "a") empty)))))))
     = Resolved 3.
Proof.
  split; [|reflexivity].
  apply (proj2 new_note_gets_fresh_id (App.draft "c")
           (snd (App.saveNote (App.draft "b")
                   (snd (App.saveNote (App.draft "a") empty))))
           1 3
           (snd (App.saveNote (App.draft "c")
                   (snd (App.deleteNote 1
                           (snd (App.saveNote (App.draft "b")
                                   (snd (App.saveNote (App.draft "a")
                                           empty))))))))).
  - apply (store_request_wf AppFacts.extract_inject).
    apply (store_request_wf AppFacts.extract_inject). apply empty_wf.
  - simpl. auto.
  - reflexivity.
  - reflexivity.
Defined.

Lemma generated_key_free {V : Type} (g : Z) (l : list (Z * V)) :
  Forall (fun k => k < g) (map fst l) -> has_key g l = false.
Proof.
  intros Hall. unfold has_key.
  destruct (lookup g l) eqn:Hl; [|reflexivity].
  assert (Hin : In g (map fst l)) by (apply lookup_in_keys; congruence).
  rewrite Forall_forall in Hall. specialize (Hall _ Hin). lia.
Qed.

Lemma update_resolves (n : App.Note) (db : App.DB) :
  fault db = None -> App.truthy_id (App.id n) = true ->
  exists k, App.id n = Some k /\ fst (App.saveNote n db) = Resolved k.
Proof.
  intros Hf Hid. unfold App.saveNote. rewrite Hid.
  destruct (App.id n) as [k|] eqn:Hk; [|discriminate].
  exists k. split; [reflexivity|].
  rewrite (@AppFacts.put_explicit _ db k Hf); reflexivity.
Qed.

Lemma saveNote_faulty (n : App.Note) (db : App.DB) e :
  fault db = Some e -> App.saveNote n db = (Rejected e, db).
Proof.
  intros Hf. unfold App.saveNote, put, add.
  destruct (App.truthy_id (App.id n)); now apply store_request_faulty.
Qed.

(** X3.  When a save is rejected.  While the storage underneath fails,
    every save is rejected with the storage's error and the store is left
    as it was.  On a storage that does not fail, a well-formed store
    rejects a save in one case only, with [ConstraintError]: the note has
    no id and the key generator has passed its limit of 2^53.  When the
    save that [autoSave] makes is rejected, for whichever reason, the
    store is left as it was, the note status shows the error, and the open
    note keeps the title, text and time it was given for the save. *)
Theorem saveNote_rejections :
  (forall (n : App.Note) db e,
      fault db = Some e -> App.saveNote n db = (Rejected e, db))
  /\ (forall (n : App.Note) db, wf db -> fault db = None ->
      ((exists e, fst (App.saveNote n db) = Rejected e)
       <-> App.truthy_id (App.id n) = false
           /\ max_generator < current_number db)
      /\ (forall e, fst (App.saveNote n db) = Rejected e -> e = ConstraintError))
  /\ (forall s n e,
      App.currentNote s = Some n ->
      fst (App.saveNote (App.snapshot n (App.editor s) (App.now (App.env s)))
                        (App.db s)) = Rejected e ->
      App.db (App.autoSave s) = App.db s
      /\ App.noteStatus (App.elements (App.autoSave s)) = App.StatusError
      /\ App.currentNote (App.autoSave s)
         = Some (App.snapshot n (App.editor s) (App.now (App.env s)))).
Proof.
  split; [|split].
  - intros n db e Hf. now apply saveNote_faulty.
  - intros n db Hwf Hf.
    assert (Hcases : forall e, fst (App.saveNote n db) = Rejected e ->
              e = ConstraintError
              /\ App.truthy_id (App.id n) = false
              /\ max_generator < current_number db).
    { intros e He.
      destruct (App.truthy_id (App.id n)) eqn:Hid.
      - destruct (@update_resolves n db Hf Hid) as (k & _ & Hk). congruence.
      - unfold App.saveNote in He. rewrite Hid in He.
        unfold add, store_request in He. rewrite Hf in He. simpl in He.
        destruct (max_generator <? current_number db) eqn:Hmax.
        + simpl in He. injection He as <-. apply Z.ltb_lt in Hmax. auto.
        + apply Z.ltb_ge in Hmax.
          destruct (wf_generator Hwf) as [Hgen|Hgen]; [|lia].
          rewrite (generated_key_free _ Hgen) in He. discriminate. }
    split; [split|].
    + intros [e He]. apply (Hcases e He).
    + intros [Hid Hmax]. exists ConstraintError.
      unfold App.saveNote. rewrite Hid. unfold add, store_request.
      rewrite Hf. simpl. apply Z.ltb_lt in Hmax. now rewrite Hmax.
    + intros e He. apply (Hcases e He).
  - intros s n e Hn Hrej. unfold App.autoSave. rewrite Hn. cbv zeta.
    unfold App.snapshot, App.editor in Hrej. simpl in *.
    destruct (App.saveNote _ (App.db s)) as [[k|e'] d'] eqn:Hsave;
      [discriminate|].
    simpl. apply AutosaveFacts.saveNote_rejected in Hsave. subst d'.
    repeat split.
Qed.

(** A store whose generator stands past 2^53 refuses the new note; a
    store on a full disk refuses it with the quota error. *)
Lemma saveNote_rejections_witness :
  (exists e,
     fst (App.saveNote (App.draft "a") (mkStore [] (2 ^ 53 + 1) None))
     = Rejected e)
  /\ App.saveNote (App.draft "a") (with_fault (Some QuotaExceededError) empty)
     = (Rejected QuotaExceededError,
        with_fault (Some QuotaExceededError) empty).
Proof.
  split.
  - assert (Hwf : wf (mkStore (V := App.Note) [] (2 ^ 53 + 1) None)).
    { split; simpl.
      - constructor.
      - constructor.
      - right. unfold max_generator. lia. }
    destruct (proj1 (proj2 saveNote_rejections) (App.draft "a")
                (mkStore [] (2 ^ 53 + 1) None) Hwf eq_refl) as [Hiff _].
    apply Hiff. split; [reflexivity|]. unfold max_generator. simpl. lia.
  - apply (proj1 saveNote_rejections). reflexivity.
Defined.




Lemma insert_resolves (n : App.Note) (db : App.DB) :
  wf db -> fault db = None -> App.truthy_id (App.id n) = false ->
  current_number db <= max_generator ->
  fst (App.saveNote n db) = Resolved (current_number db).
Proof.
  intros Hwf Hf Hid Hmax. unfold App.saveNote. rewrite Hid.
  unfold add, store_request. rewrite Hf. simpl.
  assert ((max_generator <? current_number db) = false) as ->
    by (apply Z.ltb_ge; lia).
  destruct (wf_generator Hwf) as [Hgen|Hgen]; [|lia].
  now rewrite (generated_key_free _ Hgen).
Qed.

(** X5.  A note gets one record.  On a well-formed store whose storage
    does not fail and whose key generator is within its limit, the first
    [autoSave] of a note without an id inserts one record and writes the
    id it was given back into the open note.  From then on, whatever is
    typed, dictated, recorded or saved and whenever the loop runs, as long
    as no other note is opened and none is deleted, the open note keeps
    that id and the store lists the same ids; and every later [autoSave]
    rewrites that record with what the editor then holds, and adds
    none. *)
Theorem autoSave_creates_one_record
    (s : App.State) (n : App.Note) (evs : list (Z * App.event)) (T : Z) :
  wf (App.db s) -> fault (App.db s) = None ->
  App.currentNote s = Some n ->
  App.truthy_id (App.id n) = false ->
  0 < current_number (App.db s) <= max_generator ->
  Forall (fun te => App.keeps_open (snd te) = true) evs ->
  let k := current_number (App.db s) in
  let s1 := App.autoSave s in
  let later := App.advance T (App.run_timed evs s1) in
  option_map App.id (App.currentNote s1) = Some (Some k)
  /\ App.listed_ids (App.db s1) = Some k :: App.listed_ids (App.db s)
  /\ App.noteStatus (App.elements s1) = App.StatusSaved
  /\ option_map App.id (App.currentNote later) = Some (Some k)
  /\ App.listed_ids (App.db later) = Some k :: App.listed_ids (App.db s)
  /\ App.listed_ids (App.db (App.autoSave later))
     = Some k :: App.listed_ids (App.db s)
  /\ exists r,
       App.getNote k (App.db (App.autoSave later)) = Some r
       /\ App.title r
          = App.sanitizeInput
              (or_string (App.noteTitleInput (App.elements later))
                         (js "Untitled Note"))
       /\ App.text r
          = App.sanitizeInput
              (Dom.value (App.noteTextArea (App.elements later))).
Proof.
  intros Hwf Hf Hn Hid [Hpos Hmax] Hall. cbv zeta.
  set (n1 := App.mkNote (App.id n)
               (or_string (App.noteTitleInput (App.elements s)) (js "Untitled Note"))
               (Dom.value (App.noteTextArea (App.elements s)))
               (App.language n) (App.now (App.env s)) (App.tags n)).
  assert (Hfirst : fst (App.saveNote n1 (App.db s))
                   = Resolved (current_number (App.db s)))
    by (apply insert_resolves; assumption).
  destruct (App.saveNote n1 (App.db s)) as [r1 d1] eqn:Hsave.
  simpl in Hfirst. subst r1.
  assert (Hs1 : App.currentNote (App.autoSave s)
                = Some (App.with_id (Some (current_number (App.db s))) n1)
                /\ App.db (App.autoSave s) = d1
                /\ App.noteStatus (App.elements (App.autoSave s))
                   = App.StatusSaved).
  { unfold App.autoSave. rewrite Hn. cbv zeta. fold n1. simpl.
    rewrite Hsave, Hid. simpl. repeat split. }
  destruct Hs1 as (Hc1 & Hd1 & Hst1).
  assert (Hlist : App.listed_ids d1
                  = Some (current_number (App.db s)) :: App.listed_ids (App.db s))
    by (apply (AppFacts.saveNote_insert_first n1 Hwf Hid Hsave)).
  set (k := current_number (App.db s)) in *.
  set (l := Some k :: App.listed_ids (App.db s)) in *.
  assert (Hk : k <> 0) by lia.
  assert (Hin : In (Some k) l) by now left.
  assert (Hh1 : App.holds_note k l (App.autoSave s)).
  { unfold App.holds_note. rewrite Hc1, Hd1. split; [|split; [|split]].
    - pose proof (AppFacts.saveNote_wf n1 Hwf) as Hw. now rewrite Hsave in Hw.
    - pose proof (AppFacts.saveNote_fault n1 (App.db s)) as Hfl.
      rewrite Hsave in Hfl. simpl in Hfl. congruence.
    - exact Hlist.
    - reflexivity. }
  pose proof (OpenNoteFacts.advance_holds T Hk Hin
                (OpenNoteFacts.run_timed_holds Hk Hin Hall Hh1)) as Hh2.
  destruct (OpenNoteFacts.autoSave_holds Hk Hin Hh2) as [Hh3 Hrec].
  rewrite Hc1, Hd1, Hst1.
  split; [reflexivity|]. split; [exact Hlist|]. split; [reflexivity|].
  destruct Hh2 as (_ & _ & Hl2 & Hn2). destruct Hh3 as (_ & _ & Hl3 & _).
  split; [exact Hn2|]. split; [exact Hl2|]. split; [exact Hl3|]. exact Hrec.
Qed.

(** A fresh page: the first save makes note 1; more is typed, the language
    is changed and the note is saved by hand; the store still lists note 1
    alone, and a save at the end rewrites it. *)
Lemma autoSave_creates_one_record_witness :
  let later :=
    App.advance 5000
      (App.run_timed
         [(100, App.TextInput (js "more") 4);
          (200, App.LanguageChange (js "hi"));
          (300, App.KeySave)]
         (App.autoSave (App.initial false true true))) in
  App.listed_ids (App.db (App.autoSave (App.initial false true true)))
  = [Some 1]
  /\ App.listed_ids (App.db later) = [Some 1]
  /\ App.listed_ids (App.db (App.autoSave later)) = [Some 1].
Proof.
  cbv zeta.
  destruct (@autoSave_creates_one_record (App.initial false true true)
              (App.mkNote None (js "") (js "") (js "en") 0 [])
              [(100, App.TextInput (js "more") 4);
               (200, App.LanguageChange (js "hi"));
               (300, App.KeySave)]
              5000)
    as (_ & Hlist & _ & _ & Hlater & Hnext & _).
  - apply empty_wf.
  - reflexivity.
  - vm_compute. reflexivity.
  - vm_compute. reflexivity.
  - vm_compute. split; [reflexivity|discriminate].
  - repeat constructor.
  - split; [exact Hlist|]. split; [exact Hlater|exact Hnext].
Defined.

End GatewayExtras.
(* ------------------------------------------------------------------ *)
(** ** [sanitizeInput] *)

Module SanitizeExtras.

Import JSFacts App.
Local Open Scope N_scope.

(** The text written for one unit tells which unit it was. *)
Lemma escape_unit_prefix c d (a b : jsstring) :
  Dom.escape_unit c ++ a = Dom.escape_unit d ++ b -> c = d /\ a = b.
Proof.
  destruct (escape_unit_cases c)
    as [[-> ->]|[[-> ->]|[[-> ->]|[[-> ->]|(C1 & C2 & C3 & C4 & ->)]]]];
  destruct (escape_unit_cases d)
    as [[-> ->]|[[-> ->]|[[-> ->]|[[-> ->]|(D1 & D2 & D3 & D4 & ->)]]]];
  cbn; intros H; try discriminate H;
  try (injection H as H; split; [reflexivity|exact H]);
  try (injection H as H0 H; congruence);
  injection H as -> ->; split; reflexivity.
Qed.

Lemma sanitizeInput_cons c (s : jsstring) :
  sanitizeInput (c :: s) = Dom.escape_unit c ++ sanitizeInput s.
Proof. reflexivity. Qed.

Lemma escape_unit_nonempty c : Dom.escape_unit c <> [].
Proof.
  destruct (escape_unit_cases c)
    as [[_ ->]|[[_ ->]|[[_ ->]|[[_ ->]|(_ & _ & _ & _ & ->)]]]]; discriminate.
Qed.

(** X6.  Distinct texts are stored as distinct texts: [sanitizeInput] maps
    no two inputs to the same output. *)
Theorem sanitizeInput_injective (a b : jsstring) :
  sanitizeInput a = sanitizeInput b -> a = b.
Proof.
  revert b. induction a as [|c a IH]; intros [|d b] H.
  - reflexivity.
  - rewrite sanitizeInput_cons in H. simpl in H.
    destruct (Dom.escape_unit d) eqn:E; [now apply escape_unit_nonempty in E|].
    discriminate.
  - rewrite sanitizeInput_cons in H. simpl in H.
    destruct (Dom.escape_unit c) eqn:E; [now apply escape_unit_nonempty in E|].
    discriminate.
  - rewrite !sanitizeInput_cons in H.
    apply escape_unit_prefix in H. destruct H as [-> H].
    now rewrite (IH b H).
Qed.

Lemma sanitizeInput_injective_witness : js "a<b" = js "a<b".
Proof. apply sanitizeInput_injective. reflexivity. Defined.

(** X7.  The sanitised text holds no angle bracket and no no-break space,
    and is at least as long as the text given. *)
Theorem sanitizeInput_inert (s : jsstring) :
  Forall (fun c => c <> 60 /\ c <> 62 /\ c <> 160) (sanitizeInput s)
  /\ (List.length s <= List.length (sanitizeInput s))%nat.
Proof.
  induction s as [|c s [IH1 IH2]]; [split; [constructor|apply le_n]|].
  rewrite sanitizeInput_cons. split.
  - apply Forall_app. split; [|exact IH1].
    destruct (escape_unit_cases c)
      as [[_ ->]|[[_ ->]|[[_ ->]|[[_ ->]|(_ & C2 & C3 & C4 & ->)]]]];
      repeat constructor; try discriminate; assumption.
  - rewrite length_app. simpl.
    assert (1 <= List.length (Dom.escape_unit c))%nat.
    { destruct (escape_unit_cases c)
        as [[_ ->]|[[_ ->]|[[_ ->]|[[_ ->]|(_ & _ & _ & _ & ->)]]]];
        simpl; lia. }
    lia.
Qed.

(** X8.  [sanitizeInput] returns a text unchanged exactly when the text
    holds no ampersand, angle bracket or no-break space; so sanitising a
    sanitised text changes it again whenever the first pass changed
    anything. *)
Theorem sanitizeInput_fixed_points (s : jsstring) :
  (sanitizeInput s = s
   <-> Forall (fun c => c <> 38 /\ c <> 60 /\ c <> 62 /\ c <> 160) s)
  /\ (sanitizeInput (sanitizeInput s) = sanitizeInput s
      <-> sanitizeInput s = s).
Proof.
  assert (Hfix : forall t : jsstring,
             sanitizeInput t = t
             <-> Forall (fun c => c <> 38 /\ c <> 60 /\ c <> 62 /\ c <> 160) t).
  { induction t as [|c t IH]; [split; [constructor|reflexivity]|].
    rewrite sanitizeInput_cons. split.
    - intros H.
      destruct (escape_unit_cases c)
        as [[-> E]|[[-> E]|[[-> E]|[[-> E]|(C1 & C2 & C3 & C4 & E)]]]];
        rewrite E in H; cbn in H; try discriminate H.
      + exfalso. injection H as H.
        pose proof (proj2 (sanitizeInput_inert t)) as Hlen.
        rewrite <- H in Hlen at 1. simpl in Hlen. lia.
      + injection H as H. constructor; [auto|]. now apply IH.
    - intros H. inversion H as [|? ? (C1 & C2 & C3 & C4) Ht]; subst.
      destruct (escape_unit_cases c)
        as [[-> _]|[[-> _]|[[-> _]|[[-> _]|(_ & _ & _ & _ & ->)]]]];
        try congruence.
      simpl. f_equal. now apply IH. }
  split; [apply Hfix|]. split.
  - apply sanitizeInput_injective.
  - intros H. rewrite H. exact H.
Qed.

End SanitizeExtras.
(* ------------------------------------------------------------------ *)
(** ** Editing, opening and saving in [app.js] *)

Module EditingExtras.

Import TimersFacts JSFacts App AutosaveFacts.
Local Open Scope Z_scope.

Lemma or_string_empty (a : jsstring) : or_string a (js "") = a.
Proof. destruct a; reflexivity. Qed.

(** What a step leaves of the things autosave works with. *)
Lemma createNewNote_effect s :
  (timers_ok s -> timers_ok (createNewNote s))
  /\ autosave_pending (createNewNote s) = autosave_pending s
  /\ saved (env (createNewNote s)) = saved (env s)
  /\ db (createNewNote s) = db s
  /\ now (env (createNewNote s)) = now (env s)
  /\ editor (createNewNote s) = ([], [])
  /\ currentNote (createNewNote s)
     = Some (mkNote None [] [] (currentLanguage s) (now (env s)) []).
Proof.
  unfold createNewNote, updateEditor, editor, autosave_pending, timers_ok.
  simpl. rewrite set_value_value. conjuncts; auto.
Qed.

Lemma updateEditor_effect s n :
  currentNote s = Some n ->
  (timers_ok s -> timers_ok (updateEditor s))
  /\ autosave_pending (updateEditor s) = autosave_pending s
  /\ saved (env (updateEditor s)) = saved (env s)
  /\ db (updateEditor s) = db s
  /\ now (env (updateEditor s)) = now (env s)
  /\ editor (updateEditor s) = (title n, text n)
  /\ currentNote (updateEditor s) = Some n.
Proof.
  intros Hn.
  unfold updateEditor, editor, autosave_pending, timers_ok. rewrite Hn.
  simpl. rewrite set_value_value, !or_string_empty. conjuncts; auto.
Qed.

(** X9.  A note that is opened from the list and saved is escaped a
    second time.  After a save of [n] under id [k], choosing entry [k]
    puts the stored, escaped title and text into the editor; the next
    save stores the escaped form of that. *)
Theorem reopened_note_is_escaped_again (s : State) (n : Note) db0 k :
  saveNote n db0 = (Resolved k, db s) -> k <> 0 ->
  let opened := dispatch (ListSelectClick k) s in
  let resaved := dispatch KeySave opened in
  editor opened = (sanitizeInput (title n), sanitizeInput (text n))
  /\ exists r,
       getNote k (db resaved) = Some r
       /\ text r = sanitizeInput (sanitizeInput (text n))
       /\ title r
          = sanitizeInput (or_string (sanitizeInput (title n))
                                     (js "Untitled Note")).
Proof.
  intros Hsave Hk. cbv zeta. unfold dispatch, onListSelect.
  destruct (AppFacts.saveNote_persists _ _ Hsave)
    as (r0 & Hget & Hid & Ht & Hx & _).
  rewrite Hget.
  destruct (@updateEditor_effect (set_currentNote (Some r0) s) r0 eq_refl)
    as (_ & _ & _ & Hdb & _ & Hed & Hc).
  set (opened := updateEditor (set_currentNote (Some r0) s)) in *.
  split; [rewrite Hed, Ht, Hx; reflexivity|].
  destruct (autoSave_effect _ Hc) as (_ & Hdb' & _).
  change (noteTitleInput (elements opened),
          Dom.value (noteTextArea (elements opened)))
    with (editor opened) in Hdb'.
  rewrite Hed, Hdb in Hdb'.
  change (db (set_currentNote (Some r0) s)) with (db s) in Hdb'.
  destruct (saveNote (snapshot r0 (title r0, text r0) (now (env opened)))
                     (db s)) as [res d'] eqn:Hsave2.
  assert (Hres : res = Resolved k).
  { assert (Htr : truthy_id (id (snapshot r0 (title r0, text r0)
                                          (now (env opened)))) = true).
    { simpl. rewrite Hid. simpl. apply Z.eqb_neq in Hk. now rewrite Hk. }
    destruct (@GatewayExtras.update_resolves _ (db s)
                (proj2 (AppFacts.saveNote_healthy _ _ Hsave)) Htr)
      as (k' & Hk' & Hr).
    rewrite Hsave2 in Hr. simpl in Hr, Hk'. rewrite Hid in Hk'.
    congruence. }
  subst res.
  destruct (AppFacts.saveNote_persists _ _ Hsave2) as (r & Hget2 & _ & Ht2 & Hx2 & _).
  exists r. rewrite Hdb'. simpl. split; [exact Hget2|].
  simpl in Ht2, Hx2. rewrite Ht2, Hx2, Ht, Hx. split; reflexivity.
Qed.

(** "a<b" is saved, opened again and saved: the store then holds
    "a&amp;lt;b". *)
Lemma reopened_note_is_escaped_again_witness :
  exists r,
    getNote 1
      (db (dispatch KeySave
             (dispatch (ListSelectClick 1)
                (dispatch KeySave (editing false (js "a<b") 3)))))
    = Some r
    /\ text r = js "a&amp;lt;b".
Proof.
  destruct (@reopened_note_is_escaped_again
              (dispatch KeySave (editing false (js "a<b") 3))
              (mkNote None (js "Untitled Note") (js "a<b") (js "en") 0 [])
              IDB.empty 1)
    as (_ & r & Hget & Htext & _).
  - reflexivity.
  - discriminate.
  - exists r. split; [exact Hget|exact Htext].
Defined.

(** The page right after an edit at [t1]: one autosave timer, due a
    second later. *)
Lemma after_edit s n t1 e :
  timers_ok s -> currentNote s = Some n -> now (env s) <= t1 ->
  is_mutation e = true ->
  let edited := dispatch e (advance t1 s) in
  timers_ok edited
  /\ (exists u, autosave_pending edited = [u] /\ Timers.due u = t1 + 1000)
  /\ now (env edited) = t1
  /\ saved (env edited) = saved (env (advance t1 s))
  /\ db edited = db (advance t1 s)
  /\ editor edited = edit (editor (advance t1 s)) e
  /\ currentNote edited = currentNote (advance t1 s)
  /\ is_some (currentNote (advance t1 s)) = true.
Proof.
  intros Hok Hn Hnow He. cbv zeta.
  destruct (advance_keeps t1 s) as (Hok0 & Hsome0 & Hnow0).
  rewrite Z.max_l in Hnow0 by lia.
  destruct (@mutation_effect e (advance t1 s) He (Hok0 Hok))
    as (Hok1 & Hp1 & Hed1 & Hc1 & Hd1 & Hs1 & Hnow1).
  rewrite Hnow0 in *. conjuncts; auto.
  apply Hsome0. now rewrite Hn.
Qed.

(** Waking the loop before the timer is due changes nothing for autosave. *)
Lemma before_due s u t1 t2 :
  timers_ok s -> autosave_pending s = [u] -> Timers.due u = t1 + 1000 ->
  now (env s) = t1 -> t1 <= t2 < t1 + 1000 ->
  timers_ok (advance t2 s)
  /\ autosave_pending (advance t2 s) = [u]
  /\ now (env (advance t2 s)) = t2
  /\ saved (env (advance t2 s)) = saved (env s)
  /\ db (advance t2 s) = db s
  /\ editor (advance t2 s) = editor s
  /\ currentNote (advance t2 s) = currentNote s.
Proof.
  intros Hok Hp Hdue Hnow Ht.
  destruct (@advance_calm t2 s Hok) as [Hv Hok'].
  { intros u0 Hu0. rewrite Hp in Hu0. destruct Hu0 as [<-|[]]. lia. }
  apply view_fields in Hv. destruct Hv as (Hed & Hc & Hd & Hs & _ & Hpend).
  pose proof (proj2 (proj2 (advance_keeps t2 s))) as Hnow'.
  rewrite Z.max_l in Hnow' by lia.
  rewrite Hpend, Hp. conjuncts; auto.
Qed.

(** X10.  An edit that is followed by "new note" within the second is
    never written.  The autosave the edit scheduled still fires, and what
    it writes is the new, empty note under the title "Untitled Note". *)
Theorem edit_lost_on_new_note (s : State) (n : Note) v caret t1 t2 T :
  reachable s -> currentNote s = Some n ->
  now (env s) <= t1 -> t1 <= t2 < t1 + 1000 -> t1 + 1000 <= T ->
  let typed := dispatch (TextInput v caret) (advance t1 s) in
  let fresh := dispatch NewNoteClick (advance t2 typed) in
  let after := advance T fresh in
  Dom.value (noteTextArea (elements typed)) = v
  /\ saved (env fresh) = saved (env (advance t1 s))
  /\ exists w,
       saved (env after) = saved (env (advance t1 s)) ++ [w]
       /\ id w = None /\ title w = js "Untitled Note" /\ text w = []
       /\ autosave_pending after = [].
Proof.
  intros Hreach Hn Hnow Ht2 HT. cbv zeta.
  pose proof (proj1 (ReachableFacts.reachable_invariant Hreach)) as Hok.
  destruct (@after_edit s n t1 (TextInput v caret) Hok Hn Hnow eq_refl)
    as (Hok1 & (u & Hp1 & Hdue1) & Hnow1 & Hs1 & Hd1 & Hed1 & Hc1 & _).
  set (typed := dispatch (TextInput v caret) (advance t1 s)) in *.
  destruct (@before_due typed u t1 t2 Hok1 Hp1 Hdue1 Hnow1 Ht2)
    as (Hok2 & Hp2 & Hnow2 & Hs2 & Hd2 & Hed2 & Hc2).
  destruct (createNewNote_effect (advance t2 typed))
    as (Hok3 & Hp3 & Hs3 & Hd3 & Hnow3 & Hed3 & Hc3).
  split; [exact (f_equal snd Hed1)|].
  change (dispatch NewNoteClick (advance t2 typed))
    with (createNewNote (advance t2 typed)).
  split; [congruence|].
  destruct (@advance_autosave T u _ _ (Hok3 Hok2) (eq_trans Hp3 Hp2) Hc3)
    as (Hsaved & _ & Hnone & _); [rewrite Hnow3, Hnow2; lia|].
  eexists. split; [rewrite Hsaved, Hs3, Hs2, Hs1; reflexivity|].
  rewrite Hed3. simpl. auto.
Qed.

(** "hello" typed at 0 ms, "new note" at 400 ms, the loop at 1000 ms: the
    journal of saves holds one empty "Untitled Note". *)
Lemma edit_lost_on_new_note_witness :
  exists w,
    saved (env (advance 1000
                  (dispatch NewNoteClick
                     (advance 400
                        (dispatch (TextInput (js "hello") 5)
                           (advance 0 (initial false true true)))))))
    = saved (env (advance 0 (initial false true true))) ++ [w]
    /\ text w = [].
Proof.
  destruct (@edit_lost_on_new_note (initial false true true)
              (mkNote None (js "") (js "") (js "en") 0 [])
              (js "hello") 5%nat 0 400 1000)
    as (_ & _ & w & Hsaved & _ & _ & Htext & _).
  - exact (reach_initialize IDB.empty 0 false true true).
  - reflexivity.
  - vm_compute. discriminate.
  - lia.
  - lia.
  - exists w. split; [exact Hsaved|exact Htext].
Defined.

(** Every insertion leaves one autosave timer, due a second later. *)
Lemma insertTranscript_schedules t s n :
  timers_ok s -> currentNote s = Some n ->
  let s' := insertTranscript t s in
  timers_ok s'
  /\ (exists u, autosave_pending s' = [u]
                /\ Timers.due u = now (env s) + 1000)
  /\ now (env s') = now (env s)
  /\ saved (env s') = saved (env s)
  /\ exists n', currentNote s' = Some n' /\ id n' = id n.
Proof.
  intros Hok Hn. cbv zeta. unfold insertTranscript. rewrite Hn. cbv zeta.
  match goal with
  | |- context [scheduleAutoSave ?x] =>
      assert (Hx : timers_ok x) by exact Hok;
      destruct (scheduleAutoSave_effect Hx)
        as (H1 & H2 & _ & H4 & _ & H6 & H7);
      rewrite H2, H4, H6, H7
  end.
  split; [exact H1|]. split; [eexists; split; reflexivity|].
  split; [reflexivity|]. split; [reflexivity|].
  eexists. split; reflexivity.
Qed.

Lemma mobile_slots_schedule rs : forall s n,
  timers_ok s -> currentNote s = Some n ->
  let step := fun (s : State) (r : Engine.slot) =>
    if Engine.isFinal r then
      if truthy_string (trim (Engine.transcript r)) && is_some (currentNote s)
      then insertTranscript (trim (Engine.transcript r)) s
      else s
    else s in
  let s' := fold_left step rs s in
  timers_ok s'
  /\ now (env s') = now (env s)
  /\ saved (env s') = saved (env s)
  /\ (exists n', currentNote s' = Some n' /\ id n' = id n)
  /\ ((exists u, autosave_pending s = [u]
                 /\ Timers.due u = now (env s) + 1000)
      \/ filter truthy_string
           (map (fun r => trim (Engine.transcript r))
                (filter Engine.isFinal rs)) <> [] ->
      exists u, autosave_pending s' = [u]
                /\ Timers.due u = now (env s) + 1000).
Proof.
  induction rs as [|r rs IH]; intros s n Hok Hn; cbv zeta.
  - simpl. split; [exact Hok|]. split; [reflexivity|]. split; [reflexivity|].
    split; [exists n; auto|]. intros [H|H]; [exact H|contradiction].
  - cbn [fold_left filter map].
    destruct (Engine.isFinal r) eqn:Hfinal.
    + cbn [map filter]. rewrite Hn. cbn [is_some]. rewrite andb_true_r.
      destruct (truthy_string (trim (Engine.transcript r))) eqn:Ht.
      * destruct (@insertTranscript_schedules (trim (Engine.transcript r)) s n
                    Hok Hn) as (Hok1 & Hp1 & Hnow1 & Hs1 & n1 & Hn1 & Hid1).
        destruct (IH _ n1 Hok1 Hn1) as (Hok2 & Hnow2 & Hs2 & (n2 & Hn2 & Hid2) & Hp2).
        rewrite Hnow1 in *. split; [exact Hok2|]. split; [exact Hnow2|].
        split; [congruence|]. split; [exists n2; split; congruence|].
        intros _. apply Hp2. now left.
      * destruct (IH _ n Hok Hn) as (Hok2 & Hnow2 & Hs2 & Hn2 & Hp2).
        split; [exact Hok2|]. split; [exact Hnow2|]. split; [exact Hs2|].
        split; [exact Hn2|]. exact Hp2.
    + destruct (IH _ n Hok Hn) as (Hok2 & Hnow2 & Hs2 & Hn2 & Hp2).
      split; [exact Hok2|]. split; [exact Hnow2|]. split; [exact Hs2|].
      split; [exact Hn2|]. exact Hp2.
Qed.

(** X11.  What is dictated is saved.  After a mobile result event that
    puts something into the note, one autosave timer is pending, due a
    second later; when the loop runs at or after that time, one save has
    been made, of the text the note then shows, under the id the note
    had. *)
Theorem dictation_is_saved (s : State) (n : Note) ev T :
  reachable s -> currentNote s = Some n -> deltas ev <> [] ->
  now (env s) + 1000 <= T ->
  let heard := handleMobileResults ev s in
  (exists u, autosave_pending heard = [u]
             /\ Timers.due u = now (env s) + 1000)
  /\ exists w,
       saved (env (advance T heard)) = saved (env s) ++ [w]
       /\ text w = Dom.value (noteTextArea (elements heard))
       /\ id w = id n.
Proof.
  intros Hreach Hn Hd HT. cbv zeta.
  pose proof (proj1 (ReachableFacts.reachable_invariant Hreach)) as Hok.
  destruct (@mobile_slots_schedule (Engine.results ev) s n Hok Hn)
    as (Hok1 & Hnow1 & Hs1 & (n1 & Hn1 & Hid1) & Hp1).
  fold (handleMobileResults ev s) in *.
  destruct Hp1 as (u & Hp & Hdue); [right; exact Hd|].
  split; [exists u; auto|].
  destruct (@advance_autosave T u _ n1 Hok1 Hp Hn1)
    as (Hsaved & _); [rewrite Hnow1; lia|].
  eexists. split; [rewrite Hsaved, Hs1; reflexivity|].
  split; [reflexivity|exact Hid1].
Qed.

(** "buy milk" is heard on the fresh page; the loop at 1000 ms saves
    "buy milk ". *)
Lemma dictation_is_saved_witness :
  exists w,
    saved (env (advance 1000
                  (handleMobileResults (Engine.heard "buy milk")
                                       (initial true true true))))
    = [w]
    /\ text w = js "buy milk ".
Proof.
  destruct (@dictation_is_saved (initial true true true)
              (mkNote None (js "") (js "") (js "en") 0 [])
              (Engine.heard "buy milk") 1000)
    as (_ & w & Hsaved & Htext & _).
  - exact (reach_initialize IDB.empty 0 true true true).
  - reflexivity.
  - vm_compute. discriminate.
  - vm_compute. discriminate.
  - exists w. split; [exact Hsaved|]. rewrite Htext. vm_compute. reflexivity.
Defined.

End EditingExtras.
(* ------------------------------------------------------------------ *)
(** ** Changing the language while an edit is pending *)

Module LanguageExtras.

Import TimersFacts JSFacts.
Local Open Scope Z_scope.

Lemma Hybrid_after_edit s n t1 e :
  Hybrid.timers_ok s -> Hybrid.summary_pending s = [] ->
  Hybrid.currentNote s = Some n ->
  Hybrid.now (Hybrid.env s) <= t1 -> Hybrid.is_mutation e = true ->
  let edited := Hybrid.dispatch e (Hybrid.advance t1 s) in
  Hybrid.timers_ok edited
  /\ (exists u, Hybrid.autosave_pending edited = [u]
                /\ Timers.due u = t1 + 1000)
  /\ Hybrid.now (Hybrid.env edited) = t1
  /\ Hybrid.saved (Hybrid.env edited)
     = Hybrid.saved (Hybrid.env (Hybrid.advance t1 s))
  /\ Hybrid.editor edited = Hybrid.edit (Hybrid.editor (Hybrid.advance t1 s)) e
  /\ Hybrid.currentNote edited = Hybrid.currentNote (Hybrid.advance t1 s)
  /\ is_some (Hybrid.currentNote (Hybrid.advance t1 s)) = true
  /\ Hybrid.summary_pending edited = [].
Proof.
  intros Hok Hq Hn Hnow He. cbv zeta.
  destruct (HybridAutosaveFacts.Hybrid_advance_keeps t1 s)
    as (Hok0 & Hsome0 & Hnow0).
  rewrite Z.max_l in Hnow0 by lia.
  destruct (@HybridAutosaveFacts.Hybrid_mutation_effect e (Hybrid.advance t1 s)
              He (Hok0 Hok))
    as (Hok1 & Hp1 & Hed1 & Hc1 & Hd1 & Hs1 & Hnow1 & Hq1).
  rewrite Hnow0 in *. conjuncts; auto.
  - apply Hsome0. now rewrite Hn.
  - now apply Hq1, HybridAutosaveFacts.Hybrid_advance_quiet.
Qed.

Lemma Hybrid_before_due s u t1 t2 :
  Hybrid.timers_ok s -> Hybrid.summary_pending s = [] ->
  Hybrid.autosave_pending s = [u] ->
  Timers.due u = t1 + 1000 -> Hybrid.now (Hybrid.env s) = t1 ->
  t1 <= t2 < t1 + 1000 ->
  Hybrid.timers_ok (Hybrid.advance t2 s)
  /\ Hybrid.now (Hybrid.env (Hybrid.advance t2 s)) = t2
  /\ Hybrid.saved (Hybrid.env (Hybrid.advance t2 s)) = Hybrid.saved (Hybrid.env s)
  /\ Hybrid.editor (Hybrid.advance t2 s) = Hybrid.editor s
  /\ Hybrid.currentNote (Hybrid.advance t2 s) = Hybrid.currentNote s
  /\ Hybrid.summary_pending (Hybrid.advance t2 s) = [].
Proof.
  intros Hok Hq Hp Hdue Hnow Ht.
  destruct (@HybridAutosaveFacts.Hybrid_advance_calm t2 s Hok Hq) as [Hv Hok'].
  { intros u0 Hu0. rewrite Hp in Hu0. destruct Hu0 as [<-|[]]. lia. }
  apply HybridAutosaveFacts.Hybrid_view_fields in Hv.
  destruct Hv as (Hed & Hc & Hd & Hs & _ & Hpend).
  pose proof (proj2 (proj2 (HybridAutosaveFacts.Hybrid_advance_keeps t2 s)))
    as Hnow'.
  rewrite Z.max_l in Hnow' by lia. conjuncts; auto.
  now apply HybridAutosaveFacts.Hybrid_advance_quiet.
Qed.

Lemma App_language_effect s n code :
  App.timers_ok s -> App.currentNote s = Some n ->
  let s' := App.dispatch (App.LanguageChange code) s in
  App.timers_ok s'
  /\ (exists u, App.autosave_pending s' = [u]
                /\ Timers.due u = App.now (App.env s) + 1000)
  /\ App.now (App.env s') = App.now (App.env s)
  /\ App.saved (App.env s') = App.saved (App.env s)
  /\ App.editor s' = App.editor s
  /\ App.currentNote s' = Some (App.with_language code n).
Proof.
  intros Hok Hn. cbv zeta. unfold App.dispatch. cbv zeta.
  change (App.currentNote (App.set_currentLanguage code s))
    with (App.currentNote s).
  rewrite Hn.
  match goal with
  | |- context [App.scheduleAutoSave ?x] =>
      assert (Hx : App.timers_ok x) by exact Hok;
      destruct (AutosaveFacts.scheduleAutoSave_effect Hx)
        as (H1 & H2 & H3 & H4 & _ & H6 & H7);
      rewrite H2, H3, H4, H6, H7
  end.
  split; [exact H1|]. split; [eexists; split; reflexivity|].
  conjuncts; reflexivity.
Qed.

Lemma Hybrid_or_string_empty (a : jsstring) : or_string a (js "") = a.
Proof. destruct a; reflexivity. Qed.

Lemma Hybrid_language_effect s n code :
  Hybrid.timers_ok s -> Hybrid.currentNote s = Some n ->
  let s' := Hybrid.dispatch (Hybrid.LanguageChange code) s in
  Hybrid.timers_ok s'
  /\ (exists u, Hybrid.autosave_pending s' = [u]
                /\ Timers.due u = Hybrid.now (Hybrid.env s) + 1000)
  /\ Hybrid.now (Hybrid.env s') = Hybrid.now (Hybrid.env s)
  /\ Hybrid.saved (Hybrid.env s') = Hybrid.saved (Hybrid.env s)
  /\ Hybrid.editor s' = (Hybrid.title n, Hybrid.text n)
  /\ Hybrid.currentNote s' = Some (Hybrid.with_language code n)
  /\ (Hybrid.summary_pending s = [] -> Hybrid.summary_pending s' = []).
Proof.
  intros Hok Hn. cbv zeta. unfold Hybrid.dispatch. cbv zeta.
  change (Hybrid.currentNote (Hybrid.set_currentLanguage code s))
    with (Hybrid.currentNote s).
  rewrite Hn.
  match goal with
  | |- context [Hybrid.showStatus ?m ?b ?x] =>
      destruct (HybridAutosaveFacts.Hybrid_showStatus_calm m b x)
        as (Hv & Hnow & Hok');
      pose proof (HybridAutosaveFacts.Hybrid_view_summary Hv) as Hsum;
      apply HybridAutosaveFacts.Hybrid_view_fields in Hv;
      destruct Hv as (Hed & Hc & _ & Hs & _ & Hp);
      rewrite Hed, Hc, Hs, Hp, Hnow, Hsum
  end.
  match goal with
  | |- context [Hybrid.scheduleAutoSave ?x] =>
      assert (Hx : Hybrid.timers_ok x)
        by (unfold Hybrid.updateEditor; simpl; exact Hok);
      destruct (HybridAutosaveFacts.Hybrid_scheduleAutoSave_effect Hx)
        as (H1 & H2 & H3 & H4 & _ & H6 & H7);
      pose proof (@HybridAutosaveFacts.Hybrid_scheduleAutoSave_quiet x) as H8;
      rewrite H2, H3, H4, H6, H7
  end.
  split; [exact (Hok' H1)|]. split; [eexists; split; reflexivity|].
  split; [reflexivity|]. split; [reflexivity|].
  split; [|split; [reflexivity|exact H8]].
  unfold Hybrid.updateEditor, Hybrid.editor. simpl.
  rewrite set_value_value, !Hybrid_or_string_empty. reflexivity.
Qed.

(** The steps after the edit, from any page as an edit leaves it. *)
Lemma App_language_core (typed : App.State) base opened v code t1 t2 T u :
  App.timers_ok typed ->
  App.autosave_pending typed = [u] -> Timers.due u = t1 + 1000 ->
  App.now (App.env typed) = t1 ->
  App.saved (App.env typed) = base ->
  Dom.value (App.noteTextArea (App.elements typed)) = v ->
  App.currentNote typed = Some opened ->
  t1 <= t2 < t1 + 1000 -> t2 + 1000 <= T ->
  let changed := App.dispatch (App.LanguageChange code) (App.advance t2 typed) in
  Dom.value (App.noteTextArea (App.elements changed)) = v
  /\ exists w,
       App.saved (App.env (App.advance T changed)) = base ++ [w]
       /\ App.text w = v /\ App.language w = code.
Proof.
  intros Hok1 Hp1 Hdue1 Hnow1 Hs1 Hv1 Hc1 Ht2 HT. cbv zeta.
  destruct (@EditingExtras.before_due typed u t1 t2 Hok1 Hp1 Hdue1 Hnow1 Ht2)
    as (Hok2 & _ & Hnow2 & Hs2 & _ & Hed2 & Hc2).
  assert (Hc : App.currentNote (App.advance t2 typed) = Some opened)
    by congruence.
  destruct (@App_language_effect _ opened code Hok2 Hc)
    as (Hok3 & (u3 & Hp3 & Hdue3) & Hnow3 & Hs3 & Hed3 & Hc3).
  assert (Hv : Dom.value (App.noteTextArea (App.elements
                 (App.dispatch (App.LanguageChange code) (App.advance t2 typed))))
               = v).
  { rewrite <- Hv1. rewrite Hed2 in Hed3. exact (f_equal snd Hed3). }
  split; [exact Hv|].
  destruct (@AutosaveFacts.advance_autosave T u3 _ _ Hok3 Hp3 Hc3)
    as (Hsaved & _); [rewrite Hdue3, Hnow3, Hnow2; lia|].
  eexists. split; [rewrite Hsaved, Hs3, Hs2, Hs1; reflexivity|].
  split; [exact Hv|reflexivity].
Qed.

Lemma Hybrid_language_core (typed : Hybrid.State) base opened code t1 t2 T u :
  Hybrid.timers_ok typed -> Hybrid.summary_pending typed = [] ->
  Hybrid.autosave_pending typed = [u] -> Timers.due u = t1 + 1000 ->
  Hybrid.now (Hybrid.env typed) = t1 ->
  Hybrid.saved (Hybrid.env typed) = base ->
  Hybrid.currentNote typed = Some opened ->
  t1 <= t2 < t1 + 1000 -> t2 + 1000 <= T ->
  let changed :=
    Hybrid.dispatch (Hybrid.LanguageChange code) (Hybrid.advance t2 typed) in
  Dom.value (Hybrid.noteTextArea (Hybrid.elements changed)) = Hybrid.text opened
  /\ exists w,
       Hybrid.saved (Hybrid.env (Hybrid.advance T changed)) = base ++ [w]
       /\ Hybrid.text w = Hybrid.text opened
       /\ Hybrid.language w = code.
Proof.
  intros Hok1 Hq1 Hp1 Hdue1 Hnow1 Hs1 Hc1 Ht2 HT. cbv zeta.
  destruct (@Hybrid_before_due typed u t1 t2 Hok1 Hq1 Hp1 Hdue1 Hnow1 Ht2)
    as (Hok2 & Hnow2 & Hs2 & Hed2 & Hc2 & Hq2).
  assert (Hc : Hybrid.currentNote (Hybrid.advance t2 typed) = Some opened)
    by congruence.
  destruct (@Hybrid_language_effect _ opened code Hok2 Hc)
    as (Hok3 & (u3 & Hp3 & Hdue3) & Hnow3 & Hs3 & Hed3 & Hc3 & Hq3).
  split; [exact (f_equal snd Hed3)|].
  destruct (@HybridAutosaveFacts.Hybrid_advance_autosave T u3 _ _ Hok3 (Hq3 Hq2)
              Hp3 Hc3)
    as (Hsaved & _); [rewrite Hdue3, Hnow3, Hnow2; lia|].
  eexists. split; [rewrite Hsaved, Hs3, Hs2, Hs1; reflexivity|].
  rewrite Hed3. split; reflexivity.
Qed.

(** X12.  The language is changed within a second of typing.  In
    [app.js] the typed text stays in the editor and is what the autosave
    then writes, with the new language.  In the hybrid script the change
    of language first puts the open note, as last saved or dictated, back
    into the editor: what was typed since is gone, and, while no summary
    is being generated, the one write that follows is the autosave's, of
    the older text.  (A summary under way saves on its own timer, with
    whatever the open note holds then.) *)
Theorem language_change_and_typed_text :
  (forall s n v caret code t1 t2 T,
      App.reachable s -> App.currentNote s = Some n ->
      App.now (App.env s) <= t1 -> t1 <= t2 < t1 + 1000 -> t2 + 1000 <= T ->
      let typed := App.dispatch (App.TextInput v caret) (App.advance t1 s) in
      let changed := App.dispatch (App.LanguageChange code) (App.advance t2 typed) in
      let after := App.advance T changed in
      Dom.value (App.noteTextArea (App.elements changed)) = v
      /\ exists w,
           App.saved (App.env after)
           = App.saved (App.env (App.advance t1 s)) ++ [w]
           /\ App.text w = v /\ App.language w = code)
  /\ (forall s n v caret code t1 t2 T,
      Hybrid.reachable s -> Hybrid.summary_pending s = [] ->
      Hybrid.currentNote s = Some n ->
      Hybrid.now (Hybrid.env s) <= t1 -> t1 <= t2 < t1 + 1000 ->
      t2 + 1000 <= T ->
      let typed := Hybrid.dispatch (Hybrid.TextInput v caret) (Hybrid.advance t1 s) in
      let changed :=
        Hybrid.dispatch (Hybrid.LanguageChange code) (Hybrid.advance t2 typed) in
      let after := Hybrid.advance T changed in
      exists opened,
        Hybrid.currentNote (Hybrid.advance t1 s) = Some opened
        /\ Dom.value (Hybrid.noteTextArea (Hybrid.elements typed)) = v
        /\ Dom.value (Hybrid.noteTextArea (Hybrid.elements changed))
           = Hybrid.text opened
        /\ exists w,
             Hybrid.saved (Hybrid.env after)
             = Hybrid.saved (Hybrid.env (Hybrid.advance t1 s)) ++ [w]
             /\ Hybrid.text w = Hybrid.text opened
             /\ Hybrid.language w = code).
Proof.
  split.
  - intros s n v caret code t1 t2 T Hreach Hn Hnow Ht2 HT. cbv zeta.
    pose proof (proj1 (ReachableFacts.reachable_invariant Hreach)) as Hok.
    destruct (@EditingExtras.after_edit s n t1 (App.TextInput v caret) Hok Hn
                Hnow eq_refl)
      as (Hok1 & (u & Hp1 & Hdue1) & Hnow1 & Hs1 & _ & Hed1 & Hc1 & Hsome).
    destruct (App.currentNote (App.advance t1 s)) as [opened|];
      [|discriminate].
    apply (@App_language_core _ _ opened v code t1 t2 T u Hok1 Hp1 Hdue1 Hnow1
             Hs1 (f_equal snd Hed1) Hc1 Ht2 HT).
  - intros s n v caret code t1 t2 T Hreach Hq Hn Hnow Ht2 HT. cbv zeta.
    pose proof (HybridReachableFacts.Hybrid_reachable_ok Hreach) as Hok.
    destruct (@Hybrid_after_edit s n t1 (Hybrid.TextInput v caret) Hok Hq Hn
                Hnow eq_refl)
      as (Hok1 & (u & Hp1 & Hdue1) & Hnow1 & Hs1 & Hed1 & Hc1 & Hsome & Hq1).
    destruct (Hybrid.currentNote (Hybrid.advance t1 s)) as [opened|];
      [|discriminate].
    exists opened. split; [reflexivity|].
    split; [exact (f_equal snd Hed1)|].
    apply (@Hybrid_language_core _ _ opened code t1 t2 T u Hok1 Hq1 Hp1 Hdue1
             Hnow1 Hs1 Hc1 Ht2 HT).
Qed.

(** "hello" typed at 0 ms into the fresh note of the hybrid script, the
    language set to Hindi at 400 ms: the editor is empty again, and the
    save at 1400 ms writes an empty text. *)
Lemma language_change_and_typed_text_witness :
  Dom.value (Hybrid.noteTextArea (Hybrid.elements
    (Hybrid.dispatch (Hybrid.LanguageChange (js "hi"))
       (Hybrid.advance 400
          (Hybrid.dispatch (Hybrid.TextInput (js "hello") 5)
             (Hybrid.advance 0 (Hybrid.initial true true)))))))
  = [].
Proof.
  destruct (proj2 language_change_and_typed_text (Hybrid.initial true true)
              (Hybrid.mkNote None (js "") (js "") None (js "en") 0 [])
              (js "hello") 5%nat (js "hi") 0 400 1400)
    as (opened & Hopen & _ & Hvalue & _).
  - exact (Hybrid.reach_initialize IDB.empty 0 true true).
  - vm_compute. reflexivity.
  - vm_compute. reflexivity.
  - vm_compute. discriminate.
  - lia.
  - lia.
  - assert (Hsome : Some opened
                    = Some (Hybrid.mkNote None (js "") (js "") None (js "en") 0 []))
      by (rewrite <- Hopen; vm_compute; reflexivity).
    injection Hsome as ->. exact Hvalue.
Defined.

End LanguageExtras.
(* ------------------------------------------------------------------ *)
(** ** Dates and the theme switch *)

Module DatesExtras.

Import Dates.
Local Open Scope Z_scope.

Lemma ceil_div_bounds a b : 0 < b ->
  (ceil_div a b - 1) * b < a <= ceil_div a b * b.
Proof.
  intros Hb. unfold ceil_div.
  pose proof (Z.mul_div_le (- a) b Hb).
  pose proof (Z.mul_succ_div_gt (- a) b Hb). nia.
Qed.

Lemma ceil_div_unique a b q : 0 < b ->
  (q - 1) * b < a <= q * b -> ceil_div a b = q.
Proof.
  intros Hb Hq. pose proof (ceil_div_bounds a Hb). nia.
Qed.

(** X13.  [formatDate] looks only at how far the time is from now, in
    either direction.  No distance at all gives "-1 days ago"; up to one
    day gives "Today", up to two days "Yesterday", up to seven days the
    number of whole days begun, less one, before " days ago"; anything
    further away is left to the locale. *)
Theorem formatDate_labels (now t : Z) :
  valid t = true ->
  let d := Z.abs (now - t) in
  (d = 0 -> formatDate now t = Text (js "-1 days ago"))
  /\ (0 < d <= ms_per_day -> formatDate now t = Text (js "Today"))
  /\ (ms_per_day < d <= 2 * ms_per_day ->
      formatDate now t = Text (js "Yesterday"))
  /\ (forall k, 2 <= k <= 6 -> k * ms_per_day < d <= (k + 1) * ms_per_day ->
      formatDate now t = Text (JSON.number_to_string k ++ js " days ago"))
  /\ (7 * ms_per_day < d -> formatDate now t = LocaleDate t).
Proof.
  intros Hvalid. cbv zeta. unfold formatDate. rewrite Hvalid. cbn [negb].
  cbv zeta.
  assert (Hday : 0 < ms_per_day) by (unfold ms_per_day; lia).
  set (d := Z.abs (now - t)).
  pose proof (ceil_div_bounds d Hday) as Hb.
  split; [|split; [|split; [|split]]].
  - intros Hd. rewrite Hd.
    assert (ceil_div 0 ms_per_day = 0) as -> by (apply ceil_div_unique; lia).
    reflexivity.
  - intros Hd.
    assert (ceil_div d ms_per_day = 1) as -> by (apply ceil_div_unique; lia).
    reflexivity.
  - intros Hd.
    assert (ceil_div d ms_per_day = 2) as -> by (apply ceil_div_unique; lia).
    reflexivity.
  - intros k Hk Hd.
    assert (ceil_div d ms_per_day = k + 1) as ->
      by (apply ceil_div_unique; [exact Hday|]; replace (k + 1 - 1) with k by lia;
          exact Hd).
    assert ((k + 1 =? 1) = false) as -> by (apply Z.eqb_neq; lia).
    assert ((k + 1 =? 2) = false) as -> by (apply Z.eqb_neq; lia).
    assert ((k + 1 <=? 7) = true) as -> by (apply Z.leb_le; lia).
    replace (k + 1 - 1) with k by lia. reflexivity.
  - intros Hd.
    assert (Hc : 7 < ceil_div d ms_per_day) by nia.
    assert ((ceil_div d ms_per_day =? 1) = false) as -> by (apply Z.eqb_neq; lia).
    assert ((ceil_div d ms_per_day =? 2) = false) as -> by (apply Z.eqb_neq; lia).
    assert ((ceil_div d ms_per_day <=? 7) = false) as -> by (apply Z.leb_gt; lia).
    reflexivity.
Qed.

(** A note stamped with the reading of the clock that is also "now". *)
Lemma formatDate_labels_witness :
  formatDate 1700000000000 1700000000000 = Text (js "-1 days ago").
Proof.
  apply (formatDate_labels 1700000000000 1700000000000).
  - reflexivity.
  - reflexivity.
Defined.

End DatesExtras.

Module ThemeExtras.

Import Theme.

(** X14.  After the switch has been used once the theme is "dark" or
    "light", the stored theme is the theme shown, a reload of the page
    brings back that theme and its glyph, and two more uses of the switch
    come back to the same page. *)
Theorem theme_survives_reload (served p : page) :
  let toggled := toggleTheme p in
  (data_theme toggled = Some (js "dark")
   \/ data_theme toggled = Some (js "light"))
  /\ stored toggled = data_theme toggled
  /\ data_theme (reload served toggled) = data_theme toggled
  /\ themeToggle (reload served toggled) = themeToggle toggled
  /\ toggleTheme (toggleTheme toggled) = toggled.
Proof.
  cbv zeta. unfold reload, restoreTheme, toggleTheme. simpl.
  destruct (data_theme p) as [t|]; [destruct (eqb_string t (js "dark"))|];
    simpl; repeat split; auto.
Qed.

End ThemeExtras.
(* ------------------------------------------------------------------ *)
(** ** The recording machine of [app.js] *)

Module RecordingExtras.

Import TimersFacts JSFacts App.
Local Open Scope Z_scope.

(** *** Handlers that leave the recording machine alone *)

Lemma showStatus_rv m b s : recording_view (showStatus m b s) = recording_view s.
Proof. reflexivity. Qed.

Lemma scheduleAutoSave_rv s : recording_view (scheduleAutoSave s) = recording_view s.
Proof.
  unfold scheduleAutoSave, setTimeout, clearTimeout. simpl.
  destruct (saveTimeout s); reflexivity.
Qed.

Lemma updateEditor_rv s : recording_view (updateEditor s) = recording_view s.
Proof. unfold updateEditor. destruct (currentNote s); reflexivity. Qed.

Lemma createNewNote_rv s : recording_view (createNewNote s) = recording_view s.
Proof. unfold createNewNote. now rewrite updateEditor_rv. Qed.

Lemma openFirst_rv s : recording_view (openFirst s) = recording_view s.
Proof.
  unfold openFirst. destruct (getAllNotes (db s)).
  - apply createNewNote_rv.
  - now rewrite updateEditor_rv.
Qed.

Lemma autoSave_rv s : recording_view (autoSave s) = recording_view s.
Proof.
  unfold autoSave. destruct (currentNote s) as [n|]; [|reflexivity].
  cbv zeta. simpl. destruct (saveNote _ (db s)) as [[k|e] d']; simpl.
  - destruct (truthy_id (id n)); reflexivity.
  - reflexivity.
Qed.

Lemma insertTranscript_rv t s :
  recording_view (insertTranscript t s) = recording_view s.
Proof.
  unfold insertTranscript. destruct (currentNote s); [|reflexivity].
  cbv zeta. now rewrite scheduleAutoSave_rv.
Qed.

Lemma handleMobileResults_rv ev s :
  recording_view (handleMobileResults ev s) = recording_view s.
Proof.
  unfold handleMobileResults. generalize (Engine.results ev). intros rs.
  revert s. induction rs as [|r rs IH]; simpl; intros s; [reflexivity|].
  rewrite IH. destruct (Engine.isFinal r); [|reflexivity].
  destruct (_ && _); [apply insertTranscript_rv|reflexivity].
Qed.

Lemma handleDesktopResults_rv ev s :
  recording_view (handleDesktopResults ev s) = recording_view s.
Proof.
  unfold handleDesktopResults.
  set (s0 := if (lastFinalizedLength s <? List.length (finalText ev))%nat
             then _ else s).
  assert (H0 : recording_view s0 = recording_view s).
  { subst s0. destruct (_ <? _)%nat; [|reflexivity]. cbv zeta.
    destruct (_ && _); [|reflexivity].
    change (recording_view (insertTranscript
              (trim (substring (finalText ev) (lastFinalizedLength s) None)) s)
            = recording_view s).
    apply insertTranscript_rv. }
  clearbody s0. destruct (truthy_string (interimText ev)); [|exact H0].
  rewrite <- H0. reflexivity.
Qed.

Lemma confirmDelete_rv s : recording_view (confirmDelete s) = recording_view s.
Proof.
  unfold confirmDelete. destruct (currentNote s) as [n|]; [|reflexivity].
  destruct (id n) as [k|]; [|reflexivity].
  destruct (negb (truthy_id (Some k))); [reflexivity|].
  destruct (deleteNote k (db s)) as [[u|e] d']; [|reflexivity].
  cbv zeta. now rewrite openFirst_rv.
Qed.

Lemma onListDelete_rv k c s :
  recording_view (onListDelete k c s) = recording_view s.
Proof.
  unfold onListDelete. destruct (getNote k (db s)); [|reflexivity].
  destruct c; [|reflexivity].
  destruct (deleteNote k (db s)) as [[u|e] d']; [|reflexivity].
  cbv zeta.
  destruct (currentNote _) as [cur|]; [|reflexivity].
  destruct (id cur) as [k'|]; [|reflexivity].
  destruct (k' =? k); [|reflexivity].
  now rewrite openFirst_rv.
Qed.

(** The events that are not about recording. *)
Lemma editing_events_rv e s :
  match e with
  | TitleInput _ | TextInput _ _ | NewNoteClick | KeySave | DeleteClick
  | ConfirmDeleteClick | ListDeleteClick _ _ | ListSelectClick _
  | ExportClick | EngineResult _ =>
      recording_view (dispatch e s) = recording_view s
  | LanguageChange _ =>
      recording_view (dispatch e s) = recording_view s
  | _ => True
  end.
Proof.
  destruct e; try exact I; unfold dispatch.
  - now rewrite scheduleAutoSave_rv.
  - now rewrite scheduleAutoSave_rv.
  - apply createNewNote_rv.
  - cbv zeta. change (currentNote (set_currentLanguage code s)) with (currentNote s).
    destruct (currentNote s); [now rewrite scheduleAutoSave_rv|reflexivity].
  - apply autoSave_rv.
  - unfold onresult. destruct (isMobileDevice s);
      [apply handleMobileResults_rv|apply handleDesktopResults_rv].
  - unfold showDeleteConfirmation. destruct (currentNote s) as [n|];
      [destruct (truthy_id (id n))|]; reflexivity.
  - apply confirmDelete_rv.
  - apply onListDelete_rv.
  - unfold onListSelect. now rewrite updateEditor_rv.
  - unfold exportNotes. cbv zeta. destruct (getAllNotes (db s)); reflexivity.
Qed.

(** *** A recogniser exists while the page records *)

Lemma rv_has_recognizer s s' :
  recording_view s' = recording_view s -> has_recognizer s -> has_recognizer s'.
Proof.
  unfold recording_view, has_recognizer. intros [= -> _ -> _ _ _ _]. auto.
Qed.

Lemma stopped_has_recognizer s : isRecording s = false -> has_recognizer s.
Proof. unfold has_recognizer. intros ->. discriminate. Qed.

Lemma stopRecording_has_recognizer s : has_recognizer (stopRecording s).
Proof. apply stopped_has_recognizer, RecordingFacts.App_stopRecording_stops. Qed.

Lemma safeStartRecognition_has_recognizer s :
  has_recognizer s -> has_recognizer (safeStartRecognition s).
Proof.
  intros Hs. unfold safeStartRecognition.
  destruct (isRecognitionStarting s || negb (isRecording s)); [exact Hs|].
  destruct (recognition s) as [r|] eqn:Hr; [|exact Hs].
  cbv zeta.
  change (engine (env (set_isRecognitionStarting true s))) with (engine (env s)).
  destruct (Engine.start (engine (env s))) as [[u|[|]] e].
  - unfold has_recognizer. simpl. now rewrite Hr.
  - unfold has_recognizer, setTimeout. simpl. now rewrite Hr.
  - eapply rv_has_recognizer; [apply showStatus_rv|].
    apply stopRecording_has_recognizer.
Qed.

Lemma startRecording_has_recognizer s :
  has_recognizer s -> has_recognizer (startRecording s).
Proof.
  intros Hs. unfold startRecording.
  set (s0 := match currentNote s with None => createNewNote s | Some _ => s end).
  assert (H0 : has_recognizer s0).
  { subst s0. destruct (currentNote s); [exact Hs|].
    eapply rv_has_recognizer; [apply createNewNote_rv|exact Hs]. }
  clearbody s0. clear s Hs.
  destruct (isRecording s0 || isRecognitionStarting s0); [exact H0|].
  destruct (negb (checkInternetConnection s0));
    [eapply rv_has_recognizer; [apply showStatus_rv|exact H0]|].
  set (s1 := match recognition s0 with
             | None => initSpeechRecognition s0
             | Some _ => s0
             end).
  destruct (recognition s1) as [r|];
    [|eapply rv_has_recognizer; [apply showStatus_rv|]].
  - cbv zeta. eapply rv_has_recognizer; [apply showStatus_rv|].
    apply safeStartRecognition_has_recognizer.
    unfold has_recognizer. reflexivity.
  - subst s1. destruct (recognition s0); [exact H0|].
    unfold initSpeechRecognition.
    destruct (negb (speechSupported (env s0))); [exact H0|].
    unfold has_recognizer. reflexivity.
Qed.

Lemma onerror_has_recognizer c s :
  has_recognizer s -> has_recognizer (onerror c s).
Proof.
  intros Hs. unfold onerror. cbv zeta.
  assert (H0 : has_recognizer (set_isRecognitionStarting false s)) by exact Hs.
  destruct c; try exact H0.
  - eapply rv_has_recognizer; [apply showStatus_rv|].
    apply stopRecording_has_recognizer.
  - destruct (isMobileDevice _); [|exact H0].
    destruct (isRecording _); exact H0.
  - eapply rv_has_recognizer; [apply showStatus_rv|].
    apply stopRecording_has_recognizer.
  - destruct (isMobileDevice _ && isRecording _); exact H0.
Qed.

Lemma dispatch_has_recognizer e s :
  has_recognizer s -> has_recognizer (dispatch e s).
Proof.
  intros Hs. pose proof (editing_events_rv e s) as Hrv.
  destruct e; try (eapply rv_has_recognizer; [exact Hrv|exact Hs]);
    unfold dispatch.
  - cbv zeta.
    set (s0 := match currentNote s with None => createNewNote s | Some _ => s end).
    assert (H0 : has_recognizer s0).
    { subst s0. destruct (currentNote s); [exact Hs|].
      eapply rv_has_recognizer; [apply createNewNote_rv|exact Hs]. }
    destruct (isRecording s0);
      [apply stopRecording_has_recognizer
      |now apply startRecording_has_recognizer].
  - destruct (isRecording s); [apply stopRecording_has_recognizer|exact Hs].
  - exact Hs.
  - cbv zeta. destruct (isRecording _); [apply stopRecording_has_recognizer|].
    exact Hs.
  - exact Hs.
  - now apply onerror_has_recognizer.
  - unfold onend. cbv zeta. destruct (isRecording _); exact Hs.
Qed.

Lemma run_callback_has_recognizer c s :
  has_recognizer s -> has_recognizer (run_callback c s).
Proof.
  intros Hs. destruct c; simpl.
  - eapply rv_has_recognizer; [apply autoSave_rv|exact Hs].
  - now apply safeStartRecognition_has_recognizer.
  - destruct (isRecording s);
      [now apply safeStartRecognition_has_recognizer|exact Hs].
  - exact Hs.
Qed.

Lemma advance_has_recognizer t s :
  has_recognizer s -> has_recognizer (advance t s).
Proof.
  intros Hs. rewrite AutosaveFacts.advance_fires.
  set (s0 := on_env (set_now (Z.max t (now (env s)))) s).
  assert (H0 : has_recognizer s0) by exact Hs.
  clearbody s0.
  generalize (Timers.due_handles (Z.max t (now (env s))) (timers (env s))).
  intros hs. revert s0 H0. induction hs as [|h hs IH]; simpl; intros s0 H0;
    [exact H0|].
  apply IH. unfold fire. destruct (Timers.find h _); [|exact H0].
  apply run_callback_has_recognizer. exact H0.
Qed.

Lemma reachable_has_recognizer s : reachable s -> has_recognizer s.
Proof.
  induction 1 as [d t0 m o sp | e s _ IH | t s _ IH | f s _ IH];
    [| | |exact IH].
  - apply stopped_has_recognizer.
    unfold initialize. cbv zeta.
    change (isRecording (openFirst
              (mkState d None false None 0 false (js "en") None m
                 (mkElements (js "") (Dom.mkTextarea (js "") 0) StatusBlank None
                             false (js ""))
                 (mkEnv t0 o sp Timers.empty Engine.idle []))) = false).
    pose proof (openFirst_rv
                  (mkState d None false None 0 false (js "en") None m
                     (mkElements (js "") (Dom.mkTextarea (js "") 0) StatusBlank
                                 None false (js ""))
                     (mkEnv t0 o sp Timers.empty Engine.idle []))) as Hrv.
    unfold recording_view in Hrv. now injection Hrv.
  - now apply dispatch_has_recognizer.
  - now apply advance_has_recognizer.
Qed.

(** X15.  On every page the script can reach: the starting flag is up
    only while the page records; while it records there is a recogniser;
    and Escape then stops the page with exactly one [stop()] call on the
    engine. *)
Theorem recording_flags_consistent (s : State) :
  reachable s ->
  (isRecognitionStarting s = true -> isRecording s = true)
  /\ (isRecording s = true -> is_some (recognition s) = true)
  /\ (isRecording s = true ->
      isRecording (dispatch KeyEscape s) = false
      /\ isRecognitionStarting (dispatch KeyEscape s) = false
      /\ Engine.calls (engine (env (dispatch KeyEscape s)))
         = Engine.calls (engine (env s)) ++ [Engine.CallStop]).
Proof.
  intros Hreach.
  destruct (ReachableFacts.reachable_invariant Hreach) as [_ Hflags].
  pose proof (reachable_has_recognizer Hreach) as Hrec.
  split; [exact Hflags|]. split; [exact Hrec|].
  intros Hr. specialize (Hrec Hr). unfold dispatch, stopRecording.
  rewrite Hr. cbn [negb]. cbv zeta.
  change (recognition (set_isRecognitionStarting false (set_isRecording false s)))
    with (recognition s).
  destruct (recognition s); [|discriminate]. repeat split.
Qed.

(** Recording on the fresh page, then Escape: start and stop. *)
Lemma recording_flags_consistent_witness :
  Engine.calls (engine (env (dispatch KeyEscape
                               (dispatch RecordClick (initial false true true)))))
  = [Engine.CallStart; Engine.CallStop].
Proof.
  destruct (@recording_flags_consistent
              (dispatch RecordClick (initial false true true)))
    as (_ & _ & Hstop).
  - apply reach_event. exact (reach_initialize IDB.empty 0 false true true).
  - destruct Hstop as (_ & _ & Hcalls); [vm_compute; reflexivity|].
    rewrite Hcalls. vm_compute. reflexivity.
Defined.

(** *** Off line *)

Lemma rv_silent s s' :
  recording_view s' = recording_view s -> silent s ->
  silent s' /\ engine (env s') = engine (env s).
Proof.
  unfold recording_view, silent. intros [= -> _ _ _ -> _ ->]. auto.
Qed.

Lemma startRecording_silent s :
  silent s ->
  silent (startRecording s)
  /\ engine (env (startRecording s)) = engine (env s).
Proof.
  intros Hs. unfold startRecording.
  set (s0 := match currentNote s with None => createNewNote s | Some _ => s end).
  assert (H0 : silent s0 /\ engine (env s0) = engine (env s)).
  { subst s0. destruct (currentNote s); [auto|].
    apply rv_silent; [apply createNewNote_rv|exact Hs]. }
  clearbody s0. destruct H0 as [[Hoff Hstop] He].
  destruct (isRecording s0 || isRecognitionStarting s0);
    [split; [split|]; assumption|].
  unfold checkInternetConnection. rewrite Hoff. cbn [negb].
  rewrite <- He. apply rv_silent; [apply showStatus_rv|split; assumption].
Qed.

Lemma onerror_silent c s :
  silent s ->
  silent (onerror c s) /\ engine (env (onerror c s)) = engine (env s).
Proof.
  intros [Hoff Hstop]. unfold onerror. cbv zeta.
  assert (Hstopped : stopRecording (set_isRecognitionStarting false s)
                     = set_isRecognitionStarting false s).
  { unfold stopRecording. simpl. now rewrite Hstop. }
  assert (H0 : silent (set_isRecognitionStarting false s)
               /\ engine (env (set_isRecognitionStarting false s))
                  = engine (env s)) by (split; [split|]; auto).
  destruct c; try exact H0.
  - rewrite Hstopped. exact H0.
  - simpl. rewrite Hstop. destruct (isMobileDevice s); exact H0.
  - rewrite Hstopped. exact H0.
  - simpl. rewrite Hstop, andb_false_r. exact H0.
Qed.

Lemma dispatch_silent e s :
  silent s -> e <> WentOnline ->
  silent (dispatch e s)
  /\ Engine.calls (engine (env (dispatch e s))) = Engine.calls (engine (env s)).
Proof.
  intros Hs He. pose proof (editing_events_rv e s) as Hrv.
  assert (Hframe : recording_view (dispatch e s) = recording_view s ->
                   silent (dispatch e s)
                   /\ Engine.calls (engine (env (dispatch e s)))
                      = Engine.calls (engine (env s))).
  { intros H. destruct (rv_silent H Hs) as [H1 H2]. now rewrite H2. }
  destruct e; try (apply Hframe; exact Hrv); try congruence; unfold dispatch.
  - cbv zeta.
    set (s0 := match currentNote s with None => createNewNote s | Some _ => s end).
    assert (H0 : silent s0 /\ engine (env s0) = engine (env s)).
    { subst s0. destruct (currentNote s); [auto|].
      apply rv_silent; [apply createNewNote_rv|exact Hs]. }
    clearbody s0. destruct H0 as [H0 He0].
    rewrite (proj2 H0).
    destruct (startRecording_silent H0) as [H1 H2]. now rewrite H2, He0.
  - destruct Hs as [Hoff Hstop]. rewrite Hstop. repeat split; auto.
  - destruct Hs as [Hoff Hstop]. cbv zeta.
    change (isRecording (showStatus MsgOfflineEvent true
                           (on_env (set_onLine false) s)))
      with (isRecording s).
    rewrite Hstop. repeat split; auto.
  - destruct Hs as [Hoff Hstop]. repeat split; auto.
  - destruct (onerror_silent c Hs) as [H1 H2]. now rewrite H2.
  - destruct Hs as [Hoff Hstop]. unfold onend. cbv zeta. simpl.
    rewrite Hstop. repeat split; auto.
Qed.

Lemma run_callback_silent c s :
  silent s ->
  silent (run_callback c s)
  /\ engine (env (run_callback c s)) = engine (env s).
Proof.
  intros Hs. destruct c; simpl.
  - apply rv_silent; [apply autoSave_rv|exact Hs].
  - destruct Hs as [Hoff Hstop]. unfold safeStartRecognition.
    rewrite Hstop, orb_true_r. repeat split; auto.
  - destruct Hs as [Hoff Hstop]. rewrite Hstop. repeat split; auto.
  - destruct Hs as [Hoff Hstop]. repeat split; auto.
Qed.

Lemma advance_silent t s :
  silent s ->
  silent (advance t s) /\ engine (env (advance t s)) = engine (env s).
Proof.
  intros Hs. rewrite AutosaveFacts.advance_fires.
  set (s0 := on_env (set_now (Z.max t (now (env s)))) s).
  assert (H0 : silent s0 /\ engine (env s0) = engine (env s))
    by (destruct Hs; split; [split|]; auto).
  clearbody s0.
  generalize (Timers.due_handles (Z.max t (now (env s))) (timers (env s))).
  intros hs. revert s0 H0. induction hs as [|h hs IH]; simpl; intros s0 H0;
    [exact H0|].
  apply IH. unfold fire. destruct (Timers.find h _) as [u|]; [|exact H0].
  destruct H0 as [H0 He0].
  assert (H1 : silent (clearTimeout h s0)) by exact H0.
  destruct (run_callback_silent (Timers.callback u) H1) as [H2 He2].
  split; [exact H2|]. rewrite He2. exact He0.
Qed.

(** X16.  After the [offline] event the page is off line and not
    recording.  From there, whatever the user, the engine and the timers
    do, the engine gets no call and the page does not record, until the
    [online] event comes. *)
Theorem offline_page_is_silent :
  (forall s, silent (dispatch WentOffline s))
  /\ (forall s evs,
      silent s -> Forall (fun te => snd te <> WentOnline) evs ->
      silent (run_timed evs s)
      /\ Engine.calls (engine (env (run_timed evs s)))
         = Engine.calls (engine (env s))).
Proof.
  split.
  - intros s. unfold dispatch. cbv zeta.
    destruct (isRecording _) eqn:Hr.
    + split; [|apply RecordingFacts.App_stopRecording_stops].
      pose proof (RecordingFacts.App_stopRecording_stops
                    (showStatus MsgOfflineEvent true
                       (on_env (set_onLine false) s))) as Hstop.
      unfold stopRecording in *. rewrite Hr in *. cbn [negb] in *.
      cbv zeta in *. simpl. destruct (recognition s); reflexivity.
    + split; [reflexivity|exact Hr].
  - intros s evs. revert s.
    induction evs as [|[t e] evs IH]; intros s Hs Hall; [auto|].
    inversion Hall as [|? ? He Hall']; subst. simpl in He.
    change (run_timed ((t, e) :: evs) s)
      with (run_timed evs (dispatch e (advance t s))).
    destruct (advance_silent t Hs) as [H1 He1].
    destruct (dispatch_silent H1 He) as [H2 He2].
    destruct (IH _ H2 Hall') as [H3 He3].
    split; [exact H3|]. rewrite He3, He2, He1. reflexivity.
Qed.

(** The page is loaded off line; the record button, an engine event and
    a second click reach no engine. *)
Lemma offline_page_is_silent_witness :
  Engine.calls
    (engine (env (run_timed [(0, RecordClick); (50, EngineEnded);
                             (4000, RecordClick)]
                            (initial false false true))))
  = [].
Proof.
  destruct (proj2 offline_page_is_silent (initial false false true)
              [(0, RecordClick); (50, EngineEnded); (4000, RecordClick)])
    as [_ Hcalls].
  - split; reflexivity.
  - repeat constructor; discriminate.
  - exact Hcalls.
Defined.

(** *** The record button *)

Lemma startRecording_starts s :
  isRecording s = false -> isRecognitionStarting s = false ->
  onLine (env s) = true -> speechSupported (env s) = true ->
  isRecording (startRecording s) = true
  /\ is_some (recognition (startRecording s)) = true
  /\ is_some (currentNote (startRecording s)) = true
  /\ Engine.calls (engine (env (startRecording s)))
     = Engine.calls (engine (env s)) ++ [Engine.CallStart]
  /\ statusMessage (elements (startRecording s)) = Some (MsgRecording, false).
Proof.
  intros Hr Hst Hon Hsup. unfold startRecording.
  set (s0 := match currentNote s with None => createNewNote s | Some _ => s end).
  assert (H0 : recording_view s0 = recording_view s
               /\ is_some (currentNote s0) = true).
  { subst s0. destruct (currentNote s) eqn:Hc.
    - split; [reflexivity|now rewrite Hc].
    - split; [apply createNewNote_rv|reflexivity]. }
  clearbody s0. destruct H0 as [H0 Hc0]. unfold recording_view in H0.
  injection H0 as Hr0 Hst0 Hrec0 _ Hon0 Hsup0 He0.
  rewrite Hr0, Hst0, Hr, Hst. cbn [orb].
  unfold checkInternetConnection. rewrite Hon0, Hon. cbn [negb].
  assert (Hinit : exists r s1,
             match recognition s0 with
             | None => initSpeechRecognition s0
             | Some _ => s0
             end = s1
             /\ recognition s1 = Some r
             /\ engine (env s1) = engine (env s0)
             /\ currentNote s1 = currentNote s0
             /\ isRecognitionStarting s1 = isRecognitionStarting s0).
  { destruct (recognition s0) as [r|] eqn:Hrec.
    - exists r, s0. auto.
    - unfold initSpeechRecognition. rewrite Hsup0, Hsup. cbn [negb].
      eexists. eexists. split; [reflexivity|]. repeat split. }
  destruct Hinit as (r & s1 & -> & Hrec1 & He1 & Hc1 & Hst1). rewrite Hrec1.
  cbv zeta.
  assert (Hs1 : isRecognitionStarting s1 = false) by congruence.
  assert (Hcalls : Engine.calls (engine (env s1)) = Engine.calls (engine (env s)))
    by congruence.
  assert (Hnote : is_some (currentNote s1) = true) by congruence.
  generalize (recognition_lang (currentLanguage s1)). intros l.
  unfold safeStartRecognition. simpl. rewrite Hs1. simpl.
  unfold Engine.start. destruct (Engine.started (engine (env s1))); simpl;
    rewrite Hcalls; repeat split; exact Hnote.
Qed.

Lemma stopRecording_stops_engine s r :
  isRecording s = true -> recognition s = Some r ->
  isRecording (stopRecording s) = false
  /\ Engine.calls (engine (env (stopRecording s)))
     = Engine.calls (engine (env s)) ++ [Engine.CallStop]
  /\ statusMessage (elements (stopRecording s)) = Some (MsgStopped, false).
Proof.
  intros Hr Hrec. unfold stopRecording. rewrite Hr. cbn [negb]. cbv zeta.
  change (recognition (set_isRecognitionStarting false (set_isRecording false s)))
    with (recognition s).
  rewrite Hrec. repeat split.
Qed.

(** X17.  On a page that is stopped, on line and has a speech engine, the
    record button starts recording with one [start()] call and shows
    "Recording"; pressed again it stops with one [stop()] call and shows
    "Stopped". *)
Theorem record_button_toggles (s : State) :
  reachable s -> isRecording s = false ->
  onLine (env s) = true -> speechSupported (env s) = true ->
  let on := dispatch RecordClick s in
  let off := dispatch RecordClick on in
  isRecording on = true
  /\ Engine.calls (engine (env on))
     = Engine.calls (engine (env s)) ++ [Engine.CallStart]
  /\ statusMessage (elements on) = Some (MsgRecording, false)
  /\ isRecording off = false
  /\ Engine.calls (engine (env off))
     = (Engine.calls (engine (env s)) ++ [Engine.CallStart])
       ++ [Engine.CallStop]
  /\ statusMessage (elements off) = Some (MsgStopped, false).
Proof.
  intros Hreach Hr Hon Hsup. cbv zeta.
  assert (Hst : isRecognitionStarting s = false).
  { destruct (ReachableFacts.reachable_invariant Hreach) as [_ Hfl].
    destruct (isRecognitionStarting s); [|reflexivity].
    rewrite Hfl in Hr by reflexivity. discriminate. }
  assert (Hon1 : exists s0,
             dispatch RecordClick s = startRecording s0
             /\ recording_view s0 = recording_view s).
  { unfold dispatch. cbv zeta.
    set (s0 := match currentNote s with None => createNewNote s | Some _ => s end).
    assert (H0 : recording_view s0 = recording_view s)
      by (subst s0; destruct (currentNote s);
          [reflexivity|apply createNewNote_rv]).
    exists s0. split; [|exact H0].
    unfold recording_view in H0. injection H0 as -> _ _ _ _ _ _.
    now rewrite Hr. }
  destruct Hon1 as (s0 & -> & H0).
  unfold recording_view in H0. injection H0 as Hr0 Hst0 _ _ Hon0 Hsup0 He0.
  destruct (@startRecording_starts s0) as (H1 & H2 & H3 & H4 & H5);
    try congruence.
  rewrite He0 in H4.
  generalize dependent (startRecording s0). intros on H1 H2 H3 H4 H5.
  split; [exact H1|]. split; [exact H4|]. split; [exact H5|].
  assert (Hoff : dispatch RecordClick on = stopRecording on).
  { unfold dispatch. cbv zeta.
    destruct (currentNote on); [|discriminate]. now rewrite H1. }
  rewrite Hoff. destruct (recognition on) as [r|] eqn:Hrec; [|discriminate].
  destruct (stopRecording_stops_engine on H1 Hrec) as (G1 & G2 & G3).
  rewrite G2, H4. auto.
Qed.

Lemma record_button_toggles_witness :
  Engine.calls
    (engine (env (dispatch RecordClick
                    (dispatch RecordClick (initial false true true)))))
  = [Engine.CallStart; Engine.CallStop].
Proof.
  destruct (@record_button_toggles (initial false true true))
    as (_ & _ & _ & _ & Hcalls & _).
  - exact (reach_initialize IDB.empty 0 false true true).
  - reflexivity.
  - reflexivity.
  - reflexivity.
  - exact Hcalls.
Defined.

(** *** Errors of the recogniser *)

(** X18.  A [network] or [not-allowed] error stops the page and shows an
    error message, and however often the loop wakes up afterwards the page
    stays stopped and the engine gets no further call.  Any other error
    leaves the recording flag and the engine as they were, and on a
    desktop it schedules nothing. *)
Theorem recogniser_errors (s : State) (c : Engine.error_code) :
  isRecognitionStarting (onerror c s) = false
  /\ match c with
     | Engine.ErrNetwork | Engine.ErrNotAllowed =>
         isRecording (onerror c s) = false
         /\ statusMessage (elements (onerror c s))
            = Some (match c with
                    | Engine.ErrNetwork => MsgNetworkError
                    | _ => MsgMicDenied
                    end, true)
         /\ forall wakeups : list Z,
              let later :=
                fold_left (fun s t => advance t s) wakeups (onerror c s) in
              isRecording later = false
              /\ Engine.calls (engine (env later))
                 = Engine.calls (engine (env (onerror c s)))
     | _ =>
         isRecording (onerror c s) = isRecording s
         /\ engine (env (onerror c s)) = engine (env s)
         /\ (isMobileDevice s = false ->
             timers (env (onerror c s)) = timers (env s))
     end.
Proof.
  assert (Hlater : forall s0 : State, isRecording s0 = false ->
            forall wakeups : list Z,
              isRecording (fold_left (fun s t => advance t s) wakeups s0) = false
              /\ Engine.calls (engine (env (fold_left (fun s t => advance t s)
                                                      wakeups s0)))
                 = Engine.calls (engine (env s0))).
  { intros s0 H0 wakeups. revert s0 H0.
    induction wakeups as [|t ts IH]; simpl; intros s0 H0; [auto|].
    destruct (RecordingFacts.App_advance_stopped t s0 H0) as [Hr He].
    destruct (IH _ Hr) as [Hr' He']. split; [exact Hr'|congruence]. }
  assert (Hstop : forall m, isRecording
            (showStatus m true (stopRecording (set_isRecognitionStarting false s)))
            = false).
  { intros m.
    change (isRecording (stopRecording (set_isRecognitionStarting false s)) = false).
    apply RecordingFacts.App_stopRecording_stops. }
  assert (Hstarting : forall m, isRecognitionStarting
            (showStatus m true (stopRecording (set_isRecognitionStarting false s)))
            = false).
  { intros m. unfold stopRecording. simpl.
    destruct (isRecording s); simpl; [|reflexivity].
    destruct (recognition s); reflexivity. }
  unfold onerror. cbv zeta.
  change (isMobileDevice (set_isRecognitionStarting false s))
    with (isMobileDevice s).
  change (isRecording (set_isRecognitionStarting false s))
    with (isRecording s).
  destruct c.
  - split; [apply Hstarting|]. split; [apply Hstop|]. split; [reflexivity|].
    intros wakeups. apply Hlater, Hstop.
  - destruct (isMobileDevice s) eqn:Hm; [destruct (isRecording s) eqn:Hr|];
      repeat split; try reflexivity; try exact Hr;
      intros Hd; discriminate Hd.
  - split; [apply Hstarting|]. split; [apply Hstop|]. split; [reflexivity|].
    intros wakeups. apply Hlater, Hstop.
  - destruct (isMobileDevice s) eqn:Hm; [destruct (isRecording s) eqn:Hr|];
      cbn [andb]; repeat split; try reflexivity; try exact Hr;
      intros Hd; discriminate Hd.
  - repeat split.
  - repeat split.
  - repeat split.
  - repeat split.
Qed.

End RecordingExtras.
(* ------------------------------------------------------------------ *)
(** ** The status line of [app.js] *)

Module StatusExtras.

Import TimersFacts JSFacts App AutosaveFacts.
Local Open Scope Z_scope.

(** On a page that is not recording a timer callback starts no timer and
    shows no message. *)
Lemma stopped_callback c s :
  isRecording s = false ->
  isRecording (run_callback c s) = false
  /\ Timers.pending (timers (env (run_callback c s)))
     = Timers.pending (timers (env s))
  /\ statusMessage (elements (run_callback c s)) = statusMessage (elements s)
  /\ statusActive (elements (run_callback c s))
     = match c with
       | CbHideStatus => false
       | _ => statusActive (elements s)
       end.
Proof.
  intros Hr. destruct c; simpl.
  - unfold autoSave. destruct (currentNote s) as [n|]; [|auto].
    cbv zeta. simpl. destruct (saveNote _ (db s)) as [[k|e] d']; simpl.
    + destruct (truthy_id (id n)); simpl; auto.
    + auto.
  - unfold safeStartRecognition. rewrite Hr, orb_true_r. auto.
  - rewrite Hr. simpl. auto.
  - auto.
Qed.

Lemma stopped_fire h s :
  isRecording s = false ->
  isRecording (fire h s) = false
  /\ statusMessage (elements (fire h s)) = statusMessage (elements s)
  /\ (forall t, In t (Timers.pending (timers (env (fire h s)))) <->
                In t (Timers.pending (timers (env s))) /\ Timers.handle t <> h)
  /\ (statusActive (elements s) = false ->
      statusActive (elements (fire h s)) = false)
  /\ (forall u, Timers.find h (Timers.pending (timers (env s))) = Some u ->
      callback_is_hide u = true ->
      statusActive (elements (fire h s)) = false).
Proof.
  intros Hr. unfold fire.
  destruct (Timers.find h (Timers.pending (timers (env s)))) as [t0|] eqn:Hf.
  - assert (Hr' : isRecording (clearTimeout h s) = false) by exact Hr.
    destruct (@stopped_callback (Timers.callback t0) _ Hr') as (H1 & H2 & H3 & H4).
    split; [exact H1|]. split; [exact H3|]. split; [|split].
    + intros t. rewrite H2. apply in_clearTimeout.
    + intros Ha. rewrite H4. destruct (Timers.callback t0); auto.
    + intros u [= <-] Hu. rewrite H4. unfold callback_is_hide in Hu.
      destruct (Timers.callback t0); congruence.
  - split; [exact Hr|]. split; [reflexivity|]. split; [|split].
    + intros t. split; [|tauto]. intros Hin. split; [exact Hin|].
      eapply find_none; eassumption.
    + auto.
    + discriminate.
Qed.

(** A pending hide timer whose handle no other timer has fires when its
    handle comes up, and nothing shows the line again. *)
Lemma stopped_fires_hide hs : forall s u,
  isRecording s = false ->
  statusActive (elements s) = false
  \/ (In u (Timers.pending (timers (env s)))
      /\ callback_is_hide u = true
      /\ (forall t, In t (Timers.pending (timers (env s))) ->
                    Timers.handle t = Timers.handle u -> t = u)
      /\ In (Timers.handle u) hs) ->
  statusActive (elements (fires hs s)) = false
  /\ statusMessage (elements (fires hs s)) = statusMessage (elements s).
Proof.
  induction hs as [|h hs IH]; intros s u Hr Hcase.
  - simpl. split; [|reflexivity].
    destruct Hcase as [Ha|(_ & _ & _ & [])]. exact Ha.
  - change (fires (h :: hs) s) with (fires hs (fire h s)).
    destruct (@stopped_fire h _ Hr) as (Hr1 & Hm1 & Hp1 & Ha1 & Hh1).
    rewrite <- Hm1. apply (IH (fire h s) u Hr1).
    destruct Hcase as [Ha|(Hin & Hcb & Huniq & Hh)]; [left; auto|].
    destruct (Nat.eq_dec h (Timers.handle u)) as [->|Hne].
    + left.
      destruct (Timers.find (Timers.handle u) (Timers.pending (timers (env s))))
        as [t0|] eqn:Hf.
      * apply (Hh1 t0 eq_refl). apply find_some in Hf. destruct Hf as [Hin0 Hh0].
        now rewrite (Huniq _ Hin0 Hh0).
      * exfalso. eapply find_none; [exact Hf|exact Hin|reflexivity].
    + right. split; [apply Hp1; auto|]. split; [exact Hcb|]. split.
      * intros t Ht. apply Hp1 in Ht. apply Huniq, Ht.
      * destruct Hh as [Hh|Hh]; [congruence|exact Hh].
Qed.

Lemma stopped_advance_hide T s u :
  isRecording s = false ->
  In u (Timers.pending (timers (env s))) -> callback_is_hide u = true ->
  (forall t, In t (Timers.pending (timers (env s))) ->
             Timers.handle t = Timers.handle u -> t = u) ->
  Timers.due u <= Z.max T (now (env s)) ->
  statusActive (elements (advance T s)) = false
  /\ statusMessage (elements (advance T s)) = statusMessage (elements s).
Proof.
  intros Hr Hin Hcb Huniq Hdue. rewrite advance_fires.
  apply (@stopped_fires_hide _ (on_env (set_now (Z.max T (now (env s)))) s) u Hr).
  right. split; [exact Hin|]. split; [exact Hcb|]. split; [exact Huniq|].
  apply due_handles_spec. exists u. auto.
Qed.

(** Timers that are not due stay where they are. *)
Lemma stopped_advance_keeps T s u :
  isRecording s = false ->
  In u (Timers.pending (timers (env s))) ->
  (forall t, In t (Timers.pending (timers (env s))) ->
             Timers.handle t = Timers.handle u -> t = u) ->
  Z.max T (now (env s)) < Timers.due u ->
  isRecording (advance T s) = false
  /\ In u (Timers.pending (timers (env (advance T s))))
  /\ (forall t, In t (Timers.pending (timers (env (advance T s)))) ->
                In t (Timers.pending (timers (env s)))).
Proof.
  intros Hr Hin Huniq Hdue. rewrite advance_fires.
  assert (Hnot : ~ In (Timers.handle u)
                      (Timers.due_handles (Z.max T (now (env s))) (timers (env s)))).
  { intros Hh. apply due_handles_spec in Hh.
    destruct Hh as (t & Ht & Hht & Hd). rewrite (Huniq _ Ht Hht) in Hd. lia. }
  revert Hnot.
  generalize (Timers.due_handles (Z.max T (now (env s))) (timers (env s))).
  intros hs.
  assert (Hgen : forall s0, isRecording s0 = false ->
            In u (Timers.pending (timers (env s0))) ->
            ~ In (Timers.handle u) hs ->
            isRecording (fires hs s0) = false
            /\ In u (Timers.pending (timers (env (fires hs s0))))
            /\ (forall t, In t (Timers.pending (timers (env (fires hs s0)))) ->
                          In t (Timers.pending (timers (env s0))))).
  { induction hs as [|h hs IH]; intros s0 Hr0 Hin0 Hnot; [simpl; auto|].
    change (fires (h :: hs) s0) with (fires hs (fire h s0)).
    destruct (@stopped_fire h _ Hr0) as (Hr1 & _ & Hp1 & _).
    destruct (IH (fire h s0) Hr1) as (G1 & G2 & G3).
    - apply Hp1. split; [exact Hin0|]. intros He. apply Hnot. now left.
    - intros Hh. apply Hnot. now right.
    - split; [exact G1|]. split; [exact G2|].
      intros t Ht. apply G3 in Ht. apply Hp1 in Ht. apply Ht. }
  intros Hnot.
  exact (Hgen (on_env (set_now (Z.max T (now (env s)))) s) Hr Hin Hnot).
Qed.

Lemma showStatus_timer m b s :
  timers_ok s ->
  let u := Timers.mkTimer (Timers.next_handle (timers (env s)))
                          (now (env s) + 3000) CbHideStatus in
  In u (Timers.pending (timers (env (showStatus m b s))))
  /\ (forall t, In t (Timers.pending (timers (env (showStatus m b s)))) ->
                Timers.handle t = Timers.handle u -> t = u)
  /\ (forall t, In t (Timers.pending (timers (env s))) ->
                In t (Timers.pending (timers (env (showStatus m b s)))))
  /\ (forall t, In t (Timers.pending (timers (env s))) ->
                Timers.handle t <> Timers.handle u).
Proof.
  intros Hok. cbv zeta. unfold showStatus, setTimeout. simpl.
  pose proof (Timers.handles_bounded Hok) as Hb. rewrite Forall_forall in Hb.
  split; [apply in_or_app; right; now left|]. split; [|split].
  - intros t Ht Hh. apply in_app_or in Ht. destruct Ht as [Ht|[<-|[]]];
      [|reflexivity].
    specialize (Hb _ Ht). simpl in Hh. lia.
  - intros t Ht. apply in_or_app. now left.
  - intros t Ht. specialize (Hb _ Ht). simpl. lia.
Qed.

(** X19.  On a page that is not recording, a status message is off the
    page once three seconds have passed.  A second message shown inside
    those three seconds goes with the first: it is hidden when the first
    one's time is up, however recently it was shown. *)
Theorem status_message_hidden :
  (forall s m b T,
      reachable s -> isRecording s = false -> now (env s) + 3000 <= T ->
      status_view (showStatus m b s) = (Some (m, b), true)
      /\ status_view (advance T (showStatus m b s)) = (Some (m, b), false))
  /\ (forall s m b t2 m2 b2,
      reachable s -> isRecording s = false ->
      now (env s) <= t2 < now (env s) + 3000 ->
      let second := showStatus m2 b2 (advance t2 (showStatus m b s)) in
      status_view second = (Some (m2, b2), true)
      /\ status_view (advance (now (env s) + 3000) second)
         = (Some (m2, b2), false)).
Proof.
  split.
  - intros s m b T Hreach Hr HT. split; [reflexivity|].
    pose proof (proj1 (ReachableFacts.reachable_invariant Hreach)) as Hok.
    destruct (@showStatus_timer m b _ Hok) as (Hin & Huniq & _).
    destruct (@stopped_advance_hide T (showStatus m b s) _ Hr Hin eq_refl Huniq)
      as [Ha Hm].
    { change (now (env (showStatus m b s))) with (now (env s)). simpl. lia. }
    unfold status_view. now rewrite Ha, Hm.
  - intros s m b t2 m2 b2 Hreach Hr Ht2. cbv zeta. split; [reflexivity|].
    pose proof (proj1 (ReachableFacts.reachable_invariant Hreach)) as Hok.
    destruct (@showStatus_timer m b _ Hok) as (Hin & Huniq & _).
    set (s1 := showStatus m b s) in *.
    assert (Hok1 : timers_ok s1) by now apply showStatus_calm.
    assert (Hnow1 : now (env s1) = now (env s)) by reflexivity.
    assert (Hr1 : isRecording s1 = false) by exact Hr.
    clearbody s1.
    destruct (@stopped_advance_keeps t2 s1 _ Hr1 Hin Huniq)
      as (Hr2 & Hin2 & Hsub2).
    { rewrite Hnow1. simpl. lia. }
    destruct (advance_keeps t2 s1) as (Hok2 & _ & Hnow2).
    specialize (Hok2 Hok1). rewrite Hnow1, Z.max_l in Hnow2 by lia.
    set (s2 := advance t2 s1) in *. clearbody s2.
    destruct (@showStatus_timer m2 b2 _ Hok2) as (_ & _ & Hkeep & Hfresh).
    destruct (@stopped_advance_hide (now (env s) + 3000) (showStatus m2 b2 s2)
                _ Hr2 (Hkeep _ Hin2) eq_refl) as [Ha Hm].
    + intros t Ht Hh.
      unfold showStatus, setTimeout in Ht. simpl in Ht.
      apply in_app_or in Ht. destruct Ht as [Ht|[<-|[]]].
      * apply Huniq; [apply Hsub2, Ht|exact Hh].
      * exfalso. apply (Hfresh _ Hin2). simpl in *. congruence.
    + change (now (env (showStatus m2 b2 s2))) with (now (env s2)).
      rewrite Hnow2. simpl. lia.
    + unfold status_view. now rewrite Ha, Hm.
Qed.

(** "Ready" on the fresh page: shown at once, gone at 3000 ms. *)
Lemma status_message_hidden_witness :
  status_view (advance 3000 (showStatus MsgOnline false (initial false true true)))
  = (Some (MsgOnline, false), false).
Proof.
  apply (proj1 status_message_hidden (initial false true true) MsgOnline false 3000).
  - exact (reach_initialize IDB.empty 0 false true true).
  - reflexivity.
  - vm_compute. discriminate.
Defined.

End StatusExtras.
(* ------------------------------------------------------------------ *)
(** ** Deleting the open note, and the note the page opens with *)

Module OpeningExtras.

Import TimersFacts JSFacts App AutosaveFacts IDB IDBFacts.
Local Open Scope Z_scope.

(** [openFirst] as the autosave sees it. *)
Lemma openFirst_effect s :
  (timers_ok s -> timers_ok (openFirst s))
  /\ autosave_pending (openFirst s) = autosave_pending s
  /\ saved (env (openFirst s)) = saved (env s)
  /\ db (openFirst s) = db s
  /\ now (env (openFirst s)) = now (env s)
  /\ match getAllNotes (db s) with
     | [] =>
         currentNote (openFirst s)
         = Some (mkNote None [] [] (currentLanguage s) (now (env s)) [])
         /\ editor (openFirst s) = ([], [])
     | m :: _ =>
         currentNote (openFirst s) = Some m
         /\ editor (openFirst s) = (title m, text m)
     end.
Proof.
  unfold openFirst. destruct (getAllNotes (db s)) as [|m rest].
  - destruct (EditingExtras.createNewNote_effect s)
      as (H1 & H2 & H3 & H4 & H5 & H6 & H7). conjuncts; auto.
  - destruct (@EditingExtras.updateEditor_effect
                (set_currentNote (Some m) s) m eq_refl)
      as (H1 & H2 & H3 & H4 & H5 & H6 & H7). conjuncts; auto.
Qed.


Lemma sorted_last_highest (p : list Z) (k : Z) :
  StronglySorted Z.lt (p ++ [k]) -> Forall (fun k' => k' < k) p.
Proof.
  induction p as [|a p IH]; intros Hs; [constructor|].
  simpl in Hs. apply StronglySorted_inv in Hs. destruct Hs as [Hs Ha].
  constructor; [|apply IH, Hs].
  rewrite Forall_forall in Ha. apply Ha, in_or_app. right. now left.
Qed.

(** In a well-formed store the first listed note has the highest id. *)
Lemma first_listed_highest (d : DB) m rest :
  wf d -> getAllNotes d = m :: rest ->
  exists k, id m = Some k
    /\ forall m', In m' rest -> exists k', id m' = Some k' /\ k' < k.
Proof.
  intros Hwf Hl.
  pose proof (AppFacts.listed_ids_keys Hwf) as Hids.
  unfold listed_ids in Hids. rewrite Hl in Hids. simpl in Hids.
  destruct (rev (keys d)) as [|k ks] eqn:Hrev; [discriminate|].
  simpl in Hids. injection Hids as Hm Hrest.
  exists k. split; [exact Hm|].
  assert (Hkeys : keys d = rev ks ++ [k]).
  { rewrite <- (rev_involutive (keys d)), Hrev. reflexivity. }
  pose proof (wf_ascending Hwf) as Hasc. unfold ascending in Hasc.
  fold (keys d) in Hasc. rewrite Hkeys in Hasc.
  apply sorted_last_highest in Hasc. rewrite Forall_forall in Hasc.
  intros m' Hin.
  assert (Hin' : In (id m') (map Some ks)).
  { rewrite <- Hrest. now apply in_map. }
  apply in_map_iff in Hin'. destruct Hin' as (k' & Hk' & Hink).
  exists k'. split; [now symmetry|]. apply Hasc, in_rev.
  now rewrite rev_involutive.
Qed.



(** X21.  The page opens with the first listed note, which in a
    well-formed store is the one with the highest id, with its stored
    title and text in the editor; with an empty store it opens with a
    fresh note without an id.  Opening writes nothing and schedules no
    save, and "Ready" is on the status line. *)
Theorem initialize_opens_highest_id d t0 mobile online supported :
  wf d ->
  let s := initialize d t0 mobile online supported in
  db s = d /\ saved (env s) = [] /\ autosave_pending s = []
  /\ status_view s = (Some (MsgReady, false), true)
  /\ match getAllNotes d with
     | [] =>
         currentNote s = Some (mkNote None [] [] (js "en") t0 [])
         /\ editor s = ([], [])
     | m :: rest =>
         currentNote s = Some m /\ editor s = (title m, text m)
         /\ exists k, id m = Some k
              /\ forall m', In m' rest -> exists k', id m' = Some k' /\ k' < k
     end.
Proof.
  intros Hwf. cbv zeta. unfold initialize. cbv zeta.
  set (s0 := mkState d None false None 0%nat false (js "en") None mobile _ _).
  destruct (openFirst_effect s0) as (_ & G2 & G3 & G4 & _ & G6).
  destruct (showStatus_calm MsgReady false (openFirst s0)) as (Hview & _ & _).
  apply view_fields in Hview. destruct Hview as (He & Hc & Hd & Hs & _ & Hq).
  rewrite Hd, Hs, Hq, Hc, He, G2, G3, G4.
  split; [reflexivity|]. split; [reflexivity|]. split; [reflexivity|].
  split; [reflexivity|].
  change (db s0) with d in G6.
  destruct (getAllNotes d) as [|m rest] eqn:Hl; [exact G6|].
  destruct G6 as [Gc Ge]. split; [exact Gc|]. split; [exact Ge|].
  exact (first_listed_highest Hwf Hl).
Qed.

(** A store holding notes 1 and 2: the page opens note 2. *)
Lemma initialize_opens_highest_id_witness :
  let d := snd (saveNote (mkNote None (js "b") (js "second") (js "en") 20 [])
             (snd (saveNote (mkNote None (js "a") (js "first") (js "en") 10 [])
                            IDB.empty))) in
  editor (initialize d 30 false true true) = (js "b", js "second").
Proof.
  cbv zeta.
  set (d := snd (saveNote (mkNote None (js "b") (js "second") (js "en") 20 [])
              (snd (saveNote (mkNote None (js "a") (js "first") (js "en") 10 [])
                             IDB.empty)))).
  assert (Hwf : wf d).
  { apply AppFacts.saveNote_wf, AppFacts.saveNote_wf, empty_wf. }
  pose proof (@initialize_opens_highest_id d 30 false true true Hwf) as H.
  cbv zeta in H. destruct H as (_ & _ & _ & _ & H).
  assert (Hl : getAllNotes d
               = [mkNote (Some 2) (js "b") (js "second") (js "en") 20 [];
                  mkNote (Some 1) (js "a") (js "first") (js "en") 10 []])
    by (vm_compute; reflexivity).
  rewrite Hl in H. destruct H as (_ & He & _). exact He.
Defined.

End OpeningExtras.
